(* ===== verification/_CoqProject ===== *)
-Q . S2P
Prelude.v
Sha256.v
Json.v
Decimal.v
JsonSize.v
Identifiers.v
Models.v
Store.v
OrderIndex.v
JobIndex.v
Events.v
OrderIndexProofs.v
OrderPagesProofs.v
EventsProofs.v
TaskEventsProofs.v
OrderExamples.v
SchedulerCancel.v
SchedulerCancelProofs.v
SchedulerCancelClaims.v
SchedulerCancelLaws.v
SchedulerCancelExamples.v
LeaseRecords.v
LeaseRecordsProofs.v
LeaseDocuments.v
LeaseCapacity.v
LeaseCapacityProofs.v
LeaseExamples.v
LeaseIndexes.v
LeaseTransitions.v
Recovery.v
JournalStages.v
LeaseReplay.v
LeaseRelease.v
LeaseRenew.v
LeaseLifecycleExamples.v
OwnerSessions.v
OwnerSessionsProofs.v
OwnerSessionsRuns.v
OwnerSessionsClaims.v
OwnerSessionsRotation.v
OwnerSessionsExamples.v
Endpoints.v
WorkerPolicy.v
LeaseAdmission.v
AdmissionSnapshot.v
AdmissionSimulation.v
AdmissionProofs.v
AdmissionSnapshotProofs.v
AdmissionExamples.v
StorageTypes.v
StorageLedger.v
StorageScan.v
StoragePolicy.v
StorageReservations.v
StorageLedgerProofs.v
StorageScanProofs.v
StoragePolicyProofs.v
StorageRefinement.v
StorageAdmission.v
StorageRuntime.v
StorageExamples.v
FairLock.v
FairLockProofs.v
JobLifecycle.v
JobFrames.v
JobSubmission.v
JobGuards.v
JobSubmissionProofs.v
JobClaims.v
JobExamples.v
GatewayIndexes.v
Gateways.v
ExecutionCleanup.v
QueueParts.v
CleanupClaims.v
GatewayClaims.v
Tasks.v
QueueBlocked.v
TaskClaims.v
GatewayExamples.v
