(* ===== verification/Prelude.v ===== *)
(** * clio-relay: a verification development of the durable queue core

    clio-relay (package [src/src/clio_relay]) queues jobs for clusters and keeps every
    fact it must not forget as one small file below a private storage root.  This
    development models the parts that decide what those files say: the record store,
    the queue's order and event logs, durable scheduler cancellation, leases and their
    capacity pair, endpoints and admission, owner sessions, the life of a job from its
    submission to its end, gateway sessions, the cleanup of executions and tasks, storage
    admission and the lock that serializes the queue.
    Definitions carry the names of the Python functions; an error is the exception class
    with its message up to the first interpolated value.

    ** Foundations
    - [Prelude]: results, a state-and-error monad ([M]), list and sorting lemmas, the
      tactics of the development.  [Sha256]: the digest, with a published test vector.
      [Json]: JSON values and [json.dumps]; [JsonSize]: bounds on the bytes it writes.
      [Decimal]: the twenty-digit numbers of file names, the printed form of a timestamp.
    - [Identifiers] ([identifiers.py]): durable record identifiers and file-name keys.
    - [Models] ([models_enums.py], [models_scheduling.py], [models_job.py],
      [models_job_telemetry.py], [models_gateway.py]): records and the validation pydantic runs on them.
    - [Store] ([queue_layout.py], [queue_store_read.py], [queue_store_write.py],
      [queue_index_state.py]): the store is a finite map from paths to documents.  A
      write replaces one file atomically after a size check, and every write and unlink
      is one durable step.  A [budget] of durable steps stops a run at any crash point;
      the state it leaves is what a restarted process reads.  [triple] and [wp] are the
      program logics over such runs.

    ** Order and events ([queue_order_index.py], [queue_events.py], [queue_jobs.py])
    - [OrderIndex]: global sequence numbers (head, mapping, entry), page walks and scans,
      listing pages of jobs.  [JobIndex]: the per-job index and the search for the end of
      a numbered family.  [Events]: job events and task timelines.
    - [OrderIndexProofs]: the three files refine an abstract order at every crash point;
      numbers are unique, stable and growing over any history of calls, and calls
      complete.  [OrderPagesProofs]: walks return every live position once.
      [EventsProofs], [TaskEventsProofs]: numbered logs and the bisecting search,
      append-only logs under crashes, exact reads.  [OrderExamples]: witnesses.

    ** Scheduler cancellation ([queue_scheduler_cancel_*.py])
    - [SchedulerCancel]: every operation of the three modules.  [SchedulerCancelProofs]:
      the invariant over reachable stores, with the two limits the operations do not check
      left to the reads, and the refinement of an abstract request.
      [SchedulerCancelClaims]: claims are exclusive.  [SchedulerCancelLaws]: evidence is
      final once the pending file is gone, due records are the claimable ones, reports
      land, rejections exhaust; and four inputs on which the code leaves an unreadable or
      lost record or replaces evidence.  [SchedulerCancelExamples]: witnesses.

    ** Lease capacity ([queue_lease_records.py], [queue_lease_capacity_state.py])
    - [LeaseRecords], [LeaseDocuments]: reference names, the aggregate and
      its checkpoint, their codecs and sizes; [LeaseRecordsProofs]: the name codecs.
    - [LeaseCapacity], [LeaseCapacityProofs]: the pair of files and its journaled
      transition; replay converges from every crash point, prepared transitions and
      rebuilt counts are exact.  [LeaseExamples]: witnesses.

    ** Lease changes ([queue_leases.py], [queue_lease_indexes.py], [queue_lease_recovery.py],
    [queue_lease_admission.py], [queue_transitions.py])
    - [LeaseIndexes]: the index document and five reference files of a lease, their
      writes, removals and scans.  [LeaseTransitions]: taking, renewing and dropping a
      lease, each announced by an intent, and the replay of the intents a crash left;
      the class [JobDerived] is what writing a job, a task or a gateway session does in
      the parts modelled further below, or outside the model.
    - [Recovery]: runs that only a crash can stop, frames, and the convergence of a
      recovery that is itself interrupted.  [JournalStages]: the stages of a journaled
      change (intent pending, files reached, settled) and their rules.
      [LeaseReplay], [LeaseRelease], [LeaseRenew]: replay of a deletion and a renewal,
      and that release and renewal are atomic.  [LeaseLifecycleExamples]: witnesses.

    ** Endpoints and admission ([queue_endpoints.py], [worker_concurrency.py],
    [queue_worker_capacity.py], [queue_admission_*.py], [queue_lease_admission.py],
    [queue_lease_recovery.py], [queue_leases.py])
    - [Endpoints]: registration, heartbeat,
      the index of fresh endpoints by minute, and every listing.  [WorkerPolicy]: limits
      per job kind, worker generations and slots.
    - [LeaseAdmission]: the choice of the next job for a worker, exact acquisition, and
      stale recovery of expired leases.  The class [ExecutionCleanup] is the question
      whether a job's executions are still to be cleaned up.
    - [AdmissionSnapshot], [AdmissionSimulation]: the capacity snapshot and the report
      that says whether, and after which jobs, a queued job would be admitted.
      [AdmissionSnapshotProofs]: a complete snapshot states the store's own numbers.
      [AdmissionProofs]: the report agrees with the selection of [LeaseAdmission] in the
      workload lane, asked once per free slot, when no control query is involved.
      [AdmissionExamples]: witnesses, and a control query that makes the report wrong.

    ** Owner sessions ([queue_owner_session_records.py], [queue_owner_session_lifecycle.py])
    - [OwnerSessions]: an owner session is a sequence of generations; three kinds of files
      say which is active, which is closing under what cleanup policy, and which were
      closed.  Every operation on them, the intake check new work passes, status, and the
      membership record of a job.  The parser of the intent's timestamp is the class
      [IsoParser].
    - [OwnerSessionsProofs]: the specification, six guarded changes of the files, and what
      any sequence of them keeps.  [OwnerSessionsRuns]: every operation, at every crash
      point, is such a sequence.  [OwnerSessionsClaims]: quiescence, accounting of
      generations, finality of closures and intents, agreement of status and intake.
      [OwnerSessionsRotation]: a full rotation completes; the reserved names that escape
      quiescence.  [OwnerSessionsExamples]: witnesses.

    ** Jobs ([queue_jobs.py], [queue_idempotency.py], [models_job.py], [models_job_specs.py])
    - [JobLifecycle]: metadata and state updates, cancellation and its acknowledgement, the
      index of active jobs with its repair and capacity, and the listings.
      [JobSubmission]: the execution identity of a trusted run, the digest of a submission,
      the record of an idempotency key, submission and resolution.  The class
      [SubmissionParts] is what a submission asks of the artifact edges and of the quota of
      input ingests; [IsoTime] is the parser of a request's timestamp.
    - [JobFrames]: the files a call on jobs and leases leaves alone.  [JobGuards]: the class
      [Guarded] of invariants that only the write of a job can break, and that every call
      on jobs and leases keeps each of them.  [JobSubmissionProofs]: the binding of a key
      to its job is such an invariant.
    - [JobClaims]: the calls of the queue on jobs and leases and histories of them, each
      cut anywhere: an ended job stays ended unless its identifier is submitted again, and
      a key gets one job.  [JobExamples]: witnesses.

    ** Gateways and execution cleanup ([queue_gateways.py], [queue_gateway_indexes.py],
    [queue_execution_cleanup.py], [queue_execution_cleanup_markers.py])
    - [GatewayIndexes]: the references between gateway sessions, jobs, artifacts and
      scheduler jobs, and what metadata says of scheduler jobs.  [Gateways]: creation,
      guarded updates, teardown policies, closing and listings of sessions.
    - [ExecutionCleanup]: the markers of pending cleanups by shard and job, the move of
      older flat markers, scanning, and the four changes of a marker.
    - [QueueParts]: these modules and the membership of [OwnerSessions] discharge
      [JobDerived], and the markers discharge [ExecutionCleanup], so every theorem about
      jobs, leases and admission holds of the queue that is composed of them.
    - [GatewayClaims]: histories of gateway and job calls keep what a session committed to;
      synchronising a closed session removes exactly its references.  [CleanupClaims]: a
      registered cleanup holds its job back until it is acknowledged, and the last
      acknowledgement frees it.

    ** Tasks ([queue_tasks.py]) and the whole queue
    - [Tasks]: numbering, updates of state and metadata, the announced write with the files
      derived from a task ([LeaseTransitions] holds their replay), and the listings.
    - [TaskClaims]: histories of calls on tasks, cleanups, gateways, jobs and leases keep
      the record of a task the record of that task unless its identifier is appended
      again; an interrupted write of a task is
      settled by the next replay.  [QueueBlocked]: metadata over the bound on scheduler
      jobs is stored and then stops every call that replays the journal.
    - [GatewayExamples]: witnesses on the composed queue, for this part and the one above.

    ** Storage admission ([storage_*.py])
    - [StorageTypes], [StorageLedger]: limits, reports and the ledger codec.
      [StorageScan]: the bounded iterative scan of a directory tree.  [StoragePolicy]:
      the write and lock of the ledger, repeated scans, volumes and the health report.
      [StorageReservations]: reserve, release, verify, reconcile and the runtime guard.
      [StorageWorld] and [StorageClock] are the answers of the operating system, any of
      which may be an error; they are arguments of every theorem.
    - [StorageLedgerProofs], [StorageScanProofs], [StoragePolicyProofs],
      [StorageRefinement], [StorageAdmission], [StorageRuntime]: round trip and size of
      the ledger, exactness of the scan against a recursive total, the refinement of
      every operation, admission within all limits, soundness of the runtime guard.
      [StorageExamples]: witnesses.

    ** The queue lock ([queue_store_lock.py])
    - [FairLock]: the lock object, and threads as a step relation in which every block
      under the condition variable is one step; the file lock below it succeeds or
      raises, when it is taken and when it is given back.  [FairLockProofs]: exclusion, ticket order, no stranded waiter, and the
      ticket an interrupted wait strands; witnesses.

    ** Assumptions and bounds
    - [World]: the clock and [uuid4] are arbitrary (identifiers of the right shape), a
      directory lists in any order, and the size of a typed record is any function;
      plain documents are measured by the modelled [json.dumps].  Where a theorem needs
      that a write is not refused, it assumes so of the very documents that are written;
      the witnesses use a size that grows with the text of cancellation records, leases
      and lease indexes ([reference_bytes]).  Nothing is assumed of
      SHA-256 beyond its definition: where two names could collide, the code's own
      check is what the theorems rely on.
    - A directory is an entry of the store where the code makes or removes it itself (the
      markers of execution cleanup); it exists when it was made or holds anything.  The
      order in which Python walks a set is the arbitrary order of [World].
    - [datetime.fromisoformat] is a parameter of the ledger codec, with the one fact used
      that it reads back what was printed.  A timestamp is microseconds since the epoch.
    - Fuel: the scan of a tree takes as many rounds as it has directories and bounds, a
      snapshot the source's 25 attempts, the searches of [JobIndex] 64 rounds since their
      bounds never exceed [2 ^ 63], the recovery of a head the source's 1000 names, and
      page walks the number of positions; the theorems about them give the result, so the
      fuel is enough.  Logs are bounded by the numbers a name can hold.

    ** Not modelled
    - [initialize()] and startup migration, file ownership, permissions, hard links,
      reparse points and [fsync]: the store starts initialized and private, and a write
      that returned is durable.  Branches for Windows.  Reads that race a replacement and
      are retried: operations run under the queue lock.
    - The printed form of the lease index document and of intents, whose timestamps are
      ISO text: they are typed documents of the store; [to_dict] of whole status
      reports; the legacy-directory test of [queue_store_lock.py].
    - The intents of index repair; artifacts and their lineage, input ingests, the
      projections of MCP tasks, browser attachments, retention; then the HTTP and MCP
      servers, bootstrap, release, sessions, workers, transport and the command
      line, which are processes, networks and third-party frameworks around the queue.
      What comes next: atomicity of acquisition and stale recovery, artifacts and their
      lineage, index migration, retention. *)

From stdpp Require Import base list gmap strings sorting.
From Stdlib Require Import ZArith Lia Sorted.
From Stdlib Require Ascii String.

Declare Scope relay_scope.
Delimit Scope relay_scope with relay.

(** ** Errors

    The exception classes the modelled modules raise.  Each carries the text of
    its message up to the first interpolated value, which is what distinguishes
    one [raise] of the source from another. *)
Inductive exn :=
  | QueueConflictError (msg : string)
  | NotFoundError (msg : string)
  | ValueError (msg : string)
  | TypeError (msg : string)
  | ValidationError (msg : string)
  | ConfigurationError (msg : string)
  | OSError (msg : string)
  | AssertionError (msg : string)
  | Crashed.

#[export] Instance exn_eq_dec : EqDecision exn.
Proof. solve_decision. Defined.

(** A computation that may raise. *)
Inductive result (A : Type) :=
  | Ok (a : A)
  | Err (e : exn).
Arguments Ok {A} a.
Arguments Err {A} e.

#[export] Instance result_eq_dec {A} `{EqDecision A} : EqDecision (result A).
Proof. solve_decision. Defined.

#[export] Instance result_ret : MRet result := fun A a => Ok a.
#[export] Instance result_bind : MBind result := fun A B k r =>
  match r with Ok a => k a | Err e => Err e end.
#[export] Instance result_fmap : FMap result := fun A B f r =>
  match r with Ok a => Ok (f a) | Err e => Err e end.

(** [raise_unless b e] is the source's [if not b: raise e]. *)
Definition raise_unless (b : bool) (e : exn) : result unit :=
  if b then Ok tt else Err e.

Definition is_ok {A} (r : result A) : bool :=
  match r with Ok _ => true | Err _ => false end.

(** ** Stateful computations that may raise

    An exception keeps the state reached when it was raised: a write the source
    made before a [raise] stays made. *)
Definition M (S A : Type) : Type := S -> result A * S.

#[export] Instance M_ret {S} : MRet (M S) := fun A a s => (Ok a, s).
#[export] Instance M_bind {S} : MBind (M S) := fun A B k m s =>
  match m s with
  | (Ok a, s') => k a s'
  | (Err e, s') => (Err e, s')
  end.

Definition lift {S A} (r : result A) : M S A := fun s => (r, s).
Definition raise {S A} (e : exn) : M S A := fun s => (Err e, s).
Definition ensure {S} (b : bool) (e : exn) : M S unit := lift (raise_unless b e).

Fixpoint mapM_result {A B} (f : A -> result B) (l : list A) : result (list B) :=
  match l with
  | [] => Ok []
  | x :: l' => y ← f x; ys ← mapM_result f l'; Ok (y :: ys)
  end.

(** [for x in l: f(x)] *)
Fixpoint for_each {S A} (f : A -> M S unit) (l : list A) : M S unit :=
  match l with
  | [] => mret tt
  | x :: l' => _ ← f x; for_each f l'
  end.

(** ** Lemmas on the two monads *)
Lemma bind_ok {A B} (r : result A) (k : A -> result B) b :
  (r ≫= k) = Ok b <-> exists a, r = Ok a /\ k a = Ok b.
Proof.
  destruct r; cbn; split; [eauto| |done|]; intros (?&?&?); congruence.
Qed.

Lemma raise_unless_ok b e u : raise_unless b e = Ok u <-> b = true.
Proof. destruct b, u; cbn; split; done. Qed.

Lemma M_bind_ok {S A B} (m : M S A) (k : A -> M S B) s b s' :
  (m ≫= k) s = (Ok b, s') <->
  exists a s1, m s = (Ok a, s1) /\ k a s1 = (Ok b, s').
Proof.
  unfold mbind, M_bind. destruct (m s) as [[a|e] s1]; split.
  - intros H. eauto.
  - intros (?&?&?&?). congruence.
  - congruence.
  - intros (?&?&?&?). congruence.
Qed.

(** ** First index satisfying a test: [next((i for i, x in enumerate(l) if p x), None)] *)
Fixpoint find_index {A} (p : A -> bool) (l : list A) : option nat :=
  match l with
  | [] => None
  | x :: l' => if p x then Some 0 else S <$> find_index p l'
  end.

Lemma find_index_Some {A} (p : A -> bool) l i :
  find_index p l = Some i ->
  exists x, l !! i = Some x /\ p x = true /\
            forall j y, j < i -> l !! j = Some y -> p y = false.
Proof.
  revert i; induction l as [|x l IH]; intros i; cbn; [done|].
  destruct (p x) eqn:Hp.
  - intros [= <-]. exists x. split_and!; [done|done|]. intros; lia.
  - destruct (find_index p l) as [k|] eqn:Hk; cbn; [|done].
    intros [= <-]. destruct (IH k eq_refl) as (y&Hy&Hpy&Hmin).
    exists y. split_and!; [done|done|].
    intros [|j] z Hj Hz; cbn in *; [congruence|]. eapply Hmin; [|done]. lia.
Qed.

Lemma find_index_None {A} (p : A -> bool) l :
  find_index p l = None <-> Forall (fun x => p x = false) l.
Proof.
  induction l as [|x l IH]; cbn; [done|].
  destruct (p x) eqn:Hp; [split; [done|]|].
  - intros H; inversion H; congruence.
  - rewrite Forall_cons, fmap_None, IH. tauto.
Qed.

Lemma find_index_insert {A} (p : A -> bool) l i x :
  find_index p l = Some i -> p x = true -> find_index p (<[i := x]> l) = Some i.
Proof.
  intros Hi Hx. revert i Hi; induction l as [|y l IH]; intros i; cbn; [done|].
  destruct (p y) eqn:Hy.
  - intros [= <-]. cbn. by rewrite Hx.
  - destruct (find_index p l) as [k|]; cbn; [|done]. intros [= <-].
    change (<[S k := x]> (y :: l)) with (y :: <[k := x]> l). cbn [find_index].
    by rewrite Hy, (IH k eq_refl).
Qed.

Lemma M_bind_run {S A B} (m : M S A) (k : A -> M S B) s a s' :
  m s = (Ok a, s') -> (m ≫= k) s = k a s'.
Proof. unfold mbind, M_bind. by intros ->. Qed.

Lemma ensure_true {S} e (s : S) : ensure true e s = (Ok tt, s).
Proof. reflexivity. Qed.

(** ** Tactics *)

(** Open every existential hypothesis. *)
Ltac deex :=
  repeat match goal with
  | H : exists x, _ |- _ => let y := fresh x in destruct H as [y H]
  | H : _ /\ _ |- _ => destruct H
  end.

(** Split one [match] or [if] of the goal or of a hypothesis. *)
Ltac case_step :=
  match goal with
  | H : context [match ?x with _ => _ end] |- _ => destruct x eqn:?
  | |- context [match ?x with _ => _ end] => destruct x eqn:?
  end.

(** Turn boolean comparisons on [Z] into propositions. *)
Ltac bool_prop :=
  repeat match goal with
  | H : andb _ _ = true |- _ => apply andb_true_iff in H; destruct H
  | H : orb _ _ = false |- _ => apply orb_false_iff in H; destruct H
  | H : negb _ = true |- _ => apply negb_true_iff in H
  | H : negb _ = false |- _ => apply negb_false_iff in H
  | H : Z.leb _ _ = true |- _ => apply Z.leb_le in H
  | H : Z.leb _ _ = false |- _ => apply Z.leb_gt in H
  | H : Z.ltb _ _ = true |- _ => apply Z.ltb_lt in H
  | H : Z.ltb _ _ = false |- _ => apply Z.ltb_ge in H
  | H : Z.eqb _ _ = true |- _ => apply Z.eqb_eq in H
  | H : Z.eqb _ _ = false |- _ => apply Z.eqb_neq in H
  | H : bool_decide _ = true |- _ => apply bool_decide_eq_true in H
  | H : bool_decide _ = false |- _ => apply bool_decide_eq_false in H
  end.

(** Invert a successful run of a stateful or a pure computation. *)
Ltac inv_ok :=
  repeat match goal with
  | H : (_ ≫= _) = Ok _ |- _ => apply bind_ok in H; destruct H as (?&?&?)
  | H : raise_unless _ _ = Ok _ |- _ => apply raise_unless_ok in H
  | H : Ok _ = Ok _ |- _ => injection H as H; subst
  | H : Err _ = Ok _ |- _ => discriminate H
  | H : Ok _ = Err _ |- _ => discriminate H
  end.

(** ** Characters and the parts of [str] the source uses

    A Python [str] is represented by its UTF-8 encoding, so [len(s.encode())] is
    [String.length s] and [len(s)] counts the bytes that start a code point. *)
Definition code (c : Ascii.ascii) : N := Ascii.N_of_ascii c.

Definition in_range (lo hi : N) (c : Ascii.ascii) : bool :=
  N.leb lo (code c) && N.leb (code c) hi.

Definition is_lower (c : Ascii.ascii) : bool := in_range 97 122 c.
Definition is_upper (c : Ascii.ascii) : bool := in_range 65 90 c.

(** [str.lower] on ASCII text, character by character. *)
Definition map_str (f : Ascii.ascii -> Ascii.ascii) : string -> string :=
  fix go s := match s with EmptyString => EmptyString | String c s' => String (f c) (go s') end.
Definition lower_char (c : Ascii.ascii) : Ascii.ascii :=
  if is_upper c then Ascii.ascii_of_N (code c + 32) else c.
Definition is_digit (c : Ascii.ascii) : bool := in_range 48 57 c.
Definition is_lower_hex (c : Ascii.ascii) : bool := is_digit c || in_range 97 102 c.

Fixpoint str_forall (p : Ascii.ascii -> bool) (s : string) : bool :=
  match s with
  | EmptyString => true
  | String c s' => p c && str_forall p s'
  end.

(** Number of code points of a UTF-8 encoded string. *)
Fixpoint str_len (s : string) : nat :=
  match s with
  | EmptyString => 0
  | String c s' => if in_range 128 191 c then str_len s' else S (str_len s')
  end.

Definition str_nonempty (s : string) : bool :=
  match s with EmptyString => false | _ => true end.

Lemma append_cons c s t : String c s +:+ t = String c (s +:+ t).
Proof. reflexivity. Qed.

Lemma str_forall_app p s t :
  str_forall p (s +:+ t) = str_forall p s && str_forall p t.
Proof.
  induction s as [|c s IH]; [done|]. rewrite append_cons. cbn.
  by rewrite IH, andb_assoc.
Qed.

Lemma str_forall_impl (p q : Ascii.ascii -> bool) s :
  (forall c, p c = true -> q c = true) ->
  str_forall p s = true -> str_forall q s = true.
Proof.
  intros Himpl. induction s as [|c s IH]; cbn; [done|].
  intros [Hp Hs]%andb_true_iff. apply andb_true_iff. auto.
Qed.

Lemma string_length_app s t :
  String.length (s +:+ t) = String.length s + String.length t.
Proof. induction s as [|c s IH]; [done|]. rewrite append_cons. cbn. by rewrite IH. Qed.

Lemma str_len_le s : str_len s <= String.length s.
Proof. induction s as [|c s IH]; cbn; [lia|]. case_match; lia. Qed.

(** ** Stable sorting: [sorted(l, key=...)] with the comparison the key induces *)
Fixpoint insert_by {A} (le : A -> A -> bool) (x : A) (l : list A) : list A :=
  match l with
  | [] => [x]
  | y :: l' => if le x y then x :: y :: l' else y :: insert_by le x l'
  end.

Definition sort_by {A} (le : A -> A -> bool) (l : list A) : list A :=
  foldr (insert_by le) [] l.

Lemma insert_by_perm {A} (le : A -> A -> bool) x l : insert_by le x l ≡ₚ x :: l.
Proof.
  induction l as [|y l IH]; cbn; [done|]. destruct (le x y); [done|].
  rewrite IH. by constructor.
Qed.

Lemma sort_by_perm {A} (le : A -> A -> bool) l : sort_by le l ≡ₚ l.
Proof.
  induction l as [|x l IH]; cbn; [done|]. rewrite insert_by_perm. by constructor.
Qed.

Lemma length_sort_by {A} (le : A -> A -> bool) l : length (sort_by le l) = length l.
Proof. by rewrite sort_by_perm. Qed.

Section sorted.
  Context {A : Type} (le : A -> A -> bool).
  Context (le_total : forall x y, le x y = true \/ le y x = true).
  Context (le_trans : forall x y z, le x y = true -> le y z = true -> le x z = true).

Lemma insert_by_sorted x l :
  StronglySorted (fun a b => le a b = true) l ->
  StronglySorted (fun a b => le a b = true) (insert_by le x l).
Proof.
  induction l as [|y l IH]; cbn; intros Hs; [repeat constructor|].
  apply StronglySorted_inv in Hs as [Hs Hy].
  destruct (le x y) eqn:Hxy.
  - constructor; [by constructor|]. constructor; [done|].
    eapply Forall_impl; [exact Hy|]. cbn. eauto.
  - constructor; [auto|]. rewrite insert_by_perm. constructor; [|done].
    destruct (le_total x y); congruence.
Qed.

Lemma sort_by_sorted l : StronglySorted (fun a b => le a b = true) (sort_by le l).
Proof. induction l as [|x l IH]; cbn; [constructor|]. by apply insert_by_sorted. Qed.
End sorted.

Lemma StronglySorted_take {A} (R : A -> A -> Prop) n l :
  StronglySorted R l -> StronglySorted R (take n l).
Proof.
  revert n. induction l as [|x l IH]; intros [|n] Hs; cbn; [constructor..|].
  apply StronglySorted_inv in Hs as [Hs Hx]. constructor; [by apply IH|by apply Forall_take].
Qed.

Lemma insert_by_fmap {A B} (f : A -> B) (le : B -> B -> bool) x l :
  insert_by le (f x) (f <$> l) = f <$> insert_by (fun a b => le (f a) (f b)) x l.
Proof. induction l as [|y l IH]; cbn; [done|]. destruct (le (f x) (f y)); cbn; [done|]. by rewrite IH. Qed.

Lemma sort_by_fmap {A B} (f : A -> B) (le : B -> B -> bool) l :
  sort_by le (f <$> l) = f <$> sort_by (fun a b => le (f a) (f b)) l.
Proof. induction l as [|x l IH]; cbn; [done|]. unfold sort_by in IH. by rewrite IH, insert_by_fmap. Qed.

(** ** Comparing strings by code point

    The UTF-8 encoding preserves the order of code points, so this is Python's
    order on [str]. *)
Definition str_leb (s t : string) : bool :=
  match String.compare s t with Gt => false | _ => true end.

Lemma str_leb_total s t : str_leb s t = true \/ str_leb t s = true.
Proof.
  unfold str_leb. rewrite (String.compare_antisym s t).
  destruct (String.compare t s); cbn; auto.
Qed.

Lemma str_leb_cons c d s t :
  str_leb (String c s) (String d t) =
  if (code c <? code d)%N then true else if (code c =? code d)%N then str_leb s t else false.
Proof.
  unfold str_leb. cbn. unfold Ascii.compare, code. rewrite N.ltb_compare, N.eqb_compare.
  by destruct (N.compare _ _).
Qed.

Lemma str_leb_trans s t u : str_leb s t = true -> str_leb t u = true -> str_leb s u = true.
Proof.
  revert t u. induction s as [|c s IH]; intros [|d t] [|e u]; try done.
  rewrite !str_leb_cons. intros H1 H2.
  destruct (N.ltb_spec (code c) (code d)), (N.ltb_spec (code d) (code e)),
    (N.ltb_spec (code c) (code e)), (N.eqb_spec (code c) (code d)), (N.eqb_spec (code d) (code e)),
    (N.eqb_spec (code c) (code e)); try done; try lia. eauto.
Qed.

Lemma mapM_result_ok {A B} (f : A -> result B) l ys :
  mapM_result f l = Ok ys <-> Forall2 (fun x y => f x = Ok y) l ys.
Proof.
  revert ys. induction l as [|x l IH]; intros ys; cbn.
  - split; [by intros [= <-]|]. by inversion 1.
  - rewrite bind_ok. setoid_rewrite bind_ok. split.
    + intros (y&Hy&ys'&Hys%IH&[= <-]). by constructor.
    + inversion 1 as [|? y ? ys' Hy Hys]; subst. exists y. split; [done|]. exists ys'. by rewrite IH.
Qed.

Lemma str_leb_antisym s t : str_leb s t = true -> str_leb t s = true -> s = t.
Proof.
  revert t. induction s as [|c s IH]; intros [|d t]; try done. rewrite !str_leb_cons. intros H1 H2.
  destruct (N.ltb_spec (code c) (code d)), (N.ltb_spec (code d) (code c)),
    (N.eqb_spec (code c) (code d)), (N.eqb_spec (code d) (code c)); try done; try lia.
  f_equal; [|by apply IH]. apply (f_equal Ascii.ascii_of_N) in e. unfold code in e.
  by rewrite !Ascii.ascii_N_embedding in e.
Qed.

(** Sorting a dictionary by key gives one list for every order of its entries. *)
Definition key_leb {V} (a b : string * V) : bool := str_leb a.1 b.1.

Lemma sort_by_key_sorted {V} (l : list (string * V)) :
  StronglySorted (fun a b => key_leb a b = true) (sort_by key_leb l).
Proof.
  apply sort_by_sorted; unfold key_leb; intros *; [apply str_leb_total|apply str_leb_trans].
Qed.

Lemma sort_by_key_perm {V} (l k : list (string * V)) :
  NoDup l.*1 -> l ≡ₚ k -> sort_by key_leb l = sort_by key_leb k.
Proof.
  intros Hnd Hp. eapply StronglySorted_unique_strong; [|apply sort_by_key_sorted..|].
  - intros [x v] [y w] Hx Hy. unfold key_leb. cbn. intros H1 H2.
    pose proof (str_leb_antisym _ _ H1 H2) as ->. f_equal.
    rewrite sort_by_perm in Hx. rewrite sort_by_perm, <- Hp in Hy.
    apply list_elem_of_lookup in Hx as [i Hi]. apply list_elem_of_lookup in Hy as [j Hj].
    assert (i = j) as <-.
    { eapply NoDup_lookup; [exact Hnd| |]; rewrite list_lookup_fmap; [by rewrite Hi|by rewrite Hj]. }
    congruence.
  - by rewrite !sort_by_perm.
Qed.
