(* ===== verification/Sha256.v ===== *)
(** * SHA-256 as [hashlib.sha256] computes it

    The source hashes record identities into file-name tokens and canonical
    documents into checksums.  The function is defined bit for bit on 32-bit
    words kept in [Z], so that witnesses evaluate the tokens the program writes;
    the theorems of the other files use only the shape of a hexadecimal digest. *)

From S2P Require Import Prelude.
From stdpp Require Import base list strings.
From Stdlib Require Import ZArith Lia.
From Stdlib Require Ascii String.
Open Scope Z_scope.

Definition w32 : Z := 2 ^ 32.
Definition add32 (x y : Z) : Z := (x + y) mod w32.
Definition rotr (n x : Z) : Z :=
  Z.lor (Z.shiftr x n) (Z.shiftl x (32 - n) mod w32).
Definition not32 (x : Z) : Z := w32 - 1 - x.

Definition ch (x y z : Z) : Z := Z.lxor (Z.land x y) (Z.land (not32 x) z).
Definition maj (x y z : Z) : Z :=
  Z.lxor (Z.lxor (Z.land x y) (Z.land x z)) (Z.land y z).
Definition bsig0 (x : Z) : Z := Z.lxor (Z.lxor (rotr 2 x) (rotr 13 x)) (rotr 22 x).
Definition bsig1 (x : Z) : Z := Z.lxor (Z.lxor (rotr 6 x) (rotr 11 x)) (rotr 25 x).
Definition ssig0 (x : Z) : Z := Z.lxor (Z.lxor (rotr 7 x) (rotr 18 x)) (Z.shiftr x 3).
Definition ssig1 (x : Z) : Z := Z.lxor (Z.lxor (rotr 17 x) (rotr 19 x)) (Z.shiftr x 10).

(** The constants are the first 32 bits of the fractional parts of the cube roots
    (rounds) and square roots (initial state) of the first primes. *)
Definition is_prime (n : Z) : bool :=
  forallb (fun d => negb (n mod d =? 0)) (Z.of_nat <$> seq 2 (Z.to_nat (Z.sqrt n) - 1)).
Definition first_primes (k : nat) : list Z :=
  take k (filter (fun n => is_prime n = true) (Z.of_nat <$> seq 2 400)).

(** The greatest [r] below [2 ^ n] with [r ^ 3 <= x], bit by bit. *)
Fixpoint cube_root (n : nat) (r x : Z) : Z :=
  match n with
  | O => r
  | S n' =>
      let r' := r + 2 ^ Z.of_nat n' in
      cube_root n' (if r' * r' * r' <=? x then r' else r) x
  end.

Definition round_constants : list Z :=
  Eval vm_compute in
  (fun q => cube_root 36 0 (q * 2 ^ 96) mod w32) <$> first_primes 64.
Definition initial_state : list Z :=
  Eval vm_compute in (fun q => Z.sqrt (q * 2 ^ 64) mod w32) <$> first_primes 8.

Definition bytes_of_string (s : string) : list Z :=
  (fun c => Z.of_N (code c)) <$> String.list_ascii_of_string s.

(** Big-endian bytes of [x], most significant first. *)
Fixpoint be_bytes (n : nat) (x : Z) : list Z :=
  match n with
  | O => []
  | S n' => be_bytes n' (Z.shiftr x 8) ++ [x mod 256]
  end.

Definition be_word (l : list Z) : Z := foldl (fun acc b => acc * 256 + b) 0 l.

Definition pad (msg : list Z) : list Z :=
  let n := Z.of_nat (length msg) in
  msg ++ [128] ++ replicate (Z.to_nat ((55 - n) mod 64)) 0 ++ be_bytes 8 (8 * n).

Fixpoint chunks (fuel : nat) (k : nat) (l : list Z) : list (list Z) :=
  match fuel, l with
  | S fuel', _ :: _ => take k l :: chunks fuel' k (drop k l)
  | _, _ => []
  end.

(** The message schedule, newest word first. *)
Fixpoint schedule (n : nat) (rev_w : list Z) : list Z :=
  match n with
  | O => rev_w
  | S n' =>
      let at' i := nth i rev_w 0 in
      let w := add32 (add32 (ssig1 (at' 1%nat)) (at' 6%nat))
                     (add32 (ssig0 (at' 14%nat)) (at' 15%nat)) in
      schedule n' (w :: rev_w)
  end.

Definition round (st : list Z) (kw : Z * Z) : list Z :=
  match st with
  | [a; b; c; d; e; f; g; h] =>
      let t1 := add32 (add32 h (bsig1 e)) (add32 (ch e f g) (add32 kw.1 kw.2)) in
      let t2 := add32 (bsig0 a) (maj a b c) in
      [add32 t1 t2; a; b; c; add32 d t1; e; f; g]
  | _ => st
  end.

Definition compress (st block : list Z) : list Z :=
  let words := be_word <$> chunks 16 4 block in
  let w := rev (schedule 48 (rev words)) in
  zip_with add32 st (foldl round st (zip round_constants w)).

Definition sha256_bytes (msg : list Z) : list Z :=
  let p := pad msg in
  let final := foldl compress initial_state (chunks (length p) 64 p) in
  final ≫= be_bytes 4.

Definition hex_digit (n : Z) : Ascii.ascii :=
  Ascii.ascii_of_N (Z.to_N (if n <? 10 then 48 + n else 87 + n)).

Definition hex_byte (b : Z) : string :=
  String (hex_digit (Z.shiftr b 4 mod 16)) (String (hex_digit (b mod 16)) EmptyString).

(** [hashlib.sha256(s.encode("utf-8")).hexdigest()] *)
Definition sha256_hex (s : string) : string :=
  foldr (fun b acc => hex_byte b +:+ acc) EmptyString (sha256_bytes (bytes_of_string s)).

Example sha256_abc :
  sha256_hex "abc" = "ba7816bf8f01cfea414140de5dae2223b00361a396177a9cb410ff61f20015ad".
Proof. vm_compute. reflexivity. Qed.

Example sha256_two_blocks :
  sha256_hex "abcdbcdecdefdefgefghfghighijhijkijkljklmklmnlmnomnopnopq"
  = "248d6a61d20638b8e5c026930c3e6039a33ce45964ff2167f6ecedd419db06c1".
Proof. vm_compute. reflexivity. Qed.

(** ** The shape of a digest *)
Lemma hex_digit_lower_hex n : 0 <= n < 16 -> is_lower_hex (hex_digit n) = true.
Proof.
  intros H.
  assert (Hall : forallb (fun k => is_lower_hex (hex_digit k)) (Z.of_nat <$> seq 0 16) = true)
    by reflexivity.
  rewrite forallb_forall in Hall. apply Hall, list_elem_of_In, list_elem_of_fmap.
  exists (Z.to_nat n). rewrite elem_of_seq. lia.
Qed.

Lemma hex_byte_lower_hex b : str_forall is_lower_hex (hex_byte b) = true.
Proof.
  unfold hex_byte. cbn [str_forall].
  rewrite !hex_digit_lower_hex by (apply Z.mod_pos_bound; lia). done.
Qed.

Lemma length_be_bytes n x : length (be_bytes n x) = n.
Proof. revert x; induction n as [|n IH]; intros x; cbn; [done|]. rewrite length_app, IH; cbn; lia. Qed.

Lemma length_round st kw : length (round st kw) = length st.
Proof. unfold round. by repeat case_match. Qed.

Lemma length_foldl_round l st : length (foldl round st l) = length st.
Proof. revert st; induction l as [|x l IH]; intros st; cbn; [done|]. by rewrite IH, length_round. Qed.

Lemma length_compress st b : length (compress st b) = length st.
Proof. unfold compress. rewrite length_zip_with, length_foldl_round. lia. Qed.

Lemma length_foldl_compress l st : length (foldl compress st l) = length st.
Proof. revert st; induction l as [|x l IH]; intros st; cbn; [done|]. by rewrite IH, length_compress. Qed.

Lemma length_sha256_bytes m : length (sha256_bytes m) = 32%nat.
Proof.
  unfold sha256_bytes.
  set (l := foldl compress initial_state _).
  assert (Hl : length l = 8%nat) by (unfold l; by rewrite length_foldl_compress).
  clearbody l. do 8 (destruct l as [|? l]; [discriminate|]). destruct l; [|discriminate].
  cbn [mbind list_bind]. rewrite !length_app, !length_be_bytes. done.
Qed.

Lemma foldr_hex_shape l :
  str_forall is_lower_hex (foldr (fun b acc => hex_byte b +:+ acc) EmptyString l) = true /\
  String.length (foldr (fun b acc => hex_byte b +:+ acc) EmptyString l) = (2 * length l)%nat.
Proof.
  induction l as [|b l [IH1 IH2]]; [done|].
  cbn [foldr length]. rewrite str_forall_app, hex_byte_lower_hex, string_length_app, IH1, IH2.
  split; [done|]. cbn. lia.
Qed.

(** A hexadecimal digest is 64 lowercase hexadecimal digits. *)
Lemma sha256_hex_shape s :
  str_forall is_lower_hex (sha256_hex s) = true /\ String.length (sha256_hex s) = 64%nat.
Proof.
  unfold sha256_hex.
  destruct (foldr_hex_shape (sha256_bytes (bytes_of_string s))) as [H1 H2].
  rewrite H1, H2, length_sha256_bytes. done.
Qed.

#[global] Opaque sha256_hex.
