(* ===== verification/Json.v ===== *)
(** * JSON values as the source sees them after [json.loads]

    A Python [dict] is an association list in insertion order with distinct
    keys; [isinstance(x, int)] also holds of a [bool], which the source excludes
    explicitly, so the two are separate constructors.  A float keeps the text
    [json] prints for it: no modelled code computes with one. *)

From S2P Require Import Prelude Sha256.
From stdpp Require Import base list strings sets gmap.
From Stdlib Require Import ZArith Lia.
From Stdlib Require Ascii String DecimalString.
Open Scope Z_scope.

#[warnings="-register-all"]
Inductive json :=
  | JNull
  | JBool (b : bool)
  | JInt (z : Z)
  | JFloat (repr : string)
  | JStr (s : string)
  | JList (l : list json)
  | JObj (fields : list (string * json)).

(** Structural equality; the source compares records only with records that were
    dumped the same way, so the order of keys and [1 == True] do not matter. *)
#[export] Instance json_eq_dec : EqDecision json.
Proof.
  refine (fix go (x y : json) {struct x} : Decision (x = y) :=
    match x, y with
    | JNull, JNull => left eq_refl
    | JBool a, JBool b => cast_if (decide (a = b))
    | JInt a, JInt b => cast_if (decide (a = b))
    | JFloat a, JFloat b => cast_if (decide (a = b))
    | JStr a, JStr b => cast_if (decide (a = b))
    | JList a, JList b => cast_if (@list_eq_dec _ go a b)
    | JObj a, JObj b =>
        cast_if (@list_eq_dec _ (fun p q : string * json =>
          match p, q return Decision (p = q) with
          | (k, v), (k', v') => cast_if_and (decide (k = k')) (go v v')
          end) a b)
    | _, _ => right _
    end); clear go; congruence.
Defined.

(** ** Dictionaries *)
Fixpoint dict_get {K V} `{EqDecision K} (k : K) (d : list (K * V)) : option V :=
  match d with
  | [] => None
  | (k', v) :: d' => if bool_decide (k = k') then Some v else dict_get k d'
  end.

(** [d[k] = v]: an existing key keeps its position. *)
Fixpoint dict_set {K V} `{EqDecision K} (k : K) (v : V) (d : list (K * V)) : list (K * V) :=
  match d with
  | [] => [(k, v)]
  | (k', v') :: d' => if bool_decide (k = k') then (k, v) :: d' else (k', v') :: dict_set k v d'
  end.

(** [d.pop(k, None)] *)
Definition dict_pop {K V} `{EqDecision K} (k : K) (d : list (K * V)) : list (K * V) :=
  filter (fun kv => kv.1 <> k) d.

Definition dict_keys {K V} (d : list (K * V)) : list K := d.*1.

(** [set(d) == {k1, ..., kn}] for a dictionary with distinct keys. *)
Definition keys_are {V} (expected : list string) (d : list (string * V)) : bool :=
  forallb (fun k => bool_decide (k ∈ expected)) (dict_keys d) &&
  forallb (fun k => bool_decide (k ∈ dict_keys d)) expected.

Lemma dict_get_set_eq {K V} `{EqDecision K} (k : K) (v : V) d : dict_get k (dict_set k v d) = Some v.
Proof.
  induction d as [|[k' v'] d IH]; cbn; [by rewrite bool_decide_true|].
  case_bool_decide; cbn; [by rewrite bool_decide_true|by rewrite bool_decide_false].
Qed.

Lemma dict_get_set_ne {K V} `{EqDecision K} (k k' : K) (v : V) d :
  k <> k' -> dict_get k' (dict_set k v d) = dict_get k' d.
Proof.
  intros Hne. induction d as [|[k1 v1] d IH]; cbn; [by rewrite bool_decide_false|].
  case_bool_decide as Hk; cbn; [|by rewrite IH].
  subst. by rewrite bool_decide_false.
Qed.

Lemma dict_get_None {K V} `{EqDecision K} (k : K) (d : list (K * V)) : dict_get k d = None <-> k ∉ d.*1.
Proof.
  induction d as [|[k' v'] d IH]; cbn; [split; [intros _; apply not_elem_of_nil|done]|].
  rewrite not_elem_of_cons. case_bool_decide; [split; [done|tauto]|rewrite IH; tauto].
Qed.

Lemma dict_get_elem {K V} `{EqDecision K} (k : K) (v : V) d :
  NoDup d.*1 -> (dict_get k d = Some v <-> (k, v) ∈ d).
Proof.
  induction d as [|[k' v'] d IH]; cbn; intros Hnd.
  { split; [done|]. intros H; by apply elem_of_nil in H. }
  apply NoDup_cons in Hnd as [Hk Hnd]. rewrite elem_of_cons.
  case_bool_decide as Heq.
  - subst. split; [intros [= ->]; by left|].
    intros [[= ->]|Hin]; [done|]. destruct Hk.
    apply list_elem_of_fmap. by exists (k', v).
  - rewrite IH by done. split; [intros; by right|]. intros [?|?]; [congruence|done].
Qed.

Lemma dict_keys_set {K V} `{EqDecision K} (k : K) (v : V) d :
  (dict_set k v d).*1 = if bool_decide (k ∈ d.*1) then d.*1 else d.*1 ++ [k].
Proof.
  induction d as [|[k' v'] d IH]; cbn; [done|].
  destruct (decide (k = k')) as [->|Hne].
  - rewrite !bool_decide_true; [done|apply elem_of_cons; by left|done].
  - rewrite (bool_decide_false (k = k')) by done. cbn. rewrite IH.
    rewrite (bool_decide_ext (k ∈ k' :: d.*1) (k ∈ d.*1)) by set_solver.
    by case_bool_decide.
Qed.

Lemma NoDup_dict_set {K V} `{EqDecision K} (k : K) (v : V) d : NoDup d.*1 -> NoDup (dict_set k v d).*1.
Proof.
  intros Hnd. rewrite dict_keys_set. case_bool_decide; [done|].
  apply NoDup_app; split_and!; [done|set_solver|apply NoDup_singleton].
Qed.

Lemma dict_set_fresh {K V} `{EqDecision K} (k : K) (v : V) d :
  k ∉ d.*1 -> dict_set k v d = d ++ [(k, v)].
Proof.
  induction d as [|[k' v'] d IH]; cbn; [done|]. rewrite not_elem_of_cons. intros [Hne Hd].
  rewrite bool_decide_false by done. by rewrite IH.
Qed.

(** ** Canonical serialization *)

(** [str(z)] *)
Definition string_of_Z (z : Z) : string := DecimalString.NilZero.string_of_int (Z.to_int z).

Definition nibble (n : Z) : string := String (hex_digit (n mod 16)) EmptyString.
Definition hex4 (cp : Z) : string :=
  nibble (Z.shiftr cp 12) +:+ nibble (Z.shiftr cp 8) +:+ nibble (Z.shiftr cp 4) +:+ nibble cp.

Definition ascii_of_Z (z : Z) : Ascii.ascii := Ascii.ascii_of_N (Z.to_N z).
Definition char (z : Z) : string := String (ascii_of_Z z) EmptyString.

(** The escape [json.dumps] writes for one code point with [ensure_ascii]. *)
Definition escape_code_point (cp : Z) : string :=
  if cp =? 34 then char 92 +:+ char 34
  else if cp =? 92 then char 92 +:+ char 92
  else if cp =? 10 then char 92 +:+ "n"
  else if cp =? 13 then char 92 +:+ "r"
  else if cp =? 9 then char 92 +:+ "t"
  else if cp =? 8 then char 92 +:+ "b"
  else if cp =? 12 then char 92 +:+ "f"
  else if (32 <=? cp) && (cp <? 127) then char cp
  else if cp <? 65536 then char 92 +:+ "u" +:+ hex4 cp
  else let v := cp - 65536 in
       char 92 +:+ "u" +:+ hex4 (55296 + Z.shiftr v 10) +:+
       char 92 +:+ "u" +:+ hex4 (56320 + v mod 1024).

(** Code points of a UTF-8 encoded string; [pending] continuation bytes are
    still expected for the code point [acc]. *)
Fixpoint code_points (s : string) (pending : nat) (acc : Z) : list Z :=
  match s with
  | EmptyString => []
  | String c s' =>
      let b := Z.of_N (code c) in
      if (128 <=? b) && (b <? 192) then
        let acc' := acc * 64 + b mod 64 in
        match pending with
        | S (S p) => code_points s' (S p) acc'
        | _ => acc' :: code_points s' 0 0
        end
      else if b <? 128 then b :: code_points s' 0 0
      else if b <? 224 then code_points s' 1 (b mod 32)
      else if b <? 240 then code_points s' 2 (b mod 16)
      else code_points s' 3 (b mod 8)
  end.

Definition dumps_str (s : string) : string :=
  char 34 +:+ foldr (fun cp acc => escape_code_point cp +:+ acc) EmptyString (code_points s 0 0)
          +:+ char 34.

Fixpoint str_join (sep : string) (l : list string) : string :=
  match l with
  | [] => EmptyString
  | [x] => x
  | x :: l' => x +:+ sep +:+ str_join sep l'
  end.

(** [json.dumps] with the separators and the key order of one call.  Sorting the
    already serialized fields by key sorts the keys: they are distinct. *)
Fixpoint dumps_with (sort_keys : bool) (item_sep key_sep : string) (v : json) : string :=
  match v with
  | JNull => "null"
  | JBool true => "true"
  | JBool false => "false"
  | JInt z => string_of_Z z
  | JFloat r => r
  | JStr s => dumps_str s
  | JList l => "[" +:+ str_join item_sep (dumps_with sort_keys item_sep key_sep <$> l) +:+ "]"
  | JObj fields =>
      let rendered := (fun kv => (kv.1, dumps_with sort_keys item_sep key_sep kv.2)) <$> fields in
      let ordered :=
        if sort_keys then sort_by (fun a b => str_leb a.1 b.1) rendered else rendered in
      "{" +:+ str_join item_sep ((fun kv => dumps_str kv.1 +:+ key_sep +:+ kv.2) <$> ordered) +:+ "}"
  end.

(** [json.dumps(v, sort_keys=True, separators=(",", ":"))] *)
Definition dumps (v : json) : string := dumps_with true "," ":" v.

(** [json.dumps(v)] *)
Definition dumps_default (v : json) : string := dumps_with false ", " ": " v.

(** *** JSON text that keeps non-ASCII characters *)

(** The escape of one byte: [json.dumps] with [ensure_ascii=False] leaves the bytes above
    127 alone. *)
Definition escape_raw (c : Ascii.ascii) : string :=
  let cp := Z.of_N (code c) in
  if cp <? 127 then escape_code_point cp else String c EmptyString.

Fixpoint escape_raw_str (s : string) : string :=
  match s with EmptyString => EmptyString | String c s' => escape_raw c +:+ escape_raw_str s' end.

Definition dumps_raw_str (s : string) : string := char 34 +:+ escape_raw_str s +:+ char 34.

(** [json.dumps(v, ensure_ascii=False, sort_keys=True, separators=(",", ":"))], in UTF-8. *)
Fixpoint dumps_raw (v : json) : string :=
  match v with
  | JNull => "null"
  | JBool true => "true"
  | JBool false => "false"
  | JInt z => string_of_Z z
  | JFloat r => r
  | JStr s => dumps_raw_str s
  | JList l => "[" +:+ str_join "," (dumps_raw <$> l) +:+ "]"
  | JObj fields =>
      let rendered := (fun kv => (kv.1, dumps_raw kv.2)) <$> fields in
      let ordered := sort_by (fun a b => str_leb a.1 b.1) rendered in
      "{" +:+ str_join "," ((fun kv => dumps_raw_str kv.1 +:+ ":" +:+ kv.2) <$> ordered) +:+ "}"
  end.

Definition canonical_sha256 (v : json) : string := sha256_hex (dumps v).

Example dumps_sorted :
  dumps (JObj [("b", JList [JInt (-7); JNull]); ("a", JBool true)])
  = "{" +:+ char 34 +:+ "a" +:+ char 34 +:+ ":true," +:+ char 34 +:+ "b" +:+ char 34 +:+ ":[-7,null]}".
Proof. vm_compute. reflexivity. Qed.

#[global] Opaque dumps dumps_default.
