(* ===== verification/Decimal.v ===== *)
(** * Decimal numbers in file names ([f"{n:020d}"]) and printed timestamps

    The queue names the records of an ordered family by their sequence number,
    padded to twenty digits so that names sort as the numbers do.  The decoders of
    such names read the digits back with [int]. *)

From S2P Require Import Prelude Sha256 Json.
From stdpp Require Import base list strings.
From Stdlib Require Import ZArith Lia.
From Stdlib Require Ascii String.
Open Scope Z_scope.

(** The [width] low decimal digits of [z]. *)
Fixpoint dec_digits (width : nat) (z : Z) : string :=
  match width with
  | O => EmptyString
  | S w => dec_digits w (z / 10) +:+ char (48 + z mod 10)
  end.

(** [f"{z:020d}"] *)
Definition pad20 (z : Z) : string :=
  if (0 <=? z) && (z <? 10 ^ 20) then dec_digits 20 z
  else if (z <? 0) && (- 10 ^ 19 <? z) then "-" +:+ dec_digits 19 (- z)
  else string_of_Z z.

(** [int(s)] of a string of ASCII digits. *)
Fixpoint int_of_digits (acc : Z) (s : string) : Z :=
  match s with
  | EmptyString => acc
  | String c s' => int_of_digits (acc * 10 + (Z.of_N (code c) - 48)) s'
  end.

Lemma append_assoc_str (s t u : string) : (s +:+ t) +:+ u = s +:+ (t +:+ u).
Proof. induction s as [|c s IH]; [done|]. rewrite !append_cons. by f_equal. Qed.

Lemma code_digit d : 0 <= d < 10 -> Z.of_N (code (ascii_of_Z (48 + d))) = 48 + d.
Proof.
  intros Hd. unfold code, ascii_of_Z. rewrite Ascii.N_ascii_embedding; lia.
Qed.

Lemma is_digit_digit d : 0 <= d < 10 -> is_digit (ascii_of_Z (48 + d)) = true.
Proof.
  intros Hd. pose proof (code_digit d Hd) as Hc. unfold is_digit, in_range.
  apply andb_true_iff. split; apply N.leb_le; lia.
Qed.

Lemma length_dec_digits w z : String.length (dec_digits w z) = w.
Proof.
  revert z. induction w as [|w IH]; intros z; [done|]. cbn [dec_digits].
  rewrite string_length_app, IH. cbn. lia.
Qed.

Lemma dec_digits_digits w z : str_forall is_digit (dec_digits w z) = true.
Proof.
  revert z. induction w as [|w IH]; intros z; [done|]. cbn [dec_digits].
  rewrite str_forall_app, IH. cbn [str_forall char].
  rewrite is_digit_digit by (apply Z.mod_pos_bound; lia). done.
Qed.

Lemma int_of_digits_app acc s t : int_of_digits acc (s +:+ t) = int_of_digits (int_of_digits acc s) t.
Proof. revert acc. induction s as [|c s IH]; intros acc; [done|]. rewrite append_cons. apply IH. Qed.

Lemma int_of_dec_digits w z : 0 <= z < 10 ^ Z.of_nat w -> int_of_digits 0 (dec_digits w z) = z.
Proof.
  revert z. induction w as [|w IH]; intros z Hz; [cbn in *; lia|].
  cbn [dec_digits]. rewrite int_of_digits_app, IH.
  - cbn [int_of_digits char]. rewrite code_digit by (apply Z.mod_pos_bound; lia).
    pose proof (Z.div_mod z 10). lia.
  - rewrite Nat2Z.inj_succ, Z.pow_succ_r in Hz by lia.
    split; [apply Z.div_pos; lia|]. apply Z.div_lt_upper_bound; lia.
Qed.

Lemma pad20_small z : 0 <= z < 10 ^ 20 -> pad20 z = dec_digits 20 z.
Proof.
  intros Hz. unfold pad20. rewrite (proj2 (Z.leb_le 0 z)), (proj2 (Z.ltb_lt z (10 ^ 20))) by lia. done.
Qed.

Lemma digit_of_code c : is_digit c = true -> ascii_of_Z (48 + (Z.of_N (code c) - 48)) = c.
Proof.
  intros Hc. unfold ascii_of_Z. replace (48 + _) with (Z.of_N (code c)) by lia.
  rewrite N2Z.id. unfold code. apply Ascii.ascii_N_embedding.
Qed.

Lemma digit_code_range c : is_digit c = true -> 0 <= Z.of_N (code c) - 48 < 10.
Proof. unfold is_digit, in_range. intros [H1%N.leb_le H2%N.leb_le]%andb_true_iff. lia. Qed.

(** Appending a digit at the end. *)
Lemma dec_digits_int w acc s :
  str_forall is_digit s = true -> 0 <= acc ->
  dec_digits (w + String.length s) (int_of_digits acc s) = dec_digits w acc +:+ s.
Proof.
  revert w acc. induction s as [|c s IH]; intros w acc Hs Hacc; cbn [int_of_digits String.length].
  - rewrite Nat.add_0_r. symmetry. induction (dec_digits w acc) as [|x y IHy]; [done|].
    rewrite append_cons. by rewrite IHy.
  - cbn [str_forall] in Hs. apply andb_true_iff in Hs as [Hc Hs].
    pose proof (digit_code_range c Hc) as Hr.
    replace (w + S (String.length s))%nat with (S w + String.length s)%nat by lia.
    rewrite IH by (done || lia). cbn [dec_digits].
    rewrite (Z.add_comm (acc * 10)), Z.div_add, Z.mod_add by lia.
    rewrite Z.div_small, Z.mod_small by lia. cbn [Z.add].
    rewrite append_assoc_str. unfold char. rewrite append_cons.
    by rewrite digit_of_code.
Qed.

Lemma int_of_digits_bound acc s :
  str_forall is_digit s = true -> 0 <= acc ->
  0 <= int_of_digits acc s < (acc + 1) * 10 ^ Z.of_nat (String.length s).
Proof.
  revert acc. induction s as [|c s IH]; intros acc Hs Hacc; cbn [int_of_digits String.length]; [lia|].
  cbn [str_forall] in Hs. apply andb_true_iff in Hs as [Hc Hs]. pose proof (digit_code_range c Hc).
  specialize (IH (acc * 10 + (Z.of_N (code c) - 48)) Hs ltac:(lia)).
  rewrite Nat2Z.inj_succ, Z.pow_succ_r by lia. nia.
Qed.

Lemma pad20_int s :
  String.length s = 20%nat -> str_forall is_digit s = true -> pad20 (int_of_digits 0 s) = s.
Proof.
  intros Hl Hd. pose proof (int_of_digits_bound 0 s Hd) as Hb. rewrite Hl in Hb.
  rewrite pad20_small by lia. pose proof (dec_digits_int 0 0 s Hd) as Hx. rewrite Hl in Hx.
  apply Hx. lia.
Qed.

(** Two numbers below [10 ^ 20] have the same name only if they are equal. *)
Lemma pad20_inj a b : 0 <= a < 10 ^ 20 -> 0 <= b < 10 ^ 20 -> pad20 a = pad20 b -> a = b.
Proof.
  intros Ha Hb. rewrite !pad20_small by done. intros He.
  by rewrite <- (int_of_dec_digits 20 a), <- (int_of_dec_digits 20 b), He.
Qed.

(** ** Printed timestamps ([datetime.isoformat] of an aware UTC time)

    A timestamp is a number of microseconds since the epoch.  The date of a day
    number is computed in the proleptic Gregorian calendar, counting years from
    March so that the leap day is the last of its year. *)

Definition microseconds_per_day : Z := 86400 * 1000000.

(** Days from 0000-03-01 to the epoch. *)
Definition epoch_day : Z := 719468.

(** The year of a 400-year era a day of the era falls into, and the date of a day. *)
Definition year_of_era (doe : Z) : Z := (doe - doe / 1460 + doe / 36524 - doe / 146096) / 365.

Definition civil_of_days (days : Z) : Z * Z * Z :=
  let z := days + epoch_day in
  let doe := z mod 146097 in
  let yoe := year_of_era doe in
  let doy := doe - (365 * yoe + yoe / 4 - yoe / 100) in
  let mp := (5 * doy + 2) / 153 in
  let m := if mp <? 10 then mp + 3 else mp - 9 in
  (z / 146097 * 400 + yoe + (if m <=? 2 then 1 else 0), m, doy - (153 * mp + 2) / 5 + 1).

(** [value.isoformat()]: the fraction is left out when it is zero. *)
Definition isoformat (t : Z) : string :=
  let '(y, m, d) := civil_of_days (t / microseconds_per_day) in
  let rest := t mod microseconds_per_day in
  let seconds := rest / 1000000 in
  let us := rest mod 1000000 in
  dec_digits 4 y +:+ "-" +:+ dec_digits 2 m +:+ "-" +:+ dec_digits 2 d +:+ "T"
  +:+ dec_digits 2 (seconds / 3600) +:+ ":" +:+ dec_digits 2 (seconds / 60 mod 60) +:+ ":"
  +:+ dec_digits 2 (seconds mod 60)
  +:+ (if us =? 0 then "" else "." +:+ dec_digits 6 us) +:+ "+00:00".

Example isoformat_epoch : isoformat 0 = "1970-01-01T00:00:00+00:00".
Proof. vm_compute. reflexivity. Qed.
Example isoformat_leap_day : isoformat 1709210096000042 = "2024-02-29T12:34:56.000042+00:00".
Proof. vm_compute. reflexivity. Qed.
