(* ===== verification/JsonSize.v ===== *)
(** * The size of serialized JSON

    An upper bound on the number of bytes [json.dumps] writes, by induction on
    the value: an escaped character takes at most twelve bytes, and an integer
    has at most as many digits as bits. *)

From S2P Require Import Prelude Sha256 Json.
From stdpp Require Import base list strings.
From Stdlib Require Import ZArith Lia.
From Stdlib Require Ascii String DecimalString DecimalFacts.

(** ** Induction on JSON values *)
Section json_induction.
Context (P : json -> Prop).
Context (Hnull : P JNull) (Hbool : forall b, P (JBool b)) (Hint : forall z, P (JInt z))
        (Hfloat : forall r, P (JFloat r)) (Hstr : forall s, P (JStr s))
        (Hlist : forall l, Forall P l -> P (JList l))
        (Hobj : forall d, Forall (fun kv => P kv.2) d -> P (JObj d)).

Fixpoint json_strong_ind (v : json) : P v :=
  match v with
  | JNull => Hnull
  | JBool b => Hbool b
  | JInt z => Hint z
  | JFloat r => Hfloat r
  | JStr s => Hstr s
  | JList l =>
      Hlist l ((fix go (l : list json) : Forall P l :=
        match l with
        | [] => Forall_nil_2 P
        | x :: l' => Forall_cons_2 P x l' (json_strong_ind x) (go l')
        end) l)
  | JObj d =>
      Hobj d ((fix go (d : list (string * json)) : Forall (fun kv => P kv.2) d :=
        match d with
        | [] => Forall_nil_2 _
        | x :: d' => Forall_cons_2 _ x d' (json_strong_ind x.2) (go d')
        end) d)
  end.
End json_induction.

(** ** Integers *)
Definition bits (z : Z) : nat :=
  match z with Z0 => 1 | Zpos p | Zneg p => S (Pos.size_nat p) end.

Lemma double_digits d :
  (Decimal.nb_digits (Decimal.Little.double d) <= S (Decimal.nb_digits d))%nat /\
  (Decimal.nb_digits (Decimal.Little.succ_double d) <= S (Decimal.nb_digits d))%nat.
Proof. induction d; cbn in *; lia. Qed.

Lemma pos_digits p : (Decimal.nb_digits (Pos.to_uint p) <= Pos.size_nat p)%nat.
Proof.
  unfold Pos.to_uint. rewrite DecimalFacts.nb_digits_rev.
  induction p as [p IH|p IH|]; cbn [Pos.to_little_uint Pos.size_nat]; [| |cbn; lia];
    destruct (double_digits (Pos.to_little_uint p)); lia.
Qed.

Lemma length_string_of_uint d :
  (String.length (DecimalString.NilZero.string_of_uint d) <= S (Decimal.nb_digits d))%nat.
Proof.
  assert (Hl : String.length (DecimalString.NilEmpty.string_of_uint d) = Decimal.nb_digits d)
    by (induction d; cbn; congruence).
  unfold DecimalString.NilZero.string_of_uint. destruct d; try (rewrite Hl; lia). cbn. lia.
Qed.

Lemma length_string_of_Z z : (String.length (string_of_Z z) <= S (S (bits z)))%nat.
Proof.
  unfold string_of_Z. destruct z as [|p|p]; [cbn; lia| |];
    unfold Z.to_int, DecimalString.NilZero.string_of_int;
    pose proof (pos_digits p); pose proof (length_string_of_uint (Pos.to_uint p)); cbn [bits].
  - lia.
  - cbn [String.length]. lia.
Qed.

Lemma bits_bound z n : (0 <= z < 2 ^ Z.of_nat n)%Z -> (bits z <= S n)%nat.
Proof.
  intros Hz. destruct z as [|p|p]; cbn [bits]; [lia| |lia].
  assert (Hs : (2 ^ Z.of_nat (Pos.size_nat p - 1) <= Zpos p)%Z).
  { clear. induction p as [p IH|p IH|]; cbn [Pos.size_nat]; [| |cbn; lia];
      (destruct (Pos.size_nat p) as [|k] eqn:Hk; [by destruct p|]);
      replace (S (S k) - 1)%nat with (S k) by lia; replace (S k - 1)%nat with k in IH by lia;
      rewrite Nat2Z.inj_succ, Z.pow_succ_r by lia; lia. }
  destruct (decide (Pos.size_nat p <= n)%nat) as [|Hgt]; [lia|].
  assert ((2 ^ Z.of_nat n <= 2 ^ Z.of_nat (Pos.size_nat p - 1))%Z); [|lia].
  apply Z.pow_le_mono_r; lia.
Qed.

(** ** Strings *)
Lemma length_hex4 cp : String.length (hex4 cp) = 4%nat.
Proof. unfold hex4. by rewrite !string_length_app. Qed.

Lemma length_escape cp : (String.length (escape_code_point cp) <= 12)%nat.
Proof.
  unfold escape_code_point. cbv zeta.
  repeat (case_match; [rewrite ?string_length_app, ?length_hex4; cbn [char String.length]; lia|]).
  rewrite !string_length_app, !length_hex4. cbn [char String.length]. lia.
Qed.

Lemma length_code_points s : forall n acc, (length (code_points s n acc) <= String.length s)%nat.
Proof.
  induction s as [|c s IH]; intros n acc; cbn [code_points]; [done|].
  repeat case_match; cbn [length String.length]; eauto using le_S, le_n_S.
Qed.

Lemma length_dumps_str s : (String.length (dumps_str s) <= 12 * String.length s + 2)%nat.
Proof.
  unfold dumps_str. rewrite !string_length_app. pose proof (length_code_points s 0 0%Z) as Hl.
  enough (Hf : forall l, (String.length (foldr (fun cp acc => escape_code_point cp +:+ acc) EmptyString l)
                          <= 12 * length l)%nat).
  { specialize (Hf (code_points s 0 0)). unfold char. cbn [String.length]. lia. }
  induction l as [|cp l IH]; [cbn; lia|]. cbn [foldr length]. rewrite string_length_app.
  pose proof (length_escape cp). lia.
Qed.

(** ** Values *)
Definition sum_nat (l : list nat) : nat := foldr Nat.add 0%nat l.

Fixpoint size_bound (v : json) : nat :=
  match v with
  | JNull => 4
  | JBool _ => 5
  | JInt z => S (S (bits z))
  | JFloat r => String.length r
  | JStr s => 12 * String.length s + 2
  | JList l => 2 + sum_nat ((fun x => size_bound x + 2) <$> l)
  | JObj d => 2 + sum_nat ((fun kv => 12 * String.length kv.1 + 6 + size_bound kv.2) <$> d)
  end.

Lemma length_str_join sep l :
  (String.length (str_join sep l) <= sum_nat ((fun x => String.length x + String.length sep) <$> l))%nat.
Proof.
  induction l as [|x l IH]; [cbn; lia|]. destruct l as [|y l]; [cbn; lia|].
  change (str_join sep (x :: y :: l)) with (x +:+ sep +:+ str_join sep (y :: l)).
  rewrite !string_length_app. cbn [fmap list_fmap sum_nat foldr] in *. unfold sum_nat in *. lia.
Qed.

Lemma sum_nat_le {A} (f g : A -> nat) l :
  Forall (fun x => f x <= g x)%nat l -> (sum_nat (f <$> l) <= sum_nat (g <$> l))%nat.
Proof.
  induction 1 as [|x l Hx _ IH]; cbn; [lia|]. unfold sum_nat in IH. lia.
Qed.

(** [len(json.dumps(v))] is at most [size_bound v]. *)
Lemma length_dumps_default v : (String.length (dumps_default v) <= size_bound v)%nat.
Proof.
  Transparent dumps_default. unfold dumps_default. Opaque dumps_default.
  induction v as [|b|z|r|s|l IH|d IH] using json_strong_ind.
  - cbn. lia.
  - destruct b; cbn; lia.
  - apply length_string_of_Z.
  - cbn. lia.
  - apply length_dumps_str.
  - cbn [dumps_with size_bound]. rewrite !string_length_app. cbn [String.length].
    pose proof (length_str_join ", " (dumps_with false ", " ": " <$> l)) as Hj.
    rewrite <- list_fmap_compose in Hj. cbn [String.length] in Hj.
    assert (Hs : (sum_nat ((fun x => String.length (dumps_with false ", " ": " x) + 2) <$> l)
                  <= sum_nat ((fun x => size_bound x + 2) <$> l))%nat).
    { apply sum_nat_le. eapply Forall_impl; [exact IH|]. intros x Hx. cbn in *. lia. }
    unfold compose in Hj. lia.
  - cbn [dumps_with size_bound]. rewrite !string_length_app. cbn [String.length].
    set (f := fun kv : string * json => (kv.1, dumps_with false ", " ": " kv.2)).
    pose proof (length_str_join ", " ((fun kv => dumps_str kv.1 +:+ ": " +:+ kv.2) <$> (f <$> d))) as Hj.
    rewrite <- !list_fmap_compose in Hj. unfold compose in Hj. cbn [String.length] in Hj.
    assert (Hs : (sum_nat ((fun kv => String.length (dumps_str (f kv).1 +:+ ": " +:+ (f kv).2) + 2) <$> d)
        <= sum_nat ((fun kv => 12 * String.length kv.1 + 6 + size_bound kv.2) <$> d))%nat).
    { apply sum_nat_le. eapply Forall_impl; [exact IH|]. intros [k x] Hx. unfold f. cbn [fst snd] in *.
      rewrite !string_length_app. cbn [String.length]. pose proof (length_dumps_str k). lia. }
    rewrite <- list_fmap_compose. unfold compose in *. lia.
Qed.

(** ** Sums *)
Lemma sum_nat_bound {A} (f : A -> nat) k l :
  Forall (fun x => f x <= k)%nat l -> (sum_nat (f <$> l) <= k * length l)%nat.
Proof. induction 1 as [|x l Hx _ IH]; cbn; [lia|]. unfold sum_nat in IH. lia. Qed.

#[export] Instance sum_nat_perm : Proper ((≡ₚ) ==> (=)) sum_nat.
Proof. induction 1; cbn in *; unfold sum_nat in *; lia. Qed.
