(* ===== verification/Identifiers.v ===== *)
(** * Durable identifiers and file-name keys ([clio_relay/identifiers.py])

    A durable record identifier becomes a file name, so the contract is the
    portable one: lowercase ASCII, at most 128 bytes, no Windows device name.
    [filesystem_key] maps an arbitrary operator label to such a name. *)

From S2P Require Import Prelude Sha256 Json.
From stdpp Require Import base list strings.
From Stdlib Require Import ZArith Lia.
From Stdlib Require Ascii String.

Definition DURABLE_RECORD_ID_MAX_BYTES : nat := 128.
Definition FILESYSTEM_KEY_VERSION : string := "k2".
Definition FILESYSTEM_KEY_PREFIX : string := "k2-".

(** The character classes [[a-z0-9]] and [[a-z0-9_-]]. *)
Definition id_first (c : Ascii.ascii) : bool := is_lower c || is_digit c.
Definition id_rest (c : Ascii.ascii) : bool :=
  id_first c || N.eqb (code c) 95 || N.eqb (code c) 45.

(** [DURABLE_RECORD_ID_PATTERN] under [fullmatch]. *)
Definition durable_record_id_match (s : string) : bool :=
  match s with
  | EmptyString => false
  | String c s' => id_first c && str_forall id_rest s' && (String.length s' <=? 127)%nat
  end.

Definition windows_reserved : list string :=
  ["aux"; "con"; "nul"; "prn";
   "com1"; "com2"; "com3"; "com4"; "com5"; "com6"; "com7"; "com8"; "com9";
   "lpt1"; "lpt2"; "lpt3"; "lpt4"; "lpt5"; "lpt6"; "lpt7"; "lpt8"; "lpt9"].

(** [validate_durable_record_id(value)] *)
Definition validate_durable_record_id (value : json) : result string :=
  match value with
  | JStr s =>
      if (DURABLE_RECORD_ID_MAX_BYTES <? String.length s)%nat then
        Err (ValueError "durable record ID must be at most 128 UTF-8 bytes")
      else if negb (durable_record_id_match s) then
        Err (ValueError "durable record ID must match")
      else if bool_decide (s ∈ windows_reserved) then
        Err (ValueError "durable record ID is a reserved Windows device basename: ")
      else Ok s
  | _ => Err (TypeError "durable record ID must be a string")
  end.

(** [QueueLayout.require_durable_record_id]: the same check; only [ValueError]
    is rewrapped. *)
Definition require_durable_record_id (value : json) (field : string) : result string :=
  match validate_durable_record_id value with
  | Err (ValueError m) => Err (ValueError ("invalid " +:+ field +:+ ": " +:+ m))
  | r => r
  end.

(** [safe_global_record_id] *)
Definition safe_global_record_id (value : json) : bool :=
  match value with
  | JStr _ => is_ok (validate_durable_record_id value)
  | _ => false
  end.

Definition starts_with (p s : string) : bool := String.prefix p s.

(** [_portable_passthrough_key] *)
Definition _portable_passthrough_key (s : string) : bool :=
  if starts_with FILESYSTEM_KEY_PREFIX s then false
  else is_ok (validate_durable_record_id (JStr s)).

(** [_FILESYSTEM_KEY_DOMAIN] under [fullmatch]: [[a-z][a-z0-9_.-]{0,63}]. *)
Definition filesystem_key_domain_match (d : string) : bool :=
  match d with
  | EmptyString => false
  | String c d' =>
      is_lower c && str_forall (fun x => id_rest x || N.eqb (code x) 46) d'
      && (String.length d' <=? 63)%nat
  end.

Definition _validate_filesystem_key_domain (domain : string) : result unit :=
  raise_unless (filesystem_key_domain_match domain)
    (ValueError "filesystem key domain must start with a lowercase letter and contain only ").

Definition nul : string := String (Ascii.ascii_of_N 0) EmptyString.

(** The hashed material of [filesystem_key]. *)
Definition filesystem_key_material (domain value : string) : string :=
  "clio-relay.fs-key.v2" +:+ nul +:+ domain +:+ nul +:+ value.

(** [filesystem_key(value, domain=domain)] *)
Definition filesystem_key (value : json) (domain : string) : result string :=
  _ ← _validate_filesystem_key_domain domain;
  match value with
  | JStr s =>
      if negb (str_nonempty s) then Err (ValueError "filesystem key value must not be empty")
      else if _portable_passthrough_key s then Ok s
      else Ok (FILESYSTEM_KEY_PREFIX +:+ sha256_hex (filesystem_key_material domain s))
  | _ => Err (TypeError "filesystem key value must be a string")
  end.

(** ** Lemmas *)
Lemma id_first_rest c : id_first c = true -> id_rest c = true.
Proof. unfold id_rest. intros ->. done. Qed.

Lemma lower_hex_rest c : is_lower_hex c = true -> id_rest c = true.
Proof.
  unfold is_lower_hex, id_rest, id_first, is_lower, is_digit, in_range. intros H.
  apply orb_true_iff in H as [H|H]; [by rewrite H, !orb_true_r|].
  apply andb_true_iff in H as [H1 H2].
  apply N.leb_le in H1, H2.
  rewrite (proj2 (N.leb_le 97 (code c))) by lia.
  rewrite (proj2 (N.leb_le (code c) 122)) by lia. done.
Qed.

Lemma validate_ok_inv v s :
  validate_durable_record_id v = Ok s ->
  v = JStr s /\ (String.length s <= 128)%nat /\ durable_record_id_match s = true /\
  s ∉ windows_reserved.
Proof.
  unfold validate_durable_record_id. destruct v; try done.
  destruct (DURABLE_RECORD_ID_MAX_BYTES <? String.length s0)%nat eqn:Hlen; [done|].
  destruct (durable_record_id_match s0) eqn:Hm; cbn; [|done].
  case_bool_decide; [done|]. intros [= ->].
  apply Nat.ltb_ge in Hlen. done.
Qed.

(** A valid identifier is exactly what the documented contract says: 1 to 128
    bytes of lowercase ASCII letters, digits, [_] and [-], starting with a
    letter or digit, and not a Windows device name. *)
Lemma validate_durable_record_id_iff s :
  validate_durable_record_id (JStr s) = Ok s <->
  (1 <= String.length s <= 128)%nat /\ str_forall id_rest s = true /\
  match s with String c _ => id_first c = true | EmptyString => False end /\
  s ∉ windows_reserved.
Proof.
  split.
  - intros (_&Hlen&Hm&Hres)%validate_ok_inv.
    destruct s as [|c s]; [done|]. cbn in *.
    apply andb_true_iff in Hm as [[Hc Hs]%andb_true_iff _].
    rewrite (id_first_rest c Hc), Hs. split_and!; [lia|lia|done|done|done].
  - intros (Hlen&Hs&Hc&Hres). destruct s as [|c s]; [done|].
    cbn in Hs. apply andb_true_iff in Hs as [_ Hs]. cbn [String.length] in Hlen.
    unfold validate_durable_record_id. cbn [String.length durable_record_id_match].
    rewrite (proj2 (Nat.ltb_ge _ _)) by (unfold DURABLE_RECORD_ID_MAX_BYTES; lia).
    rewrite Hc, Hs, (proj2 (Nat.leb_le _ _)) by lia. cbn.
    by rewrite bool_decide_false.
Qed.

Lemma validate_str_ok s s' : validate_durable_record_id (JStr s) = Ok s' -> s' = s.
Proof. intros (Heq&_)%validate_ok_inv. congruence. Qed.

Lemma reserved_length s : s ∈ windows_reserved -> (String.length s <= 4)%nat.
Proof.
  unfold windows_reserved. rewrite !elem_of_cons. intros H.
  repeat (destruct H as [->|H]; [cbn; lia|]). by apply elem_of_nil in H.
Qed.

(** An identifier prefix followed by a long enough run of hexadecimal digits. *)
Lemma prefixed_hex_valid c pre h :
  id_first c = true -> str_forall id_rest pre = true -> str_forall is_lower_hex h = true ->
  (4 <= String.length h)%nat -> (String.length pre + String.length h <= 127)%nat ->
  validate_durable_record_id (JStr (String c pre +:+ h)) = Ok (String c pre +:+ h).
Proof.
  intros Hc Hpre Hh H4 H127. apply validate_durable_record_id_iff.
  rewrite append_cons. cbn [str_forall String.length]. rewrite string_length_app, str_forall_app, Hpre.
  rewrite (str_forall_impl is_lower_hex id_rest _ lower_hex_rest Hh), id_first_rest by done.
  split_and!; [lia|lia|done|done|].
  intros Hin%reserved_length. cbn in Hin. rewrite string_length_app in Hin. lia.
Qed.

(** The digest branch yields a valid identifier in the reserved [k2-] space. *)
Lemma digest_key_valid s :
  validate_durable_record_id (JStr (FILESYSTEM_KEY_PREFIX +:+ sha256_hex s))
  = Ok (FILESYSTEM_KEY_PREFIX +:+ sha256_hex s).
Proof.
  destruct (sha256_hex_shape s) as [Hhex Hlen].
  apply prefixed_hex_valid; try done; rewrite Hlen; cbn; lia.
Qed.

Lemma digest_key_prefix s : starts_with FILESYSTEM_KEY_PREFIX (FILESYSTEM_KEY_PREFIX +:+ s) = true.
Proof. unfold starts_with, FILESYSTEM_KEY_PREFIX. by destruct s. Qed.
