(* ===== verification/Models.v ===== *)
(** * Durable records ([models_enums.py], [models_scheduling.py], [models_job.py],
      [models_job_telemetry.py])

    Each pydantic model is a [Record] with the source's field names (prefixed
    where two models share one), and each model's declared constraints and
    [model_validator]s are one boolean predicate.  pydantic runs the predicate
    when a record is built or read back, and does not run it in [model_copy].
    A timestamp is the number of microseconds since the epoch, in UTC. *)

From S2P Require Import Prelude Sha256 Json Identifiers.
From stdpp Require Import base list strings.
From Stdlib Require Import ZArith Lia.
From Stdlib Require Import Floats.SpecFloat.
From Stdlib Require Ascii String.

(** ** Enumerations *)
Inductive JobKind := JARVIS | REMOTE_AGENT | MCP_CALL | INPUT_INGEST.

#[export] Instance JobKind_eq_dec : EqDecision JobKind.
Proof. solve_decision. Defined.

Definition JobKind_value (k : JobKind) : string :=
  match k with
  | JARVIS => "jarvis"
  | REMOTE_AGENT => "remote_agent"
  | MCP_CALL => "mcp_call"
  | INPUT_INGEST => "input_ingest"
  end.

Definition all_job_kinds : list JobKind := [JARVIS; REMOTE_AGENT; MCP_CALL; INPUT_INGEST].

(** The enum constructor call [JobKind(raw)]. *)
Definition JobKind_of_value (raw : string) : option JobKind :=
  list_find (fun k => JobKind_value k = raw) all_job_kinds ≫= fun p => Some p.2.

Inductive JobState := QUEUED | LEASED | RUNNING | SUCCEEDED | FAILED | CANCELED.

#[export] Instance JobState_eq_dec : EqDecision JobState.
Proof. solve_decision. Defined.

Definition JobState_value (s : JobState) : string :=
  match s with
  | QUEUED => "queued"
  | LEASED => "leased"
  | RUNNING => "running"
  | SUCCEEDED => "succeeded"
  | FAILED => "failed"
  | CANCELED => "canceled"
  end.

(** [state in TERMINAL_STATES] *)
Definition is_terminal (s : JobState) : bool :=
  match s with SUCCEEDED | FAILED | CANCELED => true | _ => false end.

Module SchedulerPhase.
Inductive t := SUBMITTED | PENDING | ALLOCATED | RUNNING | COMPLETED | FAILED | CANCELED | UNKNOWN.

#[global] Instance eq_dec : EqDecision t.
Proof. solve_decision. Defined.

Definition value (p : t) : string :=
  match p with
  | SUBMITTED => "submitted"
  | PENDING => "pending"
  | ALLOCATED => "allocated"
  | RUNNING => "running"
  | COMPLETED => "completed"
  | FAILED => "failed"
  | CANCELED => "canceled"
  | UNKNOWN => "unknown"
  end.
End SchedulerPhase.

(** [SchedulerCancelDispositionState] *)
Module Disposition.
Inductive state :=
  | PENDING
  | RETRY_WAIT
  | CANCEL_REQUESTED
  | CANCELED
  | TERMINAL
  | NOT_FOUND
  | REFUSED
  | EXHAUSTED.

#[global] Instance eq_dec : EqDecision state.
Proof. solve_decision. Defined.
End Disposition.

(** [identity_resolution: Literal["pending", "resolved", "none", "superseded"]] *)
Inductive IdentityResolution := res_pending | res_resolved | res_none | res_superseded.

#[export] Instance IdentityResolution_eq_dec : EqDecision IdentityResolution.
Proof. solve_decision. Defined.

(** ** Field constraints *)

(** [Field(min_length=lo, max_length=hi)] on a [str]. *)
Definition str_between (lo hi : nat) (s : string) : bool :=
  (lo <=? str_len s)%nat && (str_len s <=? hi)%nat.

Definition opt_forall {A} (p : A -> bool) (o : option A) : bool :=
  match o with None => true | Some a => p a end.

(** [DurableRecordId] *)
Definition valid_id (s : string) : bool := is_ok (validate_durable_record_id (JStr s)).

(** ** Scheduler cancellation records *)
Record SchedulerCancelDisposition := mkDisposition {
  scheduler_job_id : string;
  provider : option string;
  state : Disposition.state;
  attempts : Z;
  confirmation_attempts : Z;
  next_attempt_at : option Z;
  last_error : option string;
  attempt_claim_id : option string;
  attempt_claimed_at : option Z;
  attempt_claim_expires_at : option Z;
  confirmation_claim_id : option string;
  confirmation_claimed_at : option Z;
  confirmation_claim_expires_at : option Z;
  disposition_updated_at : Z;
}.

#[export] Instance SchedulerCancelDisposition_eq_dec : EqDecision SchedulerCancelDisposition.
Proof. solve_decision. Defined.

(** The number of populated claim fields is 0 or 3. *)
Definition claim_complete (i : option string) (c e : option Z) : bool :=
  match i, c, e with
  | None, None, None | Some _, Some _, Some _ => true
  | _, _, _ => false
  end.

Definition retryable (s : Disposition.state) : bool :=
  match s with Disposition.PENDING | Disposition.RETRY_WAIT => true | _ => false end.

(** [validate_attempt_claim] *)
Definition validate_attempt_claim (d : SchedulerCancelDisposition) : bool :=
  claim_complete (attempt_claim_id d) (attempt_claimed_at d) (attempt_claim_expires_at d) &&
  match attempt_claim_id d, attempt_claimed_at d, attempt_claim_expires_at d with
  | None, _, _ => true
  | Some _, Some c, Some e => retryable (state d) && (c <? e)%Z
  | Some _, _, _ => false
  end.

(** [validate_confirmation_claim] *)
Definition validate_confirmation_claim (d : SchedulerCancelDisposition) : bool :=
  claim_complete (confirmation_claim_id d) (confirmation_claimed_at d)
                 (confirmation_claim_expires_at d) &&
  match confirmation_claim_id d, confirmation_claimed_at d, confirmation_claim_expires_at d with
  | None, _, _ => true
  | Some _, Some c, Some e =>
      bool_decide (state d = Disposition.CANCEL_REQUESTED) && (c <? e)%Z
  | Some _, _, _ => false
  end.

(** Every constraint of [SchedulerCancelDisposition]. *)
Definition valid_disposition (d : SchedulerCancelDisposition) : bool :=
  str_between 1 256 (scheduler_job_id d) &&
  opt_forall (str_between 1 128) (provider d) &&
  (0 <=? attempts d)%Z && (attempts d <=? 100)%Z &&
  (0 <=? confirmation_attempts d)%Z && (confirmation_attempts d <=? 100)%Z &&
  opt_forall (str_between 0 16384) (last_error d) &&
  opt_forall valid_id (attempt_claim_id d) &&
  opt_forall valid_id (confirmation_claim_id d) &&
  validate_attempt_claim d && validate_confirmation_claim d.

Record SchedulerCancelPending := mkPending {
  pending_job_id : string;
  pending_cluster : string;
  requested_at : Z;
  reason : string;
  identity_resolution : IdentityResolution;
  dispositions : list SchedulerCancelDisposition;
  pending_updated_at : Z;
}.

#[export] Instance SchedulerCancelPending_eq_dec : EqDecision SchedulerCancelPending.
Proof. solve_decision. Defined.

(** Every constraint of [SchedulerCancelPending]. *)
Definition valid_pending (r : SchedulerCancelPending) : bool :=
  valid_id (pending_job_id r) &&
  str_between 1 256 (pending_cluster r) &&
  str_between 1 256 (reason r) &&
  forallb valid_disposition (dispositions r) &&
  (length (dispositions r) <=? 1000)%nat.

(** A disposition with no further cancellation work. *)
Definition final_state (s : Disposition.state) : bool :=
  match s with
  | Disposition.CANCELED | Disposition.TERMINAL | Disposition.NOT_FOUND
  | Disposition.REFUSED | Disposition.EXHAUSTED => true
  | _ => false
  end.

(** The [complete] property. *)
Definition complete (r : SchedulerCancelPending) : bool :=
  match identity_resolution r with
  | res_none | res_superseded => true
  | res_resolved =>
      match dispositions r with
      | [] => false
      | ds => forallb (fun d => final_state (state d)) ds
      end
  | res_pending => false
  end.

(** ** Jobs, leases and events *)
Record RelayJob := mkJob {
  job_id : string;
  job_cluster : string;
  job_kind : JobKind;
  job_state : JobState;
  job_spec : json;
  idempotency_key : string;
  owner_session_id : option string;
  owner_session_generation_id : option string;
  used_artifact_refs : list (string * json);
  submission_digest : option string;
  job_created_at : Z;
  job_updated_at : Z;
  leased_by : option string;
  job_attempts : Z;
  job_last_error : option string;
  storage_reservation : option (Z * Z);
  metadata : list (string * json);
}.

#[export] Instance RelayJob_eq_dec : EqDecision RelayJob.
Proof. solve_decision. Defined.

Record Lease := mkLease {
  lease_id : string;
  lease_job_id : string;
  lease_endpoint_id : string;
  acquired_at : Z;
  expires_at : Z;
}.

#[export] Instance Lease_eq_dec : EqDecision Lease.
Proof. solve_decision. Defined.

(** [Lease.is_expired(now)] *)
Definition is_expired (l : Lease) (now : Z) : bool := (expires_at l <=? now)%Z.

(** What the operational lease indexes bind a lease to ([queue_lease_records.py]). *)
Record LeaseIndexIdentity := mkIdentity {
  ix_lease_id : string;
  ix_job_id : string;
  ix_endpoint_id : string;
  ix_cluster : string;
  ix_job_kind : JobKind;
  ix_expires_at : Z;
}.

#[export] Instance LeaseIndexIdentity_eq_dec : EqDecision LeaseIndexIdentity.
Proof. solve_decision. Defined.

Inductive EndpointRole := DESKTOP | WORKER.

#[export] Instance EndpointRole_eq_dec : EqDecision EndpointRole.
Proof. solve_decision. Defined.

Inductive McpAdmissionClass := WORKLOAD | CONTROL_QUERY.

#[export] Instance McpAdmissionClass_eq_dec : EqDecision McpAdmissionClass.
Proof. solve_decision. Defined.

Definition McpAdmissionClass_value (c : McpAdmissionClass) : string :=
  match c with WORKLOAD => "workload" | CONTROL_QUERY => "control_query" end.

Record EndpointRegistration := mkEndpoint {
  endpoint_id : string;
  endpoint_role : EndpointRole;
  endpoint_cluster : option string;
  hostname : string;
  pid : Z;
  registered_at : Z;
  last_seen_at : Z;
  endpoint_metadata : list (string * json);
}.

(** Every constraint of [EndpointRegistration]. *)
Definition valid_endpoint (e : EndpointRegistration) : bool := valid_id (endpoint_id e).

(** [EventLevel] *)
Inductive EventLevel := INFO | WARNING | ERROR.

#[export] Instance EventLevel_eq_dec : EqDecision EventLevel.
Proof. solve_decision. Defined.

(** [TaskEventStatus] *)
Module TaskEventStatus.
Inductive t := PLANNED | RUNNING | SUCCEEDED | WARNING | ERROR | CANCELED.

Definition value (s : t) : string :=
  match s with
  | PLANNED => "planned"
  | RUNNING => "running"
  | SUCCEEDED => "succeeded"
  | WARNING => "warning"
  | ERROR => "error"
  | CANCELED => "canceled"
  end.
End TaskEventStatus.

Record RelayEvent := mkEvent {
  event_job_id : string;
  event_seq : Z;
  event_type : string;
  event_message : string;
  event_level : EventLevel;
  event_created_at : Z;
  event_payload : list (string * json);
}.

#[export] Instance RelayEvent_eq_dec : EqDecision RelayEvent.
Proof. solve_decision. Defined.

(** Every constraint of [RelayEvent]. *)
Definition valid_event (e : RelayEvent) : bool := valid_id (event_job_id e).

Record RelayTask := mkTask {
  task_id : string;
  task_job_id : string;
  task_sequence : option Z;
  task_name : string;
  task_state : JobState;
  task_created_at : Z;
  task_updated_at : Z;
  task_metadata : list (string * json);
}.

(** Every constraint of [RelayTask]. *)
Definition valid_task (t : RelayTask) : bool :=
  valid_id (task_id t) && valid_id (task_job_id t) && opt_forall (Z.leb 1) (task_sequence t).

Record TaskTimelineEvent := mkTaskEvent {
  tev_task_id : string;
  tev_seq : Z;
  tev_event_type : string;
  tev_label : string;
  tev_status : TaskEventStatus.t;
  tev_summary : string;
  tev_detail : option string;
  tev_artifact_refs : list string;
  tev_path_refs : list string;
  tev_created_at : Z;
  tev_metadata : list (string * json);
}.

(** Every constraint of [TaskTimelineEvent]. *)
Definition valid_task_event (e : TaskTimelineEvent) : bool :=
  valid_id (tev_task_id e) && (0 <=? tev_seq e)%Z && forallb valid_id (tev_artifact_refs e) &&
  str_nonempty (tev_event_type e) && str_nonempty (tev_label e) && str_nonempty (tev_summary e).

(** [event.model_copy(update={"seq": seq})] *)
Definition with_seq (e : TaskTimelineEvent) (seq : Z) : TaskTimelineEvent :=
  mkTaskEvent (tev_task_id e) seq (tev_event_type e) (tev_label e) (tev_status e) (tev_summary e)
    (tev_detail e) (tev_artifact_refs e) (tev_path_refs e) (tev_created_at e) (tev_metadata e).

(** A Python [float] is a binary64 number. *)
Record ProgressRecord := mkProgress {
  progress_id : string;
  progress_job_id : string;
  progress_sequence : option Z;
  progress_label : string;
  progress_current : option spec_float;
  progress_total : option spec_float;
  progress_unit : option string;
  progress_message : option string;
  source_event_seq : option Z;
  progress_created_at : Z;
  progress_metadata : list (string * json);
}.

(** Every constraint of [ProgressRecord]. *)
Definition valid_progress (p : ProgressRecord) : bool :=
  valid_id (progress_id p) && valid_id (progress_job_id p) &&
  opt_forall (Z.leb 1) (progress_sequence p) &&
  opt_forall (SFltb (S754_zero false)) (progress_total p) &&
  opt_forall (Z.leb 1) (source_event_seq p) && str_nonempty (progress_label p).

Record Cursor := mkCursor { cursor_job_id : string; cursor_next_seq : Z }.

(** [JobGcPhase] *)
Module JobGcPhase.
Inductive t := PREPARED | IDEMPOTENCY_RETIRED | RECORDS_TRASHED | REFERENCES_TRASHED | PURGING | COMPLETE.

Definition value (p : t) : string :=
  match p with
  | PREPARED => "prepared"
  | IDEMPOTENCY_RETIRED => "idempotency_retired"
  | RECORDS_TRASHED => "records_trashed"
  | REFERENCES_TRASHED => "references_trashed"
  | PURGING => "purging"
  | COMPLETE => "complete"
  end.
End JobGcPhase.

Record JobTombstone := mkTombstone {
  tomb_schema_version : string;
  tomb_job_id : string;
  tomb_cluster : string;
  tomb_kind : JobKind;
  tomb_final_state : JobState;
  tomb_idempotency_key : string;
  tomb_job_digest : string;
  tomb_created_at : Z;
  tomb_updated_at : Z;
  tomb_attempts : Z;
  tomb_last_error : option string;
  external_quarantine_id : string;
  tomb_phase : JobGcPhase.t;
  gc_started_at : Z;
  gc_updated_at : Z;
  removed_records : Z;
  records_trash_started : bool;
  monitor_cursor : option string;
  monitor_scan_complete : bool;
}.

(** Every constraint of [JobTombstone]. *)
Definition valid_tombstone (t : JobTombstone) : bool :=
  valid_id (tomb_job_id t) && (0 <=? tomb_attempts t)%Z && str_between 1 512 (external_quarantine_id t) &&
  (0 <=? removed_records t)%Z.

(** ** Owner sessions *)
Record OwnerSessionClosure := mkClosure {
  closure_schema_version : string;
  closure_owner_session_id : string;
  closure_generation_id : option string;
  covered_by_session_generation_id : option string;
  covered_legacy_job_ids : list string;
  residual_resource_ids : list string;
  closed_at : Z;
}.

#[export] Instance OwnerSessionClosure_eq_dec : EqDecision OwnerSessionClosure.
Proof. solve_decision. Defined.

(** [sorted(set(ids))] *)
Definition sorted_set (ids : list string) : list string := sort_by str_leb (remove_dups ids).

(** Every constraint of [OwnerSessionClosure]. *)
Definition valid_closure (c : OwnerSessionClosure) : bool :=
  str_between 1 256 (closure_owner_session_id c) && opt_forall valid_id (closure_generation_id c) &&
  opt_forall valid_id (covered_by_session_generation_id c) &&
  forallb valid_id (covered_legacy_job_ids c) && (length (covered_legacy_job_ids c) <=? 1000)%nat &&
  (length (residual_resource_ids c) <=? 1000)%nat &&
  match closure_generation_id c with
  | Some _ => bool_decide (covered_by_session_generation_id c = None) &&
              bool_decide (covered_legacy_job_ids c = [])
  | None => bool_decide (covered_by_session_generation_id c <> None) &&
            bool_decide (covered_legacy_job_ids c <> []) &&
            bool_decide (covered_legacy_job_ids c = sorted_set (covered_legacy_job_ids c)) &&
            bool_decide (residual_resource_ids c = [])
  end.

Record OwnerSessionJobMembership := mkMembership {
  member_schema_version : string;
  member_owner_session_id : string;
  member_generation_id : option string;
  member_job_id : string;
  member_cluster : string;
  member_state : JobState;
  member_created_at : Z;
  member_updated_at : Z;
}.

(** Every constraint of [OwnerSessionJobMembership]. *)
Definition valid_membership (m : OwnerSessionJobMembership) : bool :=
  str_between 1 256 (member_owner_session_id m) && opt_forall valid_id (member_generation_id m) &&
  valid_id (member_job_id m) && str_between 1 256 (member_cluster m).

(** ** Artifacts and gateways *)
Record ArtifactRef := mkArtifact {
  artifact_id : string;
  artifact_job_id : string;
  artifact_sequence : option Z;
  artifact_uri : string;
  artifact_kind : string;
  artifact_size_bytes : option Z;
  artifact_sha256 : option string;
  artifact_created_at : Z;
  artifact_metadata : list (string * json);
}.

(** Every constraint of [ArtifactRef]. *)
Definition valid_artifact (a : ArtifactRef) : bool :=
  valid_id (artifact_id a) && valid_id (artifact_job_id a) &&
  opt_forall (Z.leb 1) (artifact_sequence a) && opt_forall (Z.leb 0) (artifact_size_bytes a).

(** [GatewaySessionState] *)
Module GatewaySessionState.
Inductive t :=
  CREATED | SUBMITTED | PENDING | ALLOCATED | STARTING | READY | DEGRADED | FAILED | CLOSED | UNKNOWN.

#[export] Instance t_eq_dec : EqDecision t.
Proof. solve_decision. Defined.
End GatewaySessionState.

Record GatewaySession := mkGateway {
  session_id : string;
  gw_cluster : string;
  gw_name : string;
  gw_state : GatewaySessionState.t;
  gw_scheduler : string;
  gw_scheduler_job_id : option string;
  gw_queue_state : option string;
  gw_node : option string;
  gw_requested_resources : list (string * json);
  gw_submit_time : option Z;
  gw_start_time : option Z;
  gw_expected_expiry : option Z;
  gw_stdout_uri : option string;
  gw_stderr_uri : option string;
  gw_log_uris : list string;
  gw_gateway : list (string * json);
  gw_artifacts : list string;
  gw_created_at : Z;
  gw_updated_at : Z;
  gw_metadata : list (string * json);
}.

(** Every constraint of [GatewaySession]. *)
Definition valid_gateway (g : GatewaySession) : bool :=
  valid_id (session_id g) && str_nonempty (gw_cluster g) && str_nonempty (gw_name g) &&
  (length (gw_log_uris g) <=? 1000)%nat && (length (gw_artifacts g) <=? 1000)%nat.

Lemma JobKind_of_value_value k : JobKind_of_value (JobKind_value k) = Some k.
Proof. by destruct k. Qed.

Lemma JobKind_of_value_Some raw k : JobKind_of_value raw = Some k -> raw = JobKind_value k.
Proof.
  unfold JobKind_of_value. destruct (list_find _ _) as [[i k']|] eqn:H; cbn; [|done].
  intros [= ->]. apply list_find_Some in H as (_&H&_). done.
Qed.

Lemma retryable_not_final s : retryable s = true -> final_state s = false.
Proof. by destruct s. Qed.

Lemma complete_false_retryable r i d :
  dispositions r !! i = Some d -> final_state (state d) = false ->
  identity_resolution r = res_resolved -> complete r = false.
Proof.
  intros Hi Hd Hres. unfold complete. rewrite Hres.
  destruct (dispositions r) as [|d0 ds]; [done|].
  apply not_true_iff_false. rewrite forallb_forall. intros Hall.
  rewrite (Hall d) in Hd; [done|].
  apply list_elem_of_In, list_elem_of_lookup. eauto.
Qed.

Lemma valid_pending_lookup r i d :
  valid_pending r = true -> dispositions r !! i = Some d -> valid_disposition d = true.
Proof.
  unfold valid_pending. intros Hv Hi. apply andb_true_iff in Hv as [Hv _].
  apply andb_true_iff in Hv as [_ Hv]. rewrite forallb_forall in Hv.
  apply Hv, list_elem_of_In, list_elem_of_lookup. eauto.
Qed.
