(* ===== verification/Store.v ===== *)
(** * The durable record store ([queue_layout.py], [queue_store_read.py],
      [queue_store_write.py])

    The queue keeps one small file per record below a storage root.  A path is
    the list of its components relative to that root, a file holds one
    document, and a write replaces a file atomically, so the store is a finite
    map from paths to documents.  Every write and every unlink is one durable
    step; a [budget] of durable steps lets a run stop at any crash point, and
    the state it leaves is exactly what a restarted process reads.

    [World] gathers what the code takes from its environment: the clock,
    [uuid4], the order in which [os.scandir] lists a directory, and the size of
    the JSON that pydantic prints for a typed record.  Operations run under the
    cross-process queue lock, so a sequence of them is a sequence of runs. *)

From S2P Require Import Prelude Sha256 Json Identifiers Models.
From stdpp Require Import base list gmap strings.
From Stdlib Require Import ZArith Lia.
From Stdlib Require Ascii String.

Abbreviation path := (list string).

(** ** Transition intents

    The write-ahead record of a change that touches several files; the payload of
    each kind holds the exact records of the change.  [queue_transitions.py] has one
    more kind, for index repair. *)
Inductive intent_payload :=
  | LeaseAcquireIntent (lease : Lease) (original_job target_job : RelayJob) (target_updated_at : Z)
                       (capacity : option json)
  | LeaseSyncIntent (lease previous_lease : Lease) (job : RelayJob) (capacity : option json)
  | LeaseDeleteIntent (job_id lease_id : string) (index : option (Lease * LeaseIndexIdentity))
                      (capacity : option json)
  | StaleRecoveryIntent (job_id : string) (original_job target_job : RelayJob) (leases : list Lease)
                        (event : RelayEvent) (capacity : option json)
  | JobSyncIntent (job_id : string) (updated_at : Z)
  | TaskSyncIntent (job_id task_id : string)
  | GatewaySyncIntent (session_id : string).

Record TransitionIntent := mkIntent {
  intent_identity : string;
  intent_created_at : Z;
  intent_body : intent_payload;
}.

(** ** Documents: one constructor per stored model, and the plain text files *)
Inductive doc :=
  | DJson (v : json)
  | DJob (j : RelayJob)
  | DLease (l : Lease)
  | DEvent (e : RelayEvent)
  | DCancel (r : SchedulerCancelPending)
  | DTask (t : RelayTask)
  | DTaskEvent (e : TaskTimelineEvent)
  | DProgress (p : ProgressRecord)
  | DEndpoint (e : EndpointRegistration)
  | DLeaseIndex (i : LeaseIndexIdentity)
  | DIntent (t : TransitionIntent)
  | DTombstone (t : JobTombstone)
  | DClosure (c : OwnerSessionClosure)
  | DMembership (m : OwnerSessionJobMembership)
  | DArtifact (a : ArtifactRef)
  | DGateway (g : GatewaySession)
  | DText (text : string).

Class World := {
  clock : nat -> Z;
  uuid4_at : nat -> string;
  uuid4_shape : forall n,
    str_forall is_lower_hex (uuid4_at n) = true /\ String.length (uuid4_at n) = 32;
  scandir_order : forall {A : Type}, list A -> list A;
  scandir_perm : forall {A : Type} (l : list A), scandir_order l ≡ₚ l;
  model_size : doc -> nat;
}.

Record disk := mkDisk {
  files : gmap path doc;
  budget : option nat;
  ticks : nat;
  draws : nat;
}.

Definition set_files (m : gmap path doc) (s : disk) : disk :=
  mkDisk m (budget s) (ticks s) (draws s).
Definition set_budget (b : option nat) (s : disk) : disk :=
  mkDisk (files s) b (ticks s) (draws s).

(** ** Layout constants and the byte limit of a record family *)
Definition DEFAULT_EXACT_RECORD_LIMIT : Z := 1000.
Definition MAX_ACTIVE_JOB_RECORDS : Z := 10000.
Definition MAX_LIVE_LEASE_RECORDS : Z := MAX_ACTIVE_JOB_RECORDS.
Definition MAX_LEASE_CAPACITY_SCOPES : Z := MAX_LIVE_LEASE_RECORDS.
Definition MAX_LEASE_CAPACITY_RECORD_BYTES : Z := 4 * 1048576.
Definition DEFAULT_RECORD_MAX_BYTES : Z := 1048576.
Definition MAX_LEGACY_OUTPUT_RECORD_BYTES : Z := 16 * 1048576.

Definition RECORD_FAMILY_MAX_BYTES : list (string * Z) :=
  [("active_gateway_refs_by_job", 1048576); ("active_gateway_refs_by_session", 65536);
   ("active_monitor_rules_by_job", 262144); ("active_tasks_by_job", 1048576);
   ("artifacts", 262144); ("artifacts_by_job", 262144); ("artifact_user_order", 262144);
   ("artifact_users", 262144); ("artifact_order_by_job", 262144); ("endpoints_fresh", 65536);
   ("endpoints_fresh_by_id", 65536); ("events", 262144); ("gc_runs", 65536);
   ("gateway_sessions", 1048576); ("global_order", 65536);
   ("gateway_reverse_refs_by_session", 65536); ("gateways_by_artifact", 1048576);
   ("gateways_by_scheduler", 1048576); ("idempotency", 65536); ("job_indexes", 65536);
   ("job_tombstones", 65536); ("jobs", 1048576); ("jobs_active", 1048576);
   ("jobs_queued", 1048576); ("jarvis_package_input_contracts", 262144);
   ("jarvis_pipeline_input_bindings", 1048576); ("jarvis_pipeline_input_lineage", 1048576);
   ("jarvis_run_input_manifests", 1048576); ("leases", 65536);
   ("legacy_output_archives", MAX_LEGACY_OUTPUT_RECORD_BYTES);
   ("legacy_output_receipts", 65536); ("legacy_output_retired", 65536);
   ("leases_by_job", 65536); ("lease_indexes", 65536);
   ("lease_capacity", MAX_LEASE_CAPACITY_RECORD_BYTES); ("migrations", 262144);
   ("monitor_rules", 262144); ("monitor_rules_by_job", 262144); ("mcp_tasks", 1048576);
   ("owner_sessions", 65536); ("owner_session_jobs", 65536);
   ("owner_session_legacy_jobs", 65536); ("progress", 262144); ("progress_by_job", 262144);
   ("progress_order_by_job", 262144); ("scheduler_jobs", 65536);
   ("scheduler_cancel_pending", 262144); ("scheduler_cancel_dispositions", 262144);
   ("scheduler_protections_by_job", 65536); ("scheduler_refs_by_job", 65536);
   ("task_event_heads", 65536); ("task_events", 262144); ("tasks", 1048576);
   ("tasks_by_job", 1048576); ("task_order_by_job", 1048576);
   ("transition_intents", 16777216); ("transforms", 262144); ("used_artifacts_by_job", 262144)]%Z.

(** [record_family(path)]: the innermost known directory, [global_order] first. *)
Definition record_family (p : path) : string :=
  let parents := removelast p in
  if bool_decide ("global_order" ∈ parents) then "global_order"
  else match list_find (fun part => is_Some (dict_get part RECORD_FAMILY_MAX_BYTES)) (reverse parents) with
       | Some (_, part) => part
       | None => "unknown"
       end.

(** [record_max_bytes(path)] *)
Definition record_max_bytes (p : path) : Z :=
  default DEFAULT_RECORD_MAX_BYTES (dict_get (record_family p) RECORD_FAMILY_MAX_BYTES).

(** ** Primitive operations *)
Section primitives.
Context `{World}.

Definition utc_now : M disk Z := fun s =>
  (Ok (clock (ticks s)), mkDisk (files s) (budget s) (S (ticks s)) (draws s)).

Definition uuid4_hex : M disk string := fun s =>
  (Ok (uuid4_at (draws s)), mkDisk (files s) (budget s) (ticks s) (S (draws s))).

(** One durable step: a process that has used up its budget stops before it. *)
Definition durable (f : gmap path doc -> gmap path doc) : M disk unit := fun s =>
  match budget s with
  | None => (Ok tt, set_files (f (files s)) s)
  | Some O => (Err Crashed, s)
  | Some (S n) => (Ok tt, set_files (f (files s)) (set_budget (Some n) s))
  end.

(** Bytes the store writes for a document: [json.dumps(record)] for a plain
    object, [record.model_dump_json(...)] for a typed one, the text itself for a
    text file. *)
Definition encoded_size (d : doc) : nat :=
  match d with
  | DJson v => String.length (dumps_default v)
  | DText text => String.length text
  | _ => model_size d
  end.

(** [write_bytes]: the size check, then one atomic replacement. *)
Definition write_doc (p : path) (d : doc) : M disk unit :=
  if (record_max_bytes p <? Z.of_nat (encoded_size d))%Z then
    raise (QueueConflictError "record exceeds the byte limit")
  else durable (fun m => <[p := d]> m).

(** [unlink_durable_path(path, missing_ok=True)] *)
Definition unlink_durable_path (p : path) : M disk unit := durable (fun m => delete p m).

(** [read_bounded_record_bytes] for a path that may be absent. *)
Definition read_doc (p : path) : M disk (option doc) := fun s =>
  match files s !! p with
  | None => (Ok None, s)
  | Some d =>
      if (record_max_bytes p <? Z.of_nat (encoded_size d))%Z then
        (Err (QueueConflictError "record exceeds the byte limit"), s)
      else (Ok (Some d), s)
  end.

(** [read_json_document]: [None] is [FileNotFoundError]; no plain document is kept
    where a typed record is, so a typed record fails every check that follows. *)
Definition read_json_document (p : path) : M disk (option json) :=
  d ← read_doc p;
  match d with
  | None => mret None
  | Some (DJson v) => mret (Some v)
  | Some _ => raise (QueueConflictError "invalid JSON record ")
  end.

(** [path.exists()] and [path.is_file()] *)
Definition path_exists (p : path) : M disk bool := fun s =>
  (Ok (bool_decide (is_Some (files s !! p))), s).

(** The [.json] children of a directory, in the order [os.scandir] lists them. *)
Definition scandir (dir : path) : M disk (list (path * doc)) := fun s =>
  (Ok (scandir_order (filter (fun kv => removelast kv.1 = dir /\ kv.1 <> [])
                             (map_to_list (files s)))), s).
End primitives.

(** ** File names *)
Definition json_name (stem : string) : string := stem +:+ ".json".

Fixpoint drop_str (n : nat) (s : string) : string :=
  match n, s with
  | S n', String _ s' => drop_str n' s'
  | _, _ => s
  end.

Definition ends_with (suffix s : string) : bool :=
  (String.length suffix <=? String.length s)%nat &&
  bool_decide (drop_str (String.length s - String.length suffix) s = suffix).

Fixpoint take_str (n : nat) (s : string) : string :=
  match n, s with
  | S n', String c s' => String c (take_str n' s')
  | _, _ => EmptyString
  end.

Lemma str_forall_take p n s : str_forall p s = true -> str_forall p (take_str n s) = true.
Proof.
  revert s. induction n as [|n IH]; intros [|c s]; cbn; try done.
  intros [-> Hs]%andb_true_iff. by rewrite (IH s Hs).
Qed.

Lemma length_take_str n s : (n <= String.length s)%nat -> String.length (take_str n s) = n.
Proof.
  revert s. induction n as [|n IH]; intros [|c s] Hle; cbn in *; try lia. rewrite IH; lia.
Qed.

(** [path.stem] of a name that ends with [.json]. *)
Definition json_stem (name : string) : string := take_str (String.length name - 5) name.

(** ** Typed reads *)
Section typed_reads.
Context `{World}.

(** [read_optional(path, SchedulerCancelPending)]: parse and re-validate.  The
    cancellation families are three levels deep, so no flat-family identity
    check applies. *)
Definition read_optional_cancel (p : path) : M disk (option SchedulerCancelPending) :=
  d ← read_doc p;
  match d with
  | None => mret None
  | Some (DCancel r) =>
      if valid_pending r then mret (Some r)
      else raise (ValidationError "SchedulerCancelPending")
  | Some _ => raise (ValidationError "SchedulerCancelPending")
  end.

(** [ArtifactUse]: the identifier and the payload of one dependency; its provenance is a
    model of its own and is not looked into. *)
Definition valid_use (u : string * json) : bool :=
  valid_id u.1 &&
  match u.2 with
  | JObj d =>
      bool_decide (dict_get "artifact_id" d = Some (JStr u.1)) &&
      match dict_get "sha256" d with
      | Some (JStr h) => str_between 64 64 h && str_forall is_lower_hex h
      | _ => false
      end
  | _ => false
  end.

(** [validate_artifact_use_collection] *)
Definition MAX_ARTIFACT_USE_AGGREGATE_BYTES : Z := 262144.
Definition artifact_uses_fit (uses : list (string * json)) : bool :=
  (Z.of_nat (String.length (dumps_raw (JList uses.*2))) <=? MAX_ARTIFACT_USE_AGGREGATE_BYTES)%Z.

(** Every constraint of [RelayJob]; its reservation must hold at least one byte.  A [RelayJob]
    is the record as parsed: pydantic puts the dependencies of what it reads in the order of
    their identifiers, so a job's list is in that order. *)
Definition valid_job (j : RelayJob) : bool :=
  valid_id (job_id j) &&
  opt_forall (str_between 1 256) (owner_session_id j) &&
  opt_forall valid_id (owner_session_generation_id j) &&
  Bool.eqb (bool_decide (owner_session_id j = None))
           (bool_decide (owner_session_generation_id j = None)) &&
  bool_decide (NoDup (used_artifact_refs j).*1) &&
  (length (used_artifact_refs j) <=? 1000)%nat &&
  forallb valid_use (used_artifact_refs j) && artifact_uses_fit (used_artifact_refs j) &&
  opt_forall (str_between 64 64) (submission_digest j) &&
  opt_forall (fun r => (0 <=? r.1)%Z && (0 <=? r.2)%Z && (0 <? r.1 + r.2)%Z) (storage_reservation j).

(** [read_required_job]: [jobs] is a flat family, so the file name must be the
    record's own identifier. *)
Definition read_required_job (jid : string) : M disk RelayJob :=
  jid ← lift (require_durable_record_id (JStr jid) "job_id");
  d ← read_doc ["jobs"; json_name jid];
  match d with
  | None => raise (NotFoundError "job not found: ")
  | Some (DJob j) =>
      _ ← ensure (valid_job j) (ValidationError "RelayJob");
      _ ← ensure (bool_decide (job_id j = jid))
            (QueueConflictError "canonical job identity mismatch: ");
      mret j
  | Some _ => raise (ValidationError "RelayJob")
  end.

(** [read_optional(path, RelayJob)] *)
Definition read_optional_job (jid : string) : M disk (option RelayJob) :=
  d ← read_doc ["jobs"; json_name jid];
  match d with
  | None => mret None
  | Some (DJob j) =>
      _ ← ensure (valid_job j) (ValidationError "RelayJob");
      _ ← ensure (bool_decide (job_id j = jid)) (QueueConflictError "canonical job identity mismatch: ");
      mret (Some j)
  | Some _ => raise (ValidationError "RelayJob")
  end.

(** [x == "text"] and [x is True] on a field that may be missing. *)
Definition is_string (text : string) (v : option json) : bool :=
  match v with Some (JStr s) => bool_decide (s = text) | _ => false end.
Definition is_true (v : option json) : bool :=
  match v with Some (JBool b) => b | _ => false end.

(** [require_index_migration_complete] *)
Definition require_index_migration_complete : M disk unit :=
  d ← read_doc ["migrations"; "index-v1.json"];
  match d with
  | Some (DJson (JObj st)) =>
      _ ← ensure (is_string "clio-relay.index-migration.v1" (dict_get "schema_version" st))
            (QueueConflictError "unsupported index migration state: ");
      ensure (is_true (dict_get "complete" st))
        (QueueConflictError "queue indexes require migration; run ")
  | Some (DJson _) => raise (QueueConflictError "index migration state is not an object: ")
  | _ => raise (QueueConflictError "invalid index migration state ")
  end.
End typed_reads.

(** ** Bounded directory scans *)
Section scans.
Context `{World}.

(** [scan_json_record_paths]: stop with [true] at the entry after [limit], and
    refuse a name that is not a record. *)
Fixpoint scan_entries (limit : nat) (entries acc : list (path * doc))
  : result (list (path * doc) * bool) :=
  match entries with
  | [] => Ok (acc, false)
  | e :: rest =>
      if negb (ends_with ".json" (default "" (last e.1))) then
        Err (QueueConflictError "contains an unsafe record: ")
      else if (limit <=? length acc)%nat then Ok (acc, true)
      else scan_entries limit rest (acc ++ [e])
  end.

(** [read_json_file] and the identity check of [_read_records]. *)
Definition read_cancel_entry (e : path * doc) : result SchedulerCancelPending :=
  match e.2 with
  | DCancel r =>
      if negb (valid_pending r) then Err (ValidationError "SchedulerCancelPending")
      else if bool_decide (pending_job_id r = json_stem (default "" (last e.1))) then Ok r
      else Err (QueueConflictError "canonical job_id filename/content identity mismatch: ")
  | _ => Err (ValidationError "SchedulerCancelPending")
  end.

(** [scan_many(directory, model, limit=limit)]; [read] is the model's reader. *)
Definition scan_many {A : Type} (read : path * doc -> result A) (dir : path) (limit : nat)
  : M disk (list A * bool) :=
  _ ← ensure (1 <=? limit)%nat (ValueError "record scan limit must be at least 1");
  entries ← scandir dir;
  scanned ← lift (scan_entries limit entries []);
  records ← lift (mapM_result read scanned.1);
  mret (records, scanned.2).

Definition scan_many_cancel : path -> nat -> M disk (list SchedulerCancelPending * bool) :=
  scan_many read_cancel_entry.
End scans.

(** ** Invariants of the store

    [triple I m Q]: whatever the budget, a run of [m] from files that satisfy
    [I] leaves files that satisfy [I], also when it raises or crashes, and a
    value it returns satisfies [Q]. *)
Definition triple {A : Type} (I : gmap path doc -> Prop) (m : M disk A) (Q : A -> Prop) : Prop :=
  forall s, I (files s) -> I (files (m s).2) /\ forall a, (m s).1 = Ok a -> Q a.

Section triples.
Context `{World} (I : gmap path doc -> Prop).

Lemma triple_ret {A : Type} (a : A) (Q : A -> Prop) : Q a -> triple I (mret a) Q.
Proof. intros Ha s Hs. split; [done|]. by intros a' [= <-]. Qed.

Lemma triple_bind {A B : Type} (m : M disk A) (k : A -> M disk B) Q R :
  triple I m Q -> (forall a, Q a -> triple I (k a) R) -> triple I (m ≫= k) R.
Proof.
  intros Hm Hk s Hs. specialize (Hm s Hs) as [Hs1 Hq].
  unfold mbind, M_bind. destruct (m s) as [[a|e] s1]; cbn in *.
  - apply Hk; auto.
  - split; [done|]. by intros.
Qed.

Lemma triple_lift {A : Type} (r : result A) (Q : A -> Prop) :
  (forall a, r = Ok a -> Q a) -> triple I (lift r) Q.
Proof. intros Hr s Hs. split; [done|]. exact Hr. Qed.

Lemma triple_ensure b e : triple I (ensure b e) (fun _ => b = true).
Proof. apply triple_lift. by intros u ?%raise_unless_ok. Qed.

Lemma triple_raise {A : Type} e (Q : A -> Prop) : triple I (raise e) Q.
Proof. intros s Hs. split; [done|]. by intros. Qed.

Lemma triple_utc_now : triple I utc_now (fun _ => True).
Proof. intros s Hs. split; [done|]. by intros. Qed.

Lemma triple_uuid : triple I uuid4_hex (fun u => exists n, u = uuid4_at n).
Proof. intros s Hs. split; [done|]. intros a [= <-]. eauto. Qed.

Lemma triple_durable f : (forall m, I m -> I (f m)) -> triple I (durable f) (fun _ => True).
Proof.
  intros Hf s Hs. unfold durable.
  destruct (budget s) as [[|n]|]; cbn; split; auto.
Qed.

Lemma triple_unlink p :
  (forall m, I m -> I (delete p m)) -> triple I (unlink_durable_path p) (fun _ => True).
Proof. apply triple_durable. Qed.

Lemma triple_write p d :
  (forall m, I m -> I (<[p := d]> m)) -> triple I (write_doc p d) (fun _ => True).
Proof.
  intros Hw. unfold write_doc. case_match; [apply triple_raise|]. by apply triple_durable.
Qed.

Lemma triple_read p (Q : option doc -> Prop) :
  Q None -> (forall m d, I m -> m !! p = Some d -> Q (Some d)) -> triple I (read_doc p) Q.
Proof.
  intros Hnone Hsome s Hs. unfold read_doc.
  destruct (files s !! p) as [d|] eqn:Hp; [case_match|]; cbn; (split; [done|]).
  - by intros.
  - intros a [= <-]. eauto.
  - by intros a [= <-].
Qed.

Lemma triple_conseq {A : Type} (m : M disk A) (Q R : A -> Prop) :
  triple I m Q -> (forall a, Q a -> R a) -> triple I m R.
Proof. intros Hm HQ s Hs. destruct (Hm s Hs). split; eauto. Qed.

(** A computation that only reads. *)
Lemma triple_pure {A : Type} (m : M disk A) :
  (forall s, files (m s).2 = files s) -> triple I m (fun _ => True).
Proof. intros Hm s Hs. rewrite Hm. split; auto. Qed.
End triples.

Create HintDb triples.
#[export] Hint Resolve triple_ret triple_ensure triple_raise triple_utc_now triple_uuid : triples.

(** Step through a computation: apply the bind rule and split its matches. *)
Ltac step_triple :=
  match goal with
  | |- triple _ (mbind _ (ensure _ _)) _ =>
      eapply triple_bind; [apply triple_ensure|cbv beta; intros ? ?]
  | |- triple _ (mbind _ utc_now) _ =>
      eapply triple_bind; [apply triple_utc_now|cbv beta; intros ? ?]
  | |- triple _ (mbind _ uuid4_hex) _ =>
      eapply triple_bind; [apply triple_uuid|cbv beta; intros ? ?]
  | |- triple _ (mbind _ (lift ?r)) _ =>
      eapply (triple_bind _ _ _ (fun a => r = Ok a));
        [apply triple_lift; intros ? ?; assumption|cbv beta; intros ? ?]
  | |- triple _ (raise _) _ => apply triple_raise
  | |- triple _ (match ?x with _ => _ end) _ => destruct x eqn:?
  end.

(** ** Weakest preconditions

    [wp m s Q]: the run of [m] from [s] ends in a result and a state that
    satisfy [Q]; unlike [triple] the postcondition can relate the two states. *)
Definition wp {A : Type} (m : M disk A) (s : disk) (Q : result A -> disk -> Prop) : Prop :=
  Q (m s).1 (m s).2.

Section wp.
Context `{World}.

Lemma wp_bind {A B : Type} (m : M disk A) (k : A -> M disk B) s Q :
  wp m s (fun r s' => match r with Ok a => wp (k a) s' Q | Err e => Q (Err e) s' end) ->
  wp (m ≫= k) s Q.
Proof. unfold wp, mbind, M_bind. by destruct (m s) as [[a|e] s']. Qed.

Lemma wp_ret {A : Type} (a : A) s (Q : result A -> disk -> Prop) : Q (Ok a) s -> wp (mret a) s Q.
Proof. done. Qed.

Lemma wp_raise {A : Type} e s (Q : result A -> disk -> Prop) : Q (Err e) s -> wp (raise e) s Q.
Proof. done. Qed.

Lemma wp_lift {A : Type} (r : result A) s (Q : result A -> disk -> Prop) : Q r s -> wp (lift r) s Q.
Proof. done. Qed.

Lemma wp_ensure b e s (Q : result unit -> disk -> Prop) :
  (b = true -> Q (Ok tt) s) -> (b = false -> Q (Err e) s) -> wp (ensure b e) s Q.
Proof. destruct b; unfold wp; cbn; auto. Qed.

Lemma wp_utc_now s (Q : result Z -> disk -> Prop) :
  (forall s', files s' = files s -> budget s' = budget s -> draws s' = draws s ->
     Q (Ok (clock (ticks s))) s') -> wp utc_now s Q.
Proof. intros HQ. by apply HQ. Qed.

Lemma wp_uuid s (Q : result string -> disk -> Prop) :
  (forall s', files s' = files s -> budget s' = budget s ->
     Q (Ok (uuid4_at (draws s))) s') -> wp uuid4_hex s Q.
Proof. intros HQ. by apply HQ. Qed.

(** A write either happens or leaves the files alone (size limit or crash). *)
Lemma wp_write p d s (Q : result unit -> disk -> Prop) :
  (forall s', files s' = <[p := d]> (files s) -> Q (Ok tt) s') ->
  (forall e, Q (Err e) s) -> wp (write_doc p d) s Q.
Proof.
  intros Hok Herr. unfold wp, write_doc, raise, durable. case_match; [by apply Herr|].
  destruct (budget s) as [[|n]|]; cbn; [by apply Herr|by apply Hok|by apply Hok].
Qed.

Lemma wp_unlink p s (Q : result unit -> disk -> Prop) :
  (forall s', files s' = delete p (files s) -> Q (Ok tt) s') ->
  (forall e, Q (Err e) s) -> wp (unlink_durable_path p) s Q.
Proof.
  intros Hok Herr. unfold wp, unlink_durable_path, durable.
  destruct (budget s) as [[|n]|]; cbn; [by apply Herr|by apply Hok|by apply Hok].
Qed.

Lemma wp_read_doc p s (Q : result (option doc) -> disk -> Prop) :
  Q (Ok (files s !! p)) s -> (forall e, Q (Err e) s) -> wp (read_doc p) s Q.
Proof.
  intros Hok Herr. unfold wp, read_doc. destruct (files s !! p); [|done].
  case_match; [by apply Herr|done].
Qed.

Lemma wp_read_cancel p s (Q : result (option SchedulerCancelPending) -> disk -> Prop) :
  (files s !! p = None -> Q (Ok None) s) ->
  (forall r, files s !! p = Some (DCancel r) -> valid_pending r = true -> Q (Ok (Some r)) s) ->
  (forall e, Q (Err e) s) -> wp (read_optional_cancel p) s Q.
Proof.
  intros Hnone Hsome Herr. unfold read_optional_cancel. apply wp_bind, wp_read_doc; [|done].
  destruct (files s !! p) as [[| | | |r| | | | | | | | | | | |]|] eqn:Hp; try (by apply wp_raise).
  - destruct (valid_pending r) eqn:Hv; [apply wp_ret; auto|by apply wp_raise].
  - by apply wp_ret, Hnone.
Qed.

(** Without a crash point a write of a document within its limit happens, and a
    stored document within its limit is read. *)
Definition fits (p : path) (d : doc) : Prop := (Z.of_nat (encoded_size d) <= record_max_bytes p)%Z.

Lemma wp_write_fits p d s (Q : result unit -> disk -> Prop) :
  fits p d -> budget s = None ->
  (forall s', files s' = <[p := d]> (files s) -> budget s' = None -> Q (Ok tt) s') ->
  wp (write_doc p d) s Q.
Proof.
  intros Hf Hb HQ. unfold wp, write_doc, durable. rewrite (proj2 (Z.ltb_ge _ _)) by exact Hf.
  rewrite Hb. cbn. by apply HQ.
Qed.

Lemma wp_read_fits p s (Q : result (option doc) -> disk -> Prop) :
  (forall d, files s !! p = Some d -> fits p d) -> Q (Ok (files s !! p)) s -> wp (read_doc p) s Q.
Proof.
  intros Hf HQ. unfold wp, read_doc. destruct (files s !! p) as [d|] eqn:Hp; [|done].
  rewrite (proj2 (Z.ltb_ge _ _)); [done|by apply Hf].
Qed.

(** A write that returned was within the limit. *)
Lemma wp_write_checked p d s (Q : result unit -> disk -> Prop) :
  (forall s', fits p d -> files s' = <[p := d]> (files s) -> ticks s' = ticks s -> Q (Ok tt) s') ->
  (forall e, Q (Err e) s) -> wp (write_doc p d) s Q.
Proof.
  intros Hok Herr. unfold wp, write_doc, raise, durable.
  destruct (Z.ltb_spec (record_max_bytes p) (Z.of_nat (encoded_size d))); [by apply Herr|].
  destruct (budget s) as [[|n]|]; cbn; [by apply Herr|by apply Hok|by apply Hok].
Qed.

Lemma wp_path_exists p s (Q : result bool -> disk -> Prop) :
  Q (Ok (bool_decide (is_Some (files s !! p)))) s -> wp (path_exists p) s Q.
Proof. done. Qed.

(** A computation whose files never change. *)
Lemma wp_readonly {A : Type} (m : M disk A) s (Q : result A -> disk -> Prop) :
  (forall s, files (m s).2 = files s) ->
  (forall r s', files s' = files s -> Q r s') -> wp m s Q.
Proof. intros Hm HQ. apply HQ, Hm. Qed.

Lemma wp_mono {A : Type} (m : M disk A) s (Q R : result A -> disk -> Prop) :
  wp m s Q -> (forall r s', Q r s' -> R r s') -> wp m s R.
Proof. unfold wp. auto. Qed.
End wp.

(** What a directory listing contains. *)
Section listing.
Context `{World}.

Lemma scandir_elem dir s p d :
  dir <> [] ->
  (p, d) ∈ scandir_order (filter (fun kv => removelast kv.1 = dir /\ kv.1 <> []) (map_to_list (files s))) <->
  files s !! p = Some d /\ exists name, p = dir ++ [name].
Proof.
  intros Hdir. rewrite scandir_perm, list_elem_of_filter, elem_of_map_to_list. cbn. split.
  - intros [[<- Hne] Hl]. split; [done|]. exists (List.last p ""). by apply app_removelast_last.
  - intros [Hl [name ->]]. rewrite removelast_last. split_and!; [done| |done]. by destruct dir.
Qed.

Lemma scandir_nodup dir s :
  NoDup (scandir_order (filter (fun kv => removelast kv.1 = dir /\ kv.1 <> []) (map_to_list (files s)))).*1.
Proof.
  rewrite scandir_perm. eapply (sublist_NoDup _ (map_to_list (files s)).*1); [apply NoDup_fst_map_to_list|].
  apply fmap_sublist, sublist_filter.
Qed.
Lemma scan_entries_spec limit es acc l tr :
  scan_entries limit es acc = Ok (l, tr) -> length acc <= limit ->
  l = acc ++ take (limit - length acc) es /\ (tr = false -> length acc + length es <= limit).
Proof.
  revert acc. induction es as [|e es IH]; intros acc; cbn [scan_entries].
  - intros [= <- <-] Hle. rewrite take_nil, app_nil_r. split; [done|]. cbn. lia.
  - destruct (negb _); [done|]. destruct (Nat.leb_spec limit (length acc)).
    + intros [= <- <-] _. replace (limit - length acc) with 0 by lia. cbn. by rewrite app_nil_r.
    + intros Hs _. apply IH in Hs as [-> Hlen]; [|rewrite length_app; cbn; lia].
      rewrite length_app in *. cbn in *. rewrite <- app_assoc.
      replace (limit - length acc) with (S (limit - (length acc + 1))) by lia.
      split; [done|]. intros Htr. specialize (Hlen Htr). lia.
Qed.

(** A scan changes nothing, and a limit below one is refused. *)
Lemma scan_many_state {A : Type} (read : path * doc -> result A) dir limit s :
  (scan_many read dir limit s).2 = s.
Proof.
  unfold scan_many, ensure, raise_unless, mbind, M_bind, scandir, lift.
  by repeat case_match; simplify_eq.
Qed.

Lemma scan_many_unfold {A : Type} (read : path * doc -> result A) dir limit s :
  (1 <= limit)%nat ->
  scan_many read dir limit s =
  (entries ← scandir dir; scanned ← lift (scan_entries limit entries []);
   records ← lift (mapM_result read scanned.1); mret (records, scanned.2)) s.
Proof.
  intros Hl. unfold scan_many. rewrite (M_bind_run _ _ _ tt s); [done|].
  unfold ensure, lift. by apply Nat.leb_le in Hl as ->.
Qed.

Lemma scan_many_spec {A : Type} (read : path * doc -> result A) dir limit s rs tr s' :
  dir <> [] -> scan_many read dir limit s = (Ok (rs, tr), s') ->
  s' = s /\
  (forall r, r ∈ rs -> exists name d,
     files s !! (dir ++ [name]) = Some d /\ read (dir ++ [name], d) = Ok r) /\
  (tr = false -> forall name d, files s !! (dir ++ [name]) = Some d ->
     exists r, r ∈ rs /\ read (dir ++ [name], d) = Ok r).
Proof.
  intros Hdir Hrun. unfold scan_many in Hrun. apply M_bind_ok in Hrun as (u&s0&Hu&Hrun). injection Hu as _ <-.
  apply M_bind_ok in Hrun as (es&s1&[= <- <-]&Hrun).
  apply M_bind_ok in Hrun as ([l tr']&s2&Hsc&Hrun). injection Hsc as Hsc <-.
  apply M_bind_ok in Hrun as (rs'&s3&Hmap&Hrun). injection Hmap as Hmap <-.
  injection Hrun as <- <- <-. cbn [fst snd] in *. split; [done|].
  apply scan_entries_spec in Hsc as [-> Hlen]; [|cbn; lia].
  cbn [app length] in *. rewrite Nat.sub_0_r in Hmap. apply mapM_result_ok in Hmap. split.
  - intros r [k Hk]%list_elem_of_lookup.
    destruct (Forall2_lookup_r _ _ _ _ _ Hmap Hk) as ([p d]&Hp&Hr).
    apply lookup_take_Some in Hp as [Hp _].
    apply list_elem_of_lookup_2, scandir_elem in Hp as [Hl [name ->]]; eauto.
  - intros Htr name d Hl. specialize (Hlen Htr). rewrite take_ge in Hmap by lia.
    assert (Hin : (dir ++ [name], d) ∈ scandir_order
      (filter (fun kv => removelast kv.1 = dir /\ kv.1 <> []) (map_to_list (files s))))
      by (apply scandir_elem; eauto).
    apply list_elem_of_lookup in Hin as [k Hk].
    destruct (Forall2_lookup_l _ _ _ _ _ Hmap Hk) as (r'&Hr'&Heq).
    exists r'. split; [by eapply list_elem_of_lookup_2|done].
Qed.
End listing.

(** ** A concrete environment

    A clock that advances one second per reading, [uuid4] values that count up and
    directories listed in map order.  A cancellation record, a lease and its index document
    take a byte for each character of their fields and a line for each field that is printed;
    the other typed records take one kilobyte. *)
Fixpoint hex_of_nat (width n : nat) : string :=
  match width with
  | O => EmptyString
  | S w => String (hex_digit (Z.of_nat (n mod 16))) (hex_of_nat w (n / 16))
  end.

Lemma hex_of_nat_shape w n :
  str_forall is_lower_hex (hex_of_nat w n) = true /\ String.length (hex_of_nat w n) = w.
Proof.
  revert n; induction w as [|w IH]; intros n; [done|]. cbn [hex_of_nat str_forall String.length].
  destruct (IH (n / 16)) as [-> ->]. rewrite hex_digit_lower_hex; [done|].
  pose proof (Nat.mod_upper_bound n 16). lia.
Qed.

Definition text_bytes (o : option string) : nat := match o with Some t => 64 + str_len t | None => 0 end.
Definition id_bytes (o : option string) : nat := match o with Some t => 64 + String.length t | None => 0 end.
Definition time_bytes (o : option Z) : nat := match o with Some _ => 64 | None => 0 end.
Definition disposition_bytes (d : SchedulerCancelDisposition) : nat :=
  180 + str_len (scheduler_job_id d) + text_bytes (provider d) + text_bytes (last_error d)
  + time_bytes (next_attempt_at d) + id_bytes (attempt_claim_id d) + time_bytes (attempt_claimed_at d)
  + time_bytes (attempt_claim_expires_at d) + id_bytes (confirmation_claim_id d)
  + time_bytes (confirmation_claimed_at d) + time_bytes (confirmation_claim_expires_at d).
Definition reference_bytes (d : doc) : nat :=
  match d with
  | DCancel r =>
      512 + String.length (pending_job_id r) + str_len (pending_cluster r) + str_len (reason r)
      + foldr (fun d n => disposition_bytes d + n) 0 (dispositions r)
  | DLease l => 512 + String.length (lease_id l) + String.length (lease_job_id l) + String.length (lease_endpoint_id l)
  | DLeaseIndex i =>
      512 + String.length (ix_lease_id i) + String.length (ix_job_id i) + String.length (ix_endpoint_id i)
      + String.length (ix_cluster i)
  | _ => 1024
  end.

Definition reference_world : World := {|
  clock n := (Z.of_nat n * 1000000)%Z;
  uuid4_at := hex_of_nat 32;
  uuid4_shape := hex_of_nat_shape 32;
  scandir_order A l := l;
  scandir_perm A l := Permutation_refl l;
  model_size := reference_bytes;
|}.
