(* ===== verification/OrderIndex.v ===== *)
(** * Global order and per-job order indexes ([queue_order_index.py], [pagination.py])

    Records of four families get one durable, growing sequence number each: a
    head with the last number handed out, a mapping by record identifier and an
    entry by number.  The three files are written one after the other, so a crash
    can leave a number without mapping (a gap that is never reused) or a mapping
    without entry (which the next call repairs).  Every job has an index document
    with the lengths of its ordered families and of its event log. *)

From S2P Require Import Prelude Sha256 Json Decimal Identifiers Models Store.
From stdpp Require Import base list gmap strings.
From Stdlib Require Import ZArith Lia.
From Stdlib Require Ascii String.
Open Scope Z_scope.

(** ** Bounds of a response page *)
Definition MAX_RESPONSE_PAGE_RECORDS : Z := 500.
Definition MAX_BOUNDED_SCAN_RECORDS : Z := 10000.

(** [validate_response_page_limit] *)
Definition validate_response_page_limit (value : json) : result Z :=
  match value with
  | JInt limit =>
      if (limit <? 1) || (MAX_RESPONSE_PAGE_RECORDS <? limit) then
        Err (ValueError "limit must be between 1 and ")
      else Ok limit
  | _ => Err (ValueError "limit must be an integer")
  end.

(** [validate_record_cursor] *)
Definition validate_record_cursor (value : json) : result Z :=
  match value with
  | JInt cursor =>
      if cursor <? 1 then Err (ValueError "cursor must be greater than or equal to 1")
      else Ok cursor
  | _ => Err (ValueError "cursor must be an integer")
  end.

(** ** Names and documents *)
Definition GLOBAL_ORDER_INDEX_SCHEMA : string := "clio-relay.global-record-order.v1".
Definition JOB_INDEX_SCHEMA : string := "clio-relay.job-index.v1".
Definition ORDER_INDEX_SCHEMA : string := "clio-relay.job-record-order.v1".
Definition RETENTION_INDEX_SCHEMA : string := "clio-relay.job-retention-index.v1".

Definition GLOBAL_ORDER_FAMILIES : list string :=
  ["endpoints"; "jobs"; "gateway_sessions"; "monitor_rules"].

(** [directory / f"{sequence:020d}.json"] *)
Definition seq_path (directory : path) (sequence : Z) : path :=
  directory ++ [json_name (pad20 sequence)].

Definition _single_value_ref_token (value : string) : string := take_str 32 (sha256_hex value).

Definition order_head_path (family : string) : path := ["global_order"; family; "head.json"].
Definition order_mapping_path (family record_id : string) : path :=
  ["global_order"; family; "by_id"; json_name (_single_value_ref_token record_id)].
Definition order_entries (family : string) : path := ["global_order"; family; "entries"].

Definition order_document (family record_id : string) (sequence : Z) : json :=
  JObj [("schema_version", JStr GLOBAL_ORDER_INDEX_SCHEMA); ("family", JStr family);
        ("record_id", JStr record_id); ("sequence", JInt sequence)].

Definition head_document (family : string) (sequence : Z) : json :=
  JObj [("schema_version", JStr GLOBAL_ORDER_INDEX_SCHEMA); ("family", JStr family);
        ("latest_sequence", JInt sequence)].

(** The checks of [_read_global_record] and [_read_global_head]. *)
Definition decode_order_record (family : string) (raw : json) : result (string * Z) :=
  match raw with
  | JObj document =>
      match dict_get "record_id" document, dict_get "sequence" document with
      | Some (JStr record_id), Some (JInt sequence) =>
          if is_string GLOBAL_ORDER_INDEX_SCHEMA (dict_get "schema_version" document)
             && is_string family (dict_get "family" document)
             && safe_global_record_id (JStr record_id)
             && (1 <=? sequence) && (sequence <? 2 ^ 63)
          then Ok (record_id, sequence)
          else Err (QueueConflictError "invalid global-order record: ")
      | _, _ => Err (QueueConflictError "invalid global-order record: ")
      end
  | _ => Err (QueueConflictError "global-order record is not an object: ")
  end.

Definition decode_order_head (family : string) (raw : json) : result Z :=
  match raw with
  | JObj document =>
      match dict_get "latest_sequence" document with
      | Some (JInt latest) =>
          if is_string GLOBAL_ORDER_INDEX_SCHEMA (dict_get "schema_version" document)
             && is_string family (dict_get "family" document)
             && (1 <=? latest) && (latest <? 2 ^ 63)
          then Ok latest
          else Err (QueueConflictError "invalid global-order head: ")
      | _ => Err (QueueConflictError "invalid global-order head: ")
      end
  | _ => Err (QueueConflictError "global-order head is not an object: ")
  end.

(** ** Global order *)
Section global_order.
Context `{World}.

Definition _read_global_record (p : path) (family : string) : M disk (option (string * Z)) :=
  raw ← read_json_document p;
  match raw with
  | None => mret None
  | Some v => r ← lift (decode_order_record family v); mret (Some r)
  end.

Definition _read_global_head (family : string) : M disk Z :=
  raw ← read_json_document (order_head_path family);
  match raw with
  | None => mret 0
  | Some v => lift (decode_order_head family v)
  end.

Definition _ensure_global_sequence (family record_id : string) (sequence : Z) : M disk unit :=
  let p := seq_path (order_entries family) sequence in
  existing ← _read_global_record p family;
  match existing with
  | Some e =>
      ensure (bool_decide (e = (record_id, sequence)))
        (QueueConflictError "global-order sequence collision: ")
  | None => write_doc p (DJson (order_document family record_id sequence))
  end.

(** [ensure_global] *)
Definition ensure_global (family record_id : string) : M disk Z :=
  _ ← ensure (bool_decide (family ∈ GLOBAL_ORDER_FAMILIES))
        (QueueConflictError "unsupported global-order family: ");
  _ ← ensure (safe_global_record_id (JStr record_id))
        (QueueConflictError "unsafe global-order record id: ");
  mapping ← _read_global_record (order_mapping_path family record_id) family;
  latest ← _read_global_head family;
  match mapping with
  | Some (mapped_id, sequence) =>
      _ ← ensure (bool_decide (mapped_id = record_id) && (sequence <=? latest))
            (QueueConflictError "global-order mapping identity mismatch: ");
      _ ← _ensure_global_sequence family record_id sequence;
      mret sequence
  | None =>
      _ ← ensure (latest <? 2 ^ 63 - 1) (QueueConflictError "global-order sequence exhausted: ");
      let sequence := latest + 1 in
      _ ← write_doc (order_head_path family) (DJson (head_document family sequence));
      _ ← write_doc (order_mapping_path family record_id)
            (DJson (order_document family record_id sequence));
      _ ← _ensure_global_sequence family record_id sequence;
      mret sequence
  end.
End global_order.

(** ** Pages of a global order

    [read_record] is [read_optional] of the family's model and [identity] its
    identity field. *)
Section global_pages.
Context `{World} {Record : Type}.
Variables (family : string) (read_record : string -> M disk (option Record)).
Variables (identity : Record -> string) (predicate : Record -> bool).

(** One round of the loop of [_read_global_order_page]. *)
Definition page_entry (sequence : Z) : M disk (list Record) :=
  entry ← _read_global_record (seq_path (order_entries family) sequence) family;
  match entry with
  | None => mret []
  | Some (record_id, recorded_sequence) =>
      _ ← ensure (recorded_sequence =? sequence)
            (QueueConflictError "global-order sequence identity mismatch: ");
      mapping ← _read_global_record (order_mapping_path family record_id) family;
      _ ← ensure (bool_decide (mapping = Some (record_id, recorded_sequence)))
            (QueueConflictError "global-order reverse mapping mismatch: ");
      record ← read_record record_id;
      match record with
      | None => mret []
      | Some r =>
          _ ← ensure (bool_decide (identity r = record_id))
                (QueueConflictError "global-order target identity mismatch: ");
          mret (if predicate r then [r] else [])
      end
  end.

(** [for sequence in range(sequence, sequence + count)] *)
Fixpoint page_loop (count : nat) (sequence : Z) (records : list Record) : M disk (list Record) :=
  match count with
  | O => mret records
  | S count' => found ← page_entry sequence; page_loop count' (sequence + 1) (records ++ found)
  end.

Definition _read_global_order_page (cursor limit : json) : M disk (list Record * option Z * Z) :=
  cursor ← lift (validate_record_cursor cursor);
  limit ← lift (validate_response_page_limit limit);
  _ ← require_index_migration_complete;
  latest ← _read_global_head family;
  if latest <? cursor then mret ([], None, latest)
  else
    let stop := Z.min (latest + 1) (cursor + limit) in
    records ← page_loop (Z.to_nat (stop - cursor)) cursor [];
    mret (records, if stop <=? latest then Some stop else None, latest).

(** The loop of [_scan_global_order]: every round but the last reads at least one
    position, so [limit] rounds are enough. *)
Fixpoint scan_pages (fuel : nat) (cursor remaining : Z) (records : list Record)
  : M disk (list Record * bool) :=
  match fuel with
  | O => latest ← _read_global_head family; mret (records, cursor <=? latest)
  | S fuel' =>
      if remaining <=? 0 then
        latest ← _read_global_head family; mret (records, cursor <=? latest)
      else
        let page_limit := Z.min remaining MAX_RESPONSE_PAGE_RECORDS in
        page ← _read_global_order_page (JInt cursor) (JInt page_limit);
        let '(found, next_cursor, total) := page in
        match next_cursor with
        | None => mret (records ++ found, false)
        | Some next =>
            scan_pages fuel' next (remaining - Z.min page_limit (Z.max 0 (total - cursor + 1)))
              (records ++ found)
        end
  end.

Definition _scan_global_order (limit : Z) : M disk (list Record * bool) :=
  _ ← ensure (negb ((limit <? 1) || (MAX_BOUNDED_SCAN_RECORDS <? limit)))
        (ValueError "scan limit must be between 1 and ");
  scan_pages (Z.to_nat limit) 1 limit [].
End global_pages.

(** ** Pages of jobs ([queue_jobs.py]) *)
Section job_pages.
Context `{World}.

(** [matches] of [list_jobs_page] *)
Definition job_matches (cluster : option string) (st : option JobState) (kind : option JobKind)
    (include_terminal : bool) (j : RelayJob) : bool :=
  opt_forall (fun c => bool_decide (job_cluster j = c)) cluster &&
  opt_forall (fun s => bool_decide (job_state j = s)) st &&
  opt_forall (fun k => bool_decide (job_kind j = k)) kind &&
  (include_terminal || negb (is_terminal (job_state j))).

Definition list_jobs_page (cursor limit : json) (cluster : option string) (st : option JobState)
    (kind : option JobKind) (include_terminal : bool) : M disk (list RelayJob * option Z * Z) :=
  _read_global_order_page "jobs" read_optional_job job_id (job_matches cluster st kind include_terminal)
    cursor limit.

(** The loop of [scan_jobs]: every round takes a page off the positions that remain. *)
Fixpoint scan_jobs_loop (fuel : nat) (cursor remaining : Z) (next_cursor : option Z)
    (jobs : list RelayJob) : M disk (list RelayJob * bool) :=
  match fuel with
  | O => mret (jobs, bool_decide (is_Some next_cursor))
  | S fuel' =>
      if (0 <? remaining) && bool_decide (is_Some next_cursor) then
        let page_limit := Z.min MAX_RESPONSE_PAGE_RECORDS remaining in
        page ← list_jobs_page (JInt cursor) (JInt page_limit) None None None true;
        let '(found, next, _) := page in
        scan_jobs_loop fuel' (default cursor next) (remaining - page_limit) next (jobs ++ found)
      else mret (jobs, bool_decide (is_Some next_cursor))
  end.

Definition scan_jobs (limit : Z) : M disk (list RelayJob * bool) :=
  _ ← ensure (1 <=? limit) (ValueError "job scan limit must be at least 1");
  scan_jobs_loop (Z.to_nat limit) 1 limit (Some 1) [].
End job_pages.
