(* ===== verification/JobIndex.v ===== *)
(** * The per-job index ([queue_order_index.py], [queue_index_state.py])

    One document per job holds the lengths of its ordered families and the number
    of its last event.  The length of a family can also be found without it, by
    searching the contiguous file names. *)

From S2P Require Import Prelude Sha256 Json Decimal Identifiers Models Store OrderIndex.
From stdpp Require Import base list gmap strings.
From Stdlib Require Import ZArith Lia.
From Stdlib Require Ascii String.
Open Scope Z_scope.

(** ** The last record of a contiguous sequence *)
Section search.
Context `{World}.

(** The first loop: [high] doubles up to [2 ^ 63]. *)
Fixpoint double_up (fuel : nat) (directory : path) (low high : Z) : M disk (Z * Z) :=
  match fuel with
  | O => raise (QueueConflictError "record sequence exceeds supported range: ")
  | S fuel' =>
      found ← path_exists (seq_path directory high);
      if (found : bool) then
        if 2 ^ 63 <? high * 2 then
          raise (QueueConflictError "record sequence exceeds supported range: ")
        else double_up fuel' directory high (high * 2)
      else mret (low, high)
  end.

(** The second loop: bisection between a present and an absent name. *)
Fixpoint bisect (fuel : nat) (directory : path) (low high : Z) : M disk Z :=
  match fuel with
  | O => mret low
  | S fuel' =>
      if low + 1 <? high then
        let middle := (low + high) / 2 in
        found ← path_exists (seq_path directory middle);
        if (found : bool) then bisect fuel' directory middle high
        else bisect fuel' directory low middle
      else mret low
  end.

(** [last_contiguous_sequence]: the bounds never exceed [2 ^ 63], so 64 rounds of
    each loop are enough. *)
Definition last_contiguous_sequence (directory : path) : M disk Z :=
  first ← path_exists (seq_path directory 1);
  if (first : bool) then
    bounds ← double_up 64 directory 1 2;
    bisect 64 directory bounds.1 bounds.2
  else mret 0.
End search.

(** ** The index document *)

(** [index_integer] *)
Definition index_integer (index : list (string * json)) (field : string) : result Z :=
  match dict_get field index with
  | Some (JInt value) =>
      if value <? 0 then Err (QueueConflictError "invalid job index integer: ") else Ok value
  | _ => Err (QueueConflictError "invalid job index integer: ")
  end.

(** [index.update(updates)] *)
Definition dict_update (index updates : list (string * json)) : list (string * json) :=
  foldl (fun d kv => dict_set kv.1 kv.2 d) index updates.

(** [queue_conflict_from_cause] in a handler of [OSError] and [QueueConflictError]. *)
Definition rewrap {A : Type} (text : string) (m : M disk A) : M disk A := fun s =>
  match m s with
  | (Err (QueueConflictError _), s') | (Err (OSError _), s') => (Err (QueueConflictError text), s')
  | r => r
  end.

Definition index_fields : list string :=
  ["task_count"; "artifact_count"; "progress_count"; "latest_event_seq"].

(** [value is None or isinstance(value, str)] *)
Definition optional_text (value : option json) : bool :=
  match value with None | Some JNull | Some (JStr _) => true | _ => false end.

(** The checks of [read_job_index]. *)
Definition decode_job_index (jid : string) (raw : json) : result (list (string * json)) :=
  match raw with
  | JObj index =>
      _ ← raise_unless (is_string JOB_INDEX_SCHEMA (dict_get "schema_version" index)
                        && is_string jid (dict_get "job_id" index))
            (QueueConflictError "job index identity mismatch: ");
      _ ← mapM_result (index_integer index) index_fields;
      _ ← raise_unless (optional_text (dict_get "latest_progress_id" index))
            (QueueConflictError "invalid latest_progress_id in ");
      Ok index
  | _ => Err (QueueConflictError "job index is not an object: ")
  end.

Definition job_index_path (jid : string) : path := ["job_indexes"; json_name jid].

Section job_index.
Context `{World}.

(** [read_job_index] *)
Definition read_job_index (jid : string) : M disk (option (list (string * json))) :=
  key ← lift (require_durable_record_id (JStr jid) "record_id");
  raw ← rewrap "invalid job index " (read_json_document (job_index_path key));
  match raw with
  | None => mret None
  | Some v => index ← lift (decode_job_index jid v); mret (Some index)
  end.

(** [increment_job_index] *)
Definition increment_job_index (jid field : string) (updates : list (string * json)) : M disk unit :=
  index ← read_job_index jid;
  match index with
  | None => mret tt
  | Some index =>
      value ← lift (index_integer index field);
      write_doc (job_index_path jid)
        (DJson (JObj (dict_update (dict_set field (JInt (value + 1)) index) updates)))
  end.

(** [_update_job_index_unlocked] *)
Definition _update_job_index_unlocked (jid : string) (updates : list (string * json)) : M disk unit :=
  index ← read_job_index jid;
  match index with
  | None => mret tt
  | Some index => write_doc (job_index_path jid) (DJson (JObj (dict_update index updates)))
  end.

Definition new_job_index (jid : string) : list (string * json) :=
  [("schema_version", JStr JOB_INDEX_SCHEMA); ("order_schema_version", JStr ORDER_INDEX_SCHEMA);
   ("retention_schema_version", JStr RETENTION_INDEX_SCHEMA); ("job_id", JStr jid);
   ("task_count", JInt 0); ("artifact_count", JInt 0); ("progress_count", JInt 0);
   ("latest_progress_id", JNull); ("latest_event_seq", JInt 0)].

(** [_initialize_job_index_unlocked]; directories are not part of the store. *)
Definition _initialize_job_index_unlocked (jid : string) : M disk unit :=
  key ← lift (require_durable_record_id (JStr jid) "record_id");
  present ← path_exists (job_index_path key);
  if (present : bool) then mret tt
  else write_doc (job_index_path key) (DJson (JObj (new_job_index jid))).

(** [_job_index_exists] *)
Definition _job_index_exists (jid : string) : M disk bool :=
  key ← lift (require_durable_record_id (JStr jid) "record_id");
  path_exists (job_index_path key).

(** [_next_job_record_sequence_unlocked] *)
Definition _next_job_record_sequence_unlocked (jid count_field : string) : M disk Z :=
  index ← read_job_index jid;
  match index with
  | None => raise (QueueConflictError "job order index is missing: ")
  | Some index => value ← lift (index_integer index count_field); mret (value + 1)
  end.

(** [directory / key] of the ordered records of one job. *)
Definition order_by_job (family key : string) : path := [family +:+ "_order_by_job"; key].

(** [_write_ordered_job_record] *)
Definition _write_ordered_job_record (family jid : string) (sequence : Z) (record : doc) : M disk unit :=
  key ← lift (require_durable_record_id (JStr jid) "record_id");
  write_doc (seq_path (order_by_job family key) sequence) record.

(** [read_optional(path, ProgressRecord)] below a job's directory. *)
Definition read_optional_progress (p : path) : M disk (option ProgressRecord) :=
  d ← read_doc p;
  match d with
  | None => mret None
  | Some (DProgress r) =>
      _ ← ensure (valid_progress r) (ValidationError "ProgressRecord"); mret (Some r)
  | Some _ => raise (ValidationError "ProgressRecord")
  end.

(** [_finalize_job_index_unlocked] *)
Definition _finalize_job_index_unlocked (jid : string) : M disk unit :=
  _ ← _initialize_job_index_unlocked jid;
  key ← lift (require_durable_record_id (JStr jid) "record_id");
  task_count ← last_contiguous_sequence (order_by_job "task" key);
  artifact_count ← last_contiguous_sequence (order_by_job "artifact" key);
  progress_count ← last_contiguous_sequence (order_by_job "progress" key);
  latest_progress ← (if 0 <? progress_count
                     then read_optional_progress (seq_path (order_by_job "progress" key) progress_count)
                     else mret None);
  latest_event_seq ← last_contiguous_sequence ["events"; jid];
  _update_job_index_unlocked jid
    [("task_count", JInt task_count); ("artifact_count", JInt artifact_count);
     ("progress_count", JInt progress_count);
     ("latest_progress_id", match latest_progress with
                            | None => JNull
                            | Some r => JStr (progress_id r)
                            end);
     ("latest_event_seq", JInt latest_event_seq)].
End job_index.

(** ** Pages of one job's ordered records *)
Section ordered_pages.
Context `{World} {Record : Type} (read_record : path -> M disk (option Record)).

Fixpoint ordered_loop (count : nat) (directory : path) (sequence : Z) (records : list Record)
  : M disk (list Record) :=
  match count with
  | O => mret records
  | S count' =>
      record ← read_record (seq_path directory sequence);
      match record with
      | None => raise (QueueConflictError "order index is missing sequence ")
      | Some r => ordered_loop count' directory (sequence + 1) (records ++ [r])
      end
  end.

(** [_read_ordered_job_page] *)
Definition _read_ordered_job_page (jid family : string) (cursor limit : json) (count_field : string)
  : M disk (list Record * option Z * Z) :=
  cursor ← lift (validate_record_cursor cursor);
  limit ← lift (validate_response_page_limit limit);
  _ ← require_index_migration_complete;
  index ← read_job_index jid;
  match index with
  | None => raise (NotFoundError "job not found: ")
  | Some index =>
      total ← lift (index_integer index count_field);
      if total <? cursor then mret ([], None, total)
      else
        let stop := Z.min (total + 1) (cursor + limit) in
        key ← lift (require_durable_record_id (JStr jid) "record_id");
        records ← ordered_loop (Z.to_nat (stop - cursor)) (order_by_job family key) cursor [];
        mret (records, if stop <=? total then Some stop else None, total)
  end.
End ordered_pages.
