(* ===== verification/Events.v ===== *)
(** * Job and task events ([queue_events.py])

    A job's events are the records [events/<job>/00000000000000000001.json] and on.
    The job index caches the last number; the records themselves decide, so an
    append looks past the cached number for the first free one.  A task's timeline
    works the same way with a head document of its own, and every entry of it is
    announced in the job's events. *)

From S2P Require Import Prelude Sha256 Json Decimal Identifiers Models Store OrderIndex JobIndex.
From stdpp Require Import base list gmap strings.
From Stdlib Require Import ZArith Lia.
From Stdlib Require Ascii String.
Open Scope Z_scope.

(** ** Typed reads of one event *)

(** The name test of [validate_canonical_access] on an event path. *)
Definition canonical_sequence_name (text : string) : bool :=
  (String.length text =? 20)%nat && str_forall is_digit text.

Definition event_dir (jid : string) : path := ["events"; jid].
Definition task_event_dir (tid : string) : path := ["task_events"; tid].
Definition task_head_path (tid : string) : path := ["task_event_heads"; json_name tid].

Section reads.
Context `{World}.

(** [read_optional(event_dir / f"{seq:020d}.json", RelayEvent)] *)
Definition read_optional_event (jid : string) (sequence : Z) : M disk (option RelayEvent) :=
  d ← read_doc (seq_path (event_dir jid) sequence);
  match d with
  | None => mret None
  | Some (DEvent e) =>
      _ ← ensure (valid_event e) (ValidationError "RelayEvent");
      _ ← ensure (valid_id jid) (QueueConflictError "canonical event directory identity is invalid: ");
      _ ← ensure (canonical_sequence_name (pad20 sequence) && bool_decide (event_job_id e = jid)
                  && (event_seq e =? int_of_digits 0 (pad20 sequence)))
            (QueueConflictError "canonical event identity mismatch: ");
      mret (Some e)
  | Some _ => raise (ValidationError "RelayEvent")
  end.

(** [read_optional(event_dir / f"{seq:020d}.json", TaskTimelineEvent)] *)
Definition read_optional_task_event (tid : string) (sequence : Z) : M disk (option TaskTimelineEvent) :=
  d ← read_doc (seq_path (task_event_dir tid) sequence);
  match d with
  | None => mret None
  | Some (DTaskEvent e) =>
      _ ← ensure (valid_task_event e) (ValidationError "TaskTimelineEvent");
      _ ← ensure (valid_id tid) (QueueConflictError "canonical task event directory identity is invalid: ");
      _ ← ensure (canonical_sequence_name (pad20 sequence) && bool_decide (tev_task_id e = tid)
                  && (tev_seq e =? int_of_digits 0 (pad20 sequence)))
            (QueueConflictError "canonical task event identity mismatch: ");
      mret (Some e)
  | Some _ => raise (ValidationError "TaskTimelineEvent")
  end.

(** [_get_event_task] *)
Definition _get_event_task (tid : string) : M disk RelayTask :=
  d ← read_doc ["tasks"; json_name tid];
  match d with
  | None => raise (NotFoundError "task not found: ")
  | Some (DTask t) =>
      _ ← ensure (valid_task t) (ValidationError "RelayTask");
      _ ← ensure (valid_id tid) (QueueConflictError "canonical task filename identity is invalid: ");
      _ ← ensure (bool_decide (task_id t = tid)) (QueueConflictError "canonical task identity mismatch: ");
      mret t
  | Some _ => raise (ValidationError "RelayTask")
  end.
End reads.

(** ** Appending a job event *)
Section job_events.
Context `{World}.

(** The search for the first free name; it raises [refusal] after [fuel] taken names,
    with [fuel] the bound of the source. *)
Fixpoint next_after (refusal : string) (fuel : nat) (directory : path) (candidate : Z) : M disk Z :=
  match fuel with
  | O => raise (QueueConflictError refusal)
  | S fuel' =>
      found ← path_exists (seq_path directory candidate);
      if (found : bool) then next_after refusal fuel' directory (candidate + 1) else mret candidate
  end.

Definition recovery_bound : nat := Z.to_nat DEFAULT_EXACT_RECORD_LIMIT.

(** [_next_event_seq]; without an index the search starts at 1. *)
Definition _next_event_seq (jid : string) : M disk Z :=
  index ← read_job_index jid;
  match index with
  | Some index =>
      indexed_seq ← lift (index_integer index "latest_event_seq");
      next_after "event head recovery exceeded bound: " recovery_bound (event_dir jid) (indexed_seq + 1)
  | None =>
      next_after "legacy event sequence requires index migration: " recovery_bound (event_dir jid) 1
  end.

(** [_append_event_unlocked] *)
Definition _append_event_unlocked (jid type_ message : string) (payload : list (string * json))
  : M disk RelayEvent :=
  sequence ← _next_event_seq jid;
  now ← utc_now;
  let event := mkEvent jid sequence type_ message INFO now payload in
  _ ← ensure (valid_event event) (ValidationError "RelayEvent");
  _ ← write_doc (seq_path (event_dir jid) sequence) (DEvent event);
  _ ← increment_job_index jid "latest_event_seq" [("latest_event_seq", JInt sequence)];
  mret event.

(** [append_event]; the queue lock is held in both of its cases. *)
Definition append_event (jid type_ message : string) (payload : option (list (string * json)))
  : M disk RelayEvent :=
  jid ← lift (require_durable_record_id (JStr jid) "job_id");
  _append_event_unlocked jid type_ message (default [] payload).

(** ** Reading job events *)

(** The loop of [read_event_page]. *)
Fixpoint event_page_loop (count : nat) (jid : string) (candidate : Z) (events : list RelayEvent)
  : M disk (list RelayEvent * Z) :=
  match count with
  | O => mret (events, candidate)
  | S count' =>
      event ← read_optional_event jid candidate;
      match event with
      | None => mret (events, candidate)
      | Some e =>
          _ ← ensure (bool_decide (event_job_id e = jid) && (event_seq e =? candidate))
                (QueueConflictError "event filename/content identity mismatch: ");
          event_page_loop count' jid (candidate + 1) (events ++ [e])
      end
  end.

(** [read_event_page] *)
Definition read_event_page (jid : string) (next_seq limit : Z) : M disk (list RelayEvent * Z) :=
  jid ← lift (require_durable_record_id (JStr jid) "job_id");
  _ ← ensure (1 <=? next_seq) (ValueError "event sequence must be greater than or equal to 1");
  _ ← ensure (1 <=? limit) (ValueError "event page limit must be greater than or equal to 1");
  event_page_loop (Z.to_nat limit) jid next_seq [].

(** [drain_events] *)
Definition drain_events (cursor : Cursor) (limit : Z) : M disk (list RelayEvent * Cursor) :=
  _ ← lift (require_durable_record_id (JStr (cursor_job_id cursor)) "job_id");
  page ← read_event_page (cursor_job_id cursor) (cursor_next_seq cursor) limit;
  mret (page.1, mkCursor (cursor_job_id cursor) page.2).

(** The [for] loop of [latest_job_event] for a job without index. *)
Fixpoint latest_loop (count : nat) (jid : string) (sequence : Z) (latest : option RelayEvent)
  : M disk (option RelayEvent * bool) :=
  match count with
  | O =>
      more ← path_exists (seq_path (event_dir jid) (DEFAULT_EXACT_RECORD_LIMIT + 1));
      mret (latest, more)
  | S count' =>
      event ← read_optional_event jid sequence;
      match event with
      | None => mret (latest, false)
      | Some e =>
          _ ← ensure (bool_decide (event_job_id e = jid) && (event_seq e =? sequence))
                (QueueConflictError "event filename/content identity mismatch: ");
          latest_loop count' jid (sequence + 1) (Some e)
      end
  end.

(** [latest_job_event] *)
Definition latest_job_event (jid : string) : M disk (option RelayEvent * bool) :=
  jid ← lift (require_durable_record_id (JStr jid) "job_id");
  index ← read_job_index jid;
  match index with
  | Some index =>
      latest_seq ← lift (index_integer index "latest_event_seq");
      if latest_seq =? 0 then mret (None, false)
      else
        event ← read_optional_event jid latest_seq;
        match event with
        | None => raise (QueueConflictError "event index points to a missing record: ")
        | Some e =>
            _ ← ensure (bool_decide (event_job_id e = jid) && (event_seq e =? latest_seq))
                  (QueueConflictError "event index identity mismatch: ");
            mret (Some e, false)
        end
  | None => latest_loop recovery_bound jid 1 None
  end.
End job_events.

(** ** Task timelines *)
Section task_events.
Context `{World}.

(** The checks of a head document. *)
Definition decode_task_head (tid : string) (raw : json) : result Z :=
  match raw with
  | JObj head =>
      match dict_get "latest_seq" head with
      | Some (JInt latest_seq) =>
          if is_string tid (dict_get "task_id" head) && (0 <=? latest_seq) then Ok latest_seq
          else Err (QueueConflictError "invalid task event head identity: ")
      | _ => Err (QueueConflictError "invalid task event head identity: ")
      end
  | _ => Err (QueueConflictError "task event head is not an object: ")
  end.

(** [_next_task_event_seq] *)
Definition _next_task_event_seq (tid : string) : M disk Z :=
  raw ← rewrap "invalid task event head " (read_json_document (task_head_path tid));
  match raw with
  | None => latest ← last_contiguous_sequence (task_event_dir tid); mret (latest + 1)
  | Some v =>
      latest_seq ← lift (decode_task_head tid v);
      next_after "task event head recovery exceeded bound: " recovery_bound (task_event_dir tid)
        (latest_seq + 1)
  end.

Definition task_head_document (tid : string) (sequence : Z) : json :=
  JObj [("task_id", JStr tid); ("latest_seq", JInt sequence)].

(** The payload that announces a timeline entry. *)
Definition announcement (e : TaskTimelineEvent) (sequence : Z) : list (string * json) :=
  [("task_id", JStr (tev_task_id e)); ("task_event_seq", JInt sequence);
   ("event_type", JStr (tev_event_type e)); ("label", JStr (tev_label e));
   ("status", JStr (TaskEventStatus.value (tev_status e)))].

(** [append_task_event] *)
Definition append_task_event (e : TaskTimelineEvent) : M disk TaskTimelineEvent :=
  tid ← lift (require_durable_record_id (JStr (tev_task_id e)) "task_id");
  _ ← lift (mapM_result (fun a => require_durable_record_id (JStr a) "artifact_id") (tev_artifact_refs e));
  task ← _get_event_task tid;
  sequence ← _next_task_event_seq tid;
  let saved := with_seq e sequence in
  _ ← write_doc (seq_path (task_event_dir tid) sequence) (DTaskEvent saved);
  _ ← write_doc (task_head_path tid) (DJson (task_head_document tid sequence));
  _ ← append_event (task_job_id task) ("task.timeline." +:+ tev_event_type e) (tev_summary e)
        (Some (announcement e sequence));
  mret saved.

(** The loop of [drain_task_events]. *)
Fixpoint drain_loop (count : nat) (tid : string) (sequence : Z) (drained : list TaskTimelineEvent)
  : M disk (list TaskTimelineEvent) :=
  match count with
  | O => mret drained
  | S count' =>
      event ← read_optional_task_event tid sequence;
      match event with
      | Some e =>
          _ ← ensure ((tev_seq e =? sequence) && bool_decide (tev_task_id e = tid))
                (QueueConflictError "task event index is missing sequence ");
          drain_loop count' tid (sequence + 1) (drained ++ [e])
      | None => raise (QueueConflictError "task event index is missing sequence ")
      end
  end.

(** [drain_task_events] *)
Definition drain_task_events (tid : string) (cursor limit : json)
  : M disk (list TaskTimelineEvent * Z) :=
  tid ← lift (require_durable_record_id (JStr tid) "task_id");
  cursor ← lift (validate_record_cursor cursor);
  limit ← lift (validate_response_page_limit limit);
  _ ← _get_event_task tid;
  durable_latest_seq ← last_contiguous_sequence (task_event_dir tid);
  raw_head ← read_json_document (task_head_path tid);
  _ ← match raw_head with
      | None => mret tt
      | Some v =>
          recorded ← lift (decode_task_head tid v);
          ensure (recorded <=? durable_latest_seq)
            (QueueConflictError "task event head exceeds durable records: ")
      end;
  let stop := Z.min (durable_latest_seq + 1) (cursor + limit) in
  drained ← drain_loop (Z.to_nat (stop - cursor)) tid cursor [];
  mret (drained, default cursor ((fun e => tev_seq e + 1) <$> last drained)).
End task_events.
