(* ===== verification/OrderIndexProofs.v ===== *)
(** * Global order: stable, unique and growing sequence numbers

    The three files of a family refine an abstract order, the last number handed
    out and a finite map from identifiers to numbers, at every crash point. *)

From S2P Require Import Prelude Sha256 Json JsonSize Decimal Identifiers Models Store OrderIndex.
From stdpp Require Import base list gmap strings relations.
From Stdlib Require Import ZArith Lia.
From Stdlib Require Ascii String.
Open Scope Z_scope.

(** ** File names *)
Lemma app_inj_str t a b : a +:+ t = b +:+ t -> a = b.
Proof.
  revert b. induction a as [|c a IH]; intros [|d b] He; try done.
  - apply (f_equal String.length) in He. rewrite !string_length_app in He. cbn in He. lia.
  - apply (f_equal String.length) in He. rewrite !string_length_app in He. cbn in He. lia.
  - rewrite !append_cons in He. injection He as -> He. by rewrite (IH b He).
Qed.

Lemma json_name_inj a b : json_name a = json_name b -> a = b.
Proof. apply app_inj_str. Qed.

(** A sequence number that fits the twenty digits of its file name. *)
Definition in_names (n : Z) : Prop := 0 <= n < 10 ^ 20.

Lemma seq_path_inj dir a b : in_names a -> in_names b -> seq_path dir a = seq_path dir b -> a = b.
Proof.
  intros Ha Hb He. apply app_inv_head in He. injection He as He%json_name_inj. by apply pad20_inj.
Qed.

Lemma mapping_path_inj f a b :
  order_mapping_path f a = order_mapping_path f b -> _single_value_ref_token a = _single_value_ref_token b.
Proof. intros [= He%json_name_inj]. done. Qed.

Lemma mapping_ne_head f id : order_mapping_path f id <> order_head_path f.
Proof. done. Qed.
Lemma mapping_ne_entry f id n : order_mapping_path f id <> seq_path (order_entries f) n.
Proof. done. Qed.
Lemma head_ne_entry f n : order_head_path f <> seq_path (order_entries f) n.
Proof. done. Qed.
#[export] Hint Resolve mapping_ne_head mapping_ne_entry head_ne_entry not_eq_sym : order_paths.

(** ** The abstract order of a family *)
Record family_order := mkOrder { latest : Z; sequences : gmap string Z }.

Definition empty_order : family_order := mkOrder 0 ∅.

(** What one call for [id] may do: nothing, lose a number, or assign the next one. *)
Inductive order_step (id : string) : family_order -> family_order -> Prop :=
  | order_keep o : order_step id o o
  | order_gap o : order_step id o (mkOrder (latest o + 1) (sequences o))
  | order_assign o : sequences o !! id = None ->
      order_step id o (mkOrder (latest o + 1) (<[id := latest o + 1]> (sequences o))).

Record represents (f : string) (o : family_order) (m : gmap path doc) : Prop := mkRepresents {
  rep_head : (m !! order_head_path f = None /\ latest o = 0) \/
             (m !! order_head_path f = Some (DJson (head_document f (latest o))) /\
              1 <= latest o < 2 ^ 63);
  rep_mapping : forall id d, m !! order_mapping_path f id = Some d ->
    exists id' n, d = DJson (order_document f id' n) /\ sequences o !! id' = Some n /\
      order_mapping_path f id' = order_mapping_path f id;
  rep_assigned : forall id n, sequences o !! id = Some n ->
    m !! order_mapping_path f id = Some (DJson (order_document f id n)) /\
    safe_global_record_id (JStr id) = true /\ 1 <= n <= latest o;
  rep_unique : forall id id' n, sequences o !! id = Some n -> sequences o !! id' = Some n -> id = id';
  rep_entry : forall n d, in_names n -> m !! seq_path (order_entries f) n = Some d ->
    exists id, d = DJson (order_document f id n) /\ sequences o !! id = Some n;
}.

Lemma latest_range f o m : represents f o m -> 0 <= latest o < 2 ^ 63.
Proof. intros [[[_ ->]|[_ ?]] _ _ _ _]; lia. Qed.

Lemma assigned_range f o m id n :
  represents f o m -> sequences o !! id = Some n -> 1 <= n < 2 ^ 63.
Proof.
  intros Hr Hn. pose proof (latest_range _ _ _ Hr). apply (rep_assigned _ _ _ Hr) in Hn as (_&_&?). lia.
Qed.

Lemma in_names_small n : 0 <= n < 2 ^ 63 -> in_names n.
Proof. unfold in_names. lia. Qed.
#[export] Hint Resolve in_names_small : order_paths.

(** ** Decoding what the code wrote *)
Lemma is_string_same t : is_string t (Some (JStr t)) = true.
Proof. cbn. by apply bool_decide_true. Qed.

Lemma decode_order_document f id n :
  safe_global_record_id (JStr id) = true -> 1 <= n < 2 ^ 63 ->
  decode_order_record f (order_document f id n) = Ok (id, n).
Proof.
  intros Hid Hn. unfold decode_order_record, order_document.
  change (dict_get "record_id" _) with (Some (JStr id)).
  change (dict_get "sequence" _) with (Some (JInt n)).
  change (dict_get "schema_version" _) with (Some (JStr GLOBAL_ORDER_INDEX_SCHEMA)).
  change (dict_get "family" _) with (Some (JStr f)). cbv iota.
  by rewrite !is_string_same, Hid, (proj2 (Z.leb_le 1 n)), (proj2 (Z.ltb_lt n (2 ^ 63))) by lia.
Qed.

Lemma decode_head_document f n : 1 <= n < 2 ^ 63 -> decode_order_head f (head_document f n) = Ok n.
Proof.
  intros Hn. unfold decode_order_head, head_document.
  change (dict_get "latest_sequence" _) with (Some (JInt n)).
  change (dict_get "schema_version" _) with (Some (JStr GLOBAL_ORDER_INDEX_SCHEMA)).
  change (dict_get "family" _) with (Some (JStr f)). cbv iota.
  by rewrite !is_string_same, (proj2 (Z.leb_le 1 n)), (proj2 (Z.ltb_lt n (2 ^ 63))) by lia.
Qed.

Lemma order_document_inj f id n id' n' :
  order_document f id n = order_document f id' n' -> id = id' /\ n = n'.
Proof. by intros [= -> ->]. Qed.

(** ** Reading *)
Section reads.
Context `{World}.

Lemma wp_read_json p s (Q : result (option json) -> disk -> Prop) :
  (files s !! p = None -> Q (Ok None) s) ->
  (forall v, files s !! p = Some (DJson v) -> Q (Ok (Some v)) s) ->
  (forall e, Q (Err e) s) -> wp (read_json_document p) s Q.
Proof.
  intros Hnone Hsome Herr. unfold read_json_document. apply wp_bind, wp_read_doc; [|done].
  destruct (files s !! p) as [[]|] eqn:Hp; try (by apply wp_raise); apply wp_ret; auto.
Qed.

Variables (f : string) (o : family_order).

Lemma wp_read_mapping id s (Q : result (option (string * Z)) -> disk -> Prop) :
  represents f o (files s) ->
  (files s !! order_mapping_path f id = None -> Q (Ok None) s) ->
  (forall id' n, files s !! order_mapping_path f id = Some (DJson (order_document f id' n)) ->
     sequences o !! id' = Some n -> Q (Ok (Some (id', n))) s) ->
  (forall e, Q (Err e) s) -> wp (_read_global_record (order_mapping_path f id) f) s Q.
Proof.
  intros Hr Hnone Hsome Herr. unfold _read_global_record. apply wp_bind, wp_read_json; [|..|done].
  - intros Hp. by apply wp_ret, Hnone.
  - intros v Hv. destruct (rep_mapping _ _ _ Hr _ _ Hv) as (id'&n&[= ->]&Hn&_).
    apply wp_bind, wp_lift.
    rewrite decode_order_document; [|by eapply rep_assigned|by eapply assigned_range].
    apply wp_ret. by apply Hsome.
Qed.

Lemma wp_read_head s (Q : result Z -> disk -> Prop) :
  represents f o (files s) -> Q (Ok (latest o)) s -> (forall e, Q (Err e) s) ->
  wp (_read_global_head f) s Q.
Proof.
  intros Hr Hok Herr. unfold _read_global_head. apply wp_bind, wp_read_json; [|..|done].
  - intros Hp. apply wp_ret. destruct (rep_head _ _ _ Hr) as [[_ <-]|[Hh _]]; [done|congruence].
  - intros v Hv. apply wp_lift. destruct (rep_head _ _ _ Hr) as [[Hh _]|[Hh Hl]]; [congruence|].
    rewrite Hh in Hv. injection Hv as <-. by rewrite decode_head_document.
Qed.

Lemma wp_read_entry n s (Q : result (option (string * Z)) -> disk -> Prop) :
  represents f o (files s) -> in_names n ->
  (files s !! seq_path (order_entries f) n = None -> Q (Ok None) s) ->
  (forall id, files s !! seq_path (order_entries f) n = Some (DJson (order_document f id n)) ->
     sequences o !! id = Some n -> Q (Ok (Some (id, n))) s) ->
  (forall e, Q (Err e) s) -> wp (_read_global_record (seq_path (order_entries f) n) f) s Q.
Proof.
  intros Hr Hn Hnone Hsome Herr. unfold _read_global_record. apply wp_bind, wp_read_json; [|..|done].
  - intros Hp. by apply wp_ret, Hnone.
  - intros v Hv. destruct (rep_entry _ _ _ Hr _ _ Hn Hv) as (id&[= ->]&Hs).
    apply wp_bind, wp_lift.
    rewrite decode_order_document; [|by eapply rep_assigned|by eapply assigned_range].
    apply wp_ret. by apply Hsome.
Qed.
End reads.

(** ** Writing *)

(** Writing an entry of an assigned number keeps the order. *)
Lemma represents_entry f o m id n :
  represents f o m -> sequences o !! id = Some n ->
  represents f o (<[seq_path (order_entries f) n := DJson (order_document f id n)]> m).
Proof.
  intros Hr Hn. pose proof (assigned_range _ _ _ _ _ Hr Hn) as Hrange. split.
  - rewrite lookup_insert_ne by done. apply Hr.
  - intros id' d. rewrite lookup_insert_ne by done. apply Hr.
  - intros id' n' Hid'. rewrite lookup_insert_ne by done. by apply Hr.
  - apply Hr.
  - intros n' d Hn' Hd. apply lookup_insert_Some in Hd as [[He <-]|[_ Hd]]; [|by eapply rep_entry].
    apply seq_path_inj in He; [|apply in_names_small; lia|done]. subst. eauto.
Qed.

(** Writing the next head loses a number until the mapping is written. *)
Lemma represents_head f o m :
  represents f o m -> latest o + 1 < 2 ^ 63 ->
  represents f (mkOrder (latest o + 1) (sequences o))
    (<[order_head_path f := DJson (head_document f (latest o + 1))]> m).
Proof.
  intros Hr Hl. pose proof (latest_range _ _ _ Hr). split; cbn [latest sequences].
  - right. rewrite lookup_insert_eq. split; [done|lia].
  - intros id d. rewrite lookup_insert_ne by done. apply Hr.
  - intros id n Hn. rewrite lookup_insert_ne by done. apply (rep_assigned _ _ _ Hr) in Hn as (?&?&?).
    split_and!; [done|done|lia|lia].
  - apply Hr.
  - intros n d Hn. rewrite lookup_insert_ne by done. by apply Hr.
Qed.

(** Writing the mapping assigns the number. *)
Lemma represents_mapping f o m id :
  represents f o m -> safe_global_record_id (JStr id) = true ->
  m !! order_mapping_path f id = None -> 1 <= latest o ->
  (forall id' n, sequences o !! id' = Some n -> n < latest o) ->
  represents f (mkOrder (latest o) (<[id := latest o]> (sequences o)))
    (<[order_mapping_path f id := DJson (order_document f id (latest o))]> m).
Proof.
  intros Hr Hid Hp Hl Hmax. split; cbn [latest sequences].
  - rewrite lookup_insert_ne by done. apply Hr.
  - intros id' d Hd. apply lookup_insert_Some in Hd as [[? <-]|[_ Hd]].
    + exists id, (latest o). by rewrite lookup_insert_eq.
    + destruct (rep_mapping _ _ _ Hr _ _ Hd) as (id''&n&->&Hn&He). exists id'', n. split_and!; [done| |done].
      rewrite lookup_insert_ne; [done|]. intros ->. apply (rep_assigned _ _ _ Hr) in Hn as (?&_). congruence.
  - intros id' n Hn. apply lookup_insert_Some in Hn as [[-> <-]|[Hne Hn]].
    + rewrite lookup_insert_eq. split_and!; [done|done|lia|lia].
    + pose proof (rep_assigned _ _ _ Hr _ _ Hn) as (Hm&?&?). split_and!; [|done|lia|lia].
      rewrite lookup_insert_ne; [done|]. intros He. rewrite <- He in Hm. congruence.
  - intros a b n Ha Hb. apply lookup_insert_Some in Ha as [[Ha Hn]|[_ Ha]];
      apply lookup_insert_Some in Hb as [[Hb Hn']|[_ Hb]].
    + congruence.
    + apply Hmax in Hb. lia.
    + apply Hmax in Ha. lia.
    + by eapply rep_unique.
  - intros n d Hn. rewrite lookup_insert_ne by done. intros Hd.
    destruct (rep_entry _ _ _ Hr _ _ Hn Hd) as (id'&->&Hs). exists id'. split; [done|].
    rewrite lookup_insert_ne; [done|]. intros ->. apply (rep_assigned _ _ _ Hr) in Hs as (?&_). congruence.
Qed.

(** ** One call *)
Section ensure_global.
Context `{World} (f : string).

(** The entry by which a page finds the record of number [n]. *)
Definition listed (id : string) (n : Z) (m : gmap path doc) : Prop :=
  m !! seq_path (order_entries f) n = Some (DJson (order_document f id n)).

(** The promise of a call for [id] that starts in order [o]. *)
Definition order_post (id : string) (o : family_order) (r : result Z) (s' : disk) : Prop :=
  exists o', represents f o' (files s') /\ order_step id o o' /\
    forall n, r = Ok n -> sequences o' !! id = Some n /\ listed id n (files s').

Lemma order_post_err id o o' e s :
  represents f o' (files s) -> order_step id o o' -> order_post id o (Err e) s.
Proof. intros Hr Hs. exists o'. split_and!; [done|done|by intros]. Qed.

(** [_ensure_global_sequence] for an assigned number. *)
Lemma wp_ensure_sequence o id n s (Q : result unit -> disk -> Prop) :
  represents f o (files s) -> sequences o !! id = Some n ->
  (forall r s', represents f o (files s') -> (forall u, r = Ok u -> listed id n (files s')) -> Q r s') ->
  wp (_ensure_global_sequence f id n) s Q.
Proof.
  intros Hr Hn HQ. pose proof (assigned_range _ _ _ _ _ Hr Hn).
  unfold _ensure_global_sequence. apply wp_bind. eapply wp_read_entry; [done|apply in_names_small; lia|..].
  - intros _. apply wp_write; [|intros e; apply HQ; [done|by intros]]. intros s' Hs'. apply HQ; rewrite Hs'.
    + by apply represents_entry.
    + intros _ _. apply lookup_insert_eq.
  - intros id' Hd _. apply wp_ensure; [|intros _; apply HQ; [done|by intros]].
    intros [= ->]%bool_decide_eq_true. by apply HQ.
  - intros e. apply HQ; [done|by intros].
Qed.

Lemma wp_ensure_global id o s :
  represents f o (files s) -> wp (ensure_global f id) s (order_post id o).
Proof.
  intros Hr. unfold ensure_global.
  assert (Hkeep : forall e s', files s' = files s -> order_post id o (Err e) s').
  { intros e s' Hs'. eapply order_post_err; [by rewrite Hs'|constructor]. }
  apply wp_bind, wp_ensure; [intros _|auto]. apply wp_bind, wp_ensure; [intros Hid|auto].
  apply wp_bind. eapply wp_read_mapping; [done|..|auto].
  - intros Hnone. apply wp_bind. eapply wp_read_head; [done| |auto].
    apply wp_bind, wp_ensure; [intros Hl%Z.ltb_lt|auto].
    apply wp_bind, wp_write; [|auto]. intros s1 Hs1.
    pose proof (represents_head _ _ _ Hr ltac:(lia)) as Hr1. rewrite <- Hs1 in Hr1.
    assert (Hfree : sequences o !! id = None).
    { apply eq_None_not_Some. intros [n Hn]. apply (rep_assigned _ _ _ Hr) in Hn as (Hn&_). congruence. }
    apply wp_bind, wp_write; [|intros e; eapply order_post_err; [done|constructor]]. intros s2 Hs2.
    pose proof (latest_range _ _ _ Hr).
    pose proof (represents_mapping _ _ _ id Hr1 Hid) as Hr2. cbn [latest sequences] in Hr2.
    rewrite <- Hs2, Hs1, lookup_insert_ne in Hr2 by done.
    specialize (Hr2 Hnone ltac:(lia)).
    specialize (Hr2 ltac:(intros id' n Hn; apply (rep_assigned _ _ _ Hr) in Hn as (_&_&?); lia)).
    apply wp_bind. eapply wp_ensure_sequence; [done|cbn; apply lookup_insert_eq|].
    intros [u|e] s' Hs' Hl'; [apply wp_ret|by eapply order_post_err; [|constructor]].
    eexists. split_and!; [done|by constructor|]. intros n [= <-]. cbn. rewrite lookup_insert_eq. eauto.
  - intros id' n Hm Hn. apply wp_bind. eapply wp_read_head; [done| |auto].
    apply wp_bind, wp_ensure; [|auto]. intros [Heq%bool_decide_eq_true _]%andb_true_iff. subst id'.
    apply wp_bind. eapply wp_ensure_sequence; [done|done|].
    intros [u|e] s' Hs' Hl'; [apply wp_ret|by eapply order_post_err; [|constructor]].
    exists o. split_and!; [done|constructor|]. intros n' [= <-]. eauto.
Qed.
End ensure_global.

(** ** Histories of calls *)

(** Numbers are never changed or taken back, and new ones are larger. *)
Definition order_le (o o' : family_order) : Prop :=
  latest o <= latest o' /\
  (forall id n, sequences o !! id = Some n -> sequences o' !! id = Some n) /\
  (forall id n, sequences o' !! id = Some n -> sequences o !! id = Some n \/ latest o < n).

#[export] Instance order_le_preorder : PreOrder order_le.
Proof.
  split; [intros a; unfold order_le; split_and!; eauto; lia|]. intros a b c (H1&H2&H3) (H4&H5&H6).
  split_and!; [lia|eauto|]. intros id n Hn. destruct (H6 id n Hn) as [Hb|]; [|right; lia]. eauto.
Qed.

Lemma order_step_le id o o' : order_step id o o' -> order_le o o'.
Proof.
  destruct 1 as [o|o|o Hnone]; split_and!; cbn; try lia; eauto.
  - intros id' n Hn. rewrite lookup_insert_ne; [done|]. intros ->. congruence.
  - intros id' n [[-> <-]|[_ Hn]]%lookup_insert_Some; [right; lia|by left].
Qed.

Lemma order_step_asked id o o' id' n :
  order_step id o o' -> sequences o' !! id' = Some n -> sequences o !! id' = Some n \/ id' = id.
Proof. destruct 1; cbn; [tauto..|]. intros [[-> _]|[_ Hn]]%lookup_insert_Some; tauto. Qed.

Lemma order_step_latest id o o' : order_step id o o' -> latest o' <= latest o + 1.
Proof. destruct 1; cbn; lia. Qed.

Section histories.
Context `{World} (f : string).

(** Calls in a row, each with the crash point at which it stops, if any. *)
Fixpoint run_calls (calls : list (option nat * string)) (s : disk) : list (result Z) * disk :=
  match calls with
  | [] => ([], s)
  | (b, id) :: rest =>
      let '(r, s1) := ensure_global f id (set_budget b s) in
      let '(rs, s2) := run_calls rest s1 in
      (r :: rs, s2)
  end.

Lemma run_calls_app l k s :
  run_calls (l ++ k) s =
  ((run_calls l s).1 ++ (run_calls k (run_calls l s).2).1, (run_calls k (run_calls l s).2).2).
Proof.
  revert s. induction l as [|[b id] l IH]; intros s; cbn; [by destruct (run_calls k s)|].
  destruct (ensure_global f id (set_budget b s)) as [r s1]. rewrite IH.
  destruct (run_calls l s1) as [rs s2]. cbn. by destruct (run_calls k s2).
Qed.

Lemma length_run_calls l s : length (run_calls l s).1 = length l.
Proof.
  revert s. induction l as [|[b id] l IH]; intros s; cbn; [done|].
  destruct (ensure_global f id (set_budget b s)) as [r s1]. specialize (IH s1).
  destruct (run_calls l s1). cbn in *. lia.
Qed.

Lemma run_calls_order l s o :
  represents f o (files s) ->
  exists o', represents f o' (files (run_calls l s).2) /\ order_le o o' /\
    latest o' <= latest o + Z.of_nat (length l) /\
    (forall id n, sequences o' !! id = Some n -> sequences o !! id = Some n \/ id ∈ l.*2) /\
    (forall i b id n, l !! i = Some (b, id) -> (run_calls l s).1 !! i = Some (Ok n) ->
       sequences o' !! id = Some n).
Proof.
  revert s o. induction l as [|[b id] l IH]; intros s o Hr.
  { exists o. split_and!; [done|done|cbn; lia|by left|by intros]. }
  cbn [run_calls]. destruct (wp_ensure_global f id o (set_budget b s) Hr) as (o1&Hr1&Hs1&Hn1).
  destruct (ensure_global f id (set_budget b s)) as [r s1]. cbn [fst snd] in *.
  destruct (IH s1 o1 Hr1) as (o2&Hr2&Hle&Hlat&Hask&Hres). pose proof (order_step_latest _ _ _ Hs1).
  destruct (run_calls l s1) as [rs s2]. cbn [fst snd fmap list_fmap] in *.
  exists o2. split_and!; [done|by etransitivity; [eapply order_step_le|]|cbn [length]; lia|..].
  - intros id' n Hn. rewrite elem_of_cons. destruct (Hask _ _ Hn) as [Hn'|]; [|tauto].
    destruct (order_step_asked _ _ _ _ _ Hs1 Hn'); tauto.
  - intros [|i] b' id' n Hl Hi; cbn in *; [|by eapply Hres].
    injection Hl as <- <-. injection Hi as ->. by apply Hle, Hn1.
Qed.

(** C11: Sequence numbers identify records for good: in any history of calls, with crashes
    at any durable step of any of them, two calls that return give the same number
    exactly for the same record, and a record that had no number when another call
    returned gets a larger one than that call did. *)
Theorem global_order_consistent calls s o i j bi bj idi idj a b :
  represents f o (files s) ->
  calls !! i = Some (bi, idi) -> calls !! j = Some (bj, idj) ->
  (run_calls calls s).1 !! i = Some (Ok a) -> (run_calls calls s).1 !! j = Some (Ok b) ->
  (idi = idj <-> a = b) /\
  (idj ∉ (take (S i) calls).*2 -> sequences o !! idj = None -> a < b).
Proof.
  intros Hr Hi Hj Ha Hb. destruct (run_calls_order calls s o Hr) as (o'&Hr'&_&_&_&Hres).
  pose proof (Hres _ _ _ _ Hi Ha) as Hsa. pose proof (Hres _ _ _ _ Hj Hb) as Hsb. split.
  { split; [congruence|]. intros ->. by eapply rep_unique. }
  intros Hnew Hnone. pose proof (lookup_lt_Some _ _ _ Hi) as Hlt.
  rewrite <- (take_drop (S i) calls) in Ha, Hr'. rewrite run_calls_app in Ha, Hr'. cbn [fst snd] in *.
  destruct (run_calls_order (take (S i) calls) s o Hr) as (o1&Hr1&_&_&Hask1&Hres1).
  rewrite lookup_app_l in Ha by (rewrite length_run_calls, length_take; lia).
  specialize (Hres1 i bi idi a ltac:(rewrite lookup_take_lt by lia; done) Ha).
  assert (Hfresh : sequences o1 !! idj = None).
  { apply eq_None_not_Some. intros [n Hn]. destruct (Hask1 _ _ Hn); congruence. }
  destruct (run_calls_order (drop (S i) calls) _ o1 Hr1) as (o2&Hr2&(_&_&Hnew2)&_&_&Hres2).
  destruct (decide (j < S i)%nat) as [Hj'|Hj'].
  { destruct Hnew. apply list_elem_of_fmap. exists (bj, idj). split; [done|].
    apply list_elem_of_lookup. exists j. by rewrite lookup_take_lt. }
  rewrite <- (take_drop (S i) calls), run_calls_app in Hb. cbn [fst] in Hb.
  rewrite lookup_app_r in Hb by (rewrite length_run_calls, length_take; lia).
  rewrite length_run_calls, length_take, Nat.min_l in Hb by lia.
  specialize (Hres2 (j - S i)%nat bj idj b).
  rewrite lookup_drop in Hres2. replace (S i + (j - S i))%nat with j in Hres2 by lia.
  specialize (Hres2 Hj Hb). destruct (Hnew2 _ _ Hres2) as [|Hl]; [congruence|].
  apply (rep_assigned _ _ _ Hr1) in Hres1 as (_&_&?). lia.
Qed.
End histories.

(** ** A call without a crash completes *)
Section completes.
Context `{World} (f : string) (Hf : f ∈ GLOBAL_ORDER_FAMILIES).

Lemma family_length : (String.length f <= 16)%nat.
Proof.
  revert Hf. unfold GLOBAL_ORDER_FAMILIES. rewrite !elem_of_cons.
  intros [->|[->|[->|[->|Hn]]]]; [cbn; lia..|]. by apply not_elem_of_nil in Hn.
Qed.

Lemma order_max_bytes rest : rest <> [] -> record_max_bytes ("global_order" :: rest) = 65536.
Proof.
  intros Hne. unfold record_max_bytes, record_family. destruct rest as [|x rest]; [done|].
  rewrite bool_decide_true; [done|]. cbn. by left.
Qed.

Lemma safe_id_length id : safe_global_record_id (JStr id) = true -> (String.length id <= 128)%nat.
Proof.
  unfold safe_global_record_id. destruct (validate_durable_record_id (JStr id)) as [x|] eqn:Hv; [|done].
  intros _. apply validate_ok_inv in Hv as ([= ->]&?&_). done.
Qed.

Lemma order_document_fits id n rest :
  safe_global_record_id (JStr id) = true -> 0 <= n < 2 ^ 63 -> rest <> [] ->
  fits ("global_order" :: rest) (DJson (order_document f id n)).
Proof.
  intros Hid%safe_id_length Hn Hr. unfold fits. rewrite order_max_bytes by done.
  pose proof (length_dumps_default (order_document f id n)) as Hl.
  pose proof (bits_bound n 63 Hn). pose proof family_length.
  cbn [encoded_size]. unfold order_document, size_bound, sum_nat in *. cbn in *. lia.
Qed.

Lemma head_document_fits n : 0 <= n < 2 ^ 63 -> fits (order_head_path f) (DJson (head_document f n)).
Proof.
  intros Hn. unfold fits, order_head_path. rewrite order_max_bytes by done.
  pose proof (length_dumps_default (head_document f n)) as Hl.
  pose proof (bits_bound n 63 Hn). pose proof family_length.
  cbn [encoded_size]. unfold head_document, size_bound, sum_nat in *. cbn in *. lia.
Qed.

(** What a read of a mapping or an entry returns. *)
Definition record_at (p : path) (m : gmap path doc) : option (string * Z) :=
  match m !! p with
  | Some (DJson v) => match decode_order_record f v with Ok r => Some r | Err _ => None end
  | _ => None
  end.

Lemma run_read_record rest s o :
  represents f o (files s) -> rest <> [] ->
  (forall d, files s !! ("global_order" :: rest) = Some d ->
     exists id n, d = DJson (order_document f id n) /\ sequences o !! id = Some n) ->
  _read_global_record ("global_order" :: rest) f s =
    (Ok (record_at ("global_order" :: rest) (files s)), s).
Proof.
  intros Hr Hne Hdoc. unfold record_at.
  destruct (files s !! ("global_order" :: rest)) as [d|] eqn:Hp.
  - destruct (Hdoc d eq_refl) as (id&n&->&Hn). pose proof (assigned_range _ _ _ _ _ Hr Hn).
    destruct (rep_assigned _ _ _ Hr _ _ Hn) as (_&Hid&_).
    rewrite decode_order_document by done. unfold _read_global_record, read_json_document, read_doc, mbind, M_bind.
    rewrite Hp, (proj2 (Z.ltb_ge _ _)) by (apply order_document_fits; done || lia).
    cbn [mret M_ret lift]. by rewrite decode_order_document.
  - unfold _read_global_record, read_json_document, read_doc, mbind, M_bind. by rewrite Hp.
Qed.

Lemma run_read_mapping id s o :
  represents f o (files s) ->
  _read_global_record (order_mapping_path f id) f s = (Ok (record_at (order_mapping_path f id) (files s)), s).
Proof. intros Hr. eapply run_read_record; [done|done|]. intros d Hd.
  destruct (rep_mapping _ _ _ Hr _ _ Hd) as (id'&n&?&?&_). eauto. Qed.

Lemma run_read_entry n s o :
  represents f o (files s) -> in_names n ->
  _read_global_record (seq_path (order_entries f) n) f s =
    (Ok (record_at (seq_path (order_entries f) n) (files s)), s).
Proof.
  intros Hr Hn. eapply run_read_record; [done|done|]. intros d Hd.
  destruct (rep_entry _ _ _ Hr n d Hn Hd) as (id&?&?). eauto.
Qed.

Lemma run_read_head s o : represents f o (files s) -> _read_global_head f s = (Ok (latest o), s).
Proof.
  intros Hr. unfold _read_global_head, read_json_document, read_doc, mbind, M_bind.
  destruct (rep_head _ _ _ Hr) as [[-> ->]|[-> Hl]]; [done|].
  rewrite (proj2 (Z.ltb_ge _ _)) by (apply head_document_fits; lia).
  cbn [mret M_ret lift]. by rewrite decode_head_document.
Qed.

Lemma record_at_mapping id n o m :
  represents f o m -> sequences o !! id = Some n -> record_at (order_mapping_path f id) m = Some (id, n).
Proof.
  intros Hr Hn. destruct (rep_assigned _ _ _ Hr _ _ Hn) as (Hm&Hid&_). unfold record_at.
  rewrite Hm, decode_order_document; [done|done|by eapply assigned_range].
Qed.

Lemma record_at_entry n id' n' o m :
  represents f o m -> in_names n -> record_at (seq_path (order_entries f) n) m = Some (id', n') ->
  n' = n /\ sequences o !! id' = Some n.
Proof.
  intros Hr Hn. unfold record_at. destruct (m !! seq_path (order_entries f) n) as [d|] eqn:Hd; [|done].
  destruct (rep_entry _ _ _ Hr n d Hn Hd) as (id&->&Hs).
  rewrite decode_order_document; [|by eapply rep_assigned|by eapply assigned_range].
  by intros [= <- <-].
Qed.

(** The last write of a call. *)
Lemma wp_ensure_sequence_completes o id n s :
  represents f o (files s) -> sequences o !! id = Some n -> budget s = None ->
  wp (_ensure_global_sequence f id n) s (fun r _ => r = Ok tt).
Proof.
  intros Hr Hn Hb. pose proof (assigned_range _ _ _ _ _ Hr Hn) as Hrange.
  destruct (rep_assigned _ _ _ Hr _ _ Hn) as (_&Hid&_).
  unfold _ensure_global_sequence. apply wp_bind. unfold wp at 1.
  rewrite (run_read_entry n s o Hr) by (apply in_names_small; lia). cbn [fst snd].
  destruct (record_at _ _) as [[id' n']|] eqn:He.
  - apply (record_at_entry _ _ _ _ _ Hr) in He as [-> Hs]; [|apply in_names_small; lia].
    apply wp_ensure; [done|]. intros Hne%bool_decide_eq_false. destruct Hne. f_equal. by eapply rep_unique.
  - apply wp_write_fits; [apply order_document_fits; done || lia|done|]. done.
Qed.

Lemma run_ensure_global_completes id s o :
  represents f o (files s) -> budget s = None -> safe_global_record_id (JStr id) = true ->
  latest o < 2 ^ 63 - 1 ->
  (forall id' n, sequences o !! id' = Some n -> _single_value_ref_token id' = _single_value_ref_token id ->
     id' = id) ->
  exists n, (ensure_global f id s).1 = Ok n.
Proof.
  intros Hr Hb Hid Hl Htok. pose proof (latest_range _ _ _ Hr) as Hrange.
  change (wp (ensure_global f id) s (fun r _ => exists n, r = Ok n)). unfold ensure_global.
  rewrite (bool_decide_true _ Hf), Hid. apply wp_bind. apply wp_ensure; [intros _|done].
  apply wp_bind. apply wp_ensure; [intros _|done].
  apply wp_bind. unfold wp at 1. rewrite (run_read_mapping id s o Hr). cbn [fst snd].
  apply wp_bind. unfold wp at 1. rewrite (run_read_head s o Hr). cbn [fst snd].
  destruct (record_at _ _) as [[id' n]|] eqn:Hm.
  - unfold record_at in Hm. destruct (files s !! order_mapping_path f id) as [d|] eqn:Hd; [|done].
    destruct (rep_mapping _ _ _ Hr _ _ Hd) as (id2&n2&->&Hn&He%mapping_path_inj).
    destruct (rep_assigned _ _ _ Hr _ _ Hn) as (_&Hid2&Hn2).
    rewrite decode_order_document in Hm by (done || lia). injection Hm as -> ->.
    pose proof (Htok id' n Hn He) as ->.
    rewrite bool_decide_true, (proj2 (Z.leb_le n (latest o))) by (done || lia).
    apply wp_bind. apply wp_ensure; [intros _|done]. apply wp_bind.
    eapply wp_mono; [by eapply wp_ensure_sequence_completes|]. intros r s' ->. apply wp_ret. eauto.
  - assert (Hnone : files s !! order_mapping_path f id = None).
    { unfold record_at in Hm. destruct (files s !! order_mapping_path f id) as [d|] eqn:Hd; [|done].
      destruct (rep_mapping _ _ _ Hr _ _ Hd) as (id2&n2&->&Hn&_).
      rewrite decode_order_document in Hm; [done|by eapply rep_assigned|by eapply assigned_range]. }
    rewrite (proj2 (Z.ltb_lt (latest o) (2 ^ 63 - 1))) by lia. apply wp_bind. apply wp_ensure; [intros _|done].
    apply wp_bind. apply wp_write_fits; [apply head_document_fits; lia|done|]. intros s1 Hs1 Hb1.
    apply wp_bind. apply wp_write_fits; [apply order_document_fits; done || lia|done|]. intros s2 Hs2 Hb2.
    pose proof (represents_head _ _ _ Hr ltac:(lia)) as Hr1. rewrite <- Hs1 in Hr1.
    pose proof (represents_mapping _ _ _ id Hr1 Hid) as Hr2. cbn [latest sequences] in Hr2.
    rewrite <- Hs2, Hs1, lookup_insert_ne in Hr2 by done. specialize (Hr2 Hnone ltac:(lia)).
    specialize (Hr2 ltac:(intros id' n Hn; apply (rep_assigned _ _ _ Hr) in Hn as (_&_&?); lia)).
    apply wp_bind. eapply wp_mono; [eapply wp_ensure_sequence_completes; [exact Hr2|apply lookup_insert_eq|done]|].
    intros r s' ->. apply wp_ret. eauto.
Qed.

(** No call can get stuck on what crashed calls left: without a crash point, a call
    for a valid identifier returns a number, unless the numbers are used up or the
    identifier's file name is taken by another one. *)
Theorem ensure_global_completes id s o :
  represents f o (files s) -> budget s = None -> safe_global_record_id (JStr id) = true ->
  latest o < 2 ^ 63 - 1 ->
  (forall id' n, sequences o !! id' = Some n -> _single_value_ref_token id' = _single_value_ref_token id ->
     id' = id) ->
  exists n, (ensure_global f id s).1 = Ok n.
Proof. apply run_ensure_global_completes. Qed.
End completes.
