(* ===== verification/OrderPagesProofs.v ===== *)
(** * Pages and scans of a global order are exact

    Whatever the page size, walking a family by pages returns the live records of
    every sequence position once, in order, and says whether positions are left. *)

From S2P Require Import Prelude Sha256 Json JsonSize Decimal Identifiers Models Store OrderIndex.
From S2P Require Import OrderIndexProofs.
From stdpp Require Import base list gmap strings list_numbers.
From Stdlib Require Import ZArith Lia.
From Stdlib Require Ascii String.
Open Scope Z_scope.

Lemma run_lift {S A : Type} (a : A) (s : S) : lift (Ok a) s = (Ok a, s).
Proof. reflexivity. Qed.

(** Run one step of a computation whose outcome is known. *)
Ltac run_step H := erewrite M_bind_run by (first [exact H | apply H]).

Section pages.
Context `{World} {Record : Type}.
Variables (f : string) (read_record : string -> M disk (option Record)).
Variables (identity : Record -> string) (predicate : Record -> bool).

(** The state the walk reads: an order, the family's records and a finished index
    migration. *)
Variables (o : family_order) (s : disk) (lookup_record : string -> option Record).
Hypothesis family_known : f ∈ GLOBAL_ORDER_FAMILIES.
Hypothesis order_here : represents f o (files s).
Hypothesis migrated : require_index_migration_complete s = (Ok tt, s).
Hypothesis reads_record : forall id n, sequences o !! id = Some n ->
  read_record id s = (Ok (lookup_record id), s).
Hypothesis reads_identity : forall id n r,
  sequences o !! id = Some n -> lookup_record id = Some r -> identity r = id.

(** The record of one position: none for a lost number or a retired record. *)
Definition position (n : Z) : list Record :=
  match record_at f (seq_path (order_entries f) n) (files s) with
  | None => []
  | Some (id, _) =>
      match lookup_record id with
      | None => []
      | Some r => if predicate r then [r] else []
      end
  end.

(** The records of [count] positions from [cursor]. *)
Definition positions (cursor count : Z) : list Record := concat (position <$> seqZ cursor count).

Lemma run_page_entry n :
  in_names n -> page_entry f read_record identity predicate n s = (Ok (position n), s).
Proof.
  intros Hn. unfold page_entry, position. run_step (run_read_entry f family_known n s o order_here Hn).
  destruct (record_at f _ _) as [[id n']|] eqn:He; [|done].
  apply (record_at_entry f _ _ _ _ _ order_here Hn) in He as [-> Hs].
  rewrite Z.eqb_refl. run_step (ensure_true (QueueConflictError "global-order sequence identity mismatch: ") s).
  run_step (run_read_mapping f family_known id s o order_here).
  rewrite (record_at_mapping f id n o _ order_here Hs), bool_decide_true by done.
  run_step (ensure_true (QueueConflictError "global-order reverse mapping mismatch: ") s).
  run_step (reads_record id n Hs). destruct (lookup_record id) as [r|] eqn:Hr; [|done].
  rewrite bool_decide_true by (by eapply reads_identity). by destruct (predicate r).
Qed.

Lemma run_page_loop count n acc :
  0 <= n -> n + Z.of_nat count <= 10 ^ 20 ->
  page_loop f read_record identity predicate count n acc s = (Ok (acc ++ positions n (Z.of_nat count)), s).
Proof.
  revert n acc. induction count as [|count IH]; intros n acc Hn Hmax.
  - cbn. by rewrite app_nil_r.
  - cbn [page_loop]. run_step (run_page_entry n ltac:(unfold in_names; lia)).
    rewrite IH by lia. unfold positions. rewrite (seqZ_cons n (Z.of_nat (S count))) by lia.
    cbn [fmap list_fmap concat]. rewrite <- app_assoc.
    by replace (Z.pred (Z.of_nat (S count))) with (Z.of_nat count) by lia.
Qed.

Lemma positions_app n a b : 0 <= a -> 0 <= b -> positions n (a + b) = positions n a ++ positions (n + a) b.
Proof.
  intros Ha Hb. unfold positions.
  by rewrite seqZ_app, fmap_app, concat_app by lia.
Qed.

Lemma positions_none n count : count <= 0 -> positions n count = [].
Proof. intros Hc. unfold positions. by rewrite seqZ_nil. Qed.

(** One page: the records of its positions, the cursor of the next page and the last
    number handed out. *)
Lemma run_page cursor limit :
  1 <= cursor -> 1 <= limit <= MAX_RESPONSE_PAGE_RECORDS ->
  _read_global_order_page f read_record identity predicate (JInt cursor) (JInt limit) s =
  (Ok (positions cursor (Z.min (latest o + 1 - cursor) limit),
       if cursor + limit <=? latest o then Some (cursor + limit) else None, latest o), s).
Proof.
  intros Hc Hl. unfold _read_global_order_page, validate_record_cursor, validate_response_page_limit.
  rewrite (proj2 (Z.ltb_ge cursor 1)), (proj2 (Z.ltb_ge limit 1)), (proj2 (Z.ltb_ge _ limit)) by lia.
  cbn [orb]. run_step (run_lift cursor s). run_step (run_lift limit s). run_step migrated.
  run_step (run_read_head f family_known s o order_here).
  pose proof (latest_range _ _ _ order_here).
  destruct (Z.ltb_spec (latest o) cursor).
  - rewrite positions_none, (proj2 (Z.leb_gt _ _)) by lia. done.
  - erewrite M_bind_run by (apply run_page_loop; lia). cbn [app].
    rewrite Z2Nat.id by lia. cbv [mret M_ret].
    replace (Z.min (latest o + 1) (cursor + limit) - cursor) with (Z.min (latest o + 1 - cursor) limit) by lia.
    destruct (Z.leb_spec (cursor + limit) (latest o)).
    + replace (Z.min (latest o + 1) (cursor + limit)) with (cursor + limit) by lia.
      by rewrite (proj2 (Z.leb_le _ _)) by lia.
    + by rewrite (proj2 (Z.leb_gt _ _)) by lia.
Qed.

(** Appending a page to the positions before it. *)
Lemma positions_page cursor limit :
  1 <= cursor -> 0 <= limit ->
  positions 1 (Z.min (cursor - 1) (latest o)) ++ positions cursor (Z.min (latest o + 1 - cursor) limit) =
  positions 1 (Z.min (cursor - 1 + limit) (latest o)).
Proof.
  intros Hc Hl. pose proof (latest_range _ _ _ order_here).
  destruct (Z.le_gt_cases (cursor - 1) (latest o)).
  - rewrite Z.min_l by lia. replace (Z.min (cursor - 1 + limit) (latest o))
      with ((cursor - 1) + Z.min (latest o + 1 - cursor) limit) by lia.
    rewrite positions_app by lia. by replace (1 + (cursor - 1)) with cursor by lia.
  - rewrite (positions_none cursor) by lia. rewrite app_nil_r. f_equal. lia.
Qed.

Lemma run_scan_pages fuel cursor remaining acc :
  1 <= cursor -> (Z.to_nat remaining <= fuel)%nat -> 0 <= remaining ->
  acc = positions 1 (Z.min (cursor - 1) (latest o)) ->
  scan_pages f read_record identity predicate fuel cursor remaining acc s =
  (Ok (positions 1 (Z.min (cursor - 1 + remaining) (latest o)), cursor + remaining <=? latest o), s).
Proof.
  revert cursor remaining acc. induction fuel as [|fuel IH]; intros cursor remaining acc Hc Hf Hr ->; cbn [scan_pages].
  - run_step (run_read_head f family_known s o order_here). cbv [mret M_ret].
    assert (remaining = 0) as -> by lia. by rewrite !Z.add_0_r.
  - destruct (Z.leb_spec remaining 0).
    { run_step (run_read_head f family_known s o order_here). cbv [mret M_ret].
      assert (remaining = 0) as -> by lia. by rewrite !Z.add_0_r. }
    unfold MAX_RESPONSE_PAGE_RECORDS in *.
    erewrite M_bind_run by (apply run_page; unfold MAX_RESPONSE_PAGE_RECORDS; lia).
    destruct (Z.leb_spec (cursor + Z.min remaining 500) (latest o)).
    + rewrite positions_page by lia. rewrite IH; [|lia|lia|lia|f_equal; lia].
      set (left_over := remaining - _).
      replace (cursor + Z.min remaining 500 - 1 + left_over) with (cursor - 1 + remaining) by lia.
      by replace (cursor + Z.min remaining 500 + left_over) with (cursor + remaining) by lia.
    + cbv [mret M_ret]. rewrite positions_page by lia. rewrite (proj2 (Z.leb_gt _ _)) by lia.
      by replace (Z.min (cursor - 1 + Z.min remaining 500) (latest o))
        with (Z.min (cursor - 1 + remaining) (latest o)) by lia.
Qed.

Lemma run_scan limit :
  1 <= limit <= MAX_BOUNDED_SCAN_RECORDS ->
  _scan_global_order f read_record identity predicate limit s =
  (Ok (positions 1 (Z.min limit (latest o)), limit <? latest o), s).
Proof.
  intros Hl. unfold _scan_global_order.
  rewrite (proj2 (Z.ltb_ge limit 1)), (proj2 (Z.ltb_ge _ limit)) by lia. cbn [orb negb].
  run_step (ensure_true (ValueError "scan limit must be between 1 and ") s).
  rewrite run_scan_pages; [|lia|lia|lia|].
  - do 3 f_equal. destruct (Z.leb_spec (1 + limit) (latest o)), (Z.ltb_spec limit (latest o)); lia || done.
  - symmetry. apply positions_none. lia.
Qed.

(** A scan of a family is exact: it returns the live records of the first [limit]
    sequence positions, each once and in order, and says exactly whether positions
    are left; it always ends. *)
Theorem scan_global_order_exact limit :
  1 <= limit <= MAX_BOUNDED_SCAN_RECORDS ->
  _scan_global_order f read_record identity predicate limit s =
  (Ok (positions 1 (Z.min limit (latest o)), limit <? latest o), s).
Proof. apply run_scan. Qed.
End pages.

(** ** Jobs *)
Lemma jobs_family : "jobs" ∈ GLOBAL_ORDER_FAMILIES.
Proof. unfold GLOBAL_ORDER_FAMILIES. set_solver. Qed.

Section jobs.
Context `{World}.
Variables (o : family_order) (s : disk).

(** Every job of the order is retired or has its canonical record. *)
Definition jobs_stored (m : gmap path doc) : Prop :=
  forall id n, sequences o !! id = Some n ->
    m !! ["jobs"; json_name id] = None \/
    exists j, m !! ["jobs"; json_name id] = Some (DJob j) /\ valid_job j = true /\ job_id j = id /\
      fits ["jobs"; json_name id] (DJob j).

Definition stored_job (id : string) : option RelayJob :=
  match files s !! ["jobs"; json_name id] with Some (DJob j) => Some j | _ => None end.

Hypothesis order_here : represents "jobs" o (files s).
Hypothesis migrated : require_index_migration_complete s = (Ok tt, s).
Hypothesis stored : jobs_stored (files s).

Definition live_jobs (cursor count : Z) : list RelayJob :=
  positions "jobs" (fun _ => true) s stored_job cursor count.

Lemma run_read_job id n :
  sequences o !! id = Some n -> read_optional_job id s = (Ok (stored_job id), s).
Proof.
  intros Hn. unfold read_optional_job, stored_job, read_doc, mbind, M_bind.
  destruct (stored id n Hn) as [->|(j&->&Hv&Hid&Hf)]; [done|].
  rewrite (proj2 (Z.ltb_ge _ _)) by exact Hf. unfold ensure. cbn [lift].
  rewrite Hv, bool_decide_true by done. done.
Qed.

Lemma stored_job_id id n j : sequences o !! id = Some n -> stored_job id = Some j -> job_id j = id.
Proof.
  unfold stored_job. intros Hn. destruct (stored id n Hn) as [->|(j'&->&_&Hid&_)]; [done|]. by intros [= <-].
Qed.

Lemma positions_filter (p : RelayJob -> bool) cursor count :
  positions "jobs" p s stored_job cursor count = filter p (live_jobs cursor count).
Proof.
  unfold live_jobs, positions. induction (seqZ cursor count) as [|n l IH]; [done|].
  cbn [fmap list_fmap concat]. rewrite filter_app. unfold positions in IH. rewrite <- IH. f_equal.
  unfold position. destruct (record_at _ _ _) as [[id _]|]; [|done].
  destruct (stored_job id) as [j|]; [|done]. cbn.
  destruct (p j) eqn:Hp; cbn; destruct (decide (p j)) as [Hd|Hd]; rewrite Hp in Hd; done.
Qed.

Lemma run_jobs_page cursor limit cluster st kind include_terminal :
  1 <= cursor -> 1 <= limit <= MAX_RESPONSE_PAGE_RECORDS ->
  list_jobs_page (JInt cursor) (JInt limit) cluster st kind include_terminal s =
  (Ok (filter (job_matches cluster st kind include_terminal)
         (live_jobs cursor (Z.min (latest o + 1 - cursor) limit)),
       if cursor + limit <=? latest o then Some (cursor + limit) else None, latest o), s).
Proof.
  intros Hc Hl. unfold list_jobs_page.
  rewrite (run_page "jobs" _ _ _ o s stored_job jobs_family order_here migrated run_read_job stored_job_id)
    by done.
  by rewrite positions_filter.
Qed.

Lemma filter_matches_all (l : list RelayJob) : filter (job_matches None None None true) l = l.
Proof.
  induction l as [|j l IH]; [done|]. rewrite filter_cons, IH. by case_decide.
Qed.

Lemma scan_jobs_loop_done fuel cursor remaining acc :
  scan_jobs_loop fuel cursor remaining None acc s = (Ok (acc, false), s).
Proof. destruct fuel; cbn [scan_jobs_loop]; [done|]. by destruct (0 <? remaining). Qed.

Lemma run_scan_jobs_loop fuel cursor remaining acc :
  1 <= cursor -> (Z.to_nat remaining <= fuel)%nat -> 0 <= remaining ->
  cursor <= latest o \/ 0 < remaining ->
  acc = live_jobs 1 (Z.min (cursor - 1) (latest o)) ->
  scan_jobs_loop fuel cursor remaining (Some cursor) acc s =
  (Ok (live_jobs 1 (Z.min (cursor - 1 + remaining) (latest o)), cursor + remaining <=? latest o), s).
Proof.
  revert cursor remaining acc. induction fuel as [|fuel IH]; intros cursor remaining acc Hc Hf Hr Hor ->; cbn [scan_jobs_loop].
  { assert (remaining = 0) as -> by lia. cbv [mret M_ret]. rewrite !Z.add_0_r, (proj2 (Z.leb_le cursor _)) by lia.
    done. }
  destruct (Z.ltb_spec 0 remaining); cbn [andb].
  2:{ assert (remaining = 0) as -> by lia. cbv [mret M_ret]. rewrite !Z.add_0_r, (proj2 (Z.leb_le cursor _)) by lia.
      done. }
  rewrite bool_decide_true by done. unfold MAX_RESPONSE_PAGE_RECORDS in *.
  erewrite M_bind_run by (apply run_jobs_page; unfold MAX_RESPONSE_PAGE_RECORDS; lia).
  rewrite filter_matches_all. unfold live_jobs.
  rewrite (positions_page "jobs" _ o s stored_job order_here) by lia.
  destruct (Z.leb_spec (cursor + Z.min 500 remaining) (latest o)); cbn [default].
  - unfold live_jobs in IH. rewrite IH by (lia || (f_equal; lia)).
    by replace (cursor + Z.min 500 remaining - 1 + (remaining - Z.min 500 remaining)) with (cursor - 1 + remaining) by lia;
       replace (cursor + Z.min 500 remaining + (remaining - Z.min 500 remaining)) with (cursor + remaining) by lia.
  - rewrite scan_jobs_loop_done, (proj2 (Z.leb_gt _ _)) by lia.
    by replace (Z.min (cursor - 1 + Z.min 500 remaining) (latest o))
      with (Z.min (cursor - 1 + remaining) (latest o)) by lia.
Qed.

(** Job listings are exact: a page returns the live jobs of its sequence positions
    that match the filters, in submission order, and where to go on; a scan returns
    the live jobs of the first [limit] positions and says whether more are left. *)
Theorem job_listings_exact :
  (forall cursor limit cluster st kind include_terminal,
     1 <= cursor -> 1 <= limit <= MAX_RESPONSE_PAGE_RECORDS ->
     list_jobs_page (JInt cursor) (JInt limit) cluster st kind include_terminal s =
     (Ok (filter (job_matches cluster st kind include_terminal)
            (live_jobs cursor (Z.min (latest o + 1 - cursor) limit)),
          if cursor + limit <=? latest o then Some (cursor + limit) else None, latest o), s)) /\
  (forall limit, 1 <= limit ->
     scan_jobs limit s = (Ok (live_jobs 1 (Z.min limit (latest o)), limit <? latest o), s)).
Proof.
  split; [intros; by apply run_jobs_page|]. intros limit Hl. unfold scan_jobs.
  rewrite (proj2 (Z.leb_le 1 limit)) by lia.
  run_step (ensure_true (ValueError "job scan limit must be at least 1") s).
  rewrite run_scan_jobs_loop; [|lia|lia|lia|lia|].
  - do 3 f_equal. destruct (Z.leb_spec (1 + limit) (latest o)), (Z.ltb_spec limit (latest o)); lia || done.
  - symmetry. apply positions_none. lia.
Qed.
End jobs.
