(* ===== verification/EventsProofs.v ===== *)
(** * Job events: an append-only log under crashes *)

From S2P Require Import Prelude Sha256 Json Decimal JsonSize Identifiers Models Store OrderIndex JobIndex Events OrderIndexProofs.
From S2P Require Import OrderPagesProofs.
From stdpp Require Import base list gmap strings.
From Stdlib Require Import ZArith Lia.
From Stdlib Require Ascii String.
Open Scope Z_scope.

(** ** Logs of numbered records

    A directory holds a log when the record of number [n] is the [n]-th of a list and
    no later name exists.  Appending writes the next name; the end is found by
    looking on from a known position or by bisection over the names. *)

Definition holds_log (dir : path) (ds : list doc) (m : gmap path doc) : Prop :=
  forall n, 1 <= n < 10 ^ 20 -> m !! seq_path dir n = ds !! Z.to_nat (n - 1).

Lemma log_append dir ds d m :
  holds_log dir ds m -> Z.of_nat (length ds) + 1 < 10 ^ 20 ->
  holds_log dir (ds ++ [d]) (<[seq_path dir (Z.of_nat (length ds) + 1) := d]> m).
Proof.
  intros Hl Hlen n Hn. destruct (decide (n = Z.of_nat (length ds) + 1)) as [->|Hne].
  - rewrite lookup_insert_eq. symmetry. apply list_lookup_middle. lia.
  - rewrite lookup_insert_ne, Hl by first [lia | intros He%seq_path_inj; unfold in_names in *; lia].
    destruct (decide (n <= Z.of_nat (length ds))).
    + symmetry. apply lookup_app_l. lia.
    + rewrite !lookup_ge_None_2; [done|rewrite length_app; cbn; lia|lia].
Qed.

Lemma log_other dir ds p d m :
  holds_log dir ds m -> (forall n, p <> seq_path dir n) -> holds_log dir ds (<[p := d]> m).
Proof. intros Hl Hp n Hn. rewrite lookup_insert_ne by apply Hp. by apply Hl. Qed.

Lemma log_present dir ds m n :
  holds_log dir ds m -> 1 <= n < 10 ^ 20 ->
  bool_decide (is_Some (m !! seq_path dir n)) = (n <=? Z.of_nat (length ds)).
Proof.
  intros Hl Hn. rewrite (Hl n Hn). destruct (Z.leb_spec n (Z.of_nat (length ds))).
  - apply bool_decide_true, lookup_lt_is_Some. lia.
  - apply bool_decide_false. rewrite lookup_lt_is_Some. lia.
Qed.

Section search.
Context `{World} (dir : path) (ds : list doc) (s : disk).
Hypothesis log_here : holds_log dir ds (files s).

Abbreviation len := (Z.of_nat (length ds)).

Lemma run_path_exists n :
  1 <= n < 10 ^ 20 -> path_exists (seq_path dir n) s = (Ok (n <=? len), s).
Proof. intros Hn. unfold path_exists. by rewrite (log_present dir ds). Qed.

(** The search for the first free name from a position inside the log. *)
Lemma run_next_after refusal fuel c :
  1 <= c <= len + 1 -> len < 10 ^ 19 ->
  next_after refusal fuel dir c s =
  (if len + 1 - c <? Z.of_nat fuel then Ok (len + 1) else Err (QueueConflictError refusal), s).
Proof.
  revert c. induction fuel as [|fuel IH]; intros c Hc Hlen.
  - cbn [next_after]. by rewrite (proj2 (Z.ltb_ge _ _)) by lia.
  - cbn [next_after]. erewrite M_bind_run by (apply run_path_exists; lia).
    destruct (Z.leb_spec c len).
    + rewrite IH by lia. destruct (Z.ltb_spec (len + 1 - (c + 1)) (Z.of_nat fuel));
        [rewrite (proj2 (Z.ltb_lt _ _)) by lia|rewrite (proj2 (Z.ltb_ge _ _)) by lia]; done.
    + rewrite (proj2 (Z.ltb_lt _ _)) by lia. assert (c = len + 1) as -> by lia. done.
Qed.

Lemma run_double_up fuel k :
  0 <= k -> 63 - k < Z.of_nat fuel -> 2 ^ k <= len < 2 ^ 63 ->
  exists j, 0 <= j < 63 /\ 2 ^ j <= len < 2 ^ (j + 1) /\
    double_up fuel dir (2 ^ k) (2 ^ (k + 1)) s = (Ok (2 ^ j, 2 ^ (j + 1)), s).
Proof.
  revert k. induction fuel as [|fuel IH]; intros k Hk Hf Hlen.
  { assert (2 ^ 63 < 2 ^ k) by (apply Z.pow_lt_mono_r; lia). lia. }
  assert (Hk63 : k < 63) by (apply (Z.pow_lt_mono_r_iff 2); lia).
  cbn [double_up].
  assert (Hp : 1 <= 2 ^ (k + 1) <= 2 ^ 63).
  { split; [pose proof (Z.pow_pos_nonneg 2 (k + 1)); lia|apply Z.pow_le_mono_r; lia]. }
  erewrite M_bind_run by (apply run_path_exists; lia).
  destruct (Z.leb_spec (2 ^ (k + 1)) len).
  - assert (k + 1 < 63) by (apply (Z.pow_lt_mono_r_iff 2); lia).
    assert (Hd : 2 ^ (k + 1) * 2 = 2 ^ (k + 1 + 1)) by (rewrite (Z.pow_add_r 2 (k + 1) 1); lia).
    rewrite Hd, (proj2 (Z.ltb_ge _ _)) by (apply Z.pow_le_mono_r; lia).
    apply IH; lia.
  - exists k. split_and!; [lia|lia|lia|lia|done].
Qed.

Lemma run_bisect fuel low high :
  1 <= low <= len -> len < high -> high <= 2 ^ 63 -> high - low <= 2 ^ Z.of_nat fuel ->
  bisect fuel dir low high s = (Ok len, s).
Proof.
  revert low high. induction fuel as [|fuel IH]; intros low high Hl Hh Hm Hgap.
  - cbn in *. assert (low = len) as -> by lia. done.
  - cbn [bisect]. destruct (Z.ltb_spec (low + 1) high).
    + assert (Hmid : low < (low + high) / 2 < high).
      { pose proof (Z.div_mod (low + high) 2). pose proof (Z.mod_pos_bound (low + high) 2). lia. }
      rewrite Nat2Z.inj_succ, Z.pow_succ_r in Hgap by lia.
      pose proof (Z.div_mod (low + high) 2). pose proof (Z.mod_pos_bound (low + high) 2).
      erewrite M_bind_run by (apply run_path_exists; lia).
      destruct (Z.leb_spec ((low + high) / 2) len); apply IH; lia.
    + assert (low = len) as -> by lia. done.
Qed.

Lemma run_last_contiguous : len < 2 ^ 63 -> last_contiguous_sequence dir s = (Ok len, s).
Proof.
  intros Hlen. unfold last_contiguous_sequence.
  erewrite M_bind_run by (apply run_path_exists; lia).
  destruct (Z.leb_spec 1 len).
  - destruct (run_double_up 64 0) as (j&Hj&Hb&Hrun); [lia|lia|cbn; lia|].
    change (2 ^ 0) with 1 in Hrun. change (2 ^ (0 + 1)) with 2 in Hrun.
    erewrite M_bind_run by exact Hrun. cbn [fst snd]. apply run_bisect; [|lia|apply Z.pow_le_mono_r; lia|].
    + pose proof (Z.pow_pos_nonneg 2 j). lia.
    + rewrite Z.pow_add_r by lia. change (2 ^ 1) with 2.
      assert (2 ^ j <= 2 ^ Z.of_nat 64) by (apply Z.pow_le_mono_r; lia). lia.
  - assert (len = 0) as -> by lia. done.
Qed.

(** C32: The length of a log is found exactly, with at most 128 name tests, for every log
    of fewer than [2 ^ 63] records; the two loops end. *)
Theorem last_contiguous_exact :
  len < 2 ^ 63 -> last_contiguous_sequence dir s = (Ok len, s).
Proof. apply run_last_contiguous. Qed.
End search.

(** ** The job index *)

(** What [read_job_index] accepts. *)
Lemma decode_job_index_ok jid index index' :
  decode_job_index jid (JObj index) = Ok index' <->
  index' = index /\
  is_string JOB_INDEX_SCHEMA (dict_get "schema_version" index)
    && is_string jid (dict_get "job_id" index) = true /\
  (forall field, field ∈ index_fields -> exists v, index_integer index field = Ok v) /\
  optional_text (dict_get "latest_progress_id" index) = true.
Proof.
  unfold decode_job_index. split.
  - intros Hd. apply bind_ok in Hd as (u&H1%raise_unless_ok&Hd).
    apply bind_ok in Hd as (vs&Hvs%mapM_result_ok&Hd). apply bind_ok in Hd as (u'&H3%raise_unless_ok&[= ->]).
    split_and!; [done|done| |done]. intros field [k Hk]%list_elem_of_lookup.
    destruct (Forall2_lookup_l _ _ _ _ _ Hvs Hk) as (v&_&Hv). eauto.
  - intros (->&H1&H2&H3). rewrite H1, H3.
    assert (Hvs : exists vs, Forall2 (fun field v => index_integer index field = Ok v) index_fields vs).
    { induction index_fields as [|k l IH]; [by exists []|].
      destruct (H2 k) as [v Hv]; [by left|]. destruct IH as [vs Hvs]; [intros; apply H2; by right|].
      exists (v :: vs). by constructor. }
    destruct Hvs as [vs Hvs%mapM_result_ok]. cbn [raise_unless mbind result_bind]. by rewrite Hvs.
Qed.

(** Changing the last event number keeps a job index well formed. *)
Lemma decode_set_latest jid index v :
  decode_job_index jid (JObj index) = Ok index -> 0 <= v ->
  decode_job_index jid (JObj (dict_set "latest_event_seq" (JInt v) index)) =
    Ok (dict_set "latest_event_seq" (JInt v) index).
Proof.
  rewrite !decode_job_index_ok. intros (_&H1&H2&H3) Hv.
  rewrite !dict_get_set_ne by done. split_and!; [done|done| |done].
  intros field Hf. destruct (decide (field = "latest_event_seq")) as [->|Hne].
  - unfold index_integer. rewrite dict_get_set_eq, (proj2 (Z.ltb_ge v 0)) by lia. eauto.
  - destruct (H2 field Hf) as [w Hw]. exists w. unfold index_integer in *.
    by rewrite dict_get_set_ne by done.
Qed.

Lemma index_set_latest index v :
  0 <= v -> index_integer (dict_set "latest_event_seq" (JInt v) index) "latest_event_seq" = Ok v.
Proof. intros Hv. unfold index_integer. by rewrite dict_get_set_eq, (proj2 (Z.ltb_ge v 0)) by lia. Qed.

Lemma dict_set_twice {V} (k : string) (v w : V) d : dict_set k w (dict_set k v d) = dict_set k w d.
Proof.
  induction d as [|[k' v'] d IH]; cbn; [by rewrite bool_decide_true|].
  case_bool_decide as Hk; cbn; [by rewrite bool_decide_true|]. by rewrite bool_decide_false, IH.
Qed.

Section index.
Context `{World}.

(** The job index of [jid]: absent, or a well-formed document that fits and caches the
    number [h] of the last event. *)
Definition index_at (jid : string) (h : option Z) (m : gmap path doc) : Prop :=
  match h with
  | None => m !! job_index_path jid = None
  | Some n => exists index,
      m !! job_index_path jid = Some (DJson (JObj index)) /\
      fits (job_index_path jid) (DJson (JObj index)) /\
      decode_job_index jid (JObj index) = Ok index /\
      index_integer index "latest_event_seq" = Ok n
  end.

Lemma index_nonneg jid n m : index_at jid (Some n) m -> 0 <= n.
Proof.
  intros (index&_&_&_&Hi). unfold index_integer in Hi.
  destruct (dict_get _ _) as [[| |v| | | |]|]; try done. destruct (Z.ltb_spec v 0); [done|].
  by injection Hi as <-.
Qed.

Lemma require_valid jid field :
  valid_id jid = true -> require_durable_record_id (JStr jid) field = Ok jid.
Proof.
  unfold valid_id, require_durable_record_id.
  destruct (validate_durable_record_id (JStr jid)) as [x|] eqn:Hv; [|done]. intros _.
  by rewrite (validate_str_ok _ _ Hv).
Qed.

Lemma run_read_index jid h s :
  valid_id jid = true -> index_at jid h (files s) ->
  exists index, read_job_index jid s = (Ok index, s) /\
    match h, index with
    | None, None => True
    | Some n, Some index =>
        files s !! job_index_path jid = Some (DJson (JObj index)) /\
        decode_job_index jid (JObj index) = Ok index /\ index_integer index "latest_event_seq" = Ok n
    | _, _ => False
    end.
Proof.
  intros Hid Hh. unfold read_job_index. rewrite (require_valid _ _ Hid).
  setoid_rewrite (M_bind_run _ _ s _ s (run_lift jid s)).
  destruct h as [n|]; unfold index_at in Hh.
  - destruct Hh as (index&Hp&Hf&Hd&Hn). exists (Some index). split; [|done].
    erewrite M_bind_run.
    2:{ unfold rewrap, read_json_document, read_doc, mbind, M_bind. rewrite Hp.
        by rewrite (proj2 (Z.ltb_ge _ _)) by exact Hf. }
    cbn beta iota. erewrite (M_bind_run _ _ s index s); [done|]. unfold lift. by rewrite Hd.
  - exists None. split; [|done]. erewrite (M_bind_run _ _ s None s); [done|].
    unfold rewrap, read_json_document, read_doc, mbind, M_bind. by rewrite Hh.
Qed.
End index.

(** ** The event log of a job *)
Section job_log.
Context `{World}.

(** The [i]-th event of a log: it names its job and its number, and its record fits. *)
Definition event_ok (jid : string) (i : nat) (e : RelayEvent) : Prop :=
  event_job_id e = jid /\ event_seq e = Z.of_nat i + 1 /\
  fits (seq_path (event_dir jid) (Z.of_nat i + 1)) (DEvent e).

(** The store holds the log [l] of job [jid], and its index caches [h], at most the
    number of the last event. *)
Record job_log (jid : string) (l : list RelayEvent) (h : option Z) (m : gmap path doc) : Prop := mkJobLog {
  jl_id : valid_id jid = true;
  jl_files : holds_log (event_dir jid) (DEvent <$> l) m;
  jl_events : forall i e, l !! i = Some e -> event_ok jid i e;
  jl_index : index_at jid h m;
  jl_head : forall n, h = Some n -> n <= Z.of_nat (length l);
}.

Abbreviation next_of l := (Z.of_nat (length l) + 1).

Lemma index_ne_event jid jid' n : job_index_path jid <> seq_path (event_dir jid') n.
Proof. done. Qed.

Lemma run_next_event_seq jid l h s :
  job_log jid l h (files s) -> Z.of_nat (length l) < 10 ^ 19 ->
  _next_event_seq jid s =
  (if next_of l - (default 0 h + 1) <? DEFAULT_EXACT_RECORD_LIMIT then Ok (next_of l)
   else Err (QueueConflictError (match h with
                                 | Some _ => "event head recovery exceeded bound: "
                                 | None => "legacy event sequence requires index migration: "
                                 end)), s).
Proof.
  intros [Hid Hl _ Hi Hh] Hlen. destruct (run_read_index _ _ _ Hid Hi) as (index&Hrun&Hx).
  assert (Hb : Z.of_nat recovery_bound = DEFAULT_EXACT_RECORD_LIMIT) by done.
  assert (Hf : Z.of_nat (length (DEvent <$> l)) = Z.of_nat (length l)) by (by rewrite length_fmap).
  unfold _next_event_seq. erewrite M_bind_run by exact Hrun.
  destruct h as [n|], index as [index|]; try done; cbn [default].
  - destruct Hx as (_&_&Hn). rewrite Hn. erewrite M_bind_run by apply run_lift.
    pose proof (index_nonneg _ _ _ Hi). specialize (Hh n eq_refl).
    rewrite (run_next_after _ _ _ Hl), Hf, Hb; [done|lia|lia].
  - rewrite (run_next_after _ _ _ Hl), Hf, Hb; [done|lia|lia].
Qed.

(** Writing the next event extends the log. *)
Lemma job_log_write jid l h m e :
  job_log jid l h m -> Z.of_nat (length l) < 10 ^ 19 -> event_ok jid (length l) e ->
  job_log jid (l ++ [e]) h (<[seq_path (event_dir jid) (next_of l) := DEvent e]> m).
Proof.
  intros [Hid Hl Hev Hi Hh] Hlen He. split; [done|..].
  - rewrite fmap_app. pose proof (log_append _ _ (DEvent e) _ Hl) as Ha. rewrite length_fmap in Ha.
    apply Ha. lia.
  - intros i e' [Hx|[Hge Hx]]%lookup_app_Some; [by apply Hev|].
    apply list_lookup_singleton_Some in Hx as [Hi0 <-]. by replace i with (length l) by lia.
  - unfold index_at in *. by rewrite lookup_insert_ne by apply not_eq_sym, index_ne_event.
  - intros n Hn. apply Hh in Hn. rewrite length_app. cbn. lia.
Qed.

(** Writing the index with the number of the last event. *)
Lemma job_log_index jid l h m index :
  job_log jid l (Some h) m -> decode_job_index jid (JObj index) = Ok index ->
  fits (job_index_path jid) (DJson (JObj (dict_set "latest_event_seq" (JInt (Z.of_nat (length l))) index))) ->
  job_log jid l (Some (Z.of_nat (length l)))
    (<[job_index_path jid := DJson (JObj (dict_set "latest_event_seq" (JInt (Z.of_nat (length l))) index))]> m).
Proof.
  intros [Hid Hl Hev Hi Hh] Hd Hf. split; [done| |done| |by intros n [= <-]].
  - apply log_other; [done|]. intros n. apply index_ne_event.
  - eexists. rewrite lookup_insert_eq. split_and!; [done|done| |by apply index_set_latest; lia].
    apply decode_set_latest; [done|lia].
Qed.

(** What an append may do to the log [l] with index [h]. *)
Definition append_outcome (e : RelayEvent) (l : list RelayEvent) (h : option Z) (r : result RelayEvent)
    (l' : list RelayEvent) (h' : option Z) : Prop :=
  match r with
  | Ok e' => e' = e /\ l' = l ++ [e] /\ h' = (fun _ => next_of l) <$> h
  | Err _ => h' = h /\ (l' = l \/ l' = l ++ [e])
  end.

(** The files of one job's log. *)
Definition log_path (jid : string) (p : path) : Prop :=
  p = job_index_path jid \/ exists n, p = seq_path (event_dir jid) n.

Definition append_post (jid : string) (e : RelayEvent) (l : list RelayEvent) (h : option Z)
    (m : gmap path doc) (r : result RelayEvent) (s' : disk) : Prop :=
  exists l' h', job_log jid l' h' (files s') /\ append_outcome e l h r l' h' /\
    forall p, ~ log_path jid p -> files s' !! p = m !! p.

Lemma wp_increment jid l h s (Q : result unit -> disk -> Prop) :
  job_log jid l h (files s) ->
  (forall s', job_log jid l ((fun _ => Z.of_nat (length l)) <$> h) (files s') ->
     (forall p, p <> job_index_path jid -> files s' !! p = files s !! p) -> Q (Ok tt) s') ->
  (forall err, Q (Err err) s) ->
  wp (increment_job_index jid "latest_event_seq" [("latest_event_seq", JInt (Z.of_nat (length l)))]) s Q.
Proof.
  intros Hj Hok Herr. destruct Hj as [Hid Hl Hev Hi Hh]. destruct (run_read_index _ _ _ Hid Hi) as (index&Hrun&Hx).
  unfold increment_job_index. apply wp_bind. unfold wp at 1. rewrite Hrun. cbn [fst snd].
  destruct h as [n|], index as [index|]; try done; [|by apply wp_ret, Hok].
  destruct Hx as (Hp&Hd&Hn). apply wp_bind, wp_lift. rewrite Hn.
  unfold dict_update. cbn [foldl fst snd]. rewrite dict_set_twice.
  apply wp_write_checked; [|done]. intros s' Hf Hs' _. apply Hok; rewrite Hs'.
  - apply (job_log_index jid l n); done.
  - intros p Hne. by apply lookup_insert_ne.
Qed.

Lemma wp_append_event jid type_ message payload l h s :
  job_log jid l h (files s) -> Z.of_nat (length l) < 10 ^ 19 ->
  wp (append_event jid type_ message payload) s
    (append_post jid (mkEvent jid (next_of l) type_ message INFO (clock (ticks s)) (default [] payload)) l h (files s)).
Proof.
  intros Hj Hlen. set (e := mkEvent _ _ _ _ _ _ _).
  assert (Hkeep : forall err s', files s' = files s -> append_post jid e l h (files s) (Err err) s').
  { intros err s' Hs'. exists l, h. rewrite Hs'. split_and!; [done| |done]. cbn. auto. }
  pose proof (jl_id _ _ _ _ Hj) as Hid. unfold append_event.
  rewrite (require_valid _ _ Hid). apply wp_bind, wp_lift. unfold _append_event_unlocked.
  apply wp_bind. unfold wp at 1. rewrite (run_next_event_seq _ _ _ _ Hj Hlen). cbn [fst snd].
  destruct (_ <? DEFAULT_EXACT_RECORD_LIMIT); [|by apply Hkeep].
  apply wp_bind, wp_utc_now. intros s1 Hs1 _ _. fold e. apply wp_bind, wp_ensure; [intros _|by intros; apply Hkeep].
  apply wp_bind, wp_write_checked; [|by intros; apply Hkeep]. intros s2 Hf Hs2 _. rewrite Hs1 in Hs2.
  pose proof (job_log_write jid l h (files s) e Hj Hlen ltac:(split_and!; done)) as Hj2. rewrite <- Hs2 in Hj2.
  assert (Hother : forall p, ~ log_path jid p -> files s2 !! p = files s !! p).
  { intros p Hp. rewrite Hs2. apply lookup_insert_ne. intros <-. apply Hp. right. eauto. }
  apply wp_bind. replace (next_of l) with (Z.of_nat (length (l ++ [e]))) at 1
    by (rewrite length_app; cbn [length]; lia).
  eapply wp_increment; [exact Hj2|..].
  - intros s3 Hj3 Hs3. apply wp_ret. eexists _, _. split_and!; [exact Hj3| |].
    + cbn. split_and!; [done|done|]. destruct h; [|done]. cbn. f_equal. rewrite length_app. cbn [length]. lia.
    + intros p Hp. rewrite Hs3, Hother; [done|done|]. intros ->. apply Hp. by left.
  - intros err. exists (l ++ [e]), h. split_and!; [done| |done]. cbn. auto.
Qed.

(** C8: The event log is append-only at every crash point: whatever stops an append, the
    log holds all events it held, unchanged and contiguous, possibly followed by
    exactly the new event; a call that returns has written that event with the next
    number and cached it; files of other jobs are not touched. *)
Theorem append_event_atomic jid type_ message payload l h s :
  job_log jid l h (files s) -> Z.of_nat (length l) < 10 ^ 19 ->
  append_post jid (mkEvent jid (next_of l) type_ message INFO (clock (ticks s)) (default [] payload)) l h
    (files s) (append_event jid type_ message payload s).1 (append_event jid type_ message payload s).2.
Proof. apply wp_append_event. Qed.

(** Without a crash point an append whose records fit returns, after fewer than a
    thousand interrupted ones: the numbers the index missed are found again. *)
Theorem append_event_completes jid type_ message payload l h s :
  let e := mkEvent jid (next_of l) type_ message INFO (clock (ticks s)) (default [] payload) in
  job_log jid l h (files s) -> Z.of_nat (length l) < 10 ^ 19 -> budget s = None ->
  Z.of_nat (length l) - default 0 h < DEFAULT_EXACT_RECORD_LIMIT ->
  fits (seq_path (event_dir jid) (next_of l)) (DEvent e) ->
  (forall index, files s !! job_index_path jid = Some (DJson (JObj index)) ->
     fits (job_index_path jid) (DJson (JObj (dict_set "latest_event_seq" (JInt (next_of l)) index)))) ->
  (append_event jid type_ message payload s).1 = Ok e.
Proof.
  intros e Hj Hlen Hb Hlag Hfe Hfi.
  change (wp (append_event jid type_ message payload) s (fun r _ => r = Ok e)).
  pose proof (jl_id _ _ _ _ Hj) as Hid. unfold append_event.
  rewrite (require_valid _ _ Hid). apply wp_bind, wp_lift. unfold _append_event_unlocked.
  apply wp_bind. unfold wp at 1. rewrite (run_next_event_seq _ _ _ _ Hj Hlen). cbn [fst snd].
  rewrite (proj2 (Z.ltb_lt _ _)) by lia.
  apply wp_bind, wp_utc_now. intros s1 Hs1 Hb1 _. fold e. apply wp_bind, wp_ensure; [intros _|].
  2:{ unfold valid_event. cbn. by rewrite Hid. }
  apply wp_bind, wp_write_fits; [done|congruence|]. intros s2 Hs2 Hb2. rewrite Hs1 in Hs2.
  pose proof (job_log_write jid l h (files s) e Hj Hlen ltac:(split_and!; done)) as Hj2. rewrite <- Hs2 in Hj2.
  destruct (run_read_index _ _ _ Hid (jl_index _ _ _ _ Hj2)) as (index&Hrun&Hx).
  apply wp_bind. unfold increment_job_index. apply wp_bind. unfold wp at 1. rewrite Hrun. cbn [fst snd].
  destruct h as [n|], index as [index|]; try done.
  destruct Hx as (Hp&Hd&Hn). apply wp_bind, wp_lift. rewrite Hn.
  unfold dict_update. cbn [foldl fst snd]. rewrite dict_set_twice.
  apply wp_write_fits; [|done|by intros; apply wp_ret]. apply Hfi.
  rewrite Hs2, lookup_insert_ne in Hp; [done|]. apply not_eq_sym, index_ne_event.
Qed.

(** ** Reading the log back *)
Lemma canonical_name_pad20 n : in_names n -> canonical_sequence_name (pad20 n) = true.
Proof.
  intros Hn. unfold canonical_sequence_name. rewrite pad20_small by done.
  by rewrite length_dec_digits, dec_digits_digits.
Qed.

Lemma int_of_pad20 n : in_names n -> int_of_digits 0 (pad20 n) = n.
Proof. intros Hn. rewrite pad20_small by done. by apply int_of_dec_digits. Qed.

Lemma run_read_event jid l h s n :
  job_log jid l h (files s) -> 1 <= n < 10 ^ 20 ->
  read_optional_event jid n s = (Ok (l !! Z.to_nat (n - 1)), s).
Proof.
  intros [Hid Hl Hev _ _] Hn. assert (Hin : in_names n) by (unfold in_names; lia).
  unfold read_optional_event, read_doc, mbind, M_bind.
  rewrite (Hl n Hn), list_lookup_fmap. destruct (l !! Z.to_nat (n - 1)) as [e|] eqn:He; [|done].
  destruct (Hev _ _ He) as (Hj&Hs&Hf). replace (Z.of_nat (Z.to_nat (n - 1)) + 1) with n in Hs, Hf by lia.
  cbn [fmap option_fmap option_map]. rewrite (proj2 (Z.ltb_ge _ _)) by exact Hf.
  unfold ensure, lift, valid_event. rewrite Hj, Hid, canonical_name_pad20, bool_decide_true by done.
  by rewrite Hs, int_of_pad20, Z.eqb_refl by done.
Qed.

(** The test every reader repeats on a stored event succeeds. *)
Lemma run_event_identity {A} jid l h s i e msg (k : unit -> M disk A) :
  job_log jid l h (files s) -> l !! i = Some e ->
  (ensure (bool_decide (event_job_id e = jid) && (event_seq e =? Z.of_nat i + 1)) msg ≫= k) s = k tt s.
Proof.
  intros Hj He. destruct (jl_events _ _ _ _ Hj _ _ He) as (->&->&_).
  by rewrite bool_decide_true, Z.eqb_refl.
Qed.

Lemma run_event_page jid l h s count n acc :
  job_log jid l h (files s) -> Z.of_nat (length l) < 10 ^ 19 -> 1 <= n <= 10 ^ 19 ->
  event_page_loop count jid n acc s =
  (Ok (acc ++ take count (drop (Z.to_nat (n - 1)) l),
       n + Z.of_nat (length (take count (drop (Z.to_nat (n - 1)) l)))), s).
Proof.
  intros Hj Hlen. revert n acc. induction count as [|count IH]; intros n acc Hn; cbn [event_page_loop].
  { cbn. by rewrite app_nil_r, Z.add_0_r. }
  erewrite M_bind_run by (apply (run_read_event jid l h); [done|lia]).
  destruct (l !! Z.to_nat (n - 1)) as [e|] eqn:He.
  - pose proof (lookup_lt_Some _ _ _ He). rewrite (drop_S _ _ _ He). cbn [take length].
    replace n with (Z.of_nat (Z.to_nat (n - 1)) + 1) at 1 by lia. rewrite (run_event_identity jid l h s _ e) by done.
    rewrite IH by lia.
    replace (Z.to_nat (n + 1 - 1)) with (S (Z.to_nat (n - 1))) by lia.
    rewrite <- app_assoc. cbn [app]. do 3 f_equal. lia.
  - rewrite drop_ge by (by apply lookup_ge_None). cbn. by rewrite app_nil_r, Z.add_0_r.
Qed.

Lemma run_latest_loop jid l h s count i :
  job_log jid l h (files s) -> Z.of_nat (i + count) = DEFAULT_EXACT_RECORD_LIMIT -> (i <= length l)%nat ->
  latest_loop count jid (Z.of_nat i + 1) (last (take i l)) s =
  (Ok (last (take (i + count) l), DEFAULT_EXACT_RECORD_LIMIT <? Z.of_nat (length l)), s).
Proof.
  intros Hj. unfold DEFAULT_EXACT_RECORD_LIMIT in *. revert i. induction count as [|count IH]; intros i Hi Hle; cbn [latest_loop].
  - rewrite Nat.add_0_r in *. erewrite M_bind_run.
    2:{ apply (run_path_exists (event_dir jid) (DEvent <$> l) s (jl_files _ _ _ _ Hj)). unfold DEFAULT_EXACT_RECORD_LIMIT. lia. }
    rewrite length_fmap. unfold DEFAULT_EXACT_RECORD_LIMIT. cbv [mret M_ret]. do 3 f_equal.
    destruct (Z.leb_spec (1000 + 1) (Z.of_nat (length l))), (Z.ltb_spec 1000 (Z.of_nat (length l))); lia || done.
  - erewrite M_bind_run by (apply (run_read_event jid l h); [done|lia]).
    replace (Z.to_nat (Z.of_nat i + 1 - 1)) with i by lia.
    destruct (l !! i) as [e|] eqn:He.
    + rewrite (run_event_identity jid l h s i e) by done.
      pose proof (lookup_lt_Some _ _ _ He).
      replace (Z.of_nat i + 1 + 1) with (Z.of_nat (S i) + 1) by lia.
      replace (Some e) with (last (take (S i) l)) by (by rewrite (take_S_r _ _ _ He), last_snoc).
      rewrite IH by lia. by replace (S i + count)%nat with (i + S count)%nat by lia.
    + apply lookup_ge_None in He. rewrite !take_ge by lia.
      rewrite (proj2 (Z.ltb_ge _ _)) by lia. done.
Qed.

(** Reads are exact: a page is the slice of the log it asks for, with the number that
    follows it, and the latest event is the one the job index names or, for a job
    without index, the last of the first thousand with a flag for more. *)
Theorem event_reads_exact jid l h s :
  job_log jid l h (files s) -> Z.of_nat (length l) < 10 ^ 19 ->
  (forall next_seq limit, 1 <= next_seq <= 10 ^ 19 -> 1 <= limit ->
     let page := take (Z.to_nat limit) (drop (Z.to_nat (next_seq - 1)) l) in
     read_event_page jid next_seq limit s = (Ok (page, next_seq + Z.of_nat (length page)), s)) /\
  latest_job_event jid s =
    (Ok (match h with
         | Some n => (if n =? 0 then None else l !! Z.to_nat (n - 1), false)
         | None => (last (take recovery_bound l), DEFAULT_EXACT_RECORD_LIMIT <? Z.of_nat (length l))
         end), s).
Proof.
  intros Hj Hlen. pose proof (jl_id _ _ _ _ Hj) as Hid. split.
  - intros n limit Hn Hl. unfold read_event_page. rewrite (require_valid _ _ Hid).
    erewrite M_bind_run by apply run_lift. rewrite !(proj2 (Z.leb_le 1 _)) by lia.
    do 2 erewrite M_bind_run by apply ensure_true. by apply (run_event_page jid l h).
  - unfold latest_job_event. rewrite (require_valid _ _ Hid). erewrite M_bind_run by apply run_lift.
    destruct (run_read_index _ _ _ Hid (jl_index _ _ _ _ Hj)) as (index&Hrun&Hx).
    erewrite M_bind_run by exact Hrun. destruct h as [n|], index as [index|]; try done.
    + destruct Hx as (_&_&Hn). rewrite Hn. erewrite M_bind_run by apply run_lift.
      pose proof (index_nonneg _ _ _ (jl_index _ _ _ _ Hj)). pose proof (jl_head _ _ _ _ Hj n eq_refl).
      destruct (Z.eqb_spec n 0); [done|].
      erewrite M_bind_run by (apply (run_read_event jid l (Some n)); [done|lia]).
      destruct (l !! Z.to_nat (n - 1)) as [e|] eqn:He; [|apply lookup_ge_None in He; lia].
      replace n with (Z.of_nat (Z.to_nat (n - 1)) + 1) at 1 by lia. by rewrite (run_event_identity jid l (Some n)).
    + apply (run_latest_loop jid l None s recovery_bound 0); [done|done|lia].
Qed.
End job_log.
