(* ===== verification/TaskEventsProofs.v ===== *)
(** * Task timelines: a log per task, announced in the log of its job *)

From S2P Require Import Prelude Sha256 Json JsonSize Decimal Identifiers Models Store.
From S2P Require Import OrderIndex JobIndex Events OrderIndexProofs OrderPagesProofs EventsProofs.
From stdpp Require Import base list gmap strings.
From Stdlib Require Import ZArith Lia.
From Stdlib Require Ascii String.
Open Scope Z_scope.

Section task_log.
Context `{World}.

(** The [i]-th entry of a timeline. *)
Definition entry_ok (tid : string) (i : nat) (e : TaskTimelineEvent) : Prop :=
  tev_task_id e = tid /\ tev_seq e = Z.of_nat i + 1 /\ valid_task_event e = true /\
  fits (seq_path (task_event_dir tid) (Z.of_nat i + 1)) (DTaskEvent e).

(** The head document: absent, or the number [n] of an entry that was written. *)
Definition task_head_at (tid : string) (h : option Z) (m : gmap path doc) : Prop :=
  match h with
  | None => m !! task_head_path tid = None
  | Some n => m !! task_head_path tid = Some (DJson (task_head_document tid n)) /\
              fits (task_head_path tid) (DJson (task_head_document tid n)) /\ 0 <= n
  end.

Record task_log (tid : string) (l : list TaskTimelineEvent) (h : option Z) (m : gmap path doc) : Prop := mkTaskLog {
  tl_id : valid_id tid = true;
  tl_files : holds_log (task_event_dir tid) (DTaskEvent <$> l) m;
  tl_entries : forall i e, l !! i = Some e -> entry_ok tid i e;
  tl_head : task_head_at tid h m;
  tl_bound : forall n, h = Some n -> n <= Z.of_nat (length l);
}.

(** The record of a task that belongs to job [jid]. *)
Definition task_of (tid jid : string) (m : gmap path doc) : Prop :=
  exists t, m !! ["tasks"; json_name tid] = Some (DTask t) /\ fits ["tasks"; json_name tid] (DTask t) /\
    valid_task t = true /\ task_id t = tid /\ task_job_id t = jid.

Abbreviation next_of l := (Z.of_nat (length l) + 1).

Lemma decode_task_head_document tid n :
  0 <= n -> decode_task_head tid (task_head_document tid n) = Ok n.
Proof.
  intros Hn. unfold decode_task_head, task_head_document.
  change (dict_get "latest_seq" _) with (Some (JInt n)). change (dict_get "task_id" _) with (Some (JStr tid)).
  cbv iota. by rewrite is_string_same, (proj2 (Z.leb_le 0 n)) by lia.
Qed.

Lemma run_read_task tid jid s :
  valid_id tid = true -> task_of tid jid (files s) ->
  exists t, _get_event_task tid s = (Ok t, s) /\ task_job_id t = jid.
Proof.
  intros Hid (t&Hp&Hf&Hv&Ht&Hj). exists t. split; [|done].
  unfold _get_event_task, read_doc, mbind, M_bind. rewrite Hp, (proj2 (Z.ltb_ge _ _)) by exact Hf.
  unfold ensure, lift. by rewrite Hv, Hid, bool_decide_true by done.
Qed.

Lemma run_read_task_head tid h s :
  task_head_at tid h (files s) ->
  read_json_document (task_head_path tid) s = (Ok (task_head_document tid <$> h), s).
Proof.
  intros Hh. unfold read_json_document, read_doc, mbind, M_bind. destruct h as [n|]; cbn in Hh.
  - destruct Hh as (->&Hf&_). by rewrite (proj2 (Z.ltb_ge _ _)) by exact Hf.
  - by rewrite Hh.
Qed.

Lemma run_next_task_event_seq tid l h s :
  task_log tid l h (files s) -> Z.of_nat (length l) < 2 ^ 63 ->
  exists r, _next_task_event_seq tid s = (r, s) /\ forall n, r = Ok n -> n = next_of l.
Proof.
  intros [Hid Hl _ Hh Hb] Hlen. unfold _next_task_event_seq.
  assert (Hrun : rewrap "invalid task event head " (read_json_document (task_head_path tid)) s =
                 (Ok (task_head_document tid <$> h), s))
    by (unfold rewrap; by rewrite (run_read_task_head tid h s Hh)).
  erewrite M_bind_run by exact Hrun. destruct h as [n|]; cbn [fmap option_fmap option_map].
  - destruct Hh as (_&_&Hn). rewrite decode_task_head_document by done. erewrite M_bind_run by apply run_lift.
    specialize (Hb n eq_refl).
    rewrite (run_next_after _ _ _ Hl) by (rewrite length_fmap; lia). rewrite length_fmap.
    eexists. split; [done|]. intros k. case_match; [by intros [= <-]|done].
  - erewrite M_bind_run by (apply (run_last_contiguous _ _ _ Hl); rewrite length_fmap; lia).
    rewrite length_fmap. eexists. split; [done|]. by intros k [= <-].
Qed.

(** Writing the next entry, then the head. *)
Lemma task_log_write tid l h m e :
  task_log tid l h m -> Z.of_nat (length l) < 2 ^ 63 -> entry_ok tid (length l) e ->
  task_log tid (l ++ [e]) h (<[seq_path (task_event_dir tid) (next_of l) := DTaskEvent e]> m).
Proof.
  intros [Hid Hl Hev Hh Hb] Hlen He. split; [done|..].
  - rewrite fmap_app. pose proof (log_append _ _ (DTaskEvent e) _ Hl) as Ha. rewrite length_fmap in Ha.
    apply Ha. lia.
  - intros i e' [Hx|[Hge Hx]]%lookup_app_Some; [by apply Hev|].
    apply list_lookup_singleton_Some in Hx as [Hi0 <-]. by replace i with (length l) by lia.
  - unfold task_head_at in *. by rewrite lookup_insert_ne by done.
  - intros n Hn. apply Hb in Hn. rewrite length_app. cbn. lia.
Qed.

Lemma task_log_head tid l h m :
  task_log tid l h m -> fits (task_head_path tid) (DJson (task_head_document tid (Z.of_nat (length l)))) ->
  task_log tid l (Some (Z.of_nat (length l)))
    (<[task_head_path tid := DJson (task_head_document tid (Z.of_nat (length l)))]> m).
Proof.
  intros [Hid Hl Hev Hh Hb] Hf. split; [done| |done| |by intros n [= <-]].
  - apply log_other; [done|]. by intros n.
  - cbn. rewrite lookup_insert_eq. split_and!; [done|done|lia].
Qed.

(** A job's log and a task's log are kept in different files. *)
Lemma job_log_other jid l h p d m :
  job_log jid l h m -> ~ log_path jid p -> job_log jid l h (<[p := d]> m).
Proof.
  intros [Hid Hl Hev Hi Hh] Hp. split; [done| |done| |done].
  - apply log_other; [done|]. intros n ->. apply Hp. right. eauto.
  - unfold index_at in *. rewrite lookup_insert_ne; [done|]. intros ->. apply Hp. by left.
Qed.

Lemma task_log_other tid jid l h m m' :
  task_log tid l h m -> (forall p, ~ log_path jid p -> m' !! p = m !! p) -> task_log tid l h m'.
Proof.
  intros [Hid Hl Hev Hh Hb] Hp.
  assert (Hsame : forall fam rest, fam <> "job_indexes" -> fam <> "events" ->
    m' !! (fam :: rest) = m !! (fam :: rest)).
  { intros fam rest H1 H2. apply Hp. intros [Hx|[n Hx]];
      unfold job_index_path, seq_path, event_dir in Hx; cbn in Hx; congruence. }
  split; [done| |done| |done].
  - intros n Hn. unfold seq_path, task_event_dir. cbn [app]. rewrite Hsame by done. by apply Hl.
  - unfold task_head_at, task_head_path in *. by rewrite Hsame by done.
Qed.

(** ** Appending an entry *)

(** What an append may do to the timeline [l] and the job log [jl]. *)
Definition timeline_outcome (saved : TaskTimelineEvent) (announced : RelayEvent)
    (l : list TaskTimelineEvent) (jl : list RelayEvent) (r : result TaskTimelineEvent)
    (l' : list TaskTimelineEvent) (h' : option Z) (jl' : list RelayEvent) : Prop :=
  match r with
  | Ok e => e = saved /\ l' = l ++ [saved] /\ h' = Some (next_of l) /\ jl' = jl ++ [announced]
  | Err _ => (l' = l \/ l' = l ++ [saved]) /\
             (jl' = jl \/ jl' = jl ++ [announced] /\ l' = l ++ [saved])
  end.

Definition timeline_post (tid jid : string) (saved : TaskTimelineEvent) (announced : RelayEvent)
    (l : list TaskTimelineEvent) (jl : list RelayEvent) (r : result TaskTimelineEvent) (s' : disk) : Prop :=
  exists l' h' jl' jh', task_log tid l' h' (files s') /\ job_log jid jl' jh' (files s') /\
    timeline_outcome saved announced l jl r l' h' jl'.

Lemma entry_path_no_log jid tid n : ~ log_path jid (seq_path (task_event_dir tid) n).
Proof. by intros [?|[k ?]]. Qed.
Lemma task_head_no_log jid tid : ~ log_path jid (task_head_path tid).
Proof. by intros [?|[k ?]]. Qed.

Lemma valid_with_seq e n : valid_task_event e = true -> 0 <= n -> valid_task_event (with_seq e n) = true.
Proof.
  unfold valid_task_event, with_seq. cbn. intros Hv Hn. bool_prop.
  rewrite (proj2 (Z.leb_le 0 n)) by lia. repeat (apply andb_true_iff; split); done.
Qed.

Lemma refs_ok refs field :
  forallb valid_id refs = true ->
  exists ids, mapM_result (fun a => require_durable_record_id (JStr a) field) refs = Ok ids.
Proof.
  intros Hv. exists refs. apply mapM_result_ok. apply Forall_Forall2_diag, Forall_forall.
  intros x Hx. apply require_valid. rewrite forallb_forall in Hv. by apply Hv, list_elem_of_In.
Qed.

Abbreviation announced_event e jid l jl s :=
  (mkEvent jid (next_of jl) ("task.timeline." +:+ tev_event_type e) (tev_summary e) INFO
     (clock (ticks s)) (announcement e (next_of l))).

(** The entry and the head are written before the announcement. *)
Lemma wp_write_entry {A} tid jid saved l h jl jh s (k : unit -> M disk A) (Q : result A -> disk -> Prop) :
  task_log tid l h (files s) -> job_log jid jl jh (files s) -> Z.of_nat (length l) < 2 ^ 63 - 1 ->
  tev_task_id saved = tid -> tev_seq saved = next_of l -> valid_task_event saved = true ->
  (forall l' h' s' err, task_log tid l' h' (files s') -> job_log jid jl jh (files s') ->
     l' = l \/ l' = l ++ [saved] -> Q (Err err) s') ->
  (forall s', task_log tid (l ++ [saved]) (Some (next_of l)) (files s') -> job_log jid jl jh (files s') ->
     ticks s' = ticks s -> wp (k tt) s' Q) ->
  wp (_ ← write_doc (seq_path (task_event_dir tid) (next_of l)) (DTaskEvent saved);
      _ ← write_doc (task_head_path tid) (DJson (task_head_document tid (next_of l)));
      k tt) s Q.
Proof.
  intros Ht Hj Hlen Hid Hseq Hv Herr Hok.
  apply wp_bind, wp_write_checked; [|intros; eapply Herr; eauto]. intros s1 Hf1 Hs1 Hk1.
  pose proof (task_log_write _ _ _ _ _ Ht ltac:(lia) (conj Hid (conj Hseq (conj Hv Hf1)))) as Ht1.
  pose proof (job_log_other _ _ _ _ (DTaskEvent saved) _ Hj (entry_path_no_log jid tid (next_of l))) as Hj1.
  rewrite <- Hs1 in Ht1, Hj1.
  assert (Hnext : next_of l = Z.of_nat (length (l ++ [saved]))) by (rewrite length_app; cbn [length]; lia).
  rewrite Hnext in *.
  apply wp_bind, wp_write_checked; [|intros; eapply Herr; eauto]. intros s2 Hf2 Hs2 Hk2.
  apply Hok; [..|congruence]; rewrite Hs2; [by apply task_log_head with (h := h)|].
  apply job_log_other; [done|apply task_head_no_log].
Qed.

Lemma wp_append_task_event e jid l h jl jh s :
  valid_task_event e = true ->
  task_log (tev_task_id e) l h (files s) -> task_of (tev_task_id e) jid (files s) ->
  job_log jid jl jh (files s) ->
  Z.of_nat (length l) < 2 ^ 63 - 1 -> Z.of_nat (length jl) < 10 ^ 19 ->
  wp (append_task_event e) s
    (timeline_post (tev_task_id e) jid (with_seq e (next_of l)) (announced_event e jid l jl s) l jl).
Proof.
  intros Hv Ht Htask Hj Hlen Hjlen. set (tid := tev_task_id e) in *. set (saved := with_seq e _).
  set (ev := mkEvent _ _ _ _ _ _ _).
  pose proof (tl_id _ _ _ _ Ht) as Hid. unfold append_task_event. fold tid.
  rewrite (require_valid _ _ Hid). apply wp_bind, wp_lift. apply wp_bind, wp_lift.
  assert (Hrefs : forallb valid_id (tev_artifact_refs e) = true) by (unfold valid_task_event in Hv; bool_prop; done).
  destruct (refs_ok _ "artifact_id" Hrefs) as [ids ->].
  destruct (run_read_task _ _ _ Hid Htask) as (t&Hrun&Htj).
  apply wp_bind. unfold wp at 1. rewrite Hrun. cbn [fst snd].
  destruct (run_next_task_event_seq _ _ _ _ Ht ltac:(lia)) as (r&Hrun2&Hr).
  apply wp_bind. unfold wp at 1. rewrite Hrun2. cbn [fst snd]. destruct r as [n|err].
  2:{ exists l, h, jl, jh. split_and!; [done|done|cbn; auto]. }
  rewrite (Hr n eq_refl). fold saved.
  apply (wp_write_entry tid jid saved l h jl jh s (fun _ => _)); try done.
  - by apply valid_with_seq; [|lia].
  - intros l' h' s' err Ht' Hj' Hl'. exists l', h', jl, jh. split_and!; [done|done|cbn; auto].
  - intros s2 Ht2 Hj2 Hk2. apply wp_bind. rewrite Htj. eapply wp_mono; [by apply wp_append_event|]. cbv beta.
    intros r s3 (jl'&jh'&Hj3&Hout&Hother). rewrite Hk2 in Hout.
    pose proof (task_log_other _ _ _ _ _ _ Ht2 Hother) as Ht3. destruct r as [e'|err].
    + apply wp_ret. destruct Hout as (_&->&_). eexists _, _, _, _. split_and!; [exact Ht3|exact Hj3|done].
    + destruct Hout as (_&Hjl). eexists _, _, _, _. split_and!; [exact Ht3|exact Hj3|]. cbn. split; [by right|].
      destruct Hjl as [-> | ->]; auto.
Qed.

(** A timeline and the job's events stay consistent at every crash point: the
    timeline keeps its entries and gains at most the new one with the next number, an
    entry is announced in the job's events only once it is written, and a call that
    returns has done both. *)
Theorem append_task_event_atomic e jid l h jl jh s :
  valid_task_event e = true ->
  task_log (tev_task_id e) l h (files s) -> task_of (tev_task_id e) jid (files s) ->
  job_log jid jl jh (files s) ->
  Z.of_nat (length l) < 2 ^ 63 - 1 -> Z.of_nat (length jl) < 10 ^ 19 ->
  timeline_post (tev_task_id e) jid (with_seq e (next_of l)) (announced_event e jid l jl s) l jl
    (append_task_event e s).1 (append_task_event e s).2.
Proof. apply wp_append_task_event. Qed.

(** ** Draining *)
Lemma run_read_task_event tid l h s n :
  task_log tid l h (files s) -> 1 <= n < 10 ^ 20 ->
  read_optional_task_event tid n s = (Ok (l !! Z.to_nat (n - 1)), s).
Proof.
  intros [Hid Hl Hev _ _] Hn. assert (Hin : in_names n) by (unfold in_names; lia).
  unfold read_optional_task_event, read_doc, mbind, M_bind.
  rewrite (Hl n Hn), list_lookup_fmap. destruct (l !! Z.to_nat (n - 1)) as [e|] eqn:He; [|done].
  destruct (Hev _ _ He) as (Hj&Hs&Hv&Hf). replace (Z.of_nat (Z.to_nat (n - 1)) + 1) with n in Hs, Hf by lia.
  cbn [fmap option_fmap option_map]. rewrite (proj2 (Z.ltb_ge _ _)) by exact Hf.
  unfold ensure, lift. rewrite Hv, Hid, canonical_name_pad20, (bool_decide_true (tev_task_id e = tid)) by done.
  by rewrite Hs, int_of_pad20, Z.eqb_refl by done.
Qed.

Lemma run_drain_loop tid l h s count i acc :
  task_log tid l h (files s) -> Z.of_nat (length l) < 2 ^ 63 -> (i + count <= length l)%nat ->
  drain_loop count tid (Z.of_nat i + 1) acc s = (Ok (acc ++ take count (drop i l)), s).
Proof.
  intros Ht Hlen. revert i acc. induction count as [|count IH]; intros i acc Hi; cbn [drain_loop].
  { cbn. by rewrite app_nil_r. }
  erewrite M_bind_run by (apply (run_read_task_event tid l h); [done|lia]).
  replace (Z.to_nat (Z.of_nat i + 1 - 1)) with i by lia.
  destruct (lookup_lt_is_Some_2 l i ltac:(lia)) as [e He]. rewrite He.
  destruct (tl_entries _ _ _ _ Ht _ _ He) as (Hid&Hs&_). rewrite Hs, Z.eqb_refl, bool_decide_true by done.
  erewrite M_bind_run by apply ensure_true.
  replace (Z.of_nat i + 1 + 1) with (Z.of_nat (S i) + 1) by lia.
  rewrite IH by lia. by rewrite (drop_S _ _ _ He), <- app_assoc.
Qed.

(** The cursor after a page. *)
Lemma page_cursor tid l h s page count cursor :
  task_log tid l h (files s) -> page = take count (drop (Z.to_nat (cursor - 1)) l) -> 1 <= cursor ->
  default cursor ((fun e => tev_seq e + 1) <$> last page) = cursor + Z.of_nat (length page).
Proof.
  intros Ht Hp Hc. rewrite last_lookup. destruct (page !! Init.Nat.pred (length page)) as [e|] eqn:He.
  - pose proof (lookup_lt_Some _ _ _ He). rewrite Hp in He. apply lookup_take_Some in He as [He _].
    rewrite <- Hp, lookup_drop in He. destruct (tl_entries _ _ _ _ Ht _ _ He) as (_&Hs&_). cbn. lia.
  - apply lookup_ge_None in He. cbn. lia.
Qed.

(** Draining is exact whatever the head document says, also after crashes: it returns
    the slice of the timeline after the cursor and the cursor of the next entry. *)
Theorem drain_task_events_exact tid jid l h s cursor limit :
  task_log tid l h (files s) -> task_of tid jid (files s) -> Z.of_nat (length l) < 2 ^ 63 - 1 ->
  1 <= cursor -> 1 <= limit <= MAX_RESPONSE_PAGE_RECORDS ->
  let page := take (Z.to_nat limit) (drop (Z.to_nat (cursor - 1)) l) in
  drain_task_events tid (JInt cursor) (JInt limit) s = (Ok (page, cursor + Z.of_nat (length page)), s).
Proof.
  intros Ht Htask Hlen Hc Hl page. pose proof (tl_id _ _ _ _ Ht) as Hid.
  unfold drain_task_events, validate_record_cursor, validate_response_page_limit.
  rewrite (require_valid _ _ Hid), (proj2 (Z.ltb_ge cursor 1)), (proj2 (Z.ltb_ge limit 1)), (proj2 (Z.ltb_ge _ limit)) by lia.
  cbn [orb]. do 3 erewrite M_bind_run by apply run_lift.
  destruct (run_read_task _ _ _ Hid Htask) as (t&Hrun&_). erewrite M_bind_run by exact Hrun.
  erewrite M_bind_run by (apply (run_last_contiguous _ _ _ (tl_files _ _ _ _ Ht)); rewrite length_fmap; lia).
  erewrite M_bind_run by apply (run_read_task_head _ _ _ (tl_head _ _ _ _ Ht)).
  erewrite (M_bind_run _ _ s tt s).
  2:{ pose proof (tl_head _ _ _ _ Ht) as Hh. pose proof (tl_bound _ _ _ _ Ht) as Hb.
      destruct h as [n|]; cbn [fmap option_fmap option_map]; [|done]. destruct Hh as (_&_&Hn).
      rewrite decode_task_head_document by done. erewrite M_bind_run by apply run_lift.
      specialize (Hb n eq_refl). by rewrite length_fmap, (proj2 (Z.leb_le _ _)) by lia. }
  rewrite length_fmap. set (count := Z.to_nat _).
  assert (Hpage : page = take count (drop (Z.to_nat (cursor - 1)) l)).
  { unfold page, count. destruct (Z.le_gt_cases cursor (Z.of_nat (length l))).
    - destruct (Z.le_gt_cases (cursor + limit) (Z.of_nat (length l) + 1)); [f_equal; lia|].
      rewrite !take_ge by (rewrite length_drop; lia). done.
    - by rewrite drop_ge, !take_nil by lia. }
  destruct (Z.le_gt_cases cursor (next_of l)).
  - replace cursor with (Z.of_nat (Z.to_nat (cursor - 1)) + 1) at 1 by lia.
    erewrite M_bind_run by (apply (run_drain_loop tid l h); [done|lia|lia]). cbn [app]. rewrite <- Hpage.
    cbv [mret M_ret]. by rewrite (page_cursor tid l h _ _ _ _ Ht Hpage) by lia.
  - assert (count = 0)%nat as Hz by lia. rewrite Hz in *. rewrite Hpage. cbn. by rewrite Z.add_0_r.
Qed.
End task_log.
