(* ===== verification/OrderExamples.v ===== *)
(** * Order indexes and event logs on small stores: witnesses *)

From S2P Require Import Prelude Sha256 Json JsonSize Decimal Identifiers Models Store.
From S2P Require Import OrderIndex JobIndex Events OrderIndexProofs OrderPagesProofs EventsProofs.
From S2P Require Import TaskEventsProofs.
From stdpp Require Import base list gmap strings.
From Stdlib Require Import ZArith Lia.
From Stdlib Require Ascii String.
Open Scope Z_scope.

#[local] Existing Instance reference_world.

(** ** A finished migration, one submitted job and a lost number *)
Definition migration_state : doc :=
  DJson (JObj [("schema_version", JStr "clio-relay.index-migration.v1"); ("complete", JBool true)]).
Definition job1 : RelayJob :=
  mkJob "job1" "cluster" JARVIS QUEUED JNull "key" None None [] None 0 0 None 0 None None [].

Definition base_files : gmap path doc :=
  <[["migrations"; "index-v1.json"] := migration_state]> {[ ["jobs"; json_name "job1"] := DJob job1 ]}.

Lemma base_order f : represents f empty_order base_files.
Proof.
  unfold base_files. split; cbn [latest sequences empty_order].
  - left. by rewrite lookup_insert_ne, lookup_singleton_ne.
  - intros id d. by rewrite lookup_insert_ne, lookup_singleton_ne.
  - intros id n Hn. by rewrite lookup_empty in Hn.
  - intros id id' n Hn. by rewrite lookup_empty in Hn.
  - intros n d _. by rewrite lookup_insert_ne, lookup_singleton_ne.
Qed.

Definition base_disk : disk := mkDisk base_files None 0 0.

(** The first call stops after one durable step, so number 1 is lost. *)
Definition crashed_call : list (option nat * string) := [(Some 1%nat, "job1")].

Lemma no_number id n : sequences empty_order !! id <> Some n.
Proof. cbn. by rewrite lookup_empty. Qed.

Lemma after_crash :
  exists o, represents "jobs" o (files (run_calls "jobs" crashed_call base_disk).2) /\ latest o <= 1 /\
    forall id n, sequences o !! id = Some n -> id = "job1".
Proof.
  destruct (run_calls_order "jobs" crashed_call base_disk _ (base_order "jobs")) as (o&Hr&_&Hl&Hask&_).
  exists o. split_and!; [done|exact Hl|]. intros id n Hn. destruct (Hask id n Hn) as [Hx|Hin].
  - by apply no_number in Hx.
  - by apply list_elem_of_singleton in Hin.
Qed.

Lemma ensure_global_completes_witness :
  exists n, (ensure_global "jobs" "job1" (set_budget None (run_calls "jobs" crashed_call base_disk).2)).1 = Ok n.
Proof.
  destruct after_crash as (o&Hr&Hl&Hid).
  apply (ensure_global_completes "jobs" jobs_family "job1" _ o); [exact Hr|done|done|lia|].
  intros id n Hn _. by eapply Hid.
Defined.

(** Two calls for one record after the crashed one return the same number. *)
Definition repeated_calls : list (option nat * string) :=
  crashed_call ++ [(None, "job1"); (None, "job1")].

Definition only_job1 (k : Z) (o : family_order) : Prop :=
  latest o <= k /\ forall id n, sequences o !! id = Some n -> id = "job1".

Lemma next_call k o s :
  represents "jobs" o (files s) -> only_job1 k o -> k < 100 ->
  exists a o1 s1, ensure_global "jobs" "job1" (set_budget None s) = (Ok a, s1) /\
    represents "jobs" o1 (files s1) /\ only_job1 (k + 1) o1.
Proof.
  intros Hr [Hl Hid] Hk.
  destruct (run_ensure_global_completes "jobs" jobs_family "job1" (set_budget None s) o)
    as [a Ha]; [exact Hr|done|done|lia|intros id n Hn _; by eapply Hid|].
  destruct (wp_ensure_global "jobs" "job1" o (set_budget None s) Hr) as (o1&Hr1&Hs1&_).
  destruct (ensure_global "jobs" "job1" (set_budget None s)) as [r s1]. cbn [fst snd] in *. subst r.
  exists a, o1, s1. split_and!; [done|done|]. pose proof (order_step_latest _ _ _ Hs1). split; [lia|].
  intros id n Hn. destruct (order_step_asked _ _ _ _ _ Hs1 Hn); [by eapply Hid|done].
Qed.

Lemma repeated_results :
  exists a b, (run_calls "jobs" repeated_calls base_disk).1 !! 1%nat = Some (Ok a) /\
    (run_calls "jobs" repeated_calls base_disk).1 !! 2%nat = Some (Ok b).
Proof.
  destruct after_crash as (o&Hr&Ho). unfold repeated_calls. rewrite run_calls_app. cbn [fst].
  rewrite !lookup_app_r by (rewrite length_run_calls; cbn; lia). rewrite length_run_calls. cbn [length crashed_call Nat.sub].
  generalize dependent (run_calls "jobs" crashed_call base_disk).2. intros s Hr.
  destruct (next_call 1 o s Hr Ho ltac:(lia)) as (a&o1&s1&Ha&Hr1&Ho1).
  destruct (next_call 2 o1 s1 Hr1 Ho1 ltac:(lia)) as (b&o2&s2&Hb&_&_).
  exists a, b. cbn [run_calls]. by rewrite Ha, Hb.
Qed.

Lemma global_order_consistent_witness :
  exists a b, (run_calls "jobs" repeated_calls base_disk).1 !! 1%nat = Some (Ok a) /\
    (run_calls "jobs" repeated_calls base_disk).1 !! 2%nat = Some (Ok b) /\ a = b.
Proof.
  destruct repeated_results as (a&b&Ha&Hb). exists a, b. split_and!; [exact Ha|exact Hb|].
  by apply (global_order_consistent "jobs" repeated_calls base_disk empty_order 1 2 None None "job1" "job1" a b
    (base_order "jobs") eq_refl eq_refl Ha Hb).
Defined.

(** ** The listing of a job behind a lost number *)
Definition listed_order : family_order := mkOrder 2 {[ "job1" := 2 ]}.

Definition lost_order : family_order := mkOrder 1 ∅.

Definition head_file (n : Z) (m : gmap path doc) : gmap path doc :=
  <[order_head_path "jobs" := DJson (head_document "jobs" n)]> m.
Definition listed_files : gmap path doc :=
  <[seq_path (order_entries "jobs") 2 := DJson (order_document "jobs" "job1" 2)]>
    (<[order_mapping_path "jobs" "job1" := DJson (order_document "jobs" "job1" 2)]>
      (head_file 2 (head_file 1 base_files))).
Definition listed_disk : disk := mkDisk listed_files None 0 0.

Lemma base_untouched p : hd "" p <> "global_order" -> listed_files !! p = base_files !! p.
Proof.
  intros Hp. unfold listed_files, head_file.
  by rewrite !lookup_insert_ne by (intros <-; by apply Hp).
Qed.

Lemma listed_represents : represents "jobs" listed_order (files listed_disk).
Proof.
  pose proof (represents_head _ _ _ (base_order "jobs") ltac:(cbn; lia)) as H1.
  pose proof (represents_head _ _ _ H1 ltac:(cbn; lia)) as H2. cbn [latest sequences empty_order] in H2.
  change (0 + 1 + 1) with 2 in H2. change (0 + 1) with 1 in H2.
  assert (Hfree : head_file 2 (head_file 1 base_files) !! order_mapping_path "jobs" "job1" = None).
  { unfold head_file. rewrite !lookup_insert_ne by done. destruct (base_order "jobs") as [_ Hm _ _ _].
    apply eq_None_not_Some. intros [d Hd]. destruct (Hm _ _ Hd) as (id&n&_&Hn&_). destruct (no_number _ _ Hn). }
  assert (Hmax : forall id n, sequences empty_order !! id = Some n -> n < 2) by (intros id n Hn; destruct (no_number _ _ Hn)).
  pose proof (represents_mapping _ _ _ "job1" H2 eq_refl Hfree ltac:(cbn; lia) Hmax) as H3.
  exact (represents_entry _ _ _ "job1" 2 H3 (lookup_insert_eq _ _ _)).
Qed.

Lemma listed_stored : jobs_stored listed_order (files listed_disk).
Proof.
  intros id n Hn. unfold listed_order in Hn. cbn [sequences] in Hn.
  apply lookup_singleton_Some in Hn as [<- <-]. right. exists job1.
  cbn [files listed_disk]. rewrite base_untouched by done. unfold base_files.
  rewrite lookup_insert_ne, lookup_singleton_eq by done. split_and!; [done|by vm_compute|done|by vm_compute].
Qed.

Lemma listed_migrated : require_index_migration_complete listed_disk = (Ok tt, listed_disk).
Proof.
  unfold require_index_migration_complete, read_doc, mbind, M_bind. cbn [files listed_disk].
  rewrite base_untouched by done. unfold base_files. rewrite lookup_insert_eq. done.
Qed.

Lemma job_listings_exact_witness :
  scan_jobs 5 listed_disk = (Ok (live_jobs listed_disk 1 2, false), listed_disk) /\
  list_jobs_page (JInt 2) (JInt 1) None (Some QUEUED) None false listed_disk =
    (Ok (filter (job_matches None (Some QUEUED) None false) (live_jobs listed_disk 2 1), None, 2), listed_disk).
Proof.
  destruct (job_listings_exact listed_order listed_disk listed_represents listed_migrated listed_stored)
    as [Hpage Hscan].
  split; [apply (Hscan 5); lia|apply (Hpage 2 1 None (Some QUEUED) None false); unfold MAX_RESPONSE_PAGE_RECORDS; lia].
Defined.

(** ** A job's log after an interrupted append: one event the index does not count *)
Definition started : RelayEvent := mkEvent "job1" 1 "job.queued" "Job queued" INFO 0 [].
Definition index_files : gmap path doc := {[ job_index_path "job1" := DJson (JObj (new_job_index "job1")) ]}.
Definition log_files : gmap path doc := <[seq_path (event_dir "job1") 1 := DEvent started]> index_files.
Definition log_disk : disk := mkDisk log_files None 5 0.

Lemma json_fits p v bound :
  record_max_bytes p = bound -> Z.of_nat (size_bound v) <= bound -> fits p (DJson v).
Proof. intros <- Hv. unfold fits. cbn [encoded_size]. pose proof (length_dumps_default v). lia. Qed.

Lemma empty_job_log : job_log "job1" [] (Some 0) index_files.
Proof.
  split; [done| |by intros| |by intros n [= <-]].
  - intros n Hn. unfold index_files. rewrite lookup_singleton_ne by done. done.
  - eexists. unfold index_files. rewrite lookup_singleton_eq. split_and!; [done|apply (json_fits _ _ 65536)|done|done].
    + by vm_compute.
    + by vm_compute.
Qed.

Lemma one_event_log : job_log "job1" [started] (Some 0) (files log_disk).
Proof. apply (job_log_write "job1" [] (Some 0) index_files started empty_job_log); [cbn; lia|done]. Qed.

Definition noted : RelayEvent :=
  mkEvent "job1" 2 "job.running" "Job running" INFO (clock 5) [].

Lemma append_event_atomic_witness :
  append_post "job1" noted [started] (Some 0) (files (set_budget (Some 1%nat) log_disk))
    (append_event "job1" "job.running" "Job running" None (set_budget (Some 1%nat) log_disk)).1
    (append_event "job1" "job.running" "Job running" None (set_budget (Some 1%nat) log_disk)).2.
Proof.
  apply (append_event_atomic "job1" "job.running" "Job running" None [started] (Some 0)
    (set_budget (Some 1%nat) log_disk) one_event_log). cbn. lia.
Defined.

Lemma log_index_found index :
  files log_disk !! job_index_path "job1" = Some (DJson (JObj index)) -> index = new_job_index "job1".
Proof.
  cbn [files log_disk]. unfold log_files, index_files. rewrite lookup_insert_ne, lookup_singleton_eq by done.
  by intros [= <-].
Qed.

Lemma append_event_completes_witness :
  (append_event "job1" "job.running" "Job running" None log_disk).1 = Ok noted.
Proof.
  apply (append_event_completes "job1" "job.running" "Job running" None [started] (Some 0) log_disk one_event_log).
  - cbn. lia.
  - reflexivity.
  - unfold DEFAULT_EXACT_RECORD_LIMIT. cbn. lia.
  - by vm_compute.
  - intros index Hi. rewrite (log_index_found index Hi). by apply (json_fits _ _ 65536); vm_compute.
Defined.

Lemma event_reads_exact_witness :
  read_event_page "job1" 1 100 log_disk = (Ok ([started], 2), log_disk) /\
  latest_job_event "job1" log_disk = (Ok (None, false), log_disk).
Proof.
  destruct (event_reads_exact "job1" [started] (Some 0) log_disk one_event_log) as [Hpage Hlatest]; [cbn; lia|].
  split; [apply (Hpage 1 100); lia|exact Hlatest].
Defined.

Lemma last_contiguous_exact_witness :
  last_contiguous_sequence (event_dir "job1") log_disk = (Ok 1, log_disk).
Proof.
  apply (last_contiguous_exact (event_dir "job1") (DEvent <$> [started]) log_disk (jl_files _ _ _ _ one_event_log)).
  cbn. lia.
Defined.

(** ** A timeline with one entry whose head was not written *)
Definition task1 : RelayTask := mkTask "task1" "job1" (Some 1) "build" RUNNING 0 0 [].
Definition entry1 : TaskTimelineEvent :=
  mkTaskEvent "task1" 1 "step" "compile" TaskEventStatus.RUNNING "compiling" None [] [] 0 [].
Definition timeline_files : gmap path doc :=
  <[seq_path (task_event_dir "task1") 1 := DTaskEvent entry1]> (<[["tasks"; json_name "task1"] := DTask task1]> log_files).
Definition timeline_disk : disk := mkDisk timeline_files None 5 0.

Lemma timeline_job_log : job_log "job1" [started] (Some 0) (files timeline_disk).
Proof. do 2 (apply job_log_other; [|by intros [?|[n ?]]]). apply one_event_log. Qed.

Lemma no_timeline : task_log "task1" [] None (<[["tasks"; json_name "task1"] := DTask task1]> log_files).
Proof.
  unfold log_files, index_files. split; [done| |by intros| |by intros].
  - intros n Hn. rewrite !lookup_insert_ne by done. rewrite lookup_singleton_ne by done. done.
  - unfold task_head_at. rewrite !lookup_insert_ne by done. rewrite lookup_singleton_ne by done. done.
Qed.

Lemma timeline_log : task_log "task1" [entry1] None (files timeline_disk).
Proof.
  apply (task_log_write "task1" [] None _ entry1 no_timeline); [cbn; lia|]. split_and!; [done|done|done|by vm_compute].
Qed.

Lemma timeline_task : task_of "task1" "job1" (files timeline_disk).
Proof.
  exists task1. cbn [files timeline_disk]. unfold timeline_files.
  rewrite lookup_insert_ne, lookup_insert_eq by done. split_and!; [done|by vm_compute|done|done|done].
Qed.

Definition entry2 : TaskTimelineEvent :=
  mkTaskEvent "task1" 0 "step" "link" TaskEventStatus.SUCCEEDED "linked" None [] [] 0 [].

Lemma append_task_event_atomic_witness :
  timeline_post "task1" "job1" (with_seq entry2 2)
    (mkEvent "job1" 2 ("task.timeline." +:+ "step") "linked" INFO (clock 5) (announcement entry2 2)) [entry1] [started]
    (append_task_event entry2 timeline_disk).1 (append_task_event entry2 timeline_disk).2.
Proof.
  apply (append_task_event_atomic entry2 "job1" [entry1] None [started] (Some 0) timeline_disk eq_refl
    timeline_log timeline_task timeline_job_log); cbn; lia.
Defined.

Lemma drain_task_events_exact_witness :
  drain_task_events "task1" (JInt 1) (JInt 10) timeline_disk = (Ok ([entry1], 2), timeline_disk).
Proof.
  apply (drain_task_events_exact "task1" "job1" [entry1] None timeline_disk 1 10 timeline_log timeline_task);
    unfold MAX_RESPONSE_PAGE_RECORDS; cbn; lia.
Defined.
