(* ===== verification/SchedulerCancel.v ===== *)
(** * Durable scheduler cancellation ([queue_scheduler_cancel_records.py],
      [queue_scheduler_cancel_state.py], [queue_scheduler_cancel_claims.py])

    Cancelling a relay job that runs under a cluster scheduler is work that must
    survive a crash: the request is recorded, the scheduler identities are
    registered, and workers then claim cancellation attempts and confirmation
    polls one at a time under an expiring lease.  A record lives in the
    [scheduler_cancel_pending] family while work is left, and moves to
    [scheduler_cancel_dispositions] when every disposition is final. *)

From S2P Require Import Prelude Sha256 Json Identifiers Models Store.
From stdpp Require Import base list gmap strings.
From Stdlib Require Import ZArith QArith Lia.
From Stdlib Require Ascii String.
Close Scope Q_scope.

(** What a claim's recorder relies on from [command_evidence.bounded_error_detail]. *)
Class ErrorDetail := {
  bounded_error_detail : option string -> option string;
  bounded_error_detail_None : bounded_error_detail None = None;
  bounded_error_detail_size : forall e d, (Z.of_nat (String.length e) < 2 ^ 63)%Z ->
    bounded_error_detail (Some e) = Some d -> (String.length d <= 4096)%nat;
}.

(** ** [queue_scheduler_cancel_records.py] *)
Module Records.

(** [claim_live]: the claim is present and its lease has not run out. *)
Definition claim_live (id : option string) (expires : option Z) (now : Z) : bool :=
  match id, expires with
  | Some _, Some e => (now <? e)%Z
  | _, _ => false
  end.

Definition next_attempt_due (d : SchedulerCancelDisposition) (now : Z) : bool :=
  match next_attempt_at d with None => true | Some t => (t <=? now)%Z end.

(** [scheduler_cancel_disposition_is_due] *)
Definition scheduler_cancel_disposition_is_due (d : SchedulerCancelDisposition) (now : Z) : bool :=
  if retryable (state d) then
    if claim_live (attempt_claim_id d) (attempt_claim_expires_at d) now then false
    else next_attempt_due d now
  else if negb (bool_decide (state d = Disposition.CANCEL_REQUESTED)) then false
  else if claim_live (confirmation_claim_id d) (confirmation_claim_expires_at d) now then false
  else next_attempt_due d now.

(** [scheduler_cancel_record_is_due] *)
Definition scheduler_cancel_record_is_due (r : SchedulerCancelPending) (now : Z) : bool :=
  if complete r then false
  else if bool_decide (identity_resolution r = res_pending) then true
  else existsb (fun d => scheduler_cancel_disposition_is_due d now) (dispositions r).

Definition open_state (s : Disposition.state) : bool :=
  retryable s || bool_decide (s = Disposition.CANCEL_REQUESTED).

(** [a or b or c or d] on optional timestamps. *)
Definition first_time (l : list (option Z)) (dflt : Z) : Z :=
  default dflt (foldr (fun o acc => match o with Some t => Some t | None => acc end) None l).

Definition due_time (r : SchedulerCancelPending) (d : SchedulerCancelDisposition) : Z :=
  first_time [attempt_claim_expires_at d; confirmation_claim_expires_at d; next_attempt_at d]
             (requested_at r).

(** [scheduler_cancel_due_sort_key] *)
Definition scheduler_cancel_due_sort_key (r : SchedulerCancelPending) : Z * string :=
  let due_times :=
    due_time r <$> filter (fun d => open_state (state d) = true) (dispositions r) in
  (match due_times with
   | [] => requested_at r
   | t :: ts => foldr Z.min t ts
   end, pending_job_id r).

Definition sort_key_leb (a b : Z * string) : bool :=
  if (a.1 <? b.1)%Z then true
  else if (b.1 <? a.1)%Z then false
  else str_leb a.2 b.2.

(** [scheduler_cancellation_request(job)] *)
Definition scheduler_cancellation_request (j : RelayJob) : option (list (string * json)) :=
  match dict_get "cancellation_request" (metadata j) with
  | Some (JObj request) =>
      match dict_get "schema_version" request with
      | Some (JStr v) =>
          if bool_decide (v = "clio-relay.cancellation-request.v1") then Some request else None
      | _ => None
      end
  | _ => None
  end.
End Records.
Import Records.

(** ** [queue_scheduler_cancel_state.py] *)

(** [_stable_ref_token] of its variadic arguments. *)
Definition _stable_ref_token (values : list string) : string :=
  take_str 32 (sha256_hex (str_join nul values)).

Definition fam_pending : string := "scheduler_cancel_pending".
Definition fam_done : string := "scheduler_cancel_dispositions".

(** [_scheduler_cancel_record_path]; [durable_key] is the identity on the valid
    identifiers every caller passes. *)
Definition _scheduler_cancel_record_path (family cluster jid : string) : path :=
  [family; _stable_ref_token [cluster]; json_name jid].

Definition names_record (r : SchedulerCancelPending) (jid cluster : string) : bool :=
  bool_decide (pending_job_id r = jid) && bool_decide (pending_cluster r = cluster).

Definition identity_mismatch : exn :=
  QueueConflictError "scheduler cancellation identity mismatch: ".
Definition disposition_mismatch : exn :=
  QueueConflictError "scheduler cancellation disposition identity mismatch: ".
Definition not_pending : exn := QueueConflictError "scheduler cancellation is not pending: ".

Definition find_identity (sid : string) (ds : list SchedulerCancelDisposition) : option nat :=
  find_index (fun d => bool_decide (scheduler_job_id d = sid)) ds.

Section operations.
Context `{World}.

(** [_persist_scheduler_cancel_record_unlocked] *)
Definition _persist_scheduler_cancel_record_unlocked (r : SchedulerCancelPending)
  : M disk SchedulerCancelPending :=
  let pending_path := _scheduler_cancel_record_path fam_pending (pending_cluster r) (pending_job_id r) in
  if negb (complete r) then
    _ ← write_doc pending_path (DCancel r);
    mret r
  else
    _ ← write_doc (_scheduler_cancel_record_path fam_done (pending_cluster r) (pending_job_id r))
                  (DCancel r);
    _ ← unlink_durable_path pending_path;
    mret r.

(** [_require_scheduler_cancel_pending_unlocked] *)
Definition _require_scheduler_cancel_pending_unlocked (jid cluster : string)
  : M disk SchedulerCancelPending :=
  r ← read_optional_cancel (_scheduler_cancel_record_path fam_pending cluster jid);
  match r with
  | None => raise not_pending
  | Some r =>
      _ ← ensure (names_record r jid cluster) identity_mismatch;
      mret r
  end.

(** The capacity scan of [_ensure_scheduler_cancel_pending_unlocked]. *)
Fixpoint count_pending_entries (entries : list (path * doc)) (count : Z) : result unit :=
  match entries with
  | [] => Ok tt
  | e :: rest =>
      if negb (ends_with ".json" (default "" (last e.1))) then
        Err (QueueConflictError "scheduler cancellation index contains an unsafe record: ")
      else if (MAX_ACTIVE_JOB_RECORDS <=? count + 1)%Z then
        Err (QueueConflictError "scheduler cancellation capacity reached for cluster; retry after ")
      else count_pending_entries rest (count + 1)%Z
  end.

(** [_ensure_scheduler_cancel_pending_unlocked] *)
Definition _ensure_scheduler_cancel_pending_unlocked
    (j : RelayJob) (at_ : Z) (why : string) : M disk SchedulerCancelPending :=
  let pending_path := _scheduler_cancel_record_path fam_pending (job_cluster j) (job_id j) in
  existing ← read_optional_cancel pending_path;
  match existing with
  | Some r =>
      _ ← ensure (names_record r (job_id j) (job_cluster j)) identity_mismatch;
      mret r
  | None =>
      done ← read_optional_cancel (_scheduler_cancel_record_path fam_done (job_cluster j) (job_id j));
      match done with
      | Some r =>
          _ ← ensure (names_record r (job_id j) (job_cluster j)) disposition_mismatch;
          mret r
      | None =>
          entries ← scandir [fam_pending; _stable_ref_token [job_cluster j]];
          _ ← lift (count_pending_entries entries 0);
          now ← utc_now;
          let r := mkPending (job_id j) (job_cluster j) at_ why res_pending [] now in
          _ ← ensure (valid_pending r) (ValidationError "SchedulerCancelPending");
          _ ← write_doc pending_path (DCancel r);
          mret r
      end
  end.

(** [ensure_scheduler_cancel_pending] *)
Definition ensure_scheduler_cancel_pending (jid why : string) : M disk SchedulerCancelPending :=
  jid ← lift (require_durable_record_id (JStr jid) "job_id");
  _ ← require_index_migration_complete;
  j ← read_required_job jid;
  now ← utc_now;
  _ensure_scheduler_cancel_pending_unlocked j now why.

(** [get_scheduler_cancel_pending] *)
Definition get_scheduler_cancel_pending (jid cluster : string)
  : M disk (option SchedulerCancelPending) :=
  jid ← lift (require_durable_record_id (JStr jid) "job_id");
  r ← read_optional_cancel (_scheduler_cancel_record_path fam_pending cluster jid);
  match r with
  | Some r' =>
      _ ← ensure (names_record r' jid cluster) identity_mismatch;
      mret r
  | None => mret None
  end.

(** [get_scheduler_cancel_disposition] *)
Definition get_scheduler_cancel_disposition (jid cluster : string)
  : M disk (option SchedulerCancelPending) :=
  jid ← lift (require_durable_record_id (JStr jid) "job_id");
  r ← read_optional_cancel (_scheduler_cancel_record_path fam_done cluster jid);
  match r with
  | Some r' =>
      _ ← ensure (names_record r' jid cluster && complete r') disposition_mismatch;
      mret r
  | None => mret None
  end.

(** The loop of [scan_due_scheduler_cancellations]: a pending record whose
    terminal evidence is already durable is an interrupted move; finish it. *)
Fixpoint drop_completed (records : list SchedulerCancelPending)
  : M disk (list SchedulerCancelPending) :=
  match records with
  | [] => mret []
  | r :: rest =>
      done ← read_optional_cancel
               (_scheduler_cancel_record_path fam_done (pending_cluster r) (pending_job_id r));
      match done with
      | Some c =>
          _ ← ensure (complete c)
                (QueueConflictError "scheduler cancellation disposition is not terminal: ");
          _ ← unlink_durable_path
                (_scheduler_cancel_record_path fam_pending (pending_cluster r) (pending_job_id r));
          drop_completed rest
      | None =>
          active ← drop_completed rest;
          mret (r :: active)
      end
  end.

(** [now or utc_now()] *)
Definition now_or_utc_now (now : option Z) : M disk Z :=
  match now with Some t => mret t | None => utc_now end.

(** [scan_due_scheduler_cancellations] *)
Definition scan_due_scheduler_cancellations (cluster : string) (limit : Z) (now : option Z)
  : M disk (list SchedulerCancelPending * bool) :=
  if (limit <? 1)%Z || (DEFAULT_EXACT_RECORD_LIMIT <? limit)%Z then
    raise (ValueError "scheduler cancellation batch limit must be between 1 and ")
  else
    _ ← require_index_migration_complete;
    scanned ← scan_many_cancel [fam_pending; _stable_ref_token [cluster]]
                               (Z.to_nat MAX_ACTIVE_JOB_RECORDS);
    records ← drop_completed scanned.1;
    observed_at ← now_or_utc_now now;
    let due := filter (fun r => scheduler_cancel_record_is_due r observed_at = true) records in
    let sorted := sort_by (fun a b => sort_key_leb (scheduler_cancel_due_sort_key a)
                                                   (scheduler_cancel_due_sort_key b)) due in
    mret (take (Z.to_nat limit) sorted,
          scanned.2 || (limit <? Z.of_nat (length due))%Z).
End operations.

(** ** Identity registration *)
Section registration.
Context `{World}.

Definition set_dispositions (ds : list SchedulerCancelDisposition) (t : Z)
    (r : SchedulerCancelPending) : SchedulerCancelPending :=
  mkPending (pending_job_id r) (pending_cluster r) (requested_at r) (reason r)
            (identity_resolution r) ds t.

Definition set_resolution (res : IdentityResolution) (t : Z) (r : SchedulerCancelPending)
  : SchedulerCancelPending :=
  mkPending (pending_job_id r) (pending_cluster r) (requested_at r) (reason r)
            res (dispositions r) t.

(** [SchedulerCancelDisposition(...)] with every other field at its default. *)
Definition new_disposition (sid : string) (prov : option string) (st : Disposition.state)
    (err : option string) (t : Z) : SchedulerCancelDisposition :=
  mkDisposition sid prov st 0 0 None err None None None None None None t.

Record SchedulerCancelIdentityRegistration := mkRegistration {
  registration_record : SchedulerCancelPending;
  disposition_created : bool;
}.

(** [register_scheduler_cancel_identity_once] *)
Definition register_scheduler_cancel_identity_once
    (jid cluster sid : string) (prov : option string) (ownership_verified : bool)
  : M disk SchedulerCancelIdentityRegistration :=
  jid ← lift (require_durable_record_id (JStr jid) "job_id");
  r ← _require_scheduler_cancel_pending_unlocked jid cluster;
  let ds := dispositions r in
  let existing_index := find_identity sid ds in
  t ← utc_now;
  let candidate :=
    new_disposition sid prov
      (if ownership_verified then Disposition.PENDING else Disposition.REFUSED)
      (if ownership_verified then None else Some "scheduler identity ownership unverified") t in
  _ ← ensure (valid_disposition candidate) (ValidationError "SchedulerCancelDisposition");
  let store ds' :=
    t' ← utc_now;
    persisted ← _persist_scheduler_cancel_record_unlocked (set_dispositions ds' t' r);
    mret (mkRegistration persisted (bool_decide (existing_index = None))) in
  match existing_index with
  | None => store (ds ++ [candidate])
  | Some i =>
      match ds !! i with
      | Some existing =>
          if negb (bool_decide (state existing = Disposition.REFUSED)) || negb ownership_verified
          then mret (mkRegistration r false)
          else
            t' ← utc_now;
            store (<[i := mkDisposition sid prov (state candidate) (attempts existing)
                            (confirmation_attempts existing) None (last_error candidate)
                            None None None None None None t']> ds)
      | None => raise (QueueConflictError "unreachable index")
      end
  end.

(** [register_scheduler_cancel_identity] *)
Definition register_scheduler_cancel_identity
    (jid cluster sid : string) (prov : option string) (ownership_verified : bool)
  : M disk SchedulerCancelPending :=
  reg ← register_scheduler_cancel_identity_once jid cluster sid prov ownership_verified;
  mret (registration_record reg).

(** [finalize_scheduler_cancel_identities] *)
Definition finalize_scheduler_cancel_identities (jid cluster : string)
  : M disk SchedulerCancelPending :=
  jid ← lift (require_durable_record_id (JStr jid) "job_id");
  r ← _require_scheduler_cancel_pending_unlocked jid cluster;
  _ ← ensure (negb (bool_decide (dispositions r = [])))
        (QueueConflictError "scheduler cancellation has no identities to finalize: ");
  t ← utc_now;
  _persist_scheduler_cancel_record_unlocked (set_resolution res_resolved t r).

(** The [model_copy] that clears both claims of a superseded disposition. *)
Definition clear_claims (d : SchedulerCancelDisposition) : SchedulerCancelDisposition :=
  mkDisposition (scheduler_job_id d) (provider d) (state d) (attempts d) (confirmation_attempts d)
                (next_attempt_at d) (last_error d) None None None None None None
                (disposition_updated_at d).

(** [complete_scheduler_cancel_identity_scan] *)
Definition complete_scheduler_cancel_identity_scan (jid cluster : string) (superseded : bool)
  : M disk SchedulerCancelPending :=
  jid ← lift (require_durable_record_id (JStr jid) "job_id");
  r ← _require_scheduler_cancel_pending_unlocked jid cluster;
  if negb (bool_decide (dispositions r = [])) && negb superseded then mret r
  else
    let ds := if superseded then clear_claims <$> dispositions r else dispositions r in
    t ← utc_now;
    _persist_scheduler_cancel_record_unlocked
      (mkPending (pending_job_id r) (pending_cluster r) (requested_at r) (reason r)
                 (if superseded then res_superseded else res_none) ds t).
End registration.

(** ** [queue_scheduler_cancel_claims.py] *)

(** [round(q * 10^6)] with ties to even: the microseconds of
    [timedelta(seconds=q)]. *)
Definition timedelta_us (q : Q) : Z :=
  let n := (Qnum q * 1000000)%Z in
  let d := Zpos (Qden q) in
  let f := (n / d)%Z in
  let r2 := (2 * (n mod d))%Z in
  if (r2 <? d)%Z then f
  else if (d <? r2)%Z then (f + 1)%Z
  else if Z.even f then f else (f + 1)%Z.

(** [MIN_SCHEDULER_CANCEL_CLAIM_LEASE_SECONDS <= q <= MAX_...] *)
Definition claim_lease_in_bounds (q : Q) : bool :=
  Qle_bool (1 # 1) q && Qle_bool q (300 # 1).

(** [a or b] on an optional string. *)
Definition or_text (o : option string) (dflt : string) : string :=
  match o with
  | Some s => if str_nonempty s then s else dflt
  | None => dflt
  end.

Record SchedulerCancelClaim := mkClaim {
  claim_id : string;
  claim_scheduler_job_id : string;
  claim_provider : string;
  claim_attempt : Z;
  claimed_at : Z;
  claim_expires_at : Z;
}.

Section claims.
Context `{World} `{ErrorDetail}.

(** The common first half of the four operations: terminal evidence wins and
    finishes an interrupted move; otherwise the pending record is read. *)
Definition open_pending (jid cluster : string) : M disk (option SchedulerCancelPending) :=
  done ← read_optional_cancel (_scheduler_cancel_record_path fam_done cluster jid);
  match done with
  | Some c =>
      _ ← ensure (names_record c jid cluster && complete c) disposition_mismatch;
      _ ← unlink_durable_path (_scheduler_cancel_record_path fam_pending cluster jid);
      mret None
  | None =>
      r ← _require_scheduler_cancel_pending_unlocked jid cluster;
      mret (Some r)
  end.

Definition not_registered : exn :=
  QueueConflictError "scheduler cancellation identity is not registered: ".
Definition provider_changed : exn :=
  QueueConflictError "scheduler cancellation provider changed for ".

Definition provider_matches (d : SchedulerCancelDisposition) (prov : string) : bool :=
  match provider d with None => true | Some p => bool_decide (p = prov) end.

Definition lookup_identity (sid : string) (ds : list SchedulerCancelDisposition)
  : option (nat * SchedulerCancelDisposition) :=
  i ← find_identity sid ds; d ← ds !! i; Some (i, d).

(** [claim_scheduler_cancel_attempt] *)
Definition claim_scheduler_cancel_attempt
    (jid cluster sid prov : string) (lease_seconds : Q) (now : option Z)
  : M disk (option SchedulerCancelClaim) :=
  jid ← lift (require_durable_record_id (JStr jid) "job_id");
  _ ← ensure (str_nonempty prov) (ValueError "scheduler cancellation provider must not be empty");
  _ ← ensure (claim_lease_in_bounds lease_seconds)
        (ValueError "scheduler cancellation claim lease must be between ");
  observed_at ← now_or_utc_now now;
  opened ← open_pending jid cluster;
  match opened with
  | None => mret None
  | Some r =>
      if negb (bool_decide (identity_resolution r = res_resolved)) then mret None
      else match lookup_identity sid (dispositions r) with
      | None => raise not_registered
      | Some (i, current) =>
          if negb (retryable (state current)) then mret None
          else if negb (next_attempt_due current observed_at) then mret None
          else if claim_live (attempt_claim_id current) (attempt_claim_expires_at current) observed_at
          then mret None
          else
            _ ← ensure (provider_matches current prov) provider_changed;
            u ← uuid4_hex;
            cid ← lift (validate_durable_record_id (JStr ("cancelclaim_" +:+ u)));
            let expires := (observed_at + timedelta_us lease_seconds)%Z in
            let claimed :=
              mkDisposition (scheduler_job_id current) (Some prov) (state current)
                (attempts current) (confirmation_attempts current) (next_attempt_at current)
                (last_error current) (Some cid) (Some observed_at) (Some expires)
                (confirmation_claim_id current) (confirmation_claimed_at current)
                (confirmation_claim_expires_at current) observed_at in
            _ ← _persist_scheduler_cancel_record_unlocked
                  (set_dispositions (<[i := claimed]> (dispositions r)) observed_at r);
            mret (Some (mkClaim cid sid prov (attempts current + 1) observed_at expires))
      end
  end.

(** The disposition [record_scheduler_cancel_attempt] validates and stores. *)
Definition attempt_outcome (current : SchedulerCancelDisposition) (prov : string)
    (accepted : bool) (error : option string) (max_attempts : Z) (retry_delay : Q) (t : Z)
  : SchedulerCancelDisposition :=
  let n := (attempts current + 1)%Z in
  let err := Some (or_text (bounded_error_detail error) "scheduler cancellation failed") in
  let '(st, next, err) :=
    if accepted then (Disposition.CANCEL_REQUESTED, Some t, None)
    else if (max_attempts <=? n)%Z then (Disposition.EXHAUSTED, None, err)
    else (Disposition.RETRY_WAIT, Some (t + timedelta_us retry_delay)%Z, err) in
  mkDisposition (scheduler_job_id current) (Some prov) st n (confirmation_attempts current)
    next err None None None
    (confirmation_claim_id current) (confirmation_claimed_at current)
    (confirmation_claim_expires_at current) t.

(** [record_scheduler_cancel_attempt] *)
Definition record_scheduler_cancel_attempt
    (jid cluster sid prov cid : string) (accepted : bool) (error : option string)
    (max_attempts : Z) (retry_delay : Q) (now : option Z)
  : M disk (option SchedulerCancelPending) :=
  jid ← lift (require_durable_record_id (JStr jid) "job_id");
  cid ← lift (validate_durable_record_id (JStr cid));
  observed_at ← now_or_utc_now now;
  opened ← open_pending jid cluster;
  match opened with
  | None => mret None
  | Some r =>
      match lookup_identity sid (dispositions r) with
      | None => raise not_registered
      | Some (i, current) =>
          if negb (bool_decide (attempt_claim_id current = Some cid)) then mret None
          else
            _ ← ensure (provider_matches current prov) provider_changed;
            let d := attempt_outcome current prov accepted error max_attempts retry_delay observed_at in
            _ ← ensure (valid_disposition d) (ValidationError "SchedulerCancelDisposition");
            persisted ← _persist_scheduler_cancel_record_unlocked
                          (set_dispositions (<[i := d]> (dispositions r)) observed_at r);
            mret (Some persisted)
      end
  end.

(** [claim_scheduler_cancel_confirmation] *)
Definition claim_scheduler_cancel_confirmation
    (jid cluster sid prov : string) (lease_seconds : Q) (now : option Z)
  : M disk (option SchedulerCancelClaim) :=
  jid ← lift (require_durable_record_id (JStr jid) "job_id");
  _ ← ensure (str_nonempty prov) (ValueError "scheduler cancellation provider must not be empty");
  _ ← ensure (claim_lease_in_bounds lease_seconds)
        (ValueError "scheduler cancellation confirmation claim lease must be between ");
  observed_at ← now_or_utc_now now;
  opened ← open_pending jid cluster;
  match opened with
  | None => mret None
  | Some r =>
      if negb (bool_decide (identity_resolution r = res_resolved)) then mret None
      else match lookup_identity sid (dispositions r) with
      | None => raise not_registered
      | Some (i, current) =>
          if negb (bool_decide (state current = Disposition.CANCEL_REQUESTED)) then mret None
          else if negb (next_attempt_due current observed_at) then mret None
          else if claim_live (confirmation_claim_id current)
                             (confirmation_claim_expires_at current) observed_at
          then mret None
          else
            _ ← ensure (provider_matches current prov) provider_changed;
            u ← uuid4_hex;
            cid ← lift (validate_durable_record_id (JStr ("confirmclaim_" +:+ u)));
            let expires := (observed_at + timedelta_us lease_seconds)%Z in
            let claimed :=
              mkDisposition (scheduler_job_id current) (Some prov) (state current)
                (attempts current) (confirmation_attempts current) (next_attempt_at current)
                (last_error current) (attempt_claim_id current) (attempt_claimed_at current)
                (attempt_claim_expires_at current) (Some cid) (Some observed_at) (Some expires)
                observed_at in
            _ ← _persist_scheduler_cancel_record_unlocked
                  (set_dispositions (<[i := claimed]> (dispositions r)) observed_at r);
            mret (Some (mkClaim cid sid prov (confirmation_attempts current + 1)
                                observed_at expires))
      end
  end.

(** The disposition [record_scheduler_cancel_observation] validates and stores. *)
Definition observation_outcome (current : SchedulerCancelDisposition)
    (phase : SchedulerPhase.t) (not_found : bool) (error : option string)
    (max_confirmations : Z) (retry_delay : Q) (t : Z) : SchedulerCancelDisposition :=
  let n := (confirmation_attempts current + 1)%Z in
  let bounded := bounded_error_detail error in
  let '(st, next, err) :=
    match phase with
    | SchedulerPhase.CANCELED => (Disposition.CANCELED, None, None)
    | SchedulerPhase.COMPLETED | SchedulerPhase.FAILED => (Disposition.TERMINAL, None, None)
    | _ =>
        if not_found then (Disposition.NOT_FOUND, None, None)
        else if (max_confirmations <=? n)%Z then
          (Disposition.EXHAUSTED, None,
           Some (or_text bounded ("scheduler cancellation was not confirmed terminal: "
                                  +:+ SchedulerPhase.value phase)))
        else (Disposition.CANCEL_REQUESTED, Some (t + timedelta_us retry_delay)%Z, bounded)
    end in
  mkDisposition (scheduler_job_id current) (provider current) st (attempts current) n
    next err (attempt_claim_id current) (attempt_claimed_at current)
    (attempt_claim_expires_at current) None None None t.

(** [record_scheduler_cancel_observation] *)
Definition record_scheduler_cancel_observation
    (jid cluster sid prov cid : string) (phase : SchedulerPhase.t) (not_found : bool)
    (error : option string) (max_confirmations : Z) (retry_delay : Q) (now : option Z)
  : M disk (option SchedulerCancelPending) :=
  jid ← lift (require_durable_record_id (JStr jid) "job_id");
  cid ← lift (validate_durable_record_id (JStr cid));
  observed_at ← now_or_utc_now now;
  opened ← open_pending jid cluster;
  match opened with
  | None => mret None
  | Some r =>
      match lookup_identity sid (dispositions r) with
      | None => raise not_registered
      | Some (i, current) =>
          if negb (bool_decide (confirmation_claim_id current = Some cid)) then mret None
          else
            _ ← ensure (provider_matches current prov) provider_changed;
            let d := observation_outcome current phase not_found error max_confirmations
                       retry_delay observed_at in
            _ ← ensure (valid_disposition d) (ValidationError "SchedulerCancelDisposition");
            persisted ← _persist_scheduler_cancel_record_unlocked
                          (set_dispositions (<[i := d]> (dispositions r)) observed_at r);
            mret (Some persisted)
      end
  end.
End claims.
