(* ===== verification/SchedulerCancelProofs.v ===== *)
(** * Correctness of durable scheduler cancellation

    The store invariant and its preservation by every operation at every crash
    point; exclusivity of claims; bounded attempts; the crash-safe move from
    pending work to terminal evidence; agreement of the due scan with what can
    be claimed. *)

From S2P Require Import Prelude Sha256 Json Identifiers Models Store SchedulerCancel.
From stdpp Require Import base list gmap strings.
From Stdlib Require Import ZArith QArith Lia.
From Stdlib Require Ascii String.
Close Scope Q_scope.
Import Records.

(** ** The store invariant

    Two limits of the models are only checked when a record is read: how many identities a
    record has, and how long the provider of a claim is.  An operation that stores a copy
    can break them, so they are not part of the invariant; [record_ok_valid] says that a
    record of the invariant can be read exactly when it keeps them. *)

(** A disposition that keeps every constraint of its model but the one on its provider. *)
Definition without_provider (d : SchedulerCancelDisposition) : SchedulerCancelDisposition :=
  mkDisposition (scheduler_job_id d) None (state d) (attempts d) (confirmation_attempts d) (next_attempt_at d)
    (last_error d) (attempt_claim_id d) (attempt_claimed_at d) (attempt_claim_expires_at d)
    (confirmation_claim_id d) (confirmation_claimed_at d) (confirmation_claim_expires_at d)
    (disposition_updated_at d).
Definition sound_disposition (d : SchedulerCancelDisposition) : bool := valid_disposition (without_provider d).
Definition provider_fits (d : SchedulerCancelDisposition) : bool := opt_forall (str_between 1 128) (provider d).

(** The two limits. *)
Definition within_limits (r : SchedulerCancelPending) : bool :=
  (length (dispositions r) <=? 1000)%nat && forallb provider_fits (dispositions r).

Definition record_ok (r : SchedulerCancelPending) : Prop :=
  valid_id (pending_job_id r) = true /\
  str_between 1 256 (pending_cluster r) = true /\
  str_between 1 256 (reason r) = true /\
  Forall (fun d => sound_disposition d = true) (dispositions r) /\
  NoDup (scheduler_job_id <$> dispositions r).

(** Every file of the two families is a well-formed record stored under its own
    identity; pending records have work left and terminal evidence has none. *)
Definition cancel_inv (m : gmap path doc) : Prop :=
  forall fam tok name d, m !! [fam; tok; name] = Some d ->
  fam = fam_pending \/ fam = fam_done ->
  exists r, d = DCancel r /\
    [fam; tok; name] = _scheduler_cancel_record_path fam (pending_cluster r) (pending_job_id r) /\
    record_ok r /\ complete r = bool_decide (fam = fam_done).

Lemma fam_ne : fam_pending <> fam_done.
Proof. done. Qed.

Lemma cancel_inv_insert m r fam :
  fam = fam_pending \/ fam = fam_done ->
  record_ok r -> complete r = bool_decide (fam = fam_done) -> cancel_inv m ->
  cancel_inv (<[_scheduler_cancel_record_path fam (pending_cluster r) (pending_job_id r) := DCancel r]> m).
Proof.
  intros Hfam Hok Hc Hinv fam' tok name d.
  rewrite lookup_insert_Some. intros [[Heq <-]|[_ Hl]] Hf; [|by eapply Hinv].
  exists r. injection Heq as <- <- <-. done.
Qed.

Lemma cancel_inv_delete m p : cancel_inv m -> cancel_inv (delete p m).
Proof. intros Hinv fam tok name d Hl. apply lookup_delete_Some in Hl as [_ Hl]. eauto. Qed.

Lemma valid_sound d : valid_disposition d = sound_disposition d && provider_fits d.
Proof.
  unfold sound_disposition, valid_disposition, provider_fits.
  change (validate_attempt_claim (without_provider d)) with (validate_attempt_claim d).
  change (validate_confirmation_claim (without_provider d)) with (validate_confirmation_claim d).
  cbn. destruct (opt_forall (str_between 1 128) (provider d)); by rewrite ?andb_true_r, ?andb_false_r.
Qed.

Lemma valid_is_sound d : valid_disposition d = true -> sound_disposition d = true.
Proof. rewrite valid_sound. by intros [? _]%andb_true_iff. Qed.

Lemma record_ok_valid r : record_ok r -> valid_pending r = within_limits r.
Proof.
  intros (H1&H2&H3&H4&_). unfold valid_pending, within_limits. rewrite H1, H2, H3. cbn.
  rewrite andb_comm. f_equal. revert H4. generalize (dispositions r). induction 1 as [|d ds Hd _ IH]; cbn; [done|].
  by rewrite IH, valid_sound, Hd.
Qed.

Section preservation.
Context `{World} `{ErrorDetail}.

Lemma triple_read_cancel fam cluster jid :
  fam = fam_pending \/ fam = fam_done ->
  triple cancel_inv (read_optional_cancel (_scheduler_cancel_record_path fam cluster jid))
    (fun o => forall r, o = Some r -> record_ok r /\ complete r = bool_decide (fam = fam_done)).
Proof.
  intros Hfam. unfold read_optional_cancel.
  eapply (triple_bind _ _ _ (fun o => forall r, o = Some (DCancel r) ->
             record_ok r /\ complete r = bool_decide (fam = fam_done))).
  - apply triple_read; [done|]. intros m d Hinv Hl r [= ->].
    destruct (Hinv _ _ _ _ Hl Hfam) as (r'&[= <-]&_&Hok&Hc). done.
  - intros [[| | | |r| | | | | | | | | | | |]|] Ho; try apply triple_raise.
    + case_match; [|apply triple_raise]. apply triple_ret. intros r' [= <-]. by apply Ho.
    + apply triple_ret. done.
Qed.

Lemma triple_persist r :
  record_ok r -> triple cancel_inv (_persist_scheduler_cancel_record_unlocked r) (fun r' => r' = r).
Proof.
  intros Hok. unfold _persist_scheduler_cancel_record_unlocked.
  destruct (complete r) eqn:Hc; cbn.
  - eapply triple_bind.
    { apply triple_write. intros m. apply cancel_inv_insert; [by right|done|done]. }
    intros _ _. eapply triple_bind; [apply triple_unlink; intros m; apply cancel_inv_delete|].
    intros _ _. by apply triple_ret.
  - eapply triple_bind.
    { apply triple_write. intros m. apply cancel_inv_insert; [by left|done|done]. }
    intros _ _. by apply triple_ret.
Qed.

Lemma triple_require jid cluster :
  triple cancel_inv (_require_scheduler_cancel_pending_unlocked jid cluster)
    (fun r => record_ok r /\ complete r = false).
Proof.
  eapply triple_bind; [apply triple_read_cancel; by left|].
  intros [r|] Hr; [|apply triple_raise].
  step_triple. apply triple_ret. by apply (Hr r).
Qed.

Lemma triple_open_pending jid cluster :
  triple cancel_inv (open_pending jid cluster)
    (fun o => forall r, o = Some r -> record_ok r).
Proof.
  eapply triple_bind; [apply triple_read_cancel; by right|].
  intros [c|] Hc.
  - step_triple. eapply triple_bind; [apply triple_unlink; intros m; apply cancel_inv_delete|].
    intros _ _. by apply triple_ret.
  - eapply triple_bind; [apply triple_require|]. intros r [Hr _].
    apply triple_ret. by intros r' [= <-].
Qed.

Lemma triple_now now : triple cancel_inv (now_or_utc_now now) (fun _ => True).
Proof. destruct now; [by apply triple_ret|apply triple_utc_now]. Qed.
End preservation.

(** ** Dispositions stay well formed *)
Lemma lookup_identity_Some sid ds i d :
  lookup_identity sid ds = Some (i, d) -> ds !! i = Some d /\ scheduler_job_id d = sid.
Proof.
  unfold lookup_identity, find_identity. destruct (find_index _ ds) as [k|] eqn:Hk; [|done].
  cbn. destruct (ds !! k) as [d'|] eqn:Hd; [|done]. intros [= -> ->].
  apply find_index_Some in Hk as (x&Hx&Hp&_). bool_prop. by simplify_eq.
Qed.

(** Replacing a disposition by a valid one for the same identity. *)
Lemma record_ok_update r i d d' t :
  record_ok r -> dispositions r !! i = Some d ->
  scheduler_job_id d' = scheduler_job_id d -> sound_disposition d' = true ->
  record_ok (set_dispositions (<[i := d']> (dispositions r)) t r).
Proof.
  intros (H1&H2&H3&H4&H5) Hi Hid Hv. unfold record_ok; cbn. split_and!; [done|done|done| |].
  - by apply Forall_insert.
  - rewrite list_fmap_insert, Hid, list_insert_id; [done|]. by rewrite list_lookup_fmap, Hi.
Qed.

Lemma disposition_sound_at r i d :
  record_ok r -> dispositions r !! i = Some d -> sound_disposition d = true.
Proof. intros (_&_&_&H4&_) Hi. by eapply Forall_lookup_1 in H4. Qed.

Lemma timedelta_us_ge q : claim_lease_in_bounds q = true -> (1000000 <= timedelta_us q)%Z.
Proof.
  unfold claim_lease_in_bounds. intros [H1 _]%andb_true_iff.
  apply Qle_bool_iff in H1. unfold Qle in H1. cbn in H1.
  unfold timedelta_us.
  assert (Hd : (1000000 <= Qnum q * 1000000 / Zpos (Qden q))%Z).
  { apply Z.div_le_lower_bound; lia. }
  repeat case_match; lia.
Qed.

Lemma valid_fields d :
  valid_disposition d = true <->
  str_between 1 256 (scheduler_job_id d) = true /\
  opt_forall (str_between 1 128) (provider d) = true /\
  (0 <= attempts d <= 100)%Z /\ (0 <= confirmation_attempts d <= 100)%Z /\
  opt_forall (str_between 0 16384) (last_error d) = true /\
  opt_forall valid_id (attempt_claim_id d) = true /\
  opt_forall valid_id (confirmation_claim_id d) = true /\
  validate_attempt_claim d = true /\ validate_confirmation_claim d = true.
Proof.
  unfold valid_disposition. rewrite !andb_true_iff, !Z.leb_le. naive_solver.
Qed.

(** A retryable disposition holds no confirmation claim. *)
Lemma retryable_no_confirmation d :
  validate_confirmation_claim d = true -> state d <> Disposition.CANCEL_REQUESTED ->
  confirmation_claim_id d = None /\ confirmation_claimed_at d = None /\
  confirmation_claim_expires_at d = None.
Proof.
  unfold validate_confirmation_claim, claim_complete. intros H Hs.
  repeat case_match; cbn in H; try done. bool_prop. done.
Qed.

Lemma cancel_requested_no_attempt d :
  validate_attempt_claim d = true -> retryable (state d) = false ->
  attempt_claim_id d = None /\ attempt_claimed_at d = None /\ attempt_claim_expires_at d = None.
Proof.
  unfold validate_attempt_claim, claim_complete. intros H Hs.
  repeat case_match; cbn in H; try done; rewrite Hs in H; done.
Qed.

Lemma attempt_claim_any d prov cid t e :
  valid_disposition d = true -> retryable (state d) = true ->
  opt_forall (str_between 1 128) prov = true -> valid_id cid = true -> (t < e)%Z ->
  valid_disposition
    (mkDisposition (scheduler_job_id d) prov (state d) (attempts d)
       (confirmation_attempts d) (next_attempt_at d) (last_error d) (Some cid) (Some t) (Some e)
       (confirmation_claim_id d) (confirmation_claimed_at d) (confirmation_claim_expires_at d) t)
  = true.
Proof.
  rewrite !valid_fields. intros (?&?&?&?&?&?&?&?&Hcc) Hr Hp Hid Hlt.
  split_and!; cbn; try done; try lia; try by rewrite Hid.
  unfold validate_attempt_claim; cbn. by rewrite Hr, (proj2 (Z.ltb_lt _ _) Hlt).
Qed.

Lemma attempt_claim_valid d prov cid t e :
  valid_disposition d = true -> retryable (state d) = true ->
  str_between 1 128 prov = true -> valid_id cid = true -> (t < e)%Z ->
  valid_disposition
    (mkDisposition (scheduler_job_id d) (Some prov) (state d) (attempts d)
       (confirmation_attempts d) (next_attempt_at d) (last_error d) (Some cid) (Some t) (Some e)
       (confirmation_claim_id d) (confirmation_claimed_at d) (confirmation_claim_expires_at d) t)
  = true.
Proof. intros. by apply attempt_claim_any. Qed.

(** A claim stores any provider. *)
Lemma attempt_claim_sound d prov cid t e :
  sound_disposition d = true -> retryable (state d) = true -> valid_id cid = true -> (t < e)%Z ->
  sound_disposition
    (mkDisposition (scheduler_job_id d) (Some prov) (state d) (attempts d)
       (confirmation_attempts d) (next_attempt_at d) (last_error d) (Some cid) (Some t) (Some e)
       (confirmation_claim_id d) (confirmation_claimed_at d) (confirmation_claim_expires_at d) t)
  = true.
Proof. intros Hd Hr Hid Hlt. by apply (attempt_claim_any (without_provider d) None). Qed.

Lemma confirmation_claim_sound d prov cid t e :
  sound_disposition d = true -> state d = Disposition.CANCEL_REQUESTED -> valid_id cid = true -> (t < e)%Z ->
  sound_disposition
    (mkDisposition (scheduler_job_id d) (Some prov) (state d) (attempts d)
       (confirmation_attempts d) (next_attempt_at d) (last_error d)
       (attempt_claim_id d) (attempt_claimed_at d) (attempt_claim_expires_at d)
       (Some cid) (Some t) (Some e) t)
  = true.
Proof.
  unfold sound_disposition. rewrite !valid_fields. cbn. intros (?&?&?&?&?&?&?&Hac&?) Hst Hid Hlt.
  split_and!; cbn; try done; try lia; try by rewrite Hid.
  unfold validate_confirmation_claim; cbn. by rewrite Hst, (proj2 (Z.ltb_lt _ _) Hlt).
Qed.

Lemma clear_claims_sound d : sound_disposition d = true -> sound_disposition (clear_claims d) = true.
Proof. unfold sound_disposition. rewrite !valid_fields. by intros (?&?&?&?&?&?&?&?&?). Qed.

Lemma reregister_sound c e sid prov t :
  valid_disposition c = true -> sound_disposition e = true ->
  scheduler_job_id c = sid -> provider c = prov ->
  sound_disposition (mkDisposition sid prov (state c) (attempts e) (confirmation_attempts e) None
                       (last_error c) None None None None None None t) = true.
Proof. unfold sound_disposition. rewrite !valid_fields. intros (?&?&?&?&?&?&?&?&?) (?&?&?&?&?) <- <-. done. Qed.

Lemma valid_id_ok s s' : validate_durable_record_id (JStr s) = Ok s' -> valid_id s' = true.
Proof. intros Hv. pose proof (validate_str_ok _ _ Hv) as ->. unfold valid_id. by rewrite Hv. Qed.

Lemma require_id_valid s f : valid_id s = true -> require_durable_record_id (JStr s) f = Ok s.
Proof.
  unfold valid_id, require_durable_record_id.
  destruct (validate_durable_record_id (JStr s)) as [s'|] eqn:Hv; [|done].
  intros _. by rewrite (validate_str_ok _ _ Hv).
Qed.

Lemma require_id_ok s f s' : require_durable_record_id (JStr s) f = Ok s' -> s' = s /\ valid_id s = true.
Proof.
  unfold require_durable_record_id. destruct (validate_durable_record_id (JStr s)) as [v|[]] eqn:Hv; try done.
  intros [= <-]. split; [by apply validate_str_ok|]. pose proof (validate_str_ok _ _ Hv) as ->.
  unfold valid_id. by rewrite Hv.
Qed.

(** ** Operations as steps *)
Inductive cancel_op :=
  | OpEnsure (jid why : string)
  | OpRegister (jid cluster sid : string) (prov : option string) (verified : bool)
  | OpFinalize (jid cluster : string)
  | OpCompleteScan (jid cluster : string) (superseded : bool)
  | OpScanDue (cluster : string) (limit : Z) (now : option Z)
  | OpClaimAttempt (jid cluster sid prov : string) (lease : Q) (now : option Z)
  | OpRecordAttempt (jid cluster sid prov cid : string) (accepted : bool)
      (error : option string) (max_attempts : Z) (delay : Q) (now : option Z)
  | OpClaimConfirmation (jid cluster sid prov : string) (lease : Q) (now : option Z)
  | OpRecordObservation (jid cluster sid prov cid : string) (phase : SchedulerPhase.t)
      (not_found : bool) (error : option string) (max_confirmations : Z) (delay : Q)
      (now : option Z).

Section steps.
Context `{World} `{ErrorDetail}.

(** Run one operation and forget its value. *)
Definition run_op (o : cancel_op) : M disk unit :=
  match o with
  | OpEnsure jid why => _ ← ensure_scheduler_cancel_pending jid why; mret tt
  | OpRegister jid cl sid prov v =>
      _ ← register_scheduler_cancel_identity_once jid cl sid prov v; mret tt
  | OpFinalize jid cl => _ ← finalize_scheduler_cancel_identities jid cl; mret tt
  | OpCompleteScan jid cl sup => _ ← complete_scheduler_cancel_identity_scan jid cl sup; mret tt
  | OpScanDue cl limit now => _ ← scan_due_scheduler_cancellations cl limit now; mret tt
  | OpClaimAttempt jid cl sid prov lease now =>
      _ ← claim_scheduler_cancel_attempt jid cl sid prov lease now; mret tt
  | OpRecordAttempt jid cl sid prov cid acc err mx delay now =>
      _ ← record_scheduler_cancel_attempt jid cl sid prov cid acc err mx delay now; mret tt
  | OpClaimConfirmation jid cl sid prov lease now =>
      _ ← claim_scheduler_cancel_confirmation jid cl sid prov lease now; mret tt
  | OpRecordObservation jid cl sid prov cid ph nf err mx delay now =>
      _ ← record_scheduler_cancel_observation jid cl sid prov cid ph nf err mx delay now; mret tt
  end.

(** One process runs one operation and may stop at any durable step of it. *)
Inductive cancel_step : disk -> disk -> Prop :=
  | cancel_step_op o b s : cancel_step s (run_op o (set_budget b s)).2.

Lemma triple_scan_entries entries limit acc (P : path * doc -> Prop) :
  Forall P acc -> Forall P entries ->
  forall res, scan_entries limit entries acc = Ok res -> Forall P res.1.
Proof.
  revert acc. induction entries as [|e rest IH]; intros acc Hacc He res; cbn.
  { by intros [= <-]. }
  inversion He; subst. repeat case_match; try done; [by intros [= <-]|].
  intros Hres. eapply IH; [| |exact Hres]; [|done]. apply Forall_app; auto.
Qed.

Lemma triple_drop_completed rs :
  triple cancel_inv (drop_completed rs) (fun _ => True).
Proof.
  induction rs as [|r rs IH]; cbn; [by apply triple_ret|].
  eapply triple_bind; [apply triple_read_cancel; by right|].
  intros [c|] _.
  - step_triple. eapply triple_bind; [apply triple_unlink; intros m; apply cancel_inv_delete|].
    intros _ _. exact IH.
  - eapply triple_bind; [exact IH|]. intros; by apply triple_ret.
Qed.

Lemma files_read_doc p s : files (read_doc p s).2 = files s.
Proof. unfold read_doc. by repeat case_match. Qed.

Lemma triple_migration I : triple I require_index_migration_complete (fun _ => True).
Proof.
  eapply (triple_bind _ _ _ (fun _ => True)); [apply triple_pure, files_read_doc|].
  intros d _. repeat step_triple. eapply triple_conseq; [apply triple_ensure|done].
Qed.

Lemma triple_read_job I jid :
  triple I (read_required_job jid) (fun j => valid_job j = true /\ job_id j = jid).
Proof.
  unfold read_required_job. step_triple.
  destruct (require_id_ok _ _ _ H1) as [-> _].
  eapply (triple_bind _ _ _ (fun _ => True)); [apply triple_pure, files_read_doc|].
  intros d _. repeat step_triple. apply triple_ret. bool_prop. done.
Qed.

Lemma triple_ensure_pending j t why :
  triple cancel_inv (_ensure_scheduler_cancel_pending_unlocked j t why) (fun _ => True).
Proof.
  unfold _ensure_scheduler_cancel_pending_unlocked.
  eapply triple_bind; [apply triple_read_cancel; by left|]. intros [r|] _.
  { step_triple. by apply triple_ret. }
  eapply triple_bind; [apply triple_read_cancel; by right|]. intros [r|] _.
  { step_triple. by apply triple_ret. }
  eapply (triple_bind _ _ _ (fun _ => True)); [by apply triple_pure|]. intros entries _.
  step_triple. step_triple. step_triple.
  eapply triple_bind; [apply triple_write|intros; by apply triple_ret].
  intros m. set (r := mkPending _ _ _ _ _ _ _) in *.
  assert (Hok : record_ok r).
  { unfold valid_pending in *. bool_prop. unfold record_ok. subst r; cbn in *.
    split_and!; try done; constructor. }
  apply (cancel_inv_insert m r fam_pending); [by left|done|done].
Qed.

Lemma triple_register jid cl sid prov v :
  triple cancel_inv (register_scheduler_cancel_identity_once jid cl sid prov v) (fun _ => True).
Proof.
  unfold register_scheduler_cancel_identity_once. step_triple.
  eapply triple_bind; [apply triple_require|]. intros r [Hok _].
  step_triple. step_triple.
  set (c := new_disposition _ _ _ _ _) in *.
  assert (Hstore : forall ds b, record_ok (set_dispositions ds 0 r) ->
    triple cancel_inv
      (t' ← utc_now;
       persisted ← _persist_scheduler_cancel_record_unlocked (set_dispositions ds t' r);
       mret (mkRegistration persisted b)) (fun _ => True)).
  { intros ds b Hds. step_triple. eapply triple_bind; [by apply triple_persist|].
    intros; by apply triple_ret. }
  destruct (find_identity sid (dispositions r)) as [i|] eqn:Hi.
  - destruct (dispositions r !! i) as [e|] eqn:He; [|apply triple_raise].
    case_match; [by apply triple_ret|]. step_triple. apply Hstore.
    unfold find_identity in Hi. apply find_index_Some in Hi as (e'&He'&Hp&_).
    bool_prop. simplify_eq.
    eapply record_ok_update; [done|done|done|].
    eapply reregister_sound; [done|by eapply disposition_sound_at|done|done].
  - apply Hstore. destruct Hok as (H5&H6&H7&H8&H9). unfold record_ok; cbn.
    split_and!; try done.
    + apply Forall_app; auto using valid_is_sound.
    + rewrite fmap_app. apply NoDup_app. split_and!; [done| |apply NoDup_singleton].
      intros x Hx Hx'. apply list_elem_of_singleton in Hx' as ->.
      apply list_elem_of_fmap in Hx as (d&Hd&Hin).
      unfold find_identity in Hi. rewrite find_index_None, Forall_forall in Hi.
      specialize (Hi d Hin). cbn in Hi. bool_prop. by rewrite <- Hd in Hi.
Qed.

Lemma triple_finalize jid cl :
  triple cancel_inv (finalize_scheduler_cancel_identities jid cl) (fun _ => True).
Proof.
  unfold finalize_scheduler_cancel_identities. step_triple.
  eapply triple_bind; [apply triple_require|]. intros r [Hok _].
  step_triple. step_triple. eapply triple_conseq; [by apply triple_persist|done].
Qed.

Lemma triple_complete_scan jid cl sup :
  triple cancel_inv (complete_scheduler_cancel_identity_scan jid cl sup) (fun _ => True).
Proof.
  unfold complete_scheduler_cancel_identity_scan. step_triple.
  eapply triple_bind; [apply triple_require|]. intros r [Hok _].
  step_triple; [by apply triple_ret|]. step_triple.
  eapply triple_conseq; [apply triple_persist|done].
  destruct Hok as (H5&H6&H7&H8&H9). unfold record_ok; cbn. split_and!; try done.
  - destruct sup; [|done]. apply Forall_fmap. eapply Forall_impl; [exact H8|].
    intros d; cbn. apply clear_claims_sound.
  - destruct sup; [|done]. rewrite <- list_fmap_compose. done.
Qed.

Lemma triple_scan_due cl limit now :
  triple cancel_inv (scan_due_scheduler_cancellations cl limit now) (fun _ => True).
Proof.
  unfold scan_due_scheduler_cancellations. step_triple; [apply triple_raise|].
  eapply triple_bind; [apply triple_migration|]. intros _ _.
  eapply (triple_bind _ _ _ (fun _ => True)).
  { apply triple_pure. intros s. unfold scan_many_cancel. by rewrite scan_many_state. }
  intros sc _. eapply triple_bind; [apply triple_drop_completed|]. intros rs _.
  eapply triple_bind; [apply triple_now|]. intros t _. by apply triple_ret.
Qed.
End steps.

Section claims_preserve.
Context `{World} `{ErrorDetail}.

Lemma triple_claim_attempt jid cl sid prov lease now :
  triple cancel_inv (claim_scheduler_cancel_attempt jid cl sid prov lease now) (fun _ => True).
Proof.
  unfold claim_scheduler_cancel_attempt. do 3 step_triple.
  eapply triple_bind; [apply triple_now|]. intros t _.
  eapply triple_bind; [apply triple_open_pending|]. intros [r|] Hr; [|by apply triple_ret].
  step_triple; [by apply triple_ret|]. repeat step_triple; try by apply triple_ret.
  apply lookup_identity_Some in Heqo as [Hi Hsid]. bool_prop.
  eapply triple_bind; [apply triple_persist|intros; by apply triple_ret].
  specialize (Hr r eq_refl).
  eapply record_ok_update; [done|exact Hi|done|].
  apply attempt_claim_sound; try done.
  - by eapply disposition_sound_at.
  - by eapply valid_id_ok.
  - pose proof (timedelta_us_ge lease). intuition lia.
Qed.

Lemma triple_claim_confirmation jid cl sid prov lease now :
  triple cancel_inv (claim_scheduler_cancel_confirmation jid cl sid prov lease now) (fun _ => True).
Proof.
  unfold claim_scheduler_cancel_confirmation. do 3 step_triple.
  eapply triple_bind; [apply triple_now|]. intros t _.
  eapply triple_bind; [apply triple_open_pending|]. intros [r|] Hr; [|by apply triple_ret].
  step_triple; [by apply triple_ret|]. repeat step_triple; try by apply triple_ret.
  apply lookup_identity_Some in Heqo as [Hi Hsid]. bool_prop.
  eapply triple_bind; [apply triple_persist|intros; by apply triple_ret].
  specialize (Hr r eq_refl).
  eapply record_ok_update; [done|exact Hi|done|].
  apply confirmation_claim_sound; try done.
  - by eapply disposition_sound_at.
  - by eapply valid_id_ok.
  - pose proof (timedelta_us_ge lease). intuition lia.
Qed.

Lemma attempt_outcome_sid d prov acc err mx delay t :
  scheduler_job_id (attempt_outcome d prov acc err mx delay t) = scheduler_job_id d.
Proof. unfold attempt_outcome. by repeat case_match. Qed.

Lemma observation_outcome_sid d ph nf err mx delay t :
  scheduler_job_id (observation_outcome d ph nf err mx delay t) = scheduler_job_id d.
Proof. unfold observation_outcome. by repeat case_match. Qed.

Lemma triple_record_attempt jid cl sid prov cid acc err mx delay now :
  triple cancel_inv
    (record_scheduler_cancel_attempt jid cl sid prov cid acc err mx delay now) (fun _ => True).
Proof.
  unfold record_scheduler_cancel_attempt. do 2 step_triple.
  eapply triple_bind; [apply triple_now|]. intros t _.
  eapply triple_bind; [apply triple_open_pending|]. intros [r|] Hr; [|by apply triple_ret].
  repeat step_triple; [by apply triple_ret|].
  apply lookup_identity_Some in Heqo as [Hi Hsid].
  eapply triple_bind; [apply triple_persist|intros; by apply triple_ret].
  eapply record_ok_update; [by apply Hr|exact Hi|apply attempt_outcome_sid|by apply valid_is_sound].
Qed.

Lemma triple_record_observation jid cl sid prov cid ph nf err mx delay now :
  triple cancel_inv
    (record_scheduler_cancel_observation jid cl sid prov cid ph nf err mx delay now) (fun _ => True).
Proof.
  unfold record_scheduler_cancel_observation. do 2 step_triple.
  eapply triple_bind; [apply triple_now|]. intros t _.
  eapply triple_bind; [apply triple_open_pending|]. intros [r|] Hr; [|by apply triple_ret].
  repeat step_triple; [by apply triple_ret|].
  apply lookup_identity_Some in Heqo as [Hi Hsid].
  eapply triple_bind; [apply triple_persist|intros; by apply triple_ret].
  eapply record_ok_update; [by apply Hr|exact Hi|apply observation_outcome_sid|by apply valid_is_sound].
Qed.

Lemma run_op_preserves o : triple cancel_inv (run_op o) (fun _ => True).
Proof.
  destruct o; cbn [run_op];
    (eapply (triple_bind _ _ _ (fun _ => True)); [|intros; by apply triple_ret]).
  - unfold ensure_scheduler_cancel_pending. step_triple.
    eapply triple_bind; [apply triple_migration|]. intros _ _.
    eapply triple_bind; [apply triple_read_job|]. intros j _. step_triple.
    apply triple_ensure_pending.
  - apply triple_register.
  - apply triple_finalize.
  - apply triple_complete_scan.
  - apply triple_scan_due.
  - apply triple_claim_attempt.
  - apply triple_record_attempt.
  - apply triple_claim_confirmation.
  - apply triple_record_observation.
Qed.

(** C3: every file of the two cancellation families is, in every state reachable by any
    sequence of operations with any arguments, each stopped at any durable step, a record
    under its own identity with pairwise distinct scheduler identities, incomplete in the
    pending family and complete in the terminal one, whose dispositions keep every
    constraint of their model but the one on the provider's length; and it can be read back
    exactly when it names at most a thousand identities and no provider of more than 128
    characters, the two limits the operations do not check. *)
Theorem cancel_inv_reachable s0 s :
  cancel_inv (files s0) -> rtc cancel_step s0 s ->
  cancel_inv (files s) /\
  forall fam tok name r, fam = fam_pending \/ fam = fam_done ->
    files s !! [fam; tok; name] = Some (DCancel r) -> valid_pending r = within_limits r.
Proof.
  intros H0' Hr. assert (Hs : cancel_inv (files s)).
  { induction Hr as [s|s1 s2 s3 Hstep Hr IH]; [done|].
    apply IH. destruct Hstep as [o b s]. by apply (run_op_preserves o (set_budget b s)). }
  split; [done|]. intros fam tok name r Hfam Hl. destruct (Hs _ _ _ _ Hl Hfam) as (r'&[= <-]&_&Hok&_).
  by apply record_ok_valid.
Qed.
End claims_preserve.

(** ** The abstract specification

    A record is a small state machine.  [update o r r'] says how the operation
    [o] may rewrite the pending record [r]; [effect o] says what the operation
    may do to the files, with the interrupted move as a possible outcome. *)
Section spec.
Context `{World} `{ErrorDetail}.

Definition observed (now : option Z) (t : Z) : Prop :=
  match now with Some n => t = n | None => exists k, t = clock k end.

Definition pending_path (r : SchedulerCancelPending) : path :=
  _scheduler_cancel_record_path fam_pending (pending_cluster r) (pending_job_id r).
Definition done_path (r : SchedulerCancelPending) : path :=
  _scheduler_cancel_record_path fam_done (pending_cluster r) (pending_job_id r).

(** Replace the disposition of one registered identity. *)
Definition rewrites (sid : string) (r r' : SchedulerCancelPending)
    (P : SchedulerCancelDisposition -> SchedulerCancelDisposition -> Prop) : Prop :=
  exists i d d' t, lookup_identity sid (dispositions r) = Some (i, d) /\ P d d' /\
    scheduler_job_id d' = sid /\ r' = set_dispositions (<[i := d']> (dispositions r)) t r.

Definition update (o : cancel_op) (r r' : SchedulerCancelPending) : Prop :=
  match o with
  | OpRegister jid cl sid prov v =>
      pending_job_id r = jid /\ pending_cluster r = cl /\
      ((find_identity sid (dispositions r) = None /\
        exists d t, scheduler_job_id d = sid /\ valid_disposition d = true /\
          state d = (if v then Disposition.PENDING else Disposition.REFUSED) /\
          r' = set_dispositions (dispositions r ++ [d]) t r) \/
       rewrites sid r r' (fun d d' =>
         v = true /\ state d = Disposition.REFUSED /\ state d' = Disposition.PENDING /\
         attempts d' = attempts d /\ confirmation_attempts d' = confirmation_attempts d))
  | OpFinalize jid cl =>
      pending_job_id r = jid /\ pending_cluster r = cl /\ dispositions r <> [] /\
      exists t, r' = set_resolution res_resolved t r
  | OpCompleteScan jid cl sup =>
      pending_job_id r = jid /\ pending_cluster r = cl /\
      (sup = false -> dispositions r = []) /\
      exists t, r' = mkPending jid cl (requested_at r) (reason r)
                       (if sup then res_superseded else res_none)
                       (if sup then clear_claims <$> dispositions r else dispositions r) t
  | OpClaimAttempt jid cl sid prov lease now =>
      pending_job_id r = jid /\ pending_cluster r = cl /\
      identity_resolution r = res_resolved /\
      rewrites sid r r' (fun d d' => exists cid t,
        observed now t /\ retryable (state d) = true /\ next_attempt_due d t = true /\
        claim_live (attempt_claim_id d) (attempt_claim_expires_at d) t = false /\
        state d' = state d /\ attempts d' = attempts d /\
        attempt_claim_id d' = Some cid /\
        attempt_claim_expires_at d' = Some (t + timedelta_us lease)%Z)
  | OpRecordAttempt jid cl sid prov cid acc err mx delay now =>
      pending_job_id r = jid /\ pending_cluster r = cl /\
      rewrites sid r r' (fun d d' => exists t, observed now t /\
        attempt_claim_id d = Some cid /\ valid_disposition d' = true /\
        d' = attempt_outcome d prov acc err mx delay t)
  | OpClaimConfirmation jid cl sid prov lease now =>
      pending_job_id r = jid /\ pending_cluster r = cl /\
      identity_resolution r = res_resolved /\
      rewrites sid r r' (fun d d' => exists cid t,
        observed now t /\ state d = Disposition.CANCEL_REQUESTED /\ next_attempt_due d t = true /\
        claim_live (confirmation_claim_id d) (confirmation_claim_expires_at d) t = false /\
        state d' = state d /\ confirmation_attempts d' = confirmation_attempts d /\
        attempt_claim_id d' = attempt_claim_id d /\
        attempt_claim_expires_at d' = attempt_claim_expires_at d /\
        confirmation_claim_id d' = Some cid /\
        confirmation_claim_expires_at d' = Some (t + timedelta_us lease)%Z)
  | OpRecordObservation jid cl sid prov cid ph nf err mx delay now =>
      pending_job_id r = jid /\ pending_cluster r = cl /\
      rewrites sid r r' (fun d d' => exists t, observed now t /\
        confirmation_claim_id d = Some cid /\ valid_disposition d' = true /\
        d' = observation_outcome d ph nf err mx delay t)
  | OpEnsure _ _ | OpScanDue _ _ _ => False
  end.

(** The four claim operations look at the terminal evidence first. *)
Definition checks_evidence (o : cancel_op) : bool :=
  match o with
  | OpClaimAttempt _ _ _ _ _ _ | OpRecordAttempt _ _ _ _ _ _ _ _ _ _
  | OpClaimConfirmation _ _ _ _ _ _ | OpRecordObservation _ _ _ _ _ _ _ _ _ _ _ => true
  | _ => false
  end.

Inductive effect (o : cancel_op) (m : gmap path doc) : gmap path doc -> Prop :=
  | eff_none : effect o m m
  | eff_finish_move cl jid c :
      m !! _scheduler_cancel_record_path fam_done cl jid = Some (DCancel c) ->
      complete c = true ->
      effect o m (delete (_scheduler_cancel_record_path fam_pending cl jid) m)
  | eff_request r :
      m !! pending_path r = None -> m !! done_path r = None ->
      dispositions r = [] -> identity_resolution r = res_pending -> valid_pending r = true ->
      effect o m (<[pending_path r := DCancel r]> m)
  | eff_pending r r' :
      m !! pending_path r = Some (DCancel r) -> valid_pending r = true -> update o r r' ->
      (checks_evidence o = true -> m !! done_path r = None) -> complete r' = false ->
      effect o m (<[pending_path r := DCancel r']> m)
  | eff_terminal r r' (crashed : bool) :
      m !! pending_path r = Some (DCancel r) -> valid_pending r = true -> update o r r' ->
      (checks_evidence o = true -> m !! done_path r = None) -> complete r' = true ->
      effect o m (if crashed then <[done_path r := DCancel r']> m
                  else delete (pending_path r) (<[done_path r := DCancel r']> m)).
End spec.

(** ** Refinement *)
Section refinement.
Context `{World} `{ErrorDetail}.

Lemma update_ids o r r' :
  update o r r' -> pending_path r' = pending_path r /\ done_path r' = done_path r.
Proof.
  destruct o; cbn; unfold rewrites; try done;
    intros; deex; destruct_or?; deex; subst; done.
Qed.

Lemma wp_persist o r r' s m (Q : result SchedulerCancelPending -> disk -> Prop) :
  files s = m ->
  m !! pending_path r = Some (DCancel r) -> valid_pending r = true -> update o r r' ->
  (checks_evidence o = true -> m !! done_path r = None) ->
  (forall res s', effect o m (files s') -> Q res s') ->
  wp (_persist_scheduler_cancel_record_unlocked r') s Q.
Proof.
  intros <- Hp Hv Hu Hd HQ. destruct (update_ids _ _ _ Hu) as [Hpp Hdp].
  unfold _persist_scheduler_cancel_record_unlocked.
  change (_scheduler_cancel_record_path fam_pending _ _) with (pending_path r').
  change (_scheduler_cancel_record_path fam_done _ _) with (done_path r').
  rewrite Hpp, Hdp.
  destruct (complete r') eqn:Hc; cbn; apply wp_bind, wp_write;
    try (intros; apply HQ, eff_none).
  - intros s1 Hs1. apply wp_bind, wp_unlink.
    + intros s2 Hs2. apply wp_ret, HQ. rewrite Hs2, Hs1.
      by apply (eff_terminal o _ r r' false).
    + intros e. apply HQ. rewrite Hs1. by apply (eff_terminal o _ r r' true).
  - intros s1 Hs1. apply wp_ret, HQ. rewrite Hs1. by apply eff_pending.
Qed.

Lemma wp_require jid cl s (Q : result SchedulerCancelPending -> disk -> Prop) :
  (forall r, files s !! pending_path r = Some (DCancel r) -> valid_pending r = true ->
     pending_job_id r = jid -> pending_cluster r = cl -> Q (Ok r) s) ->
  (forall e, Q (Err e) s) -> wp (_require_scheduler_cancel_pending_unlocked jid cl) s Q.
Proof.
  intros Hok Herr. apply wp_bind, wp_read_cancel; [|intros r Hr Hv|done].
  - intros _. by apply wp_raise.
  - apply wp_bind, wp_ensure; [|intros; apply Herr].
    unfold names_record. intros Hn. bool_prop. apply wp_ret. subst jid cl. by apply Hok.
Qed.

Lemma wp_open_pending o jid cl s (Q : result (option SchedulerCancelPending) -> disk -> Prop) :
  (forall r, files s !! pending_path r = Some (DCancel r) -> valid_pending r = true ->
     pending_job_id r = jid -> pending_cluster r = cl -> files s !! done_path r = None ->
     Q (Ok (Some r)) s) ->
  (forall s', effect o (files s) (files s') -> Q (Ok None) s') ->
  (forall e, Q (Err e) s) -> wp (open_pending jid cl) s Q.
Proof.
  intros Hok Hnone Herr. apply wp_bind, wp_read_cancel; [intros Hd|intros c Hd Hv|done].
  - apply wp_bind, wp_require; [|done]. intros r Hr Hv Hj Hc. apply wp_ret, Hok; try done.
    unfold done_path. by rewrite Hj, Hc.
  - apply wp_bind, wp_ensure; [|intros; apply Herr]. intros Hn. bool_prop.
    apply wp_bind, wp_unlink; [|intros; apply Herr]. intros s' Hs'.
    apply wp_ret, Hnone. rewrite Hs'. by eapply eff_finish_move.
Qed.

Lemma wp_now now s (Q : result Z -> disk -> Prop) :
  (forall t s', observed now t -> files s' = files s -> Q (Ok t) s') ->
  wp (now_or_utc_now now) s Q.
Proof.
  intros HQ. destruct now as [t|]; [by apply HQ|].
  apply wp_utc_now. intros s' Hf _ _. apply HQ; [by eexists|done].
Qed.

(** Forget the value of an operation. *)
Lemma wp_discard {A : Type} (m : M disk A) s (P : disk -> Prop) :
  wp m s (fun _ s' => P s') -> wp (_ ← m; mret tt) s (fun _ s' => P s').
Proof. intros Hm. apply wp_bind. eapply wp_mono; [exact Hm|]. by intros [a|e] s'. Qed.

Lemma lookup_identity_find sid ds :
  find_identity sid ds = None <-> lookup_identity sid ds = None.
Proof.
  unfold lookup_identity. destruct (find_identity sid ds) as [i|] eqn:Hi; [|done].
  unfold find_identity in Hi. apply find_index_Some in Hi as (x&Hx&_). cbn. by rewrite Hx.
Qed.

(** Closing tactics of the refinement: a run that wrote nothing. *)
Ltac unchanged := cbn; repeat match goal with H : files _ = _ |- _ => rewrite H end; apply eff_none.

Lemma refine_register jid cl sid prov v s :
  wp (register_scheduler_cancel_identity_once jid cl sid prov v) s
     (fun _ s' => effect (OpRegister jid cl sid prov v) (files s) (files s')).
Proof.
  unfold register_scheduler_cancel_identity_once. apply wp_bind, wp_lift.
  destruct (require_durable_record_id (JStr jid) "job_id") as [j|e] eqn:Hj; [|apply eff_none].
  apply require_id_ok in Hj as [-> _].
  apply wp_bind, wp_require; [|intros; apply eff_none]. intros r Hr Hv Hjid Hcl.
  apply wp_bind, wp_utc_now. intros s1 Hs1 _ _.
  apply wp_bind, wp_ensure; [|intros; unchanged].
  set (c := new_disposition _ _ _ _ _). intros Hc.
  assert (Hstore : forall ds b s2, files s2 = files s ->
    (forall t, update (OpRegister jid cl sid prov v) r (set_dispositions ds t r)) ->
    wp (t' ← utc_now;
        persisted ← _persist_scheduler_cancel_record_unlocked (set_dispositions ds t' r);
        mret (mkRegistration persisted b)) s2
       (fun _ s' => effect (OpRegister jid cl sid prov v) (files s) (files s'))).
  { intros ds b s2 Hs2 Hu. apply wp_bind, wp_utc_now. intros s3 Hs3 _ _.
    apply wp_bind. eapply (wp_persist (OpRegister jid cl sid prov v) r _ _ (files s));
      [by rewrite Hs3|done|done|apply Hu|done|].
    by intros [x|e] s' Heff. }
  destruct (find_identity sid (dispositions r)) as [i|] eqn:Hi.
  - destruct (dispositions r !! i) as [e|] eqn:He; [|apply wp_raise; unchanged].
    destruct (_ || _) eqn:Hcond; [apply wp_ret; unchanged|]. bool_prop. subst.
    apply wp_bind, wp_utc_now. intros s2 Hs2 _ _. apply Hstore; [congruence|].
    intros t. cbn. split_and!; [done|done|]. right.
    eexists i, e, _, t. refine (conj _ (conj _ (conj _ eq_refl))); [|done|done].
    unfold lookup_identity. rewrite Hi. cbn. by rewrite He.
  - apply Hstore; [done|]. intros t. cbn. split_and!; [done|done|]. left.
    split; [done|]. exists c, t. by destruct v.
Qed.

Lemma refine_finalize jid cl s :
  wp (finalize_scheduler_cancel_identities jid cl) s
     (fun _ s' => effect (OpFinalize jid cl) (files s) (files s')).
Proof.
  unfold finalize_scheduler_cancel_identities. apply wp_bind, wp_lift.
  destruct (require_durable_record_id (JStr jid) "job_id") as [j|e] eqn:Hj; [|apply eff_none].
  apply require_id_ok in Hj as [-> _].
  apply wp_bind, wp_require; [|intros; apply eff_none]. intros r Hr Hv Hjid Hcl.
  apply wp_bind, wp_ensure; [|intros; apply eff_none]. intros Hne. bool_prop.
  apply wp_bind, wp_utc_now. intros s1 Hs1 _ _.
  eapply (wp_persist (OpFinalize jid cl) r _ _ (files s)); [done|done|done| |done|done].
  cbn. eauto.
Qed.

Lemma refine_complete_scan jid cl sup s :
  wp (complete_scheduler_cancel_identity_scan jid cl sup) s
     (fun _ s' => effect (OpCompleteScan jid cl sup) (files s) (files s')).
Proof.
  unfold complete_scheduler_cancel_identity_scan. apply wp_bind, wp_lift.
  destruct (require_durable_record_id (JStr jid) "job_id") as [j|e] eqn:Hj; [|apply eff_none].
  apply require_id_ok in Hj as [-> _].
  apply wp_bind, wp_require; [|intros; apply eff_none]. intros r Hr Hv Hjid Hcl.
  destruct (_ && _) eqn:Hcond; [apply wp_ret; unchanged|].
  apply wp_bind, wp_utc_now. intros s1 Hs1 _ _.
  eapply (wp_persist (OpCompleteScan jid cl sup) r _ _ (files s)); [done|done|done| |done|done].
  cbn. rewrite Hjid, Hcl. split_and!; [done|done| |eauto].
  intros ->. cbn in Hcond. rewrite andb_true_r in Hcond. by bool_prop.
Qed.

(** The shared opening of the four claim operations. *)
Lemma wp_claim_prefix {A : Type} o jid cl now s k :
  (forall r t s', files s' = files s -> observed now t ->
     files s !! pending_path r = Some (DCancel r) -> valid_pending r = true ->
     pending_job_id r = jid -> pending_cluster r = cl -> files s !! done_path r = None ->
     wp (k t r) s' (fun _ s2 => effect o (files s) (files s2))) ->
  wp (t ← now_or_utc_now now;
      opened ← open_pending jid cl;
      match opened with None => mret (None : option A) | Some r => k t r end) s
     (fun _ s2 => effect o (files s) (files s2)).
Proof.
  intros Hk. apply wp_bind, wp_now. intros t s1 Ht Hs1.
  apply wp_bind, (wp_open_pending o).
  - intros r Hr Hv Hj Hc Hd. rewrite Hs1 in *. by apply Hk.
  - intros s2 Heff. apply wp_ret. by rewrite Hs1 in Heff.
  - intros e. unchanged.
Qed.

Lemma refine_claim_attempt jid cl sid prov lease now s :
  wp (claim_scheduler_cancel_attempt jid cl sid prov lease now) s
     (fun _ s' => effect (OpClaimAttempt jid cl sid prov lease now) (files s) (files s')).
Proof.
  unfold claim_scheduler_cancel_attempt. apply wp_bind, wp_lift.
  destruct (require_durable_record_id (JStr jid) "job_id") as [j|e] eqn:Hj; [|apply eff_none].
  apply require_id_ok in Hj as [-> _].
  apply wp_bind, wp_ensure; [intros _|intros; apply eff_none].
  apply wp_bind, wp_ensure; [intros _|intros; apply eff_none].
  apply (wp_claim_prefix _ jid cl now s (fun t r => _)).
  intros r t s1 Hs1 Ht Hr Hv Hjid Hcl Hd.
  destruct (bool_decide (identity_resolution r = res_resolved)) eqn:Hres; cbn [negb]; [|apply wp_ret; unchanged].
  destruct (lookup_identity sid (dispositions r)) as [[i d]|] eqn:Hi; [|apply wp_raise; unchanged].
  destruct (retryable (state d)) eqn:Hret; cbn [negb]; [|apply wp_ret; unchanged].
  destruct (next_attempt_due d t) eqn:Hdue; cbn [negb]; [|apply wp_ret; unchanged].
  destruct (claim_live _ _ t) eqn:Hlive; [apply wp_ret; unchanged|].
  apply wp_bind, wp_ensure; [intros _|intros; unchanged].
  apply wp_bind, wp_uuid. intros s2 Hs2 _. apply wp_bind, wp_lift.
  match goal with |- context [validate_durable_record_id ?x] =>
    destruct (validate_durable_record_id x) as [cid|e] end; [|unchanged].
  apply wp_bind.
  eapply (wp_persist (OpClaimAttempt jid cl sid prov lease now) r _ _ (files s));
    [congruence|done|done| |done|by intros [x|e] s' Heff].
  bool_prop. cbn. split_and!; [done|done|done|].
  eexists i, d, _, t. refine (conj Hi (conj _ (conj _ eq_refl))).
  - exists cid, t. by cbn.
  - cbn. by apply lookup_identity_Some in Hi as [_ ->].
Qed.

Lemma refine_claim_confirmation jid cl sid prov lease now s :
  wp (claim_scheduler_cancel_confirmation jid cl sid prov lease now) s
     (fun _ s' => effect (OpClaimConfirmation jid cl sid prov lease now) (files s) (files s')).
Proof.
  unfold claim_scheduler_cancel_confirmation. apply wp_bind, wp_lift.
  destruct (require_durable_record_id (JStr jid) "job_id") as [j|e] eqn:Hj; [|apply eff_none].
  apply require_id_ok in Hj as [-> _].
  apply wp_bind, wp_ensure; [intros _|intros; apply eff_none].
  apply wp_bind, wp_ensure; [intros _|intros; apply eff_none].
  apply (wp_claim_prefix _ jid cl now s (fun t r => _)).
  intros r t s1 Hs1 Ht Hr Hv Hjid Hcl Hd.
  destruct (bool_decide (identity_resolution r = res_resolved)) eqn:Hres; cbn [negb]; [|apply wp_ret; unchanged].
  destruct (lookup_identity sid (dispositions r)) as [[i d]|] eqn:Hi; [|apply wp_raise; unchanged].
  destruct (bool_decide (state d = Disposition.CANCEL_REQUESTED)) eqn:Hst; cbn [negb]; [|apply wp_ret; unchanged].
  destruct (next_attempt_due d t) eqn:Hdue; cbn [negb]; [|apply wp_ret; unchanged].
  destruct (claim_live _ _ t) eqn:Hlive; [apply wp_ret; unchanged|].
  apply wp_bind, wp_ensure; [intros _|intros; unchanged].
  apply wp_bind, wp_uuid. intros s2 Hs2 _. apply wp_bind, wp_lift.
  match goal with |- context [validate_durable_record_id ?x] =>
    destruct (validate_durable_record_id x) as [cid|e] end; [|unchanged].
  apply wp_bind.
  eapply (wp_persist (OpClaimConfirmation jid cl sid prov lease now) r _ _ (files s));
    [congruence|done|done| |done|by intros [x|e] s' Heff].
  bool_prop. cbn. split_and!; [done|done|done|].
  eexists i, d, _, t. refine (conj Hi (conj _ (conj _ eq_refl))).
  - exists cid, t. by cbn.
  - cbn. by apply lookup_identity_Some in Hi as [_ ->].
Qed.

Lemma refine_record_attempt jid cl sid prov cid acc err mx delay now s :
  wp (record_scheduler_cancel_attempt jid cl sid prov cid acc err mx delay now) s
     (fun _ s' => effect (OpRecordAttempt jid cl sid prov cid acc err mx delay now)
                         (files s) (files s')).
Proof.
  unfold record_scheduler_cancel_attempt. apply wp_bind, wp_lift.
  destruct (require_durable_record_id (JStr jid) "job_id") as [j|e] eqn:Hj; [|apply eff_none].
  apply require_id_ok in Hj as [-> _]. apply wp_bind, wp_lift.
  destruct (validate_durable_record_id (JStr cid)) as [cid'|e] eqn:Hcid; [|apply eff_none].
  apply validate_str_ok in Hcid as ->.
  apply (wp_claim_prefix _ jid cl now s (fun t r => _)).
  intros r t s1 Hs1 Ht Hr Hv Hjid Hcl Hd.
  destruct (lookup_identity sid (dispositions r)) as [[i d]|] eqn:Hi; [|apply wp_raise; unchanged].
  destruct (bool_decide (attempt_claim_id d = Some cid)) eqn:Hc; cbn [negb]; [|apply wp_ret; unchanged].
  apply wp_bind, wp_ensure; [intros _|intros; unchanged].
  apply wp_bind, wp_ensure; [intros Hval|intros; unchanged]. apply wp_bind.
  eapply (wp_persist (OpRecordAttempt jid cl sid prov cid acc err mx delay now) r _ _ (files s));
    [congruence|done|done| |done|by intros [x|e] s' Heff].
  bool_prop. cbn. split_and!; [done|done|].
  eexists i, d, _, t. refine (conj Hi (conj _ (conj _ eq_refl))); [by exists t|].
  rewrite attempt_outcome_sid. by apply lookup_identity_Some in Hi as [_ ->].
Qed.

Lemma refine_record_observation jid cl sid prov cid ph nf err mx delay now s :
  wp (record_scheduler_cancel_observation jid cl sid prov cid ph nf err mx delay now) s
     (fun _ s' => effect (OpRecordObservation jid cl sid prov cid ph nf err mx delay now)
                         (files s) (files s')).
Proof.
  unfold record_scheduler_cancel_observation. apply wp_bind, wp_lift.
  destruct (require_durable_record_id (JStr jid) "job_id") as [j|e] eqn:Hj; [|apply eff_none].
  apply require_id_ok in Hj as [-> _]. apply wp_bind, wp_lift.
  destruct (validate_durable_record_id (JStr cid)) as [cid'|e] eqn:Hcid; [|apply eff_none].
  apply validate_str_ok in Hcid as ->.
  apply (wp_claim_prefix _ jid cl now s (fun t r => _)).
  intros r t s1 Hs1 Ht Hr Hv Hjid Hcl Hd.
  destruct (lookup_identity sid (dispositions r)) as [[i d]|] eqn:Hi; [|apply wp_raise; unchanged].
  destruct (bool_decide (confirmation_claim_id d = Some cid)) eqn:Hc; cbn [negb]; [|apply wp_ret; unchanged].
  apply wp_bind, wp_ensure; [intros _|intros; unchanged].
  apply wp_bind, wp_ensure; [intros Hval|intros; unchanged]. apply wp_bind.
  eapply (wp_persist (OpRecordObservation jid cl sid prov cid ph nf err mx delay now) r _ _ (files s));
    [congruence|done|done| |done|by intros [x|e] s' Heff].
  bool_prop. cbn. split_and!; [done|done|].
  eexists i, d, _, t. refine (conj Hi (conj _ (conj _ eq_refl))); [by exists t|].
  rewrite observation_outcome_sid. by apply lookup_identity_Some in Hi as [_ ->].
Qed.

Lemma files_migration s : files (require_index_migration_complete s).2 = files s.
Proof.
  unfold require_index_migration_complete, mbind, M_bind. pose proof (files_read_doc ["migrations"; "index-v1.json"] s) as Hr.
  destruct (read_doc _ s) as [[d|e] s1]; cbn in *; [|done].
  rewrite <- Hr. repeat case_match; simplify_eq; try done; unfold ensure, lift, raise_unless in *;
    repeat case_match; simplify_eq; done.
Qed.

Lemma files_read_job jid s : files (read_required_job jid s).2 = files s.
Proof.
  apply (triple_read_job (fun m => m = files s) jid s eq_refl).
Qed.

Lemma refine_ensure jid why s :
  wp (ensure_scheduler_cancel_pending jid why) s
     (fun _ s' => effect (OpEnsure jid why) (files s) (files s')).
Proof.
  unfold ensure_scheduler_cancel_pending. apply wp_bind, wp_lift.
  destruct (require_durable_record_id (JStr jid) "job_id") as [j|e]; [|apply eff_none].
  apply wp_bind, wp_readonly; [apply files_migration|]. intros [[]|e] s1 Hs1; [|unchanged].
  apply wp_bind, wp_readonly; [apply files_read_job|]. intros [jb|e] s2 Hs2; [|unchanged].
  apply wp_bind, wp_utc_now. intros s3 Hs3 _ _. rewrite <- Hs1, <- Hs2, <- Hs3. clear.
  unfold _ensure_scheduler_cancel_pending_unlocked.
  apply wp_bind, wp_read_cancel; [intros Hp|intros r _ _|intros; apply eff_none].
  2:{ apply wp_bind, wp_ensure; intros; [apply wp_ret|]; apply eff_none. }
  apply wp_bind, wp_read_cancel; [intros Hd|intros r _ _|intros; apply eff_none].
  2:{ apply wp_bind, wp_ensure; intros; [apply wp_ret|]; apply eff_none. }
  apply wp_bind, wp_readonly; [done|]. intros [es|e] s4 Hs4; [|unchanged].
  apply wp_bind, wp_lift. destruct (count_pending_entries es 0) as [[]|e]; [|unchanged].
  apply wp_bind, wp_utc_now. intros s5 Hs5 _ _.
  apply wp_bind, wp_ensure; [intros Hv|intros; unchanged].
  set (r := mkPending _ _ _ _ _ _ _) in *.
  apply wp_bind, wp_write; [|intros; unchanged]. intros s6 Hs6. apply wp_ret.
  rewrite Hs6, Hs5, Hs4. by apply (eff_request _ _ r).
Qed.

Lemma refine_drop_completed o rs s :
  wp (drop_completed rs) s (fun _ s' => rtc (effect o) (files s) (files s')).
Proof.
  revert s. induction rs as [|r rs IH]; intros s; cbn; [by apply wp_ret|].
  apply wp_bind, wp_read_cancel; [intros Hd|intros c Hd Hv|intros; done].
  - apply wp_bind. eapply wp_mono; [apply IH|]. by intros [l|e] s' Hs'.
  - apply wp_bind, wp_ensure; [intros Hc|intros; done].
    apply wp_bind, wp_unlink; [|intros; done]. intros s1 Hs1.
    eapply wp_mono; [apply IH|]. intros res s' Hs'. cbn.
    eapply rtc_l; [|exact Hs']. rewrite Hs1. by eapply eff_finish_move.
Qed.

Lemma refine_scan_due cl limit now s :
  wp (scan_due_scheduler_cancellations cl limit now) s
     (fun _ s' => rtc (effect (OpScanDue cl limit now)) (files s) (files s')).
Proof.
  unfold scan_due_scheduler_cancellations. case_match; [by apply wp_raise|].
  apply wp_bind, wp_readonly; [apply files_migration|]. intros [[]|e] s1 Hs1; [|by rewrite Hs1].
  apply wp_bind, wp_readonly.
  { intros s'. unfold scan_many_cancel. by rewrite scan_many_state. }
  intros [sc|e] s2 Hs2; [|by rewrite Hs2, Hs1].
  apply wp_bind. eapply wp_mono; [apply refine_drop_completed|].
  intros [l|e] s3 Hs3; [|by rewrite <- Hs1, <- Hs2].
  apply wp_bind, wp_now. intros t s4 _ Hs4. apply wp_ret. rewrite Hs4. by rewrite <- Hs1, <- Hs2.
Qed.

(** What an operation does to the durable files is a sequence of effects. *)
Lemma run_op_effects o b s :
  rtc (effect o) (files s) (files (run_op o (set_budget b s)).2).
Proof.
  change (files s) with (files (set_budget b s)). generalize (set_budget b s). clear s. intros s.
  enough (wp (run_op o) s (fun _ s' => rtc (effect o) (files s) (files s'))) by done.
  destruct o; cbn [run_op]; apply wp_discard.
  5: apply refine_scan_due.
  all: eapply wp_mono; [|intros ? ? Heff; apply rtc_once; exact Heff].
  - apply refine_ensure.
  - apply refine_register.
  - apply refine_finalize.
  - apply refine_complete_scan.
  - apply refine_claim_attempt.
  - apply refine_record_attempt.
  - apply refine_claim_confirmation.
  - apply refine_record_observation.
Qed.

(** C5: refinement.  Whatever an operation does to the durable files, also when
    it raises or its process stops between two durable steps, is a sequence of
    the abstract effects: nothing, finishing an interrupted move, recording a
    new request, one guarded rewrite of one pending record, or the move of a
    finished record to terminal evidence with the old file possibly left. *)
Theorem cancel_refines o b s :
  rtc (effect o) (files s) (files (run_op o (set_budget b s)).2).
Proof. apply run_op_effects. Qed.
End refinement.
