(* ===== verification/SchedulerCancelClaims.v ===== *)
(** * Claims on scheduler cancellation work are exclusive, bounded and stable

    The theorems of this file are proved on the abstract effects of
    [SchedulerCancelProofs]: a granted claim excludes every other worker until
    its lease runs out or its holder reports, terminal evidence is never
    revoked, and the number of attempts is bounded. *)

From S2P Require Import Prelude Sha256 Json Identifiers Models Store SchedulerCancel.
From S2P Require Import SchedulerCancelProofs.
From stdpp Require Import base list gmap strings.
From Stdlib Require Import ZArith QArith Lia.
From Stdlib Require Ascii String.
Close Scope Q_scope.
Import Records.

(** ** Lookup of an identity in a rewritten list *)
Lemma find_index_app_Some {A} (p : A -> bool) l k i :
  find_index p l = Some i -> find_index p (l ++ k) = Some i.
Proof.
  revert i. induction l as [|x l IH]; intros i; cbn; [done|].
  destruct (p x); [done|]. destruct (find_index p l) as [j|]; cbn; [|done].
  intros [= <-]. by rewrite (IH j eq_refl).
Qed.

Lemma find_index_insert_ne {A} (p : A -> bool) l i j x :
  find_index p l = Some i -> j <> i -> p x = false -> find_index p (<[j := x]> l) = Some i.
Proof.
  revert i j. induction l as [|y l IH]; intros i j; cbn; [done|].
  destruct (p y) eqn:Hy.
  - intros [= <-] Hj Hx. destruct j as [|j]; [done|]. cbn. by rewrite Hy.
  - destruct (find_index p l) as [k|] eqn:Hk; cbn; [|done]. intros [= <-] Hj Hx.
    destruct j as [|j]; [cbn; by rewrite Hx, Hk|].
    change (<[S j := x]> (y :: l)) with (y :: <[j := x]> l). cbn. rewrite Hy.
    rewrite (IH k j eq_refl); [done|congruence|done].
Qed.

Lemma lookup_identity_app sid ds k i d :
  lookup_identity sid ds = Some (i, d) -> lookup_identity sid (ds ++ k) = Some (i, d).
Proof.
  intros Hl. destruct (lookup_identity_Some _ _ _ _ Hl) as [Hi _].
  unfold lookup_identity, find_identity in *.
  destruct (find_index _ ds) as [j|] eqn:Hj; [|done]. rewrite (find_index_app_Some _ _ k _ Hj).
  cbn in *. destruct (ds !! j) as [d'|] eqn:Hd; [|done]. by rewrite (lookup_app_l_Some _ _ _ _ Hd).
Qed.

Lemma lookup_identity_insert sid ds i d d' :
  lookup_identity sid ds = Some (i, d) -> scheduler_job_id d' = sid ->
  lookup_identity sid (<[i := d']> ds) = Some (i, d').
Proof.
  intros Hl Hs. destruct (lookup_identity_Some _ _ _ _ Hl) as [Hi _].
  unfold lookup_identity, find_identity in *.
  destruct (find_index _ ds) as [k|] eqn:Hk; cbn in Hl; [|done].
  destruct (ds !! k); cbn in Hl; [|done]. injection Hl as -> ->.
  rewrite (find_index_insert _ _ _ _ Hk) by (by rewrite bool_decide_eq_true). cbn.
  rewrite list_lookup_insert_eq by (by eapply lookup_lt_Some). done.
Qed.

Lemma lookup_identity_insert_ne sid sid' ds i d j d1 d' :
  lookup_identity sid ds = Some (i, d) -> lookup_identity sid' ds = Some (j, d1) ->
  scheduler_job_id d' = sid' -> sid' <> sid ->
  lookup_identity sid (<[j := d']> ds) = Some (i, d).
Proof.
  intros Hl Hl' Hd' Hne.
  destruct (lookup_identity_Some _ _ _ _ Hl) as [Hi Hs].
  destruct (lookup_identity_Some _ _ _ _ Hl') as [Hj Hs'].
  assert (Hij : j <> i) by congruence.
  unfold lookup_identity, find_identity in *.
  destruct (find_index (fun d => bool_decide (scheduler_job_id d = sid)) ds) as [k|] eqn:Hk; [|done].
  cbn in Hl. destruct (ds !! k) as [dk|] eqn:Hdk; [|done]. injection Hl as -> ->.
  erewrite find_index_insert_ne; [|exact Hk|done|by apply bool_decide_eq_false; congruence].
  cbn. rewrite list_lookup_insert_ne by done. by rewrite Hdk.
Qed.

Section exclusive.
Context `{World} `{ErrorDetail}.

(** The claim [cid] on one identity is in force until [e]. *)
Definition claim_held (jid cl sid cid : string) (e : Z) (m : gmap path doc) : Prop :=
  exists r i d, pending_job_id r = jid /\ pending_cluster r = cl /\
    m !! pending_path r = Some (DCancel r) /\
    lookup_identity sid (dispositions r) = Some (i, d) /\
    retryable (state d) = true /\ attempt_claim_id d = Some cid /\
    attempt_claim_expires_at d = Some e.

Definition evidence (jid cl : string) (m : gmap path doc) : Prop :=
  exists c, m !! _scheduler_cancel_record_path fam_done cl jid = Some (DCancel c).

(** Operations other than the claim holder's own report, made before [e]. *)
Definition respects (jid cl sid cid : string) (e : Z) (o : cancel_op) : Prop :=
  match o with
  | OpRecordAttempt jid' cl' sid' _ cid' _ _ _ _ _ =>
      ~ (jid' = jid /\ cl' = cl /\ sid' = sid /\ cid' = cid)
  | OpClaimAttempt _ _ _ _ _ (Some t) => (t < e)%Z
  | OpClaimAttempt _ _ _ _ _ None => forall k, (clock k < e)%Z
  | _ => True
  end.

Lemma path_family fam fam' cl cl' jid jid' :
  _scheduler_cancel_record_path fam cl jid = _scheduler_cancel_record_path fam' cl' jid' ->
  fam = fam'.
Proof. by intros [= ->]. Qed.

Lemma path_swap fam fam' cl cl' jid jid' :
  _scheduler_cancel_record_path fam cl jid = _scheduler_cancel_record_path fam cl' jid' ->
  _scheduler_cancel_record_path fam' cl jid = _scheduler_cancel_record_path fam' cl' jid'.
Proof. unfold _scheduler_cancel_record_path. congruence. Qed.

(** Rewriting the record under a held claim keeps the claim. *)
Lemma update_keeps_claim o jid cl sid cid e r r' i d :
  respects jid cl sid cid e o -> update o r r' -> valid_pending r = true -> complete r' = false ->
  pending_job_id r = jid -> pending_cluster r = cl ->
  lookup_identity sid (dispositions r) = Some (i, d) ->
  retryable (state d) = true -> attempt_claim_id d = Some cid ->
  attempt_claim_expires_at d = Some e ->
  exists i' d', lookup_identity sid (dispositions r') = Some (i', d') /\
    retryable (state d') = true /\ attempt_claim_id d' = Some cid /\
    attempt_claim_expires_at d' = Some e.
Proof.
  intros Hresp Hu Hv Hc Hj Hcl Hl Hret Hid Hexp.
  assert (Hvd : valid_disposition d = true).
  { destruct (lookup_identity_Some _ _ _ _ Hl) as [Hi _]. by eapply valid_pending_lookup. }
  assert (Hrw : forall P sid', rewrites sid' r r' P -> (sid' = sid -> forall d', ~ P d d') ->
    exists i' d', lookup_identity sid (dispositions r') = Some (i', d') /\
      retryable (state d') = true /\ attempt_claim_id d' = Some cid /\
      attempt_claim_expires_at d' = Some e).
  { intros P sid' (j&d1&d'&t&Hl'&HP&Hsid'&->) Hno. cbn.
    destruct (decide (sid' = sid)) as [->|Hne].
    - rewrite Hl in Hl'. injection Hl' as <- <-. by destruct (Hno eq_refl d').
    - exists i, d. split; [|done]. by eapply lookup_identity_insert_ne. }
  destruct o; cbn in Hu; try done.
  - destruct Hu as (_&_&[(Hnone&x&t&_&_&_&->)|Hr]).
    + exists i, d. split; [|done]. by apply lookup_identity_app.
    + eapply Hrw; [exact Hr|]. intros _ d' (_&Hs&_). by rewrite Hs in Hret.
  - destruct Hu as (_&_&_&t&->). by exists i, d.
  - destruct Hu as (_&_&_&t&->). by destruct superseded.
  - destruct Hu as (_&_&_&Hr). eapply Hrw; [exact Hr|].
    intros _ d' (c'&t&Hobs&_&_&Hlive&_). rewrite Hid, Hexp in Hlive. cbn in Hlive. bool_prop.
    destruct now as [n|]; cbn in Hobs, Hresp; [subst; lia|].
    destruct Hobs as [k ->]. specialize (Hresp k). lia.
  - destruct Hu as (Hj'&Hcl'&Hr). eapply Hrw; [exact Hr|].
    intros -> d' (t&_&Hid'&_). apply Hresp. split_and!; congruence.
  - destruct Hu as (_&_&_&Hr). eapply Hrw; [exact Hr|].
    intros _ d' (c'&t&_&Hs&_). by rewrite Hs in Hret.
  - destruct Hu as (_&_&Hr). eapply Hrw; [exact Hr|].
    intros _ d' (t&_&Hid'&_). apply valid_fields in Hvd as (_&_&_&_&_&_&_&_&Hcc).
    destruct (retryable_no_confirmation d Hcc) as [Hn _]; [|congruence].
    intros Hs. by rewrite Hs in Hret.
Qed.

(** No effect of another operation revokes a claim in force, except by leaving
    terminal evidence; and evidence stays. *)
Lemma effect_keeps_claim o jid cl sid cid e m m' :
  respects jid cl sid cid e o -> effect o m m' ->
  claim_held jid cl sid cid e m \/ evidence jid cl m ->
  claim_held jid cl sid cid e m' \/ evidence jid cl m'.
Proof.
  intros Hresp Heff Hblk. unfold claim_held, evidence in *.
  destruct Heff as [|cl' jid' c Hd Hc|r1 Hp Hd _ _ _|r1 r1' Hp Hv Hu _ Hc|r1 r1' crashed Hp Hv Hu _ Hc].
  - done.
  - destruct Hblk as [(r&i&d&Hj&Hcl&Hr&Hl)|[x Hx]].
    + destruct (decide (_scheduler_cancel_record_path fam_pending cl' jid' = pending_path r)) as [Heq|Hne].
      * right. exists c. rewrite lookup_delete_ne by (by intros ?%path_family).
        rewrite <- Hd. f_equal. unfold pending_path in Heq. subst. symmetry. by eapply path_swap.
      * left. exists r, i, d. by rewrite lookup_delete_ne.
    + right. exists x. by rewrite lookup_delete_ne by (by intros ?%path_family).
  - destruct Hblk as [(r&i&d&Hj&Hcl&Hr&Hl)|[x Hx]].
    + left. exists r, i, d. rewrite lookup_insert_ne; [done|]. intros Heq. congruence.
    + right. exists x. by rewrite lookup_insert_ne by (by intros ?%path_family).
  - destruct Hblk as [(r&i&d&Hj&Hcl&Hr&Hl&Hret&Hid&Hexp)|[x Hx]].
    + left. destruct (decide (pending_path r1 = pending_path r)) as [Heq|Hne].
      * rewrite Heq, Hr in Hp. injection Hp as <-.
        destruct (update_keeps_claim _ _ _ _ _ _ _ _ _ _ Hresp Hu Hv Hc Hj Hcl Hl Hret Hid Hexp)
          as (i'&d'&Hl').
        destruct (update_ids _ _ _ Hu) as [Hpp _].
        assert (Hids : pending_job_id r1' = jid /\ pending_cluster r1' = cl).
        { clear -Hu Hj Hcl. destruct o; cbn in Hu; unfold rewrites in Hu; try done;
            deex; destruct_or?; deex; subst; done. }
        exists r1', i', d'. rewrite Hpp, lookup_insert_eq. naive_solver.
      * exists r, i, d. by rewrite lookup_insert_ne.
    + right. exists x. by rewrite lookup_insert_ne by (by intros ?%path_family).
  - destruct (decide (done_path r1 = _scheduler_cancel_record_path fam_done cl jid)) as [Heq|Hne].
    + right. exists r1'. destruct crashed; rewrite ?lookup_delete_ne by (by intros ?%path_family);
        rewrite <- Heq; by rewrite lookup_insert_eq.
    + destruct Hblk as [(r&i&d&Hj&Hcl&Hr&Hl)|[x Hx]].
      * left. exists r, i, d. assert (Hpp : pending_path r1 <> pending_path r).
        { intros Heq. apply Hne. subst. unfold done_path. by eapply path_swap. }
        destruct crashed; rewrite ?lookup_delete_ne by done;
          by rewrite lookup_insert_ne by (by intros ?%path_family).
      * right. exists x. destruct crashed; rewrite ?lookup_delete_ne by (by intros ?%path_family);
          by rewrite lookup_insert_ne.
Qed.

(** A granted claim is in force in the state it leaves. *)
Lemma claim_granted_held jid cl sid prov lease now s :
  wp (claim_scheduler_cancel_attempt jid cl sid prov lease now) s
     (fun res s' => forall c, res = Ok (Some c) ->
        claim_held jid cl sid (claim_id c) (claim_expires_at c) (files s')).
Proof.
  unfold claim_scheduler_cancel_attempt. apply wp_bind, wp_lift.
  destruct (require_durable_record_id (JStr jid) "job_id") as [j|e] eqn:Hj; [|done].
  apply require_id_ok in Hj as [-> _].
  do 2 (apply wp_bind, wp_ensure; [intros _|done]).
  apply wp_bind, wp_now. intros t s1 _ _.
  apply wp_bind, (wp_open_pending (OpFinalize jid cl)); [|by intros|done].
  intros r Hr Hv Hjid Hcl Hd.
  destruct (bool_decide (identity_resolution r = res_resolved)) eqn:Hres; cbn [negb]; [|by apply wp_ret].
  destruct (lookup_identity sid (dispositions r)) as [[i d]|] eqn:Hi; [|by apply wp_raise].
  destruct (retryable (state d)) eqn:Hret; cbn [negb]; [|by apply wp_ret].
  destruct (next_attempt_due d t) eqn:Hdue; cbn [negb]; [|by apply wp_ret].
  destruct (claim_live _ _ t) eqn:Hlive; [by apply wp_ret|].
  apply wp_bind, wp_ensure; [intros _|done].
  apply wp_bind, wp_uuid. intros s2 Hs2 _. apply wp_bind, wp_lift.
  match goal with |- context [validate_durable_record_id ?x] =>
    destruct (validate_durable_record_id x) as [cid|e] end; [|done].
  apply wp_bind. unfold _persist_scheduler_cancel_record_unlocked.
  destruct (lookup_identity_Some _ _ _ _ Hi) as [Hdi Hsid].
  set (d' := mkDisposition _ _ _ _ _ _ _ _ _ _ _ _ _ _).
  set (r' := set_dispositions _ _ _). bool_prop.
  assert (Hlen : i < length (dispositions r)) by (by eapply lookup_lt_Some).
  rewrite (complete_false_retryable r' i d');
    [|by apply list_lookup_insert_eq|by apply retryable_not_final|done]. cbn [negb].
  apply wp_bind, wp_write; [|done]. intros s3 Hs3. apply wp_ret, wp_ret.
  intros c [= <-]. cbn. exists r', i, d'. rewrite Hs3.
  change (pending_path r') with (pending_path r). split_and!; try done.
  - by rewrite lookup_insert_eq.
  - by eapply lookup_identity_insert.
Qed.

(** While a claim is in force, or terminal evidence exists, nobody is granted
    an attempt claim. *)
Lemma claim_excluded jid cl sid cid e prov lease t s :
  claim_held jid cl sid cid e (files s) \/ evidence jid cl (files s) -> (t < e)%Z ->
  wp (claim_scheduler_cancel_attempt jid cl sid prov lease (Some t)) s
     (fun res _ => forall c, res <> Ok (Some c)).
Proof.
  intros Hblk Hlt. unfold claim_scheduler_cancel_attempt. apply wp_bind, wp_lift.
  destruct (require_durable_record_id (JStr jid) "job_id") as [j|x] eqn:Hj; [|done].
  apply require_id_ok in Hj as [-> _].
  do 2 (apply wp_bind, wp_ensure; [intros _|done]).
  apply wp_bind, wp_ret, wp_bind, (wp_open_pending (OpFinalize jid cl)); [|by intros|done].
  intros r Hr Hv Hjid Hcl Hd. destruct Hblk as [(r1&i&d&Hj1&Hcl1&Hr1&Hl&Hret&Hid&Hexp)|[c Hc]].
  - assert (r1 = r) as ->.
    { unfold pending_path in Hr, Hr1. rewrite Hjid, Hcl in Hr. rewrite Hj1, Hcl1 in Hr1. congruence. }
    destruct (bool_decide (identity_resolution r = res_resolved)); cbn [negb]; [|by apply wp_ret].
    rewrite Hl, Hret. cbn [negb]. destruct (next_attempt_due d t); cbn [negb]; [|by apply wp_ret].
    rewrite Hid, Hexp. cbn [claim_live]. rewrite (proj2 (Z.ltb_lt _ _)) by lia. by apply wp_ret.
  - unfold done_path in Hd. rewrite Hjid, Hcl in Hd. congruence.
Qed.

(** C18: once an attempt claim is granted, no claim on the same identity is
    granted to any worker before the lease runs out, whatever other operations
    run (and crash) in between, unless the holder reports with its claim id. *)
Theorem attempt_claim_exclusive jid cl sid prov lease now s c s1 ops s2 prov' lease' t :
  claim_scheduler_cancel_attempt jid cl sid prov lease now s = (Ok (Some c), s1) ->
  Forall (fun ob => respects jid cl sid (claim_id c) (claim_expires_at c) ob.1) ops ->
  s2 = foldl (fun st ob => (run_op ob.1 (set_budget ob.2 st)).2) s1 ops ->
  (t < claim_expires_at c)%Z ->
  forall c', (claim_scheduler_cancel_attempt jid cl sid prov' lease' (Some t) s2).1 <> Ok (Some c').
Proof.
  intros Hgrant Hops -> Hlt.
  assert (Hheld : claim_held jid cl sid (claim_id c) (claim_expires_at c) (files s1) \/
                  evidence jid cl (files s1)).
  { left. pose proof (claim_granted_held jid cl sid prov lease now s) as Hw.
    unfold wp in Hw. rewrite Hgrant in Hw. by apply Hw. }
  clear Hgrant. revert s1 Hheld. induction Hops as [|[o b] ops Hr Hops IH]; intros s1 Hheld.
  - by apply (claim_excluded _ _ _ _ _ _ _ _ _ Hheld Hlt).
  - cbn. apply IH. pose proof (run_op_effects o b s1) as Href.
    clear -Hr Hheld Href. cbn in Hr. induction Href as [|x y z Hxy _ IH]; [done|].
    apply IH. by eapply effect_keeps_claim.
Qed.
End exclusive.
