(* ===== verification/SchedulerCancelLaws.v ===== *)
(** * Laws of durable scheduler cancellation

    Terminal evidence is final; a due disposition is exactly a claimable one;
    a claim holder's report always lands and moves finished work to terminal
    evidence; the due scan returns the due work in order.  The last part states three
    inputs on which work is lost. *)

From S2P Require Import Prelude Sha256 Json Identifiers Models Store SchedulerCancel SchedulerCancelProofs SchedulerCancelClaims.
From stdpp Require Import base list gmap strings.
From Stdlib Require Import ZArith QArith Lia Sorted.
From Stdlib Require Ascii String.
Close Scope Q_scope.
Import Records.

(** ** Terminal evidence is final *)
Section final.
Context `{World} `{ErrorDetail}.

(** The job's cancellation has ended with evidence [c] and no work is left. *)
Definition ended (jid cl : string) (c : SchedulerCancelPending) (m : gmap path doc) : Prop :=
  m !! _scheduler_cancel_record_path fam_done cl jid = Some (DCancel c) /\
  m !! _scheduler_cancel_record_path fam_pending cl jid = None.

Lemma effect_keeps_ended o jid cl c m m' :
  effect o m m' -> ended jid cl c m -> ended jid cl c m'.
Proof.
  intros Heff [Hd Hp]. unfold ended.
  assert (Hpd : forall fam fam' cl' jid',
    _scheduler_cancel_record_path fam cl' jid' <> _scheduler_cancel_record_path fam' cl jid ->
    forall d, <[_scheduler_cancel_record_path fam cl' jid' := d]> m
      !! _scheduler_cancel_record_path fam' cl jid = m !! _scheduler_cancel_record_path fam' cl jid).
  { intros. by apply lookup_insert_ne. }
  destruct Heff as [|cl' jid' c' Hd' Hc|r1 Hp1 Hd1 _ _ _|r1 r1' Hp1 Hv Hu _ Hc|r1 r1' crashed Hp1 Hv Hu _ Hc].
  - done.
  - rewrite lookup_delete_ne by (by intros ?%path_family). split; [done|].
    destruct (decide (_scheduler_cancel_record_path fam_pending cl' jid' =
                      _scheduler_cancel_record_path fam_pending cl jid)) as [->|Hne];
      [apply lookup_delete_eq|by rewrite lookup_delete_ne].
  - unfold pending_path, done_path in *. rewrite !Hpd; [done| |by intros ?%path_family].
    intros Heq. rewrite (path_swap _ fam_done _ _ _ _ Heq) in Hd1. congruence.
  - unfold pending_path in *. rewrite !Hpd; [done| |by intros ?%path_family]. congruence.
  - unfold pending_path, done_path in *.
    assert (Hne : _scheduler_cancel_record_path fam_pending (pending_cluster r1) (pending_job_id r1) <>
                  _scheduler_cancel_record_path fam_pending cl jid) by congruence.
    assert (Hne' : _scheduler_cancel_record_path fam_done (pending_cluster r1) (pending_job_id r1) <>
                   _scheduler_cancel_record_path fam_done cl jid).
    { intros Heq. by apply Hne, (path_swap fam_done). }
    destruct crashed; rewrite ?lookup_delete_ne by (done || by intros ?%path_family);
      rewrite !Hpd; try done; by intros ?%path_family.
Qed.

(** C22: once a job's cancellation has ended, that is, its terminal evidence is written and
    its pending file is gone, every later sequence of operations (each possibly crashing)
    leaves the evidence unchanged and creates no new pending work for it.  While the pending
    file is still there, between the two steps of the move, this does not hold:
    [evidence_replaced_after_interrupted_move]. *)
Theorem evidence_final jid cl c s ops :
  ended jid cl c (files s) ->
  ended jid cl c (files (foldl (fun st ob => (run_op ob.1 (set_budget ob.2 st)).2) s ops)).
Proof.
  revert s. induction ops as [|[o b] ops IH]; intros s Hs; [done|]. cbn. apply IH.
  pose proof (run_op_effects o b s) as Heff. cbn in Heff.
  induction Heff as [|x y z Hxy _ IHr]; [done|]. apply IHr. by eapply effect_keeps_ended.
Qed.
End final.

(** ** Runs that are not interrupted *)
Section total.
Context `{World} `{ErrorDetail}.

Lemma token_length values : String.length (_stable_ref_token values) = 32.
Proof.
  unfold _stable_ref_token. destruct (sha256_hex_shape (str_join nul values)) as [_ Hl].
  apply length_take_str. rewrite Hl. lia.
Qed.

(** A 32-digit directory token is no record family, so the family's own byte
    limit applies. *)
Lemma cancel_path_max_bytes fam cl jid :
  fam = fam_pending \/ fam = fam_done ->
  record_max_bytes (_scheduler_cancel_record_path fam cl jid) = 262144%Z.
Proof.
  intros Hfam. unfold record_max_bytes, record_family, _scheduler_cancel_record_path.
  pose proof (token_length [cl]) as Ht. revert Ht. generalize (_stable_ref_token [cl]) as tok.
  intros tok Ht. cbn [removelast]. rewrite bool_decide_false.
  2:{ rewrite !elem_of_cons, elem_of_nil. intros [<-|[<-|[]]]; [by destruct Hfam|done]. }
  assert (Hk : dict_get tok RECORD_FAMILY_MAX_BYTES = None).
  { apply dict_get_None. intros Hin.
    assert (Hall : Forall (fun k => String.length k <> 32) RECORD_FAMILY_MAX_BYTES.*1).
    { repeat constructor; cbn; lia. }
    rewrite Forall_forall in Hall. by apply (Hall tok). }
  unfold reverse. cbn [rev_append]. cbn [list_find].
  rewrite decide_False by (rewrite Hk; by intros [? ?]).
  by destruct Hfam as [-> | ->].
Qed.

Definition fits (r : SchedulerCancelPending) : Prop :=
  (Z.of_nat (model_size (DCancel r)) <= 262144)%Z.

(** A read whose outcome is known. *)
Lemma read_cancel_run fam cl jid r s :
  fam = fam_pending \/ fam = fam_done ->
  files s !! _scheduler_cancel_record_path fam cl jid = Some (DCancel r) ->
  valid_pending r = true -> fits r ->
  read_optional_cancel (_scheduler_cancel_record_path fam cl jid) s = (Ok (Some r), s).
Proof.
  intros Hfam Hl Hv Hf. unfold read_optional_cancel, mbind, M_bind, read_doc.
  rewrite Hl, cancel_path_max_bytes by done.
  rewrite (proj2 (Z.ltb_ge _ _)) by exact Hf. by rewrite Hv.
Qed.

Lemma read_cancel_absent p s :
  files s !! p = None -> read_optional_cancel p s = (Ok None, s).
Proof.
  intros Hl. unfold read_optional_cancel, mbind, M_bind, read_doc. by rewrite Hl.
Qed.

Lemma open_pending_run r s :
  files s !! pending_path r = Some (DCancel r) -> files s !! done_path r = None ->
  valid_pending r = true -> fits r ->
  open_pending (pending_job_id r) (pending_cluster r) s = (Ok (Some r), s).
Proof.
  intros Hp Hd Hv Hf. unfold open_pending, mbind, M_bind at 1. rewrite read_cancel_absent by done.
  unfold _require_scheduler_cancel_pending_unlocked, mbind, M_bind.
  rewrite (read_cancel_run _ _ _ r) by auto. unfold ensure, names_record.
  by rewrite !bool_decide_true by done.
Qed.

(** What the persisted record leaves on disk. *)
Definition persisted_files (r' : SchedulerCancelPending) (m : gmap path doc) : gmap path doc :=
  if complete r' then delete (pending_path r') (<[done_path r' := DCancel r']> m)
  else <[pending_path r' := DCancel r']> m.

Lemma persist_run r' s :
  budget s = None -> fits r' ->
  _persist_scheduler_cancel_record_unlocked r' s = (Ok r', set_files (persisted_files r' (files s)) s).
Proof.
  intros Hb Hf. unfold _persist_scheduler_cancel_record_unlocked, persisted_files.
  assert (Hw : forall fam s', fam = fam_pending \/ fam = fam_done -> budget s' = None ->
    write_doc (_scheduler_cancel_record_path fam (pending_cluster r') (pending_job_id r')) (DCancel r') s' =
    (Ok tt, set_files (<[_scheduler_cancel_record_path fam (pending_cluster r') (pending_job_id r') :=
                          DCancel r']> (files s')) s')).
  { intros fam s' Hfam Hb'. unfold write_doc. rewrite cancel_path_max_bytes by done.
    rewrite (proj2 (Z.ltb_ge _ _)) by exact Hf. unfold durable. by rewrite Hb'. }
  destruct (complete r'); cbn [negb]; unfold mbind, M_bind; rewrite Hw by auto; [|done].
  unfold unlink_durable_path, durable. cbn. by rewrite Hb.
Qed.

(** *** The state in which the claim operations meet one registered identity *)
Record claimable_state (jid cl sid prov : string) (r : SchedulerCancelPending) (i : nat)
    (d : SchedulerCancelDisposition) (s : disk) : Prop := {
  cs_job : pending_job_id r = jid;
  cs_cluster : pending_cluster r = cl;
  cs_pending : files s !! pending_path r = Some (DCancel r);
  cs_no_evidence : files s !! done_path r = None;
  cs_valid : valid_pending r = true;
  cs_identity : lookup_identity sid (dispositions r) = Some (i, d);
  cs_provider : provider_matches d prov = true;
  cs_uninterrupted : budget s = None;
  cs_fits : fits r;
}.

Section one_identity.
Context (jid cl sid prov : string) (r : SchedulerCancelPending) (i : nat)
        (d : SchedulerCancelDisposition).

Lemma claimable_id_ok s :
  claimable_state jid cl sid prov r i d s ->
  require_durable_record_id (JStr jid) "job_id" = Ok jid.
Proof.
  intros []. subst jid. unfold valid_pending in cs_valid0. bool_prop.
  by apply require_id_valid.
Qed.

Lemma claimable_open s :
  claimable_state jid cl sid prov r i d s -> open_pending jid cl s = (Ok (Some r), s).
Proof.
  intros []. subst. by apply open_pending_run.
Qed.

Lemma uuid_claim_id_ok c pre n :
  id_first c = true -> str_forall id_rest pre = true -> String.length pre <= 95 ->
  validate_durable_record_id (JStr (String c pre +:+ uuid4_at n)) = Ok (String c pre +:+ uuid4_at n).
Proof.
  intros. destruct (uuid4_shape n) as [Hh Hl]. apply prefixed_hex_valid; try done; rewrite Hl; lia.
Qed.

(** The record that a granted claim writes. *)
Definition claimed_by (cid : string) (t e : Z) (x : SchedulerCancelDisposition) :=
  mkDisposition (scheduler_job_id x) (Some prov) (state x) (attempts x) (confirmation_attempts x)
    (next_attempt_at x) (last_error x) (Some cid) (Some t) (Some e) (confirmation_claim_id x)
    (confirmation_claimed_at x) (confirmation_claim_expires_at x) t.
Definition confirmed_by (cid : string) (t e : Z) (x : SchedulerCancelDisposition) :=
  mkDisposition (scheduler_job_id x) (Some prov) (state x) (attempts x) (confirmation_attempts x)
    (next_attempt_at x) (last_error x) (attempt_claim_id x) (attempt_claimed_at x) (attempt_claim_expires_at x)
    (Some cid) (Some t) (Some e) t.
Definition rewritten (x : SchedulerCancelDisposition) (t : Z) : SchedulerCancelPending :=
  set_dispositions (<[i := x]> (dispositions r)) t r.
Definition attempt_claimed (lease : Q) (t : Z) (s : disk) : SchedulerCancelPending :=
  rewritten (claimed_by ("cancelclaim_" +:+ uuid4_at (draws s)) t (t + timedelta_us lease) d) t.
Definition confirmation_claimed (lease : Q) (t : Z) (s : disk) : SchedulerCancelPending :=
  rewritten (confirmed_by ("confirmclaim_" +:+ uuid4_at (draws s)) t (t + timedelta_us lease) d) t.

(** When an attempt claim is granted. *)
Lemma claim_attempt_run lease t s :
  claimable_state jid cl sid prov r i d s -> fits (attempt_claimed lease t s) ->
  str_nonempty prov = true -> claim_lease_in_bounds lease = true ->
  identity_resolution r = res_resolved ->
  (exists c, (claim_scheduler_cancel_attempt jid cl sid prov lease (Some t) s).1 = Ok (Some c)) <->
  retryable (state d) = true /\ next_attempt_due d t = true /\
  claim_live (attempt_claim_id d) (attempt_claim_expires_at d) t = false.
Proof.
  intros Hcs Hfit Hp Hlease Hres. unfold claim_scheduler_cancel_attempt, mbind, M_bind, lift.
  rewrite (claimable_id_ok s Hcs), Hp, Hlease, !ensure_true. cbn [now_or_utc_now mret M_ret].
  rewrite (claimable_open s Hcs). rewrite bool_decide_true by done. cbn [negb].
  rewrite (cs_identity _ _ _ _ _ _ _ _ Hcs).
  destruct (retryable (state d)); cbn [negb]; [|split; [by intros [c [=]]|by intros [[=] _]]].
  destruct (next_attempt_due d t); cbn [negb]; [|split; [by intros [c [=]]|by intros (_&[=]&_)]].
  destruct (claim_live _ _ t); cbn [negb]; [split; [by intros [c [=]]|by intros (_&_&[=])]|].
  rewrite (cs_provider _ _ _ _ _ _ _ _ Hcs), ensure_true. cbn [uuid4_hex].
  rewrite (uuid_claim_id_ok _ "ancelclaim_") by (done || cbn; lia).
  rewrite persist_run; [by split; eauto|by apply Hcs|exact Hfit].
Qed.

Lemma claim_attempt_grants lease t s :
  claimable_state jid cl sid prov r i d s -> fits (attempt_claimed lease t s) ->
  str_nonempty prov = true -> claim_lease_in_bounds lease = true ->
  identity_resolution r = res_resolved ->
  retryable (state d) = true -> next_attempt_due d t = true ->
  claim_live (attempt_claim_id d) (attempt_claim_expires_at d) t = false ->
  let cid := "cancelclaim_" +:+ uuid4_at (draws s) in
  let e := (t + timedelta_us lease)%Z in
  let r' := set_dispositions (<[i := claimed_by cid t e d]> (dispositions r)) t r in
  claim_scheduler_cancel_attempt jid cl sid prov lease (Some t) s =
    (Ok (Some (mkClaim cid sid prov (attempts d + 1) t e)),
     mkDisk (persisted_files r' (files s)) (budget s) (ticks s) (S (draws s))).
Proof.
  intros Hcs Hfit Hp Hlease Hres Hret Hdue Hlive cid e r'.
  unfold claim_scheduler_cancel_attempt, mbind, M_bind, lift.
  rewrite (claimable_id_ok s Hcs), Hp, Hlease, !ensure_true. cbn [now_or_utc_now mret M_ret].
  rewrite (claimable_open s Hcs). rewrite bool_decide_true by done. cbn [negb].
  rewrite (cs_identity _ _ _ _ _ _ _ _ Hcs), Hret, Hdue, Hlive. cbn [negb].
  rewrite (cs_provider _ _ _ _ _ _ _ _ Hcs), ensure_true. cbn [uuid4_hex].
  rewrite (uuid_claim_id_ok _ "ancelclaim_") by (done || cbn; lia).
  rewrite persist_run; [done|apply Hcs|exact Hfit].
Qed.

(** When a confirmation claim is granted. *)
Lemma claim_confirmation_run lease t s :
  claimable_state jid cl sid prov r i d s -> fits (confirmation_claimed lease t s) ->
  str_nonempty prov = true -> claim_lease_in_bounds lease = true ->
  identity_resolution r = res_resolved ->
  (exists c, (claim_scheduler_cancel_confirmation jid cl sid prov lease (Some t) s).1 = Ok (Some c)) <->
  state d = Disposition.CANCEL_REQUESTED /\ next_attempt_due d t = true /\
  claim_live (confirmation_claim_id d) (confirmation_claim_expires_at d) t = false.
Proof.
  intros Hcs Hfit Hp Hlease Hres. unfold claim_scheduler_cancel_confirmation, mbind, M_bind, lift.
  rewrite (claimable_id_ok s Hcs), Hp, Hlease, !ensure_true. cbn [now_or_utc_now mret M_ret].
  rewrite (claimable_open s Hcs). rewrite bool_decide_true by done. cbn [negb].
  rewrite (cs_identity _ _ _ _ _ _ _ _ Hcs).
  destruct (bool_decide (state d = _)) eqn:Hst; cbn [negb]; bool_prop;
    [|split; [by intros [c [=]]|by intros [? _]]].
  destruct (next_attempt_due d t); cbn [negb]; [|split; [by intros [c [=]]|by intros (_&[=]&_)]].
  destruct (claim_live _ _ t); cbn [negb]; [split; [by intros [c [=]]|by intros (_&_&[=])]|].
  rewrite (cs_provider _ _ _ _ _ _ _ _ Hcs), ensure_true. cbn [uuid4_hex].
  rewrite (uuid_claim_id_ok _ "onfirmclaim_") by (done || cbn; lia).
  rewrite persist_run; [by split; eauto|by apply Hcs|exact Hfit].
Qed.

(** C31: the due scan's notion of due work is exactly what a worker can claim: for a
    registered identity of a resolved record without terminal evidence, the disposition is
    due at [t] if and only if one of the two claim operations grants a claim at [t].  The
    worker names a provider that the identity does not contradict and a lease within its
    bounds, nothing interrupts the calls, and the record still fits its file with the claim
    written into it. *)
Theorem due_iff_claimable lease t s :
  claimable_state jid cl sid prov r i d s ->
  fits (attempt_claimed lease t s) -> fits (confirmation_claimed lease t s) ->
  str_nonempty prov = true -> claim_lease_in_bounds lease = true ->
  identity_resolution r = res_resolved ->
  scheduler_cancel_disposition_is_due d t = true <->
  (exists c, (claim_scheduler_cancel_attempt jid cl sid prov lease (Some t) s).1 = Ok (Some c)) \/
  (exists c, (claim_scheduler_cancel_confirmation jid cl sid prov lease (Some t) s).1 = Ok (Some c)).
Proof.
  intros Hcs Hfa Hfc Hp Hlease Hres. rewrite claim_attempt_run, claim_confirmation_run by done.
  unfold scheduler_cancel_disposition_is_due.
  destruct (state d), (claim_live (attempt_claim_id d) _ t), (claim_live (confirmation_claim_id d) _ t),
    (next_attempt_due d t); cbn; naive_solver.
Qed.

Lemma claimable_disposition s :
  claimable_state jid cl sid prov r i d s ->
  valid_disposition d = true /\ dispositions r !! i = Some d /\ scheduler_job_id d = sid.
Proof.
  intros Hcs. destruct (lookup_identity_Some _ _ _ _ (cs_identity _ _ _ _ _ _ _ _ Hcs)) as [Hi Hs].
  split_and!; [|done|done]. eapply valid_pending_lookup; [apply Hcs|done].
Qed.

(** A report that carries the claim's id is accepted. *)
Lemma attempt_outcome_valid acc err mx delay t cid :
  valid_disposition d = true -> attempt_claim_id d = Some cid -> str_between 1 128 prov = true ->
  (attempts d < 100)%Z -> opt_forall (fun e => Z.of_nat (String.length e) <? 2 ^ 63)%Z err = true ->
  valid_disposition (attempt_outcome d prov acc err mx delay t) = true.
Proof.
  intros Hv Hc Hp Ha He. apply valid_fields in Hv as (H1&H2&H3&H4&H5&H6&H7&Hac&Hcc).
  assert (Hr : retryable (state d) = true).
  { destruct (retryable (state d)) eqn:Hr; [done|].
    destruct (cancel_requested_no_attempt d Hac Hr); congruence. }
  destruct (retryable_no_confirmation d Hcc) as (Hn1&Hn2&Hn3); [by intros Hs; rewrite Hs in Hr|].
  assert (Herr : opt_forall (str_between 0 16384)
    (Some (or_text (bounded_error_detail err) "scheduler cancellation failed")) = true).
  { cbn [opt_forall]. unfold str_between. cbn [Nat.leb andb]. apply Nat.leb_le.
    transitivity 4096; [|apply Nat.leb_le; by vm_compute].
    etrans; [apply str_len_le|]. unfold or_text. destruct err as [e|]; [|rewrite bounded_error_detail_None; cbn; lia].
    destruct (bounded_error_detail (Some e)) as [x|] eqn:Hx; [|cbn; lia].
    cbn [opt_forall] in He. apply Z.ltb_lt in He. pose proof (bounded_error_detail_size e x He Hx).
    destruct (str_nonempty x); [lia|cbn; lia]. }
  unfold attempt_outcome. rewrite Hn1, Hn2, Hn3. apply valid_fields.
  destruct acc; [|destruct (mx <=? attempts d + 1)%Z]; cbn [attempts confirmation_attempts];
    split_and!; try done; try lia.
Qed.

Lemma record_attempt_run cid acc err mx delay t s :
  claimable_state jid cl sid prov r i d s -> fits (rewritten (attempt_outcome d prov acc err mx delay t) t) ->
  attempt_claim_id d = Some cid -> (attempts d < 100)%Z -> str_between 1 128 prov = true ->
  opt_forall (fun e => Z.of_nat (String.length e) <? 2 ^ 63)%Z err = true ->
  let r' := set_dispositions (<[i := attempt_outcome d prov acc err mx delay t]> (dispositions r)) t r in
  record_scheduler_cancel_attempt jid cl sid prov cid acc err mx delay (Some t) s =
    (Ok (Some r'), set_files (persisted_files r' (files s)) s).
Proof.
  intros Hcs Hfit Hc Ha Hp He r'. destruct (claimable_disposition s Hcs) as (Hv&_&_).
  unfold record_scheduler_cancel_attempt, mbind, M_bind, lift.
  rewrite (claimable_id_ok s Hcs).
  assert (Hid : validate_durable_record_id (JStr cid) = Ok cid).
  { apply valid_fields in Hv as (_&_&_&_&_&Hid&_). rewrite Hc in Hid. cbn in Hid.
    unfold valid_id in Hid. destruct (validate_durable_record_id (JStr cid)) as [x|] eqn:Hx; [|done].
    by rewrite (validate_str_ok _ _ Hx). }
  rewrite Hid. cbn [now_or_utc_now mret M_ret]. rewrite (claimable_open s Hcs).
  rewrite (cs_identity _ _ _ _ _ _ _ _ Hcs), bool_decide_true by done. cbn [negb].
  rewrite (cs_provider _ _ _ _ _ _ _ _ Hcs), ensure_true.
  rewrite (attempt_outcome_valid acc err mx delay t cid) by done. rewrite ensure_true.
  rewrite persist_run; [done|apply Hcs|exact Hfit].
Qed.

(** The report of a claim holder always lands: it is recorded with the
    outcome of the attempt, and a record whose dispositions are then all final
    is moved to terminal evidence and its pending file removed. *)
Theorem report_lands cid acc err mx delay t s :
  claimable_state jid cl sid prov r i d s -> fits (rewritten (attempt_outcome d prov acc err mx delay t) t) ->
  attempt_claim_id d = Some cid -> (attempts d < 100)%Z -> str_between 1 128 prov = true ->
  opt_forall (fun e => Z.of_nat (String.length e) <? 2 ^ 63)%Z err = true ->
  let r' := set_dispositions (<[i := attempt_outcome d prov acc err mx delay t]> (dispositions r)) t r in
  record_scheduler_cancel_attempt jid cl sid prov cid acc err mx delay (Some t) s =
    (Ok (Some r'), set_files (persisted_files r' (files s)) s).
Proof. apply record_attempt_run. Qed.
End one_identity.

(** ** Rejected attempts end in terminal evidence *)
Lemma valid_set_disposition r i d' t :
  valid_pending r = true -> valid_disposition d' = true ->
  valid_pending (set_dispositions (<[i := d']> (dispositions r)) t r) = true.
Proof.
  unfold valid_pending. cbn [pending_job_id pending_cluster reason dispositions set_dispositions].
  rewrite length_insert. intros Hv Hd. bool_prop.
  match goal with H : forallb _ _ = true |- _ => rename H into Hall end.
  rewrite !andb_true_iff. split_and!; try done.
  rewrite forallb_forall in Hall. apply forallb_forall. intros x Hx%list_elem_of_In.
  apply list_elem_of_lookup in Hx as [k Hk]. destruct (decide (k = i)) as [->|Hne].
  - apply list_lookup_insert_Some in Hk as [(_&<-&_)|[? _]]; done.
  - rewrite list_lookup_insert_ne in Hk by done. apply Hall, list_elem_of_In, list_elem_of_lookup. eauto.
Qed.

(** Rewriting the identity while work is left gives the same kind of state. *)
Lemma claimable_rewrite jid cl sid prov r i d d' t s s' :
  claimable_state jid cl sid prov r i d s -> identity_resolution r = res_resolved ->
  final_state (state d') = false -> valid_disposition d' = true -> scheduler_job_id d' = sid ->
  provider_matches d' prov = true -> budget s' = None ->
  fits (rewritten r i d' t) ->
  files s' = persisted_files (set_dispositions (<[i := d']> (dispositions r)) t r) (files s) ->
  claimable_state jid cl sid prov (set_dispositions (<[i := d']> (dispositions r)) t r) i d' s'.
Proof.
  intros Hcs Hres Hfin Hv Hs Hp Hb Hfit Hf. destruct (claimable_disposition _ _ _ _ _ _ _ _ Hcs) as (_&Hi&_).
  pose proof Hcs as []. assert (Hlen : i < length (dispositions r)) by (by eapply lookup_lt_Some).
  unfold persisted_files in Hf. rewrite (complete_false_retryable _ i d') in Hf;
    [|by apply list_lookup_insert_eq|done|done].
  split; try done.
  - rewrite Hf. by apply lookup_insert_eq.
  - rewrite Hf, lookup_insert_ne; [done|]. by intros ?%path_family.
  - by apply valid_set_disposition.
  - by eapply lookup_identity_insert.
Qed.

(** The record can be written with any valid disposition of its identity: the strings of a
    valid disposition are bounded, so this is a bound on the rest of the record. *)
Definition room (sid : string) (r : SchedulerCancelPending) : Prop := forall d' t,
  valid_disposition d' = true -> scheduler_job_id d' = sid -> fits (set_dispositions [d'] t r).

(** One worker claims an attempt at each time and reports that the scheduler
    refused it. *)
Fixpoint reject_rounds (jid cl sid prov : string) (lease : Q) (err : option string) (mx : Z)
    (delay : Q) (ts : list Z) : M disk unit :=
  match ts with
  | [] => mret tt
  | t :: ts' =>
      c ← claim_scheduler_cancel_attempt jid cl sid prov lease (Some t);
      match c with
      | None => raise not_pending
      | Some c =>
          _ ← record_scheduler_cancel_attempt jid cl sid prov (claim_id c) false err mx delay (Some t);
          reject_rounds jid cl sid prov lease err mx delay ts'
      end
  end.

Lemma reject_round_run jid cl sid prov lease err mx delay t ts r d s :
  claimable_state jid cl sid prov r 0 d s -> room sid r -> dispositions r = [d] ->
  identity_resolution r = res_resolved -> retryable (state d) = true ->
  attempt_claim_id d = None -> (attempts d < 100)%Z -> next_attempt_due d t = true ->
  str_between 1 128 prov = true -> claim_lease_in_bounds lease = true ->
  opt_forall (fun e => Z.of_nat (String.length e) <? 2 ^ 63)%Z err = true ->
  let cid := "cancelclaim_" +:+ uuid4_at (draws s) in
  let d1 := claimed_by prov cid t (t + timedelta_us lease) d in
  let r2 := set_dispositions [attempt_outcome d1 prov false err mx delay t] t r in
  exists r1 s1, reject_rounds jid cl sid prov lease err mx delay (t :: ts) s =
    reject_rounds jid cl sid prov lease err mx delay ts (set_files (persisted_files r2 (files s1)) s1) /\
    claimable_state jid cl sid prov r1 0 d1 s1 /\ identity_resolution r1 = res_resolved /\
    dispositions r1 = [d1] /\ r2 = set_dispositions (<[0 := attempt_outcome d1 prov false err mx delay t]> (dispositions r1)) t r1.
Proof.
  intros Hcs Hroom Hds Hres Hret Hcl Ha Hdue Hp Hlease He cid d1 r2.
  destruct (claimable_disposition _ _ _ _ _ _ _ _ Hcs) as (Hv&_&Hs).
  assert (Hne : str_nonempty prov = true) by (by destruct prov).
  assert (Hids : valid_id cid = true).
  { unfold valid_id, cid. by rewrite (uuid_claim_id_ok _ "ancelclaim_") by (done || cbn; lia). }
  pose proof (timedelta_us_ge lease) as Hge.
  assert (Hv1 : valid_disposition d1 = true) by (apply attempt_claim_valid; try done; intuition lia).
  assert (Hf1 : fits (rewritten r 0 d1 t)) by (unfold rewritten; rewrite Hds; by apply Hroom).
  assert (Hf2 : fits r2).
  { apply Hroom; [|by rewrite attempt_outcome_sid]. by apply (attempt_outcome_valid prov d1 _ _ _ _ _ cid). }
  cbn [reject_rounds]. unfold mbind at 1, M_bind at 1.
  rewrite (claim_attempt_grants jid cl sid prov r 0 d) by (done || by rewrite Hcl).
  set (r1 := set_dispositions _ _ _). set (s1 := mkDisk _ _ _ _).
  assert (Hcs1 : claimable_state jid cl sid prov r1 0 d1 s1).
  { eapply claimable_rewrite; [exact Hcs|done|by apply retryable_not_final|exact Hv1|done|by apply bool_decide_true|apply Hcs|exact Hf1|done]. }
  assert (Hds1 : dispositions r1 = [d1]) by (subst r1; cbn; by rewrite Hds).
  assert (Hr2 : r2 = set_dispositions (<[0 := attempt_outcome d1 prov false err mx delay t]> (dispositions r1)) t r1)
    by (by rewrite Hds1).
  exists r1, s1. unfold mbind, M_bind. cbn [claim_id].
  rewrite (record_attempt_run jid cl sid prov r1 0 d1); try done; [by rewrite <- Hr2|].
  unfold rewritten. by rewrite <- Hr2.
Qed.

Lemma attempt_outcome_attempts d prov acc err mx delay t :
  attempts (attempt_outcome d prov acc err mx delay t) = (attempts d + 1)%Z.
Proof. unfold attempt_outcome. by destruct acc; [|destruct (mx <=? _)%Z]. Qed.

(** refused attempts cannot go on for ever: when every attempt is refused and
    the retries are made when they are due, the configured number of attempts
    leaves the job's cancellation ended, with terminal evidence that the
    identity is exhausted and no pending work. *)
Theorem rejections_exhaust jid cl sid prov lease err mx delay ts r d s :
  claimable_state jid cl sid prov r 0 d s -> room sid r -> dispositions r = [d] ->
  identity_resolution r = res_resolved -> retryable (state d) = true ->
  attempt_claim_id d = None -> (attempts d < mx <= 100)%Z ->
  str_between 1 128 prov = true -> claim_lease_in_bounds lease = true ->
  opt_forall (fun e => Z.of_nat (String.length e) <? 2 ^ 63)%Z err = true ->
  Z.of_nat (length ts) = (mx - attempts d)%Z ->
  match ts with t :: _ => next_attempt_due d t = true | [] => True end ->
  Sorted (fun a b => a + timedelta_us delay <= b)%Z ts ->
  exists s' c d', reject_rounds jid cl sid prov lease err mx delay ts s = (Ok tt, s') /\
    ended jid cl c (files s') /\ dispositions c = [d'] /\
    state d' = Disposition.EXHAUSTED /\ attempts d' = mx.
Proof.
  revert r d s. induction ts as [|t ts IH]; intros r d s Hcs Hroom Hds Hres Hret Hcl Hmx Hp Hl He Hlen Hdue Hso.
  { cbn in Hlen. lia. }
  destruct (reject_round_run jid cl sid prov lease err mx delay t ts r d s) as (r1&s1&Hrun&Hcs1&Hres1&Hds1&Hr2);
    try done; [lia|]. set (d1 := claimed_by _ _ _ _ _) in *. set (r2 := set_dispositions _ _ _) in Hrun, Hr2.
  rewrite Hrun. destruct (claimable_disposition _ _ _ _ _ _ _ _ Hcs1) as (Hv1&_&Hs1).
  set (s2 := set_files _ s1). pose proof (cs_job _ _ _ _ _ _ _ _ Hcs1). pose proof (cs_cluster _ _ _ _ _ _ _ _ Hcs1).
  destruct (decide (attempts d + 1 = mx)%Z) as [Hlast|Hmore].
  - assert (ts = []) as -> by (destruct ts; [done|cbn in Hlen; lia]).
    assert (Hst : state (attempt_outcome d1 prov false err mx delay t) = Disposition.EXHAUSTED).
    { unfold attempt_outcome. cbn [attempts d1 claimed_by].
      by rewrite (proj2 (Z.leb_le mx (attempts d + 1))) by lia. }
    exists s2, r2, (attempt_outcome d1 prov false err mx delay t). split_and!; try done.
    + assert (Hc : complete r2 = true).
      { rewrite Hr2, Hds1. unfold complete. cbn. rewrite Hres1, Hst. done. }
      unfold ended, s2. cbn [files set_files]. unfold persisted_files. rewrite Hc.
      replace cl with (pending_cluster r2) by (by rewrite Hr2). replace jid with (pending_job_id r2) by (by rewrite Hr2).
      split; [|apply lookup_delete_eq].
      rewrite lookup_delete_ne by (by intros ?%path_family). apply lookup_insert_eq.
    + rewrite attempt_outcome_attempts. cbn. lia.
  - assert (Hst : attempt_outcome d1 prov false err mx delay t = attempt_outcome d1 prov false err mx delay t) by done.
    unfold attempt_outcome in Hst at 2. cbn [attempts d1 claimed_by] in Hst.
    rewrite (proj2 (Z.leb_gt mx (attempts d + 1))) in Hst by lia.
    eapply (IH r2); try done.
    + rewrite Hr2. apply (claimable_rewrite _ _ _ _ _ _ d1 _ _ s1); [done|done|by rewrite Hst| | | | | |].
      * apply attempt_outcome_valid with ("cancelclaim_" +:+ uuid4_at (draws s)); try done. cbn. lia.
      * by rewrite attempt_outcome_sid.
      * rewrite Hst. cbn. by apply bool_decide_true.
      * apply Hcs1.
      * unfold rewritten. rewrite <- Hr2. apply Hroom; [|by rewrite attempt_outcome_sid].
        apply attempt_outcome_valid with ("cancelclaim_" +:+ uuid4_at (draws s)); try done. cbn. lia.
      * unfold s2. by rewrite Hr2.
    + by rewrite Hst.
    + by rewrite Hst.
    + rewrite attempt_outcome_attempts. cbn. lia.
    + rewrite attempt_outcome_attempts. cbn. cbn in Hlen. lia.
    + destruct ts as [|t' ts]; [done|]. rewrite Hst. cbn. apply Z.leb_le.
      inversion Hso as [|? ? _ Hhd]; subst. by inversion Hhd.
    + by inversion Hso.
Qed.
End total.

(** ** The due scan *)
Section due_scan.
Context `{World} `{ErrorDetail}.

Lemma sort_key_leb_total a b : sort_key_leb a b = true \/ sort_key_leb b a = true.
Proof.
  unfold sort_key_leb. destruct (Z.ltb_spec a.1 b.1), (Z.ltb_spec b.1 a.1); auto. apply str_leb_total.
Qed.

Lemma sort_key_leb_trans a b c :
  sort_key_leb a b = true -> sort_key_leb b c = true -> sort_key_leb a c = true.
Proof.
  unfold sort_key_leb. destruct (Z.ltb_spec a.1 b.1), (Z.ltb_spec b.1 a.1), (Z.ltb_spec b.1 c.1),
    (Z.ltb_spec c.1 b.1), (Z.ltb_spec a.1 c.1), (Z.ltb_spec c.1 a.1); try done; try lia.
  apply str_leb_trans.
Qed.

(** Earlier of two records in the order the scan promises. *)
Definition due_before (a b : SchedulerCancelPending) : Prop :=
  sort_key_leb (scheduler_cancel_due_sort_key a) (scheduler_cancel_due_sort_key b) = true.

Lemma drop_completed_spec rs s act s' :
  drop_completed rs s = (Ok act, s') -> act = filter (fun r => files s !! done_path r = None) rs.
Proof.
  revert s act s'. induction rs as [|r rs IH]; intros s act s'; cbn [drop_completed]; [by intros [= <- _]|].
  intros Hrun%M_bind_ok. destruct Hrun as (o&s1&Hread&Hrun).
  assert (Hs1 : s1 = s /\ (o = None <-> files s !! done_path r = None)).
  { clear -Hread. unfold done_path. unfold read_optional_cancel in Hread.
    apply M_bind_ok in Hread as (x&s2&Hdoc&Hread). unfold read_doc in Hdoc.
    destruct (files s !! _) as [y|].
    - destruct (_ <? _)%Z; [done|]. injection Hdoc as <- <-.
      destruct y; try done. destruct (valid_pending r0); [|done]. by injection Hread as <- <-.
    - injection Hdoc as <- <-. by injection Hread as <- <-. }
  destruct Hs1 as [-> Ho]. rewrite filter_cons.
  destruct o as [c|].
  - rewrite decide_False by (intros Hn; by apply Ho in Hn).
    apply M_bind_ok in Hrun as ([]&s1&Hen&Hrun). apply M_bind_ok in Hrun as ([]&s2&Hun&Hrun).
    assert (s1 = s) as -> by (unfold ensure, raise_unless in Hen; destruct (complete c); by inversion Hen).
    rewrite (IH _ _ _ Hrun). apply list_filter_iff. intros x.
    assert (Hf : files s2 = delete (_scheduler_cancel_record_path fam_pending (pending_cluster r) (pending_job_id r)) (files s)).
    { clear -Hun. unfold unlink_durable_path, durable in Hun.
      destruct (budget s) as [[|]|]; inversion Hun; done. }
    rewrite Hf, lookup_delete_ne; [done|]. by intros ?%path_family.
  - rewrite decide_True by (by apply Ho).
    apply M_bind_ok in Hrun as (l&s1&Hl&Hrun). injection Hrun as <- _. by rewrite (IH _ _ _ Hl).
Qed.

(** A due pending record of the cluster's directory without terminal evidence. *)
Definition due_work (cl : string) (t : Z) (m : gmap path doc) (r : SchedulerCancelPending) : Prop :=
  (exists name, m !! [fam_pending; _stable_ref_token [cl]; name] = Some (DCancel r)) /\
  scheduler_cancel_record_is_due r t = true /\ m !! done_path r = None.

Lemma read_cancel_entry_ok e r : read_cancel_entry e = Ok r -> e.2 = DCancel r.
Proof.
  unfold read_cancel_entry. destruct (e.2) as [| | | |x| | | | | | | | | | | |]; try done.
  destruct (negb _); [done|]. case_bool_decide; [|done]. by intros [= ->].
Qed.

(** the due scan returns, in the order of their due times, at most [limit]
    pending records of the cluster that are due and have no terminal evidence;
    when it says that no more are left, it has returned every such record. *)
Theorem scan_due_exact cl limit t s l more s' :
  scan_due_scheduler_cancellations cl limit (Some t) s = (Ok (l, more), s') ->
  StronglySorted due_before l /\ (Z.of_nat (length l) <= limit)%Z /\
  (forall r, r ∈ l -> due_work cl t (files s) r) /\
  (more = false -> forall r, due_work cl t (files s) r -> r ∈ l).
Proof.
  unfold scan_due_scheduler_cancellations.
  destruct ((limit <? 1) || _)%Z eqn:Hlim; [done|]. bool_prop. intros Hrun.
  apply M_bind_ok in Hrun as ([]&s1&Hmig&Hrun).
  assert (files s1 = files s) as Hf by (rewrite <- (files_migration s), Hmig; done).
  apply M_bind_ok in Hrun as ([rs tr]&s2&Hscan&Hrun). apply scan_many_spec in Hscan as (->&Hsound&Hcompl); [|done].
  apply M_bind_ok in Hrun as (act&s3&Hdrop&Hrun). apply drop_completed_spec in Hdrop.
  injection Hrun as Hl Hmore _. cbn [fst snd] in *. rewrite Hf in *. clear Hf Hmig.
  set (due := filter (fun r => scheduler_cancel_record_is_due r t = true) act) in *.
  set (srt := sort_by _ due) in *.
  assert (Hperm : srt ≡ₚ due) by apply sort_by_perm.
  assert (Hdue : forall r, r ∈ due <-> scheduler_cancel_record_is_due r t = true /\
                           files s !! done_path r = None /\ r ∈ rs).
  { intros r. unfold due. rewrite list_elem_of_filter, Hdrop, list_elem_of_filter. done. }
  assert (Hsub : forall r, r ∈ take (Z.to_nat limit) srt -> r ∈ due).
  { intros r Hr. rewrite <- Hperm. eapply elem_of_take in Hr as (?&?&_). by eapply list_elem_of_lookup_2. }
  subst l. split_and!.
  - assert (Hs : StronglySorted due_before srt).
    { apply sort_by_sorted; intros *; [apply sort_key_leb_total|apply sort_key_leb_trans]. }
    by apply StronglySorted_take.
  - rewrite length_take. lia.
  - intros r Hr%Hsub%Hdue. destruct Hr as (Hr&Hd&Hin). split_and!; try done.
    destruct (Hsound r Hin) as (name&d&Hn&Hrd). apply read_cancel_entry_ok in Hrd. cbn in Hrd. subst d. by exists name.
  - intros Hm r ([name Hn]&Hr&Hd). rewrite Hm in Hmore. apply orb_false_iff in Hmore as [Htr Hle%Z.ltb_ge].
    rewrite take_ge; [|rewrite Hperm; lia]. rewrite Hperm, Hdue. split_and!; try done.
    destruct (Hcompl Htr name _ Hn) as (r'&Hin&Hrd). apply read_cancel_entry_ok in Hrd. by injection Hrd as ->.
Qed.
End due_scan.

(** ** Three ways in which durable cancellation work is lost

    The operations build the record they store with pydantic's [model_copy],
    which does not run the model's constraints, and registration does not look
    at terminal evidence.  The theorems of this part say what follows. *)

Section findings.
Context `{World} `{ErrorDetail}.

(** The record after the registration of one more identity. *)
Definition registered (r : SchedulerCancelPending) (sid : string) (prov : option string) (s : disk)
  : SchedulerCancelPending :=
  set_dispositions
    (dispositions r ++ [new_disposition sid prov Disposition.PENDING None (clock (ticks s))]) (clock (S (ticks s))) r.

(** A pending record that registration can extend by one identity. *)
Record registrable (r : SchedulerCancelPending) (sid : string) (prov : option string) (s : disk)
  : Prop := {
  rg_pending : files s !! pending_path r = Some (DCancel r);
  rg_valid : valid_pending r = true;
  rg_open : complete r = false;
  rg_new : find_identity sid (dispositions r) = None;
  rg_sid : str_between 1 256 sid = true;
  rg_provider : opt_forall (str_between 1 128) prov = true;
  rg_uninterrupted : budget s = None;
  rg_fits : fits r;
  rg_room : fits (registered r sid prov s);
}.

Lemma valid_pending_id r : valid_pending r = true -> valid_id (pending_job_id r) = true.
Proof. unfold valid_pending. intros. by bool_prop. Qed.

Lemma complete_app_pending r ds t d :
  complete r = false -> ds = dispositions r -> state d = Disposition.PENDING ->
  complete (set_dispositions (ds ++ [d]) t r) = false.
Proof.
  intros Hc -> Hd. unfold complete in *. cbn.
  destruct (identity_resolution r) eqn:Hres; try done.
  assert (Hf : forallb (fun d => final_state (state d)) (dispositions r ++ [d]) = false).
  { rewrite forallb_app. cbn. by rewrite Hd, andb_false_r. }
  by destruct (dispositions r).
Qed.

Lemma register_run r sid prov s :
  registrable r sid prov s ->
  exists s', let r' := registered r sid prov s in
    register_scheduler_cancel_identity_once (pending_job_id r) (pending_cluster r) sid prov true s =
      (Ok (mkRegistration r' true), s') /\
    files s' = <[pending_path r := DCancel r']> (files s) /\ budget s' = None.
Proof.
  intros []. unfold register_scheduler_cancel_identity_once, mbind, M_bind, lift.
  rewrite require_id_valid by (by apply valid_pending_id).
  unfold _require_scheduler_cancel_pending_unlocked, mbind, M_bind.
  rewrite (read_cancel_run _ _ _ r); [|by left|done|done|done].
  unfold names_record. rewrite !bool_decide_true by done. rewrite ensure_true. cbn [mret M_ret].
  rewrite rg_new0. cbn [utc_now ticks files budget draws].
  set (d := new_disposition _ _ _ _ _).
  assert (Hd : valid_disposition d = true).
  { apply valid_fields. cbn. split_and!; try done; lia. }
  rewrite Hd, ensure_true. cbn [utc_now ticks files budget draws].
  change (set_dispositions _ _ r) with (registered r sid prov s).
  set (s' := mkDisk _ _ _ _). rewrite persist_run; [|done|exact rg_room0].
  exists (set_files (persisted_files (registered r sid prov s) (files s')) s'). split_and!; try done.
  cbn [files set_files]. unfold persisted_files, registered.
  by rewrite complete_app_pending.
Qed.

(** A stored record that does not validate can no longer be read. *)
Lemma get_pending_invalid r s :
  valid_id (pending_job_id r) = true -> files s !! pending_path r = Some (DCancel r) ->
  fits r -> valid_pending r = false ->
  get_scheduler_cancel_pending (pending_job_id r) (pending_cluster r) s =
    (Err (ValidationError "SchedulerCancelPending"), s).
Proof.
  intros Hid Hl Hf Hv. unfold get_scheduler_cancel_pending, mbind, M_bind, lift.
  rewrite require_id_valid by done. unfold read_optional_cancel, mbind, M_bind, read_doc.
  unfold pending_path in Hl. rewrite Hl, cancel_path_max_bytes by (by left).
  rewrite (proj2 (Z.ltb_ge _ _)) by exact Hf. by rewrite Hv.
Qed.

(** registration does not enforce the limit of 1000 dispositions: with 1000
    registered identities one more is reported as created, and no later read of
    the record succeeds. *)
Theorem registration_exceeds_limit r sid prov s :
  registrable r sid prov s -> length (dispositions r) = 1000 ->
  exists s',
    register_scheduler_cancel_identity_once (pending_job_id r) (pending_cluster r) sid prov true s =
      (Ok (mkRegistration (registered r sid prov s) true), s') /\
    get_scheduler_cancel_pending (pending_job_id r) (pending_cluster r) s' =
      (Err (ValidationError "SchedulerCancelPending"), s').
Proof.
  intros Hr Hlen. destruct (register_run r sid prov s Hr) as (s'&Hrun&Hf&Hb).
  exists s'. split; [exact Hrun|]. set (r' := registered r sid prov s) in *.
  apply (get_pending_invalid r').
  - by apply (valid_pending_id r), Hr.
  - change (pending_path r') with (pending_path r). rewrite Hf. apply lookup_insert_eq.
  - apply Hr.
  - unfold valid_pending. rewrite andb_comm. subst r'. unfold registered. cbn [dispositions set_dispositions].
    by rewrite length_app, Hlen.
Qed.

(** A claim does not enforce the limit of 128 characters on the provider it
    stores: a claim with a longer name is granted on an identity without a
    provider, and no later read of the record succeeds. *)
Theorem claim_provider_exceeds_limit jid cl sid prov r i d lease t s :
  claimable_state jid cl sid prov r i d s -> fits (attempt_claimed prov r i d lease t s) ->
  identity_resolution r = res_resolved ->
  retryable (state d) = true -> next_attempt_due d t = true ->
  claim_live (attempt_claim_id d) (attempt_claim_expires_at d) t = false ->
  claim_lease_in_bounds lease = true -> 128 < str_len prov ->
  exists c s',
    claim_scheduler_cancel_attempt jid cl sid prov lease (Some t) s = (Ok (Some c), s') /\
    get_scheduler_cancel_pending jid cl s' = (Err (ValidationError "SchedulerCancelPending"), s').
Proof.
  intros Hcs Hfit Hres Hret Hdue Hlive Hl Hlen.
  destruct (claimable_disposition _ _ _ _ _ _ _ _ Hcs) as (_&Hi&_).
  eexists _, _. split.
  { apply (claim_attempt_grants jid cl sid prov r i d); try done. destruct prov; [cbn in Hlen; lia|done]. }
  set (d' := claimed_by _ _ _ _ _). set (r' := set_dispositions _ _ _).
  pose proof Hcs as []. subst jid cl. apply (get_pending_invalid r').
  - by apply (valid_pending_id r).
  - cbn [files]. unfold persisted_files. rewrite (complete_false_retryable r' i d');
      [apply lookup_insert_eq| |by apply retryable_not_final|done].
    apply list_lookup_insert_eq. by eapply lookup_lt_Some.
  - exact Hfit.
  - apply not_true_iff_false. intros Hv.
    assert (Hd' : valid_disposition d' = true).
    { apply (valid_pending_lookup r' i d' Hv). apply list_lookup_insert_eq. by eapply lookup_lt_Some. }
    apply valid_fields in Hd' as (_&Hp&_). cbn in Hp. unfold str_between in Hp.
    apply andb_true_iff in Hp as [_ Hp]. apply Nat.leb_le in Hp. lia.
Qed.

(** C38: registration does not look at terminal evidence: on the pending file that an
    interrupted move left behind, a new identity is reported as created, and the first
    attempt claim made on it returns nothing and deletes the pending file with it. *)
Theorem registration_lost_after_interrupted_move r c sid prov p lease t s :
  registrable r sid prov s -> files s !! done_path r = Some (DCancel c) ->
  valid_pending c = true -> complete c = true -> fits c ->
  pending_job_id c = pending_job_id r -> pending_cluster c = pending_cluster r ->
  str_nonempty p = true -> claim_lease_in_bounds lease = true ->
  exists s1 s2,
    register_scheduler_cancel_identity_once (pending_job_id r) (pending_cluster r) sid prov true s =
      (Ok (mkRegistration (registered r sid prov s) true), s1) /\
    claim_scheduler_cancel_attempt (pending_job_id r) (pending_cluster r) sid p lease (Some t) s1 =
      (Ok None, s2) /\
    ended (pending_job_id r) (pending_cluster r) c (files s2).
Proof.
  intros Hr Hd Hvc Hcc Hfc Hj Hcl Hp Hl.
  destruct (register_run r sid prov s Hr) as (s'&Hrun&Hf&Hb). set (r' := registered r sid prov s) in *.
  exists s', (set_files (delete (pending_path r) (files s')) s'). split_and!; [done| |].
  - unfold claim_scheduler_cancel_attempt, mbind, M_bind, lift.
    rewrite require_id_valid by (apply valid_pending_id, Hr).
    rewrite Hp, Hl, !ensure_true. cbn [now_or_utc_now mret M_ret].
    unfold open_pending, mbind, M_bind.
    rewrite (read_cancel_run _ _ _ c); [|by right| |done|done].
    + unfold names_record. rewrite Hj, Hcl, !bool_decide_true by done. rewrite Hcc. cbn [andb].
      rewrite ensure_true. unfold unlink_durable_path, durable. by rewrite Hb.
    + unfold done_path in Hd. rewrite Hf, lookup_insert_ne; [done|]. by intros ?%path_family.
  - unfold ended. cbn [files set_files]. split; [|apply lookup_delete_eq].
    rewrite lookup_delete_ne by (by intros ?%path_family).
    rewrite Hf, lookup_insert_ne; [done|]. by intros ?%path_family.
Qed.

(** The evidence itself can be replaced from the same state: completing the scan of the
    identities, which also reads the pending file only, moves that file's record over it. *)
Theorem evidence_replaced_after_interrupted_move r s :
  let c' := mkPending (pending_job_id r) (pending_cluster r) (requested_at r) (reason r) res_superseded
              (clear_claims <$> dispositions r) (clock (ticks s)) in
  files s !! pending_path r = Some (DCancel r) -> valid_pending r = true -> fits r -> fits c' -> budget s = None ->
  exists s', complete_scheduler_cancel_identity_scan (pending_job_id r) (pending_cluster r) true s = (Ok c', s') /\
    files s' !! done_path r = Some (DCancel c').
Proof.
  intros c' Hl Hv Hf Hf' Hb. unfold complete_scheduler_cancel_identity_scan, mbind, M_bind, lift.
  rewrite require_id_valid by (by apply valid_pending_id).
  unfold _require_scheduler_cancel_pending_unlocked, mbind, M_bind.
  rewrite (read_cancel_run _ _ _ r); [|by left|done|done|done].
  unfold names_record. rewrite !bool_decide_true by done. rewrite ensure_true. cbn [mret M_ret].
  rewrite andb_false_r. cbn [utc_now ticks files budget draws]. fold c'.
  rewrite persist_run by done. eexists. split; [reflexivity|]. cbn [files set_files]. unfold persisted_files.
  change (complete c') with true. cbv beta iota. change (pending_path c') with (pending_path r).
  change (done_path c') with (done_path r).
  rewrite lookup_delete_ne by (by intros ?%path_family). apply lookup_insert_eq.
Qed.
End findings.
