(* ===== verification/SchedulerCancelExamples.v ===== *)
(** * Scheduler cancellation on a concrete store

    A store with one running job is driven through a request, the registration
    of a scheduler identity and its cancellation.  The states reached are the
    witnesses of the theorems on scheduler cancellation. *)

From S2P Require Import Prelude Sha256 Json Identifiers Models Store SchedulerCancel.
From S2P Require Import SchedulerCancelProofs SchedulerCancelClaims SchedulerCancelLaws.

From stdpp Require Import base list gmap strings.
From Stdlib Require Import ZArith QArith Lia Sorted.
From Stdlib Require Ascii String.
Close Scope Q_scope.
Import Records.

Lemma take_str_length n s : (String.length (take_str n s) <= n)%nat.
Proof.
  revert s; induction n as [|n IH]; intros [|c s]; cbn; try lia. specialize (IH s). lia.
Qed.

(** An error detail that keeps the first bytes. *)
Definition truncating_detail : ErrorDetail.
Proof.
  refine {| bounded_error_detail := fmap (take_str 4096) |}; [done|].
  intros e d _ Hd. apply (inj Some) in Hd. subst d. apply take_str_length.
Defined.

#[local] Existing Instance reference_world.
#[local] Existing Instance truncating_detail.

(** Close a ground goal by evaluation. *)
Ltac by_eval := first [reflexivity | split; by vm_compute | by vm_compute].

(** A concrete record fits its file. *)
Ltac concrete_fits := unfold fits; apply Z.leb_le; vm_compute; reflexivity.

(** ** Stores that hold one record *)
Definition pending_disk (r : SchedulerCancelPending) : disk :=
  mkDisk {[ pending_path r := DCancel r ]} None 0 0.

Lemma pending_disk_claimable r i d sid prov :
  valid_pending r = true -> fits r -> lookup_identity sid (dispositions r) = Some (i, d) ->
  provider_matches d prov = true ->
  claimable_state (pending_job_id r) (pending_cluster r) sid prov r i d (pending_disk r).
Proof.
  intros Hv Hf Hi Hp. split; cbn [files pending_disk]; [done|done| | |exact Hv|exact Hi|exact Hp|done|exact Hf].
  - apply lookup_singleton_eq.
  - apply lookup_singleton_ne. by intros ?%path_family.
Qed.

Definition prepared_disposition : SchedulerCancelDisposition :=
  new_disposition "4711" (Some "slurm") Disposition.PENDING None 2000000.
Definition prepared_record : SchedulerCancelPending :=
  mkPending "job_1" "ares" 0 "user" res_resolved [prepared_disposition] 4000000.
Definition prepared : disk := pending_disk prepared_record.

Lemma prepared_claimable :
  claimable_state "job_1" "ares" "4711" "slurm" prepared_record 0 prepared_disposition prepared.
Proof. apply (pending_disk_claimable prepared_record); [done|concrete_fits|done|done]. Qed.

Definition demo_claim_id : string := "cancelclaim_00000000000000000000000000000000".
Definition claimed_disposition : SchedulerCancelDisposition :=
  claimed_by "slurm" demo_claim_id 9000000 39000000 prepared_disposition.
Definition claimed_record : SchedulerCancelPending :=
  set_dispositions [claimed_disposition] 9000000 prepared_record.

Lemma claimed_claimable :
  claimable_state "job_1" "ares" "4711" "slurm" claimed_record 0 claimed_disposition
    (pending_disk claimed_record).
Proof. apply (pending_disk_claimable claimed_record); [done|concrete_fits|done|done]. Qed.

(** ** Witnesses *)
Lemma prepared_inv : cancel_inv (files prepared).
Proof.
  intros fam tok name d Hl Hf. cbn [files prepared pending_disk] in Hl. apply lookup_singleton_Some in Hl as [Hp <-].
  assert (Hfam : fam = fam_pending) by (unfold pending_path, _scheduler_cancel_record_path in Hp; congruence). subst fam.
  exists prepared_record. split_and!; [done|by rewrite <- Hp| |reflexivity].
  split_and!; [reflexivity..|by repeat constructor|apply NoDup_singleton].
Qed.

Definition claimed_disk : disk := mkDisk (persisted_files claimed_record (files prepared)) None 0 1.

Lemma prepared_claim_run :
  claim_scheduler_cancel_attempt "job_1" "ares" "4711" "slurm" (30 # 1) (Some 9000000%Z) prepared =
    (Ok (Some (mkClaim demo_claim_id "4711" "slurm" 1 9000000 39000000)), claimed_disk).
Proof.
  apply (claim_attempt_grants "job_1" "ares" "4711" "slurm" prepared_record 0 prepared_disposition (30 # 1)
           9000000 prepared prepared_claimable); [concrete_fits|reflexivity..].
Qed.

(** A claim is granted, its report is cut before its write and made again. *)
Definition demo_report : cancel_op :=
  OpRecordAttempt "job_1" "ares" "4711" "slurm" demo_claim_id true None 5 (1 # 1) (Some 10000000%Z).
Definition cancel_history : disk :=
  (run_op demo_report (set_budget None (run_op demo_report (set_budget (Some 0) claimed_disk)).2)).2.

Lemma cancel_inv_reachable_witness :
  (run_op (OpClaimAttempt "job_1" "ares" "4711" "slurm" (30 # 1) (Some 9000000%Z)) (set_budget None prepared)).2
    = claimed_disk /\
  cancel_inv (files cancel_history) /\
  (forall r, files cancel_history !! pending_path claimed_record = Some (DCancel r) ->
     valid_pending r = within_limits r).
Proof.
  assert (Hrun : (run_op (OpClaimAttempt "job_1" "ares" "4711" "slurm" (30 # 1) (Some 9000000%Z))
                    (set_budget None prepared)).2 = claimed_disk).
  { change (set_budget None prepared) with prepared. cbn [run_op]. unfold mbind, M_bind.
    by rewrite prepared_claim_run. }
  destruct (cancel_inv_reachable prepared cancel_history) as [Hinv Hread].
  - exact prepared_inv.
  - eapply rtc_l; [apply (cancel_step_op (OpClaimAttempt "job_1" "ares" "4711" "slurm" (30 # 1) (Some 9000000%Z)) None)|].
    rewrite Hrun. eapply rtc_l; [apply cancel_step_op|]. eapply rtc_l; [apply cancel_step_op|]. apply rtc_refl.
  - split_and!; [exact Hrun|exact Hinv|]. intros r Hr. eapply Hread; [by left|exact Hr].
Defined.

Lemma attempt_claim_exclusive_witness :
  (claim_scheduler_cancel_attempt "job_1" "ares" "4711" "slurm" (5 # 1) (Some 20000000%Z)
     (run_op (OpScanDue "ares" 10 (Some 15000000%Z)) (set_budget (Some 0)
        claimed_disk)).2).1
  <> Ok (Some (mkClaim "cancelclaim_10000000000000000000000000000000" "4711" "slurm" 1
                       20000000 25000000)).
Proof.
  apply (attempt_claim_exclusive "job_1" "ares" "4711" "slurm" (30 # 1) (Some 9000000%Z) prepared
           (mkClaim demo_claim_id "4711" "slurm" 1 9000000 39000000)
           claimed_disk
           [(OpScanDue "ares" 10 (Some 15000000%Z), Some 0)]).
  - exact prepared_claim_run.
  - by repeat constructor.
  - reflexivity.
  - by vm_compute.
Defined.

(** A store where the cancellation ended: no identity was found. *)
Definition ended_record : SchedulerCancelPending :=
  mkPending "job_1" "ares" 0 "user" res_none [] 2000000.

Lemma evidence_final_witness :
  ended "job_1" "ares" ended_record
    (files (foldl (fun st ob => (run_op ob.1 (set_budget ob.2 st)).2)
                  (mkDisk {[ done_path ended_record := DCancel ended_record ]} None 0 0)
                  [(OpEnsure "job_1" "again", None)])).
Proof.
  apply evidence_final. split; [apply lookup_singleton_eq|].
  apply lookup_singleton_ne. by intros ?%path_family.
Defined.

Lemma due_iff_claimable_witness :
  (exists c, (claim_scheduler_cancel_attempt "job_1" "ares" "4711" "slurm" (30 # 1)
                (Some 9000000%Z) prepared).1 = Ok (Some c)) \/
  (exists c, (claim_scheduler_cancel_confirmation "job_1" "ares" "4711" "slurm" (30 # 1)
                (Some 9000000%Z) prepared).1 = Ok (Some c)).
Proof.
  apply (due_iff_claimable "job_1" "ares" "4711" "slurm" prepared_record 0 prepared_disposition);
    [apply prepared_claimable|concrete_fits|concrete_fits|reflexivity..].
Defined.

Lemma report_lands_witness :
  exists r' s', record_scheduler_cancel_attempt "job_1" "ares" "4711" "slurm" demo_claim_id true
    None 5 (1 # 1) (Some 10000000%Z) (pending_disk claimed_record) = (Ok (Some r'), s').
Proof.
  eexists _, _.
  apply (report_lands "job_1" "ares" "4711" "slurm" claimed_record 0 claimed_disposition);
    [apply claimed_claimable|concrete_fits|reflexivity..].
Defined.

Lemma valid_id_bytes o : opt_forall valid_id o = true -> (id_bytes o <= 192)%nat.
Proof.
  destruct o as [t|]; cbn; [|lia]. unfold valid_id. destruct (validate_durable_record_id (JStr t)) as [u|] eqn:Hv; [|done].
  intros _. apply validate_ok_inv in Hv as ([= ->]&Hl&_). lia.
Qed.

Lemma text_bytes_le lo hi o : opt_forall (str_between lo hi) o = true -> (text_bytes o <= 64 + hi)%nat.
Proof. destruct o as [t|]; cbn; [|lia]. unfold str_between. rewrite andb_true_iff, !Nat.leb_le. lia. Qed.

Lemma time_bytes_le o : (time_bytes o <= 64)%nat.
Proof. destruct o; cbn; lia. Qed.

(** A valid disposition of one identity is far below the limit of its file. *)
Lemma disposition_bytes_le d : valid_disposition d = true -> (Z.of_nat (disposition_bytes d) <= 20000)%Z.
Proof.
  intros (Hs&Hp&_&_&He&Ha&Hc&_)%valid_fields. unfold disposition_bytes.
  apply valid_id_bytes in Ha, Hc. apply text_bytes_le in Hp, He.
  assert (Hmax : 16384 = Z.to_nat 16384) by by_eval. rewrite Hmax in He. clear Hmax.
  unfold str_between in Hs. apply andb_true_iff in Hs as [_ Hs]. apply Nat.leb_le in Hs.
  pose proof (time_bytes_le (next_attempt_at d)). pose proof (time_bytes_le (attempt_claimed_at d)).
  pose proof (time_bytes_le (attempt_claim_expires_at d)). pose proof (time_bytes_le (confirmation_claimed_at d)).
  pose proof (time_bytes_le (confirmation_claim_expires_at d)). lia.
Qed.

Lemma prepared_room : room "4711" prepared_record.
Proof.
  intros d' t Hv _. apply disposition_bytes_le in Hv. unfold fits.
  change (model_size (DCancel _)) with (525 + (disposition_bytes d' + 0))%nat. lia.
Qed.

Lemma rejections_exhaust_witness :
  exists s' c d',
    reject_rounds "job_1" "ares" "4711" "slurm" (30 # 1) None 2 (1 # 1) [9000000; 10000000]%Z prepared
      = (Ok tt, s') /\
    ended "job_1" "ares" c (files s') /\ dispositions c = [d'] /\
    state d' = Disposition.EXHAUSTED /\ attempts d' = 2%Z.
Proof.
  apply (rejections_exhaust "job_1" "ares" "4711" "slurm" (30 # 1) None 2 (1 # 1)
           [9000000; 10000000]%Z prepared_record prepared_disposition prepared);
    [apply prepared_claimable|apply prepared_room|by_eval..|].
  repeat constructor; by vm_compute.
Defined.

(** ** A due scan of one record *)
Definition migrated : doc :=
  DJson (JObj [("schema_version", JStr "clio-relay.index-migration.v1"); ("complete", JBool true)]).
Definition scan_disk : disk :=
  mkDisk (<[ ["migrations"; "index-v1.json"] := migrated ]> (files prepared)) None 0 0.

Lemma scan_disk_lists :
  scandir [fam_pending; _stable_ref_token ["ares"]] scan_disk =
    (Ok [(pending_path prepared_record, DCancel prepared_record)], scan_disk).
Proof.
  unfold scandir. set (l := scandir_order _).
  enough (Hl : l ≡ₚ [(pending_path prepared_record, DCancel prepared_record)])
    by (apply Permutation_singleton_r in Hl; by rewrite Hl).
  unfold l. apply NoDup_Permutation.
  - rewrite scandir_perm. apply NoDup_filter, NoDup_map_to_list.
  - apply NoDup_singleton.
  - intros [p d]. rewrite scandir_elem by done. rewrite list_elem_of_singleton.
    cbn [files scan_disk prepared pending_disk]. split.
    + intros [Hl [name ->]]. rewrite lookup_insert_ne in Hl by done.
      apply lookup_singleton_Some in Hl as [<- <-]. done.
    + intros [= -> ->]. split; [|by eexists]. rewrite lookup_insert_ne by done. apply lookup_singleton_eq.
Qed.

Lemma scan_disk_run :
  scan_due_scheduler_cancellations "ares" 10 (Some 9000000%Z) scan_disk =
    (Ok ([prepared_record], false), scan_disk).
Proof.
  assert (Hm : require_index_migration_complete scan_disk = (Ok tt, scan_disk)).
  { unfold require_index_migration_complete. rewrite (M_bind_run _ _ _ (Some migrated) scan_disk); [reflexivity|].
    unfold read_doc. cbn [files scan_disk]. by rewrite lookup_insert_eq. }
  assert (Hs : scan_many_cancel [fam_pending; _stable_ref_token ["ares"]] (Z.to_nat MAX_ACTIVE_JOB_RECORDS)
                 scan_disk = (Ok ([prepared_record], false), scan_disk)).
  { unfold scan_many_cancel. rewrite scan_many_unfold by (apply Nat.leb_le; by vm_compute). rewrite (M_bind_run _ _ _ _ _ scan_disk_lists).
    rewrite (M_bind_run _ _ _ ([(pending_path prepared_record, DCancel prepared_record)], false) scan_disk);
      [reflexivity|]. unfold lift. reflexivity. }
  assert (Hd : drop_completed [prepared_record] scan_disk = (Ok [prepared_record], scan_disk)).
  { cbn [drop_completed]. rewrite (M_bind_run _ _ _ None scan_disk); [reflexivity|].
    apply read_cancel_absent. cbn [files scan_disk prepared pending_disk].
    rewrite lookup_insert_ne by done. apply lookup_singleton_ne. by intros ?%path_family. }
  unfold scan_due_scheduler_cancellations.
  change ((10 <? 1)%Z || (DEFAULT_EXACT_RECORD_LIMIT <? 10)%Z) with false. cbv iota.
  rewrite (M_bind_run _ _ _ _ _ Hm), (M_bind_run _ _ _ _ _ Hs). cbn [fst snd].
  rewrite (M_bind_run _ _ _ _ _ Hd). reflexivity.
Qed.

Lemma scan_due_exact_witness :
  StronglySorted due_before [prepared_record] /\
  due_work "ares" 9000000 (files scan_disk) prepared_record.
Proof.
  destruct (scan_due_exact "ares" 10 9000000 scan_disk [prepared_record] false scan_disk scan_disk_run)
    as (Hs&_&Hd&_).
  split; [done|]. apply Hd. left.
Defined.

(** ** The stores of the findings *)
Lemma pending_disk_registrable r sid prov :
  valid_pending r = true -> complete r = false -> find_identity sid (dispositions r) = None ->
  str_between 1 256 sid = true -> opt_forall (str_between 1 128) prov = true ->
  fits r -> fits (registered r sid prov (pending_disk r)) ->
  registrable r sid prov (pending_disk r).
Proof.
  intros Hv Hc Hn Hs Hp Hf Hr. split; [apply lookup_singleton_eq|done..].
Qed.

(** A record with as many dispositions as its model allows. *)
Definition anonymous_disposition : SchedulerCancelDisposition :=
  new_disposition "4711" None Disposition.PENDING None 2000000.
Definition full_record : SchedulerCancelPending :=
  mkPending "job_1" "ares" 0 "user" res_pending (replicate 1000 anonymous_disposition) 0.

Lemma registration_exceeds_limit_witness :
  exists r' s',
    register_scheduler_cancel_identity_once "job_1" "ares" "4712" None true (pending_disk full_record) =
      (Ok (mkRegistration r' true), s') /\
    get_scheduler_cancel_pending "job_1" "ares" s' =
      (Err (ValidationError "SchedulerCancelPending"), s').
Proof.
  exists (registered full_record "4712" None (pending_disk full_record)).
  apply (registration_exceeds_limit full_record "4712" None (pending_disk full_record));
    [|exact (length_replicate 1000 anonymous_disposition)].
  apply pending_disk_registrable; [|done| |done|done|concrete_fits|concrete_fits].
  - unfold valid_pending. rewrite (length_replicate 1000 anonymous_disposition : length (dispositions full_record) = 1000).
    replace (forallb valid_disposition (dispositions full_record)) with true; [done|].
    symmetry. apply forallb_forall. intros d Hd%list_elem_of_In%elem_of_replicate. by destruct Hd as [-> _].
  - apply find_index_None. by apply (Forall_replicate (fun d => bool_decide (scheduler_job_id d = "4712") = false) 1000).
Defined.

(** A provider name of 129 characters. *)
Definition long_provider : string :=
  foldr (fun _ acc => String (Ascii.ascii_of_nat 112) acc) EmptyString (seq 0 129).
Definition anonymous_record : SchedulerCancelPending :=
  mkPending "job_1" "ares" 0 "user" res_resolved [anonymous_disposition] 4000000.

Lemma claim_provider_exceeds_limit_witness :
  exists c s',
    claim_scheduler_cancel_attempt "job_1" "ares" "4711" long_provider (30 # 1) (Some 9000000%Z)
      (pending_disk anonymous_record) = (Ok (Some c), s') /\
    get_scheduler_cancel_pending "job_1" "ares" s' =
      (Err (ValidationError "SchedulerCancelPending"), s').
Proof.
  apply (claim_provider_exceeds_limit "job_1" "ares" "4711" long_provider anonymous_record 0
           anonymous_disposition); [|concrete_fits|reflexivity..|vm_compute; lia].
  apply (pending_disk_claimable anonymous_record); [done|concrete_fits|done|done].
Defined.

(** The store that a process leaves which stopped after it wrote the terminal
    evidence and before it removed the pending file. *)
Definition open_record : SchedulerCancelPending :=
  mkPending "job_1" "ares" 0 "user" res_pending [] 1000000.
Definition interrupted : disk :=
  mkDisk (<[done_path ended_record := DCancel ended_record]> (files (pending_disk open_record))) None 0 0.

Lemma registration_lost_witness :
  exists r' s1 s2,
    register_scheduler_cancel_identity_once "job_1" "ares" "4711" None true interrupted =
      (Ok (mkRegistration r' true), s1) /\
    claim_scheduler_cancel_attempt "job_1" "ares" "4711" "slurm" (30 # 1) (Some 9000000%Z) s1 =
      (Ok None, s2) /\
    ended "job_1" "ares" ended_record (files s2).
Proof.
  exists (registered open_record "4711" None interrupted).
  apply (registration_lost_after_interrupted_move open_record ended_record "4711" None "slurm"
           (30 # 1) 9000000 interrupted); [|apply lookup_insert_eq|reflexivity|reflexivity|concrete_fits|reflexivity..].
  split; [|done..|concrete_fits|concrete_fits].
  cbn [files interrupted pending_disk]. rewrite lookup_insert_ne by (by intros ?%path_family).
  apply lookup_singleton_eq.
Defined.
