(* ===== verification/LeaseRecords.v ===== *)
(** * Lease reference names and capacity documents ([queue_lease_records.py])

    Pure codecs.  A lease is named on disk by short tokens, 16 hexadecimal digits
    of a SHA-256 digest, joined with dots; a capacity aggregate counts the live
    leases per cluster and job kind, and a checkpoint binds one aggregate by its
    digest.  Decoders re-validate every field. *)

From S2P Require Import Prelude Sha256 Json Decimal Identifiers Models Store.
From stdpp Require Import base list strings sets gmap.
From Stdlib Require Import ZArith Lia Sorted.
From Stdlib Require Ascii String.
Open Scope Z_scope.

(** ** Text helpers *)

(** [s.split(sep)] on one character. *)
Fixpoint str_split (sep : Ascii.ascii) (s : string) : list string :=
  match s with
  | EmptyString => [EmptyString]
  | String c s' =>
      if bool_decide (c = sep) then EmptyString :: str_split sep s'
      else match str_split sep s' with
           | p :: ps => String c p :: ps
           | [] => [String c EmptyString]
           end
  end.

Definition dot : Ascii.ascii := Ascii.ascii_of_N 46.
Definition dot_str : string := String dot EmptyString.

(** ** Tokens *)
Definition is_hex_of_length (n : nat) (s : string) : bool :=
  (String.length s =? n)%nat && str_forall is_lower_hex s.

(** [_is_sha256_digest], [is_capacity_identity] *)
Definition _is_sha256_digest (v : option json) : bool :=
  match v with Some (JStr s) => is_hex_of_length 64 s | _ => false end.
Definition is_capacity_identity (v : option json) : bool :=
  match v with Some (JStr s) => is_hex_of_length 32 s | _ => false end.

(** [is_short_ref_token] *)
Definition is_short_ref_token (s : string) : bool := is_hex_of_length 16 s.

(** [_stable_ref_token] of its variadic arguments. *)
Definition _stable_ref_token (values : list string) : string :=
  take_str 32 (sha256_hex (str_join nul values)).

Definition lease_index_token (lease_id : string) : string :=
  take_str 16 (_stable_ref_token ["lease"; lease_id]).
Definition lease_job_token (job_id : string) : string :=
  take_str 16 (_stable_ref_token ["job"; job_id]).
Definition lease_endpoint_token (endpoint_id : string) : string :=
  take_str 16 (_stable_ref_token ["endpoint"; endpoint_id]).
Definition lease_cluster_token (cluster : string) : string :=
  take_str 16 (_stable_ref_token ["cluster"; cluster]).

(** [lease_expiry_key]: a timestamp is already microseconds since the epoch. *)
Definition lease_expiry_key (t : Z) : Z := t.

Definition lease_kind_code (k : JobKind) : string :=
  match k with
  | JARVIS => "j"
  | REMOTE_AGENT => "r"
  | MCP_CALL => "m"
  | INPUT_INGEST => "i"
  end.

(** The inverse table of [parse_lease_expiry_ref_name]. *)
Definition kind_of_code (c : string) : option JobKind :=
  list_find (fun k => lease_kind_code k = c) all_job_kinds ≫= fun p => Some p.2.

Definition lease_identity_token_from_parts
    (expires_key : Z) (cluster_token kind_code endpoint_token job_token lease_token : string)
  : string :=
  take_str 16 (_stable_ref_token
    ["lease-identity-v2"; pad20 expires_key; cluster_token; kind_code; endpoint_token;
     job_token; lease_token]).

Definition lease_identity_token (i : LeaseIndexIdentity) : string :=
  lease_identity_token_from_parts
    (lease_expiry_key (ix_expires_at i)) (lease_cluster_token (ix_cluster i))
    (lease_kind_code (ix_job_kind i)) (lease_endpoint_token (ix_endpoint_id i))
    (lease_job_token (ix_job_id i)) (lease_index_token (ix_lease_id i)).

Definition lease_reference (i : LeaseIndexIdentity) : string * string :=
  (lease_index_token (ix_lease_id i), lease_identity_token i).

(** ** Reference names *)
Definition lease_scope_ref_name_from_tokens (lease_token identity_token : string)
    (scope : list string) : string :=
  let scope_token :=
    take_str 16 (_stable_ref_token ("lease-scope" :: lease_token :: identity_token :: scope)) in
  str_join dot_str [lease_token; identity_token; scope_token; "ref"].

Definition lease_scope_ref_name (i : LeaseIndexIdentity) (scope : list string) : string :=
  lease_scope_ref_name_from_tokens (lease_reference i).1 (lease_reference i).2 scope.

Definition lease_reference_from_scope_ref (name : string) (scope : list string)
  : option (string * string) :=
  match str_split dot name with
  | [lease_token; identity_token; scope_token; suffix] =>
      if negb (bool_decide (suffix = "ref")) then None
      else if negb (forallb is_short_ref_token [lease_token; identity_token; scope_token]) then None
      else if bool_decide
                (name = lease_scope_ref_name_from_tokens lease_token identity_token scope)
           then Some (lease_token, identity_token)
           else None
  | _ => None
  end.

Definition parse_lease_reference_key (value : string) : option (string * string) :=
  match str_split dot value with
  | [a; b] => if is_short_ref_token a && is_short_ref_token b then Some (a, b) else None
  | _ => None
  end.

Definition parse_lease_identity_ref_name (name : string) : option (string * string) :=
  if negb (ends_with ".ref" name) then None
  else parse_lease_reference_key (take_str (String.length name - 4) name).

Definition lease_expiry_ref_name (i : LeaseIndexIdentity) : string :=
  str_join dot_str
    [pad20 (lease_expiry_key (ix_expires_at i)); lease_cluster_token (ix_cluster i);
     lease_kind_code (ix_job_kind i); lease_endpoint_token (ix_endpoint_id i);
     lease_job_token (ix_job_id i); (lease_reference i).1; (lease_reference i).2; "ref"].

Record LeaseExpiryParts := mkExpiryParts {
  ep_expires_key : Z;
  ep_cluster_token : string;
  ep_job_kind : JobKind;
  ep_endpoint_token : string;
  ep_job_token : string;
  ep_lease_token : string;
  ep_identity_token : string;
}.

(** [parse_lease_expiry_ref_name] for a name of ASCII characters ([str.isdigit]
    and [int] also accept other decimal digits). *)
Definition parse_lease_expiry_ref_name (name : string) : option LeaseExpiryParts :=
  match str_split dot name with
  | [expires_raw; cluster_token; kind_code; endpoint_token; job_token; lease_token;
     identity_token; suffix] =>
      if negb (bool_decide (suffix = "ref")) then None
      else match kind_of_code kind_code with
      | None => None
      | Some job_kind =>
          if negb ((String.length expires_raw =? 20)%nat && str_forall is_digit expires_raw) then None
          else
            let expires_key := int_of_digits 0 expires_raw in
            if negb (forallb is_short_ref_token
                       [cluster_token; endpoint_token; job_token; lease_token; identity_token])
            then None
            else if bool_decide
                 (identity_token = lease_identity_token_from_parts expires_key cluster_token
                                     kind_code endpoint_token job_token lease_token)
            then Some (mkExpiryParts expires_key cluster_token job_kind endpoint_token job_token
                                     lease_token identity_token)
            else None
      end
  | _ => None
  end.

(** ** Capacity counts *)
Abbreviation capacity_counts := (list (string * list (JobKind * Z))).

Definition sum_Z (l : list Z) : Z := foldr Z.add 0 l.

(** [sum(sum(by_kind.values()) for by_kind in counts.values())] *)
Definition total_leases (counts : capacity_counts) : Z :=
  sum_Z ((fun kv => sum_Z kv.2.*2) <$> counts).
Definition total_scopes (counts : capacity_counts) : nat :=
  foldr (fun kv n => (length kv.2 + n)%nat) 0%nat counts.

(** The inner loop of [normalize_lease_capacity_counts]. *)
Fixpoint normalize_kind_counts (items selected : list (JobKind * Z))
  : result (list (JobKind * Z)) :=
  match items with
  | [] => Ok selected
  | (kind, count) :: rest =>
      if count <=? 0 then
        Err (QueueConflictError "lease capacity aggregate counts must be positive integers")
      else if bool_decide (kind ∈ selected.*1) then
        Err (QueueConflictError "lease capacity aggregate repeats a job kind")
      else normalize_kind_counts rest (selected ++ [(kind, count)])
  end.

(** The outer loop. *)
Fixpoint normalize_clusters (items normalized : capacity_counts) : result capacity_counts :=
  match items with
  | [] => Ok normalized
  | (cluster_token, kind_counts) :: rest =>
      if negb (is_short_ref_token cluster_token) then
        Err (QueueConflictError "lease capacity aggregate has an invalid cluster scope")
      else
        selected ← normalize_kind_counts kind_counts [];
        match selected with
        | [] => Err (QueueConflictError "lease capacity aggregate contains an empty cluster scope")
        | _ => normalize_clusters rest (dict_set cluster_token selected normalized)
        end
  end.

(** [normalize_lease_capacity_counts]; the loop's running [scopes] and [total]
    count every entry of the argument. *)
Definition normalize_lease_capacity_counts (counts : capacity_counts) : result capacity_counts :=
  normalized ← normalize_clusters counts [];
  if MAX_LEASE_CAPACITY_SCOPES <? Z.of_nat (total_scopes counts) then
    Err (QueueConflictError "lease capacity aggregate exceeds its nonzero scope bound of ")
  else if MAX_LIVE_LEASE_RECORDS <? total_leases counts then
    Err (QueueConflictError "lease capacity aggregate exceeds its live lease bound of ")
  else Ok normalized.

Definition kind_entry (kc : JobKind * Z) : string * Z := (JobKind_value kc.1, kc.2).

(** [serialized_lease_capacity_counts] *)
Definition serialized_lease_capacity_counts (counts : capacity_counts)
  : list (string * list (string * Z)) :=
  (fun kv => (kv.1, sort_by key_leb (kind_entry <$> kv.2))) <$> sort_by key_leb counts.

Definition json_entry (kc : string * Z) : string * json := (kc.1, JInt kc.2).
Definition json_scope (kv : string * list (string * Z)) : string * json :=
  (kv.1, JObj (json_entry <$> kv.2)).
Definition json_counts (c : list (string * list (string * Z))) : json := JObj (json_scope <$> c).

(** ** Aggregates and checkpoints *)
Record LeaseCapacityAggregate := mkAggregate {
  ag_epoch_id : string;
  ag_generation : Z;
  ag_checkpoint_id : string;
  ag_global_live_leases : Z;
  ag_cluster_kind_counts : capacity_counts;
  ag_document_sha256 : string;
}.

Record LeaseCapacityCheckpoint := mkCheckpoint {
  cp_epoch_id : string;
  cp_generation : Z;
  cp_checkpoint_id : string;
  cp_aggregate_document_sha256 : string;
  cp_document_sha256 : string;
}.

#[export] Instance LeaseCapacityCheckpoint_eq_dec : EqDecision LeaseCapacityCheckpoint.
Proof. solve_decision. Defined.

Record LeaseCapacityPair := mkPair {
  pair_aggregate : LeaseCapacityAggregate;
  pair_checkpoint : LeaseCapacityCheckpoint;
}.

Definition LEASE_CAPACITY_AGGREGATE_SCHEMA : string := "clio-relay.lease-capacity-aggregate.v1".
Definition LEASE_CAPACITY_CHECKPOINT_SCHEMA : string := "clio-relay.lease-capacity-checkpoint.v1".

(** [canonical_document_sha256] *)
Definition canonical_document_sha256 (fields : list (string * json)) : string :=
  canonical_sha256 (JObj fields).

(** [lease_capacity_aggregate_digest_payload] *)
Definition lease_capacity_aggregate_digest_payload (epoch : string) (gen : Z) (cp : string)
    (total : Z) (counts : capacity_counts) : list (string * json) :=
  [("schema_version", JStr LEASE_CAPACITY_AGGREGATE_SCHEMA); ("epoch_id", JStr epoch);
   ("generation", JInt gen); ("checkpoint_id", JStr cp); ("global_live_leases", JInt total);
   ("cluster_kind_counts", json_counts (serialized_lease_capacity_counts counts))].

(** [lease_capacity_aggregate_document] *)
Definition lease_capacity_aggregate_document (a : LeaseCapacityAggregate) : json :=
  JObj (lease_capacity_aggregate_digest_payload (ag_epoch_id a) (ag_generation a)
          (ag_checkpoint_id a) (ag_global_live_leases a) (ag_cluster_kind_counts a)
        ++ [("document_sha256", JStr (ag_document_sha256 a))]).

(** [lease_capacity_checkpoint_digest_payload] *)
Definition lease_capacity_checkpoint_digest_payload (epoch : string) (gen : Z) (cp digest : string)
  : list (string * json) :=
  [("schema_version", JStr LEASE_CAPACITY_CHECKPOINT_SCHEMA); ("epoch_id", JStr epoch);
   ("generation", JInt gen); ("checkpoint_id", JStr cp);
   ("aggregate_document_sha256", JStr digest)].

(** [lease_capacity_checkpoint_document] *)
Definition lease_capacity_checkpoint_document (c : LeaseCapacityCheckpoint) : json :=
  JObj (lease_capacity_checkpoint_digest_payload (cp_epoch_id c) (cp_generation c)
          (cp_checkpoint_id c) (cp_aggregate_document_sha256 c)
        ++ [("document_sha256", JStr (cp_document_sha256 c))]).

(** [x or default()] on an optional string, with the drawn value at hand. *)
Definition or_drawn (o : option string) (drawn : string) : string :=
  match o with
  | Some s => if str_nonempty s then s else drawn
  | None => drawn
  end.

(** [new_lease_capacity_pair]; [fresh1] and [fresh2] are the values of the two
    [uuid4().hex] calls. *)
Definition new_lease_capacity_pair (counts : capacity_counts) (epoch_id : option string)
    (gen : Z) (checkpoint_id : option string) (fresh1 fresh2 : string)
  : result LeaseCapacityPair :=
  normalized ← normalize_lease_capacity_counts counts;
  let epoch := or_drawn epoch_id fresh1 in
  let cp := or_drawn checkpoint_id fresh2 in
  let total := total_leases normalized in
  let digest := canonical_document_sha256
    (lease_capacity_aggregate_digest_payload epoch gen cp total normalized) in
  let checkpoint_digest := canonical_document_sha256
    (lease_capacity_checkpoint_digest_payload epoch gen cp digest) in
  Ok (mkPair (mkAggregate epoch gen cp total normalized digest)
             (mkCheckpoint epoch gen cp digest checkpoint_digest)).

(** ** Decoders *)
Definition conflict (text : string) : exn := QueueConflictError text.

(** The value of a field known to be a string or an integer. *)
Definition str_of (v : option json) : string :=
  match v with Some (JStr s) => s | _ => EmptyString end.
Definition int_of (v : option json) : option Z :=
  match v with Some (JInt z) => Some z | _ => None end.

(** The loop over one cluster's job kinds. *)
Fixpoint decode_kind_counts (items : list (string * json)) (parsed : list (JobKind * Z))
  : result (list (JobKind * Z)) :=
  match items with
  | [] => Ok parsed
  | (raw_kind, raw_count) :: rest =>
      match JobKind_of_value raw_kind with
      | None => Err (conflict "has an invalid job kind")
      | Some kind =>
          match raw_count with
          | JInt count => decode_kind_counts rest (dict_set kind count parsed)
          | _ => Err (conflict "has an invalid lease count")
          end
      end
  end.

(** The loop over the clusters. *)
Fixpoint decode_clusters (items : list (string * json)) (counts : capacity_counts)
  : result capacity_counts :=
  match items with
  | [] => Ok counts
  | (cluster_token, JObj raw_kind_counts) :: rest =>
      parsed ← decode_kind_counts raw_kind_counts [];
      decode_clusters rest (dict_set cluster_token parsed counts)
  | _ => Err (conflict "has an invalid cluster scope")
  end.

(** [lease_capacity_aggregate_from_document] *)
Definition lease_capacity_aggregate_from_document (value : json) : result LeaseCapacityAggregate :=
  match value with
  | JObj d =>
      if negb (keys_are ["schema_version"; "epoch_id"; "generation"; "checkpoint_id";
                         "global_live_leases"; "cluster_kind_counts"; "document_sha256"] d)
         || negb (is_string LEASE_CAPACITY_AGGREGATE_SCHEMA (dict_get "schema_version" d))
      then Err (conflict "has an unsupported schema or fields")
      else
        let epoch := dict_get "epoch_id" d in
        let cp := dict_get "checkpoint_id" d in
        let digest := dict_get "document_sha256" d in
        match int_of (dict_get "generation" d), int_of (dict_get "global_live_leases" d),
              dict_get "cluster_kind_counts" d with
        | Some gen, Some total, Some (JObj raw_counts) =>
            if negb (is_capacity_identity epoch) || (gen <? 0) || negb (is_capacity_identity cp)
               || negb ((0 <=? total) && (total <=? MAX_LIVE_LEASE_RECORDS))
               || negb (_is_sha256_digest digest)
            then Err (conflict "has invalid identity or count fields")
            else
              counts ← decode_clusters raw_counts [];
              normalized ← normalize_lease_capacity_counts counts;
              if negb (total_leases normalized =? total) then
                Err (conflict "global and scoped counts disagree")
              else if negb (bool_decide (canonical_document_sha256
                     (lease_capacity_aggregate_digest_payload (str_of epoch) gen (str_of cp) total
                        normalized) = str_of digest))
              then Err (conflict "checksum mismatch")
              else Ok (mkAggregate (str_of epoch) gen (str_of cp) total normalized (str_of digest))
        | _, _, _ => Err (conflict "has invalid identity or count fields")
        end
  | _ => Err (conflict "is not an object")
  end.

(** [lease_capacity_checkpoint_from_document] *)
Definition lease_capacity_checkpoint_from_document (value : json) : result LeaseCapacityCheckpoint :=
  match value with
  | JObj d =>
      if negb (keys_are ["schema_version"; "epoch_id"; "generation"; "checkpoint_id";
                         "aggregate_document_sha256"; "document_sha256"] d)
         || negb (is_string LEASE_CAPACITY_CHECKPOINT_SCHEMA (dict_get "schema_version" d))
      then Err (conflict "has an unsupported schema or fields")
      else
        let epoch := dict_get "epoch_id" d in
        let cp := dict_get "checkpoint_id" d in
        let aggregate_digest := dict_get "aggregate_document_sha256" d in
        let digest := dict_get "document_sha256" d in
        match int_of (dict_get "generation" d) with
        | Some gen =>
            if negb (is_capacity_identity epoch) || (gen <? 0) || negb (is_capacity_identity cp)
               || negb (_is_sha256_digest aggregate_digest) || negb (_is_sha256_digest digest)
            then Err (conflict "has invalid identity fields")
            else if negb (bool_decide (canonical_document_sha256
                   (lease_capacity_checkpoint_digest_payload (str_of epoch) gen (str_of cp)
                      (str_of aggregate_digest)) = str_of digest))
            then Err (conflict "checksum mismatch")
            else Ok (mkCheckpoint (str_of epoch) gen (str_of cp) (str_of aggregate_digest)
                                  (str_of digest))
        | None => Err (conflict "has invalid identity fields")
        end
  | _ => Err (conflict "is not an object")
  end.

(** [validate_lease_capacity_pair] *)
Definition pair_bound (p : LeaseCapacityPair) : bool :=
  bool_decide (cp_epoch_id (pair_checkpoint p) = ag_epoch_id (pair_aggregate p)) &&
  bool_decide (cp_generation (pair_checkpoint p) = ag_generation (pair_aggregate p)) &&
  bool_decide (cp_checkpoint_id (pair_checkpoint p) = ag_checkpoint_id (pair_aggregate p)) &&
  bool_decide (cp_aggregate_document_sha256 (pair_checkpoint p)
               = ag_document_sha256 (pair_aggregate p)).

Definition validate_lease_capacity_pair (p : LeaseCapacityPair) : result unit :=
  raise_unless (pair_bound p) (conflict "aggregate and checkpoint disagree").

(** [lease_capacity_pair_payload] *)
Definition lease_capacity_pair_payload (p : LeaseCapacityPair) : json :=
  JObj [("aggregate", lease_capacity_aggregate_document (pair_aggregate p));
        ("checkpoint", lease_capacity_checkpoint_document (pair_checkpoint p))].

(** [lease_capacity_pair_from_payload] *)
Definition lease_capacity_pair_from_payload (value : json) : result LeaseCapacityPair :=
  match value with
  | JObj d =>
      if negb (keys_are ["aggregate"; "checkpoint"] d) then
        Err (conflict "is not a lease capacity pair")
      else
        a ← lease_capacity_aggregate_from_document (default JNull (dict_get "aggregate" d));
        c ← lease_capacity_checkpoint_from_document (default JNull (dict_get "checkpoint" d));
        let p := mkPair a c in
        _ ← validate_lease_capacity_pair p;
        Ok p
  | _ => Err (conflict "is not a lease capacity pair")
  end.

(** Equality of two aggregates: the source compares dictionaries, which ignores
    the order of their entries; the serialized counts are in key order. *)
Definition aggregate_key (a : LeaseCapacityAggregate) :=
  (ag_epoch_id a, ag_generation a, ag_checkpoint_id a, ag_global_live_leases a,
   serialized_lease_capacity_counts (ag_cluster_kind_counts a), ag_document_sha256 a).
Definition aggregate_eqb (a b : LeaseCapacityAggregate) : bool :=
  bool_decide (aggregate_key a = aggregate_key b).
