(* ===== verification/LeaseDocuments.v ===== *)
(** * Capacity documents round-trip

    Well-formedness of capacity counts, what normalization and the decoders
    accept, and that encoding followed by decoding is the identity up to the
    order of dictionary entries. *)

From S2P Require Import Prelude Sha256 Json JsonSize Identifiers Models Store LeaseRecords LeaseRecordsProofs.
From stdpp Require Import base list strings sets gmap sorting.
From Stdlib Require Import ZArith Lia Sorted.
From Stdlib Require Ascii String.
Open Scope Z_scope.

(** ** Well-formed counts *)
Definition kinds_ok (l : list (JobKind * Z)) : Prop :=
  l <> [] /\ NoDup l.*1 /\ Forall (fun kc => 0 < kc.2) l.

Definition counts_ok (c : capacity_counts) : Prop :=
  NoDup c.*1 /\ Forall (fun kv => is_short_ref_token kv.1 = true /\ kinds_ok kv.2) c.

Definition counts_bounded (c : capacity_counts) : Prop :=
  Z.of_nat (total_scopes c) <= MAX_LEASE_CAPACITY_SCOPES /\ total_leases c <= MAX_LIVE_LEASE_RECORDS.

Lemma NoDup_snoc {A} (l : list A) x : x ∉ l -> NoDup l -> NoDup (l ++ [x]).
Proof.
  intros Hx Hl. apply NoDup_app. split_and!; [done| |apply NoDup_singleton].
  intros y Hy ->%list_elem_of_singleton. done.
Qed.

Lemma normalize_kinds_ok_acc items sel :
  NoDup (sel ++ items).*1 -> Forall (fun kc => 0 < kc.2) items ->
  normalize_kind_counts items sel = Ok (sel ++ items).
Proof.
  revert sel. induction items as [|[k n] items IH]; intros sel Hnd Hpos; cbn [normalize_kind_counts].
  { by rewrite app_nil_r. }
  apply Forall_cons in Hpos as [Hn Hpos]. cbn in Hn. rewrite (proj2 (Z.leb_gt _ _)) by lia.
  rewrite bool_decide_false.
  - rewrite IH; [by rewrite <- app_assoc| |done]. by rewrite <- app_assoc.
  - rewrite fmap_app, fmap_cons in Hnd. apply NoDup_app in Hnd as (_&Hd&_).
    intros Hin. apply (Hd k Hin). left.
Qed.

Lemma normalize_kinds_inv items sel l :
  normalize_kind_counts items sel = Ok l -> NoDup sel.*1 ->
  l = sel ++ items /\ Forall (fun kc => 0 < kc.2) items /\ NoDup l.*1.
Proof.
  revert sel. induction items as [|[k n] items IH]; intros sel; cbn [normalize_kind_counts].
  { intros [= <-] Hnd. by rewrite app_nil_r. }
  destruct (n <=? 0) eqn:Hn; [done|]. bool_prop. case_bool_decide as Hk; [done|].
  intros Hrun Hnd. apply IH in Hrun as (->&Hpos&Hl).
  - rewrite <- app_assoc in *. cbn [app] in *. split_and!; [done| |done]. by constructor.
  - rewrite fmap_app. by apply NoDup_snoc.
Qed.

Lemma normalize_kinds_ok l : kinds_ok l -> normalize_kind_counts l [] = Ok l.
Proof. intros (_&Hnd&Hpos). by apply normalize_kinds_ok_acc. Qed.

Lemma normalize_clusters_ok items acc :
  NoDup (acc ++ items).*1 ->
  Forall (fun kv => is_short_ref_token kv.1 = true /\ kinds_ok kv.2) items ->
  normalize_clusters items acc = Ok (acc ++ items).
Proof.
  revert acc. induction items as [|[t ks] items IH]; intros acc Hnd Hok; cbn [normalize_clusters].
  { by rewrite app_nil_r. }
  apply Forall_cons in Hok as [[Ht Hks] Hok]. cbn [fst snd] in *.
  rewrite Ht, (normalize_kinds_ok ks Hks). cbn [negb mbind result_bind].
  assert (Hne : ks <> []) by apply Hks. destruct ks as [|x ks]; [done|].
  rewrite dict_set_fresh.
  - rewrite IH; [by rewrite <- app_assoc| |done]. by rewrite <- app_assoc.
  - rewrite fmap_app, fmap_cons in Hnd. apply NoDup_app in Hnd as (_&Hd&_).
    intros Hin. apply (Hd t Hin). left.
Qed.

Lemma normalize_clusters_inv items acc n :
  normalize_clusters items acc = Ok n -> counts_ok acc ->
  counts_ok n /\ Forall (fun kv => is_short_ref_token kv.1 = true /\ kinds_ok kv.2) items.
Proof.
  revert acc. induction items as [|[t ks] items IH]; intros acc Hrun Hacc; cbn [normalize_clusters] in Hrun.
  { injection Hrun as <-. done. }
  destruct (is_short_ref_token t) eqn:Ht; cbn [negb] in Hrun; [|done].
  apply bind_ok in Hrun as (sel&Hsel&Hrun).
  apply normalize_kinds_inv in Hsel as (->&Hpos&Hnd); [|constructor]. cbn [app] in Hrun, Hnd.
  assert (Hks : kinds_ok ks) by (split_and!; [by intros ->|done|done]).
  destruct ks as [|x ks]; [by destruct Hks|].
  apply IH in Hrun as [Hn Hitems].
  - split; [done|]. by constructor.
  - destruct Hacc as [Hnd' Hall]. split; [by apply NoDup_dict_set|].
    clear -Hall Ht Hks. induction acc as [|[t' ks'] acc IH]; cbn [dict_set].
    + by constructor.
    + apply Forall_cons in Hall as [Hh Hall]. case_bool_decide; [by constructor|].
      constructor; [done|]. by apply IH.
Qed.

Lemma normalize_ok c :
  counts_ok c -> counts_bounded c -> normalize_lease_capacity_counts c = Ok c.
Proof.
  intros [Hnd Hall] [Hs Ht]. unfold normalize_lease_capacity_counts.
  rewrite (normalize_clusters_ok c []) by done. cbn [mbind result_bind app].
  by rewrite !(proj2 (Z.ltb_ge _ _)) by done.
Qed.

Lemma normalize_inv c n :
  NoDup c.*1 -> normalize_lease_capacity_counts c = Ok n ->
  n = c /\ counts_ok c /\ counts_bounded c.
Proof.
  intros Hnd Hrun. unfold normalize_lease_capacity_counts in Hrun.
  apply bind_ok in Hrun as (m&Hm&Hrun).
  destruct (_ <? Z.of_nat (total_scopes c)) eqn:Hs; [done|].
  destruct (_ <? total_leases c) eqn:Ht; [done|]. bool_prop. injection Hrun as <-.
  pose proof Hm as Hm'.
  apply normalize_clusters_inv in Hm as [_ Hall]; [|split; [constructor|constructor]].
  rewrite (normalize_clusters_ok c []) in Hm' by done. injection Hm' as <-. done.
Qed.

(** ** The canonical order of counts *)
Definition sort_kinds (l : list (JobKind * Z)) : list (JobKind * Z) :=
  sort_by (fun a b => str_leb (JobKind_value a.1) (JobKind_value b.1)) l.
Definition sorted_counts (c : capacity_counts) : capacity_counts :=
  (fun kv => (kv.1, sort_kinds kv.2)) <$> sort_by key_leb c.

Lemma sort_kinds_perm l : sort_kinds l ≡ₚ l.
Proof. apply sort_by_perm. Qed.

#[export] Instance JobKind_value_inj : Inj (=) (=) JobKind_value.
Proof. intros [] [] H; try done. Qed.

#[export] Instance kind_entry_inj : Inj (=) (=) kind_entry.
Proof. intros [k n] [k' n'] [= H1%(inj JobKind_value) ->]. by subst. Qed.

Lemma serialized_kinds l : sort_by key_leb (kind_entry <$> l) = kind_entry <$> sort_kinds l.
Proof. apply (sort_by_fmap kind_entry key_leb l). Qed.

Definition encode_scope (kv : string * list (JobKind * Z)) : string * list (string * Z) :=
  (kv.1, kind_entry <$> kv.2).

Lemma serialized_sorted c :
  serialized_lease_capacity_counts c = encode_scope <$> sorted_counts c.
Proof.
  unfold serialized_lease_capacity_counts, sorted_counts. rewrite <- list_fmap_compose.
  apply list_fmap_ext. intros _ kv _. cbn. by rewrite serialized_kinds.
Qed.

Lemma keys_sorted c : (sorted_counts c).*1 = (sort_by key_leb c).*1.
Proof. unfold sorted_counts. rewrite <- list_fmap_compose. done. Qed.

Lemma kinds_ok_sort l : kinds_ok l -> kinds_ok (sort_kinds l).
Proof.
  intros (Hne&Hnd&Hpos). split_and!; rewrite ?sort_kinds_perm; try done.
  intros Heq. apply Hne. apply Permutation_nil_r. by rewrite <- (sort_kinds_perm l), Heq.
Qed.

Lemma counts_ok_sort c : counts_ok c -> counts_ok (sorted_counts c).
Proof.
  intros [Hnd Hall]. split.
  - rewrite keys_sorted. by rewrite sort_by_perm.
  - unfold sorted_counts. apply Forall_fmap. rewrite sort_by_perm.
    eapply Forall_impl; [exact Hall|]. intros [t ks] [Ht Hks]. cbn. split; [done|]. by apply kinds_ok_sort.
Qed.

#[export] Instance sum_Z_perm : Proper ((≡ₚ) ==> (=)) sum_Z.
Proof. intros l k Hp. unfold sum_Z. by apply (foldr_permutation_proper' _ _ _). Qed.

#[export] Instance total_leases_perm : Proper ((≡ₚ) ==> (=)) total_leases.
Proof. intros l k Hp. unfold total_leases. by rewrite Hp. Qed.

#[export] Instance total_scopes_perm : Proper ((≡ₚ) ==> (=)) total_scopes.
Proof.
  intros l k Hp. unfold total_scopes. induction Hp as [|x l k _ IH|x y l|l k m _ IH1 _ IH2];
    cbn in *; try lia; congruence.
Qed.

Lemma total_leases_sorted c : total_leases (sorted_counts c) = total_leases c.
Proof.
  rewrite <- (sort_by_perm key_leb c) at 2. unfold sorted_counts, total_leases.
  rewrite <- list_fmap_compose. f_equal. apply list_fmap_ext. intros _ kv _. cbn.
  by rewrite sort_kinds_perm.
Qed.

Lemma total_scopes_sorted c : total_scopes (sorted_counts c) = total_scopes c.
Proof.
  rewrite <- (sort_by_perm key_leb c) at 2. unfold sorted_counts, total_scopes.
  induction (sort_by key_leb c) as [|kv l IH]; [done|]. cbn. by rewrite IH, sort_kinds_perm.
Qed.

Lemma serialized_of_sorted c :
  NoDup c.*1 -> Forall (fun kv => NoDup kv.2.*1) c ->
  serialized_lease_capacity_counts (sorted_counts c) = serialized_lease_capacity_counts c.
Proof.
  intros Hnd Hall. rewrite !serialized_sorted. f_equal. unfold sorted_counts at 1.
  assert (Hs : sort_by key_leb (sorted_counts c) = sorted_counts c).
  { eapply (StronglySorted_unique_strong (fun a b => key_leb a b = true)); [|apply sort_by_key_sorted| |apply sort_by_perm].
    - intros [x v] [y w] Hx Hy H1 H2. unfold key_leb in H1, H2. cbn in *.
      pose proof (str_leb_antisym _ _ H1 H2) as ->. f_equal. rewrite sort_by_perm in Hx.
      assert (Hd : NoDup (sorted_counts c).*1) by (rewrite keys_sorted; by rewrite sort_by_perm).
      pose proof (proj2 (dict_get_elem _ _ _ Hd) Hx). pose proof (proj2 (dict_get_elem _ _ _ Hd) Hy). congruence.
    - unfold sorted_counts. pose proof (sort_by_key_sorted c) as Hsort.
      induction Hsort as [|kv l Hl IH Hkv]; cbn; [constructor|]. constructor; [done|].
      apply Forall_fmap. exact Hkv. }
  rewrite Hs. unfold sorted_counts. rewrite <- list_fmap_compose. apply list_fmap_ext.
  intros i kv Hi. cbn. f_equal.
  assert (Hk : NoDup kv.2.*1).
  { rewrite Forall_forall in Hall. apply Hall. rewrite <- (sort_by_perm key_leb c).
    by eapply list_elem_of_lookup_2. }
  assert (Hinj : sort_by key_leb (kind_entry <$> sort_kinds kv.2) = sort_by key_leb (kind_entry <$> kv.2)).
  { apply sort_by_key_perm; [|by rewrite sort_kinds_perm].
    rewrite sort_kinds_perm. replace ((kind_entry <$> kv.2).*1) with (JobKind_value <$> kv.2.*1)
      by (rewrite <- !list_fmap_compose; done).
    by apply (NoDup_fmap_2 _). }
  rewrite !serialized_kinds in Hinj. by apply (inj (fmap kind_entry)) in Hinj.
Qed.

(** ** Decoding what was encoded *)
Lemma decode_kinds_run l acc :
  NoDup (acc ++ l).*1 -> decode_kind_counts (json_entry <$> (kind_entry <$> l)) acc = Ok (acc ++ l).
Proof.
  revert acc. induction l as [|[k n] l IH]; intros acc Hnd; cbn [fmap list_fmap decode_kind_counts].
  { by rewrite app_nil_r. }
  change (json_entry (kind_entry (k, n))) with (JobKind_value k, JInt n). cbv iota beta.
  rewrite JobKind_of_value_value. rewrite dict_set_fresh.
  - rewrite IH; [by rewrite <- app_assoc|]. by rewrite <- app_assoc.
  - rewrite fmap_app, fmap_cons in Hnd. apply NoDup_app in Hnd as (_&Hd&_).
    intros Hin. apply (Hd k Hin). left.
Qed.

Lemma decode_clusters_run c acc :
  NoDup (acc ++ c).*1 -> Forall (fun kv => NoDup kv.2.*1) c ->
  decode_clusters (json_scope <$> (encode_scope <$> c)) acc = Ok (acc ++ c).
Proof.
  revert acc. induction c as [|[t ks] c IH]; intros acc Hnd Hall; cbn [fmap list_fmap decode_clusters].
  { by rewrite app_nil_r. }
  apply Forall_cons in Hall as [Hk Hall].
  change (json_scope (encode_scope (t, ks))) with (t, JObj (json_entry <$> (kind_entry <$> ks))).
  cbv iota beta. rewrite (decode_kinds_run ks []) by done. cbn [mbind result_bind app].
  rewrite dict_set_fresh.
  - rewrite IH; [by rewrite <- app_assoc| |done]. by rewrite <- app_assoc.
  - rewrite fmap_app, fmap_cons in Hnd. apply NoDup_app in Hnd as (_&Hd&_).
    intros Hin. apply (Hd t Hin). left.
Qed.

Lemma decode_kinds_nodup items acc l :
  decode_kind_counts items acc = Ok l -> NoDup acc.*1 -> NoDup l.*1.
Proof.
  revert acc. induction items as [|[k v] items IH]; intros acc; cbn [decode_kind_counts].
  { by intros [= <-]. }
  destruct (JobKind_of_value k); [|done]. destruct v; try done. intros Hrun Hnd.
  eapply IH; [exact Hrun|]. by apply NoDup_dict_set.
Qed.

Lemma decode_clusters_nodup items acc c :
  decode_clusters items acc = Ok c -> NoDup acc.*1 -> NoDup c.*1.
Proof.
  revert acc. induction items as [|[t v] items IH]; intros acc; cbn [decode_clusters].
  { by intros [= <-]. }
  destruct v; try done. intros (p&Hp&Hrun)%bind_ok Hnd.
  eapply IH; [exact Hrun|]. by apply NoDup_dict_set.
Qed.

(** ** Well-formed aggregates, checkpoints and pairs *)
Record aggregate_ok (a : LeaseCapacityAggregate) : Prop := {
  ao_epoch : is_hex_of_length 32 (ag_epoch_id a) = true;
  ao_generation : 0 <= ag_generation a;
  ao_checkpoint : is_hex_of_length 32 (ag_checkpoint_id a) = true;
  ao_counts : counts_ok (ag_cluster_kind_counts a);
  ao_bounded : counts_bounded (ag_cluster_kind_counts a);
  ao_total : ag_global_live_leases a = total_leases (ag_cluster_kind_counts a);
  ao_digest : ag_document_sha256 a = canonical_document_sha256
    (lease_capacity_aggregate_digest_payload (ag_epoch_id a) (ag_generation a) (ag_checkpoint_id a)
       (ag_global_live_leases a) (ag_cluster_kind_counts a));
}.

Record checkpoint_ok (c : LeaseCapacityCheckpoint) : Prop := {
  co_epoch : is_hex_of_length 32 (cp_epoch_id c) = true;
  co_generation : 0 <= cp_generation c;
  co_checkpoint : is_hex_of_length 32 (cp_checkpoint_id c) = true;
  co_aggregate : is_hex_of_length 64 (cp_aggregate_document_sha256 c) = true;
  co_digest : cp_document_sha256 c = canonical_document_sha256
    (lease_capacity_checkpoint_digest_payload (cp_epoch_id c) (cp_generation c)
       (cp_checkpoint_id c) (cp_aggregate_document_sha256 c));
}.

Definition pair_ok (p : LeaseCapacityPair) : Prop :=
  aggregate_ok (pair_aggregate p) /\ checkpoint_ok (pair_checkpoint p) /\ pair_bound p = true.

Lemma digest_shape d : is_hex_of_length 64 (canonical_document_sha256 d) = true.
Proof.
  destruct (sha256_hex_shape (dumps (JObj d))) as [Hh Hl].
  unfold is_hex_of_length, canonical_document_sha256, canonical_sha256. by rewrite Hl, Hh.
Qed.

Lemma total_leases_nonneg c : counts_ok c -> 0 <= total_leases c.
Proof.
  intros [_ Hall]. unfold total_leases. induction Hall as [|kv c [_ (_&_&Hpos)] _ IH]; cbn; [lia|].
  enough (0 <= sum_Z kv.2.*2) by (unfold sum_Z in *; lia).
  clear -Hpos. induction Hpos as [|kc l Hkc _ IH]; cbn; [lia|]. unfold sum_Z in IH. lia.
Qed.

(** The aggregate with its counts in key order. *)
Definition canonical_aggregate (a : LeaseCapacityAggregate) : LeaseCapacityAggregate :=
  mkAggregate (ag_epoch_id a) (ag_generation a) (ag_checkpoint_id a) (ag_global_live_leases a)
    (sorted_counts (ag_cluster_kind_counts a)) (ag_document_sha256 a).

Lemma counts_ok_kinds c : counts_ok c -> Forall (fun kv => NoDup kv.2.*1) c.
Proof. intros [_ Hall]. eapply Forall_impl; [exact Hall|]. intros kv [_ (_&Hnd&_)]. done. Qed.

Lemma canonical_aggregate_key a :
  counts_ok (ag_cluster_kind_counts a) -> aggregate_key (canonical_aggregate a) = aggregate_key a.
Proof.
  intros Hc. unfold aggregate_key, canonical_aggregate.
  cbn [ag_epoch_id ag_generation ag_checkpoint_id ag_global_live_leases ag_cluster_kind_counts
       ag_document_sha256].
  rewrite serialized_of_sorted; [done|apply Hc|by apply counts_ok_kinds].
Qed.

Lemma aggregate_decodes a :
  aggregate_ok a ->
  lease_capacity_aggregate_from_document (lease_capacity_aggregate_document a) =
    Ok (canonical_aggregate a).
Proof.
  intros []. unfold lease_capacity_aggregate_document, lease_capacity_aggregate_from_document,
    lease_capacity_aggregate_digest_payload.
  set (d := _ ++ _). change (keys_are _ d) with true.
  change (is_string _ _) with true. cbn [negb orb].
  change (dict_get "epoch_id" d) with (Some (JStr (ag_epoch_id a))).
  change (dict_get "generation" d) with (Some (JInt (ag_generation a))).
  change (dict_get "checkpoint_id" d) with (Some (JStr (ag_checkpoint_id a))).
  change (dict_get "global_live_leases" d) with (Some (JInt (ag_global_live_leases a))).
  change (dict_get "cluster_kind_counts" d) with
    (Some (json_counts (serialized_lease_capacity_counts (ag_cluster_kind_counts a)))).
  change (dict_get "document_sha256" d) with (Some (JStr (ag_document_sha256 a))).
  cbn [int_of is_capacity_identity _is_sha256_digest str_of json_counts]. clear d.
  rewrite ao_epoch0, ao_checkpoint0. rewrite ao_digest0 at 1. rewrite digest_shape.
  rewrite (proj2 (Z.ltb_ge _ _)) by done.
  pose proof (total_leases_nonneg _ ao_counts0) as Hnn. destruct ao_bounded0 as [Hs Ht].
  rewrite ao_total0 at 1 2. rewrite (proj2 (Z.leb_le _ _)), (proj2 (Z.leb_le _ MAX_LIVE_LEASE_RECORDS)) by done.
  cbn [negb orb andb]. rewrite serialized_sorted.
  set (c := ag_cluster_kind_counts a) in *.
  rewrite (decode_clusters_run (sorted_counts c) []);
    [|by apply counts_ok_sort|by apply counts_ok_kinds, counts_ok_sort].
  cbn [mbind result_bind app]. rewrite normalize_ok; [|by apply counts_ok_sort|].
  2:{ split; [by rewrite total_scopes_sorted|by rewrite total_leases_sorted]. }
  cbn [mbind result_bind]. rewrite total_leases_sorted, <- ao_total0, Z.eqb_refl. cbn [negb].
  unfold lease_capacity_aggregate_digest_payload in *.
  rewrite serialized_of_sorted by (apply ao_counts0 || by apply counts_ok_kinds).
  rewrite <- ao_digest0. by rewrite bool_decide_true.
Qed.

Lemma checkpoint_decodes c :
  checkpoint_ok c ->
  lease_capacity_checkpoint_from_document (lease_capacity_checkpoint_document c) = Ok c.
Proof.
  intros []. unfold lease_capacity_checkpoint_document, lease_capacity_checkpoint_from_document.
  unfold lease_capacity_checkpoint_digest_payload at 1.
  set (d := _ ++ _). change (keys_are _ d) with true.
  change (is_string _ _) with true. cbn [negb orb].
  change (dict_get "epoch_id" d) with (Some (JStr (cp_epoch_id c))).
  change (dict_get "generation" d) with (Some (JInt (cp_generation c))).
  change (dict_get "checkpoint_id" d) with (Some (JStr (cp_checkpoint_id c))).
  change (dict_get "aggregate_document_sha256" d) with (Some (JStr (cp_aggregate_document_sha256 c))).
  change (dict_get "document_sha256" d) with (Some (JStr (cp_document_sha256 c))).
  cbn [int_of is_capacity_identity _is_sha256_digest str_of]. clear d.
  rewrite co_epoch0, co_checkpoint0, co_aggregate0, (proj2 (Z.ltb_ge _ _)) by done.
  rewrite co_digest0 at 1. rewrite digest_shape. cbn [negb orb].
  rewrite <- co_digest0, bool_decide_true by done. by destruct c.
Qed.

Lemma pair_decodes p :
  pair_ok p ->
  lease_capacity_pair_from_payload (lease_capacity_pair_payload p) =
    Ok (mkPair (canonical_aggregate (pair_aggregate p)) (pair_checkpoint p)).
Proof.
  intros (Ha&Hc&Hb). unfold lease_capacity_pair_payload, lease_capacity_pair_from_payload.
  change (keys_are _ _) with true. cbn [negb].
  change (default JNull (dict_get "aggregate" _)) with (lease_capacity_aggregate_document (pair_aggregate p)).
  change (default JNull (dict_get "checkpoint" _)) with (lease_capacity_checkpoint_document (pair_checkpoint p)).
  rewrite aggregate_decodes, checkpoint_decodes by done. cbn [mbind result_bind].
  unfold validate_lease_capacity_pair.
  change (pair_bound _) with (pair_bound p). by rewrite Hb.
Qed.

(** ** Only well-formed documents decode *)
Lemma identity_str v : is_capacity_identity v = true -> is_hex_of_length 32 (str_of v) = true.
Proof. by destruct v as [[]|]. Qed.
Lemma digest_str v : _is_sha256_digest v = true -> is_hex_of_length 64 (str_of v) = true.
Proof. by destruct v as [[]|]. Qed.

Lemma aggregate_decode_ok v a :
  lease_capacity_aggregate_from_document v = Ok a -> aggregate_ok a.
Proof.
  unfold lease_capacity_aggregate_from_document. destruct v as [| | | | | |d]; try done.
  destruct (_ || _); [done|].
  destruct (int_of (dict_get "generation" d)) as [gen|]; [|done].
  destruct (int_of (dict_get "global_live_leases" d)) as [total|]; [|done].
  destruct (dict_get "cluster_kind_counts" d) as [[| | | | | |raw]|]; try done.
  match goal with |- (if ?b then _ else _) = _ -> _ => destruct b eqn:Hb; [done|] end.
  bool_prop. intros (counts&Hdec&(n&Hnorm&Hrun)%bind_ok)%bind_ok.
  apply decode_clusters_nodup in Hdec; [|constructor].
  apply normalize_inv in Hnorm as (->&Hc&Hbd); [|done].
  destruct (total_leases counts =? total) eqn:Ht; cbn [negb] in Hrun; [|done]. bool_prop.
  case_bool_decide as Hd; cbn [negb] in Hrun; [|done]. injection Hrun as <-. subst total.
  split; cbn; try done; by apply identity_str.
Qed.

Lemma checkpoint_decode_ok v c :
  lease_capacity_checkpoint_from_document v = Ok c -> checkpoint_ok c.
Proof.
  unfold lease_capacity_checkpoint_from_document. destruct v as [| | | | | |d]; try done.
  destruct (_ || _); [done|].
  destruct (int_of (dict_get "generation" d)) as [gen|]; [|done].
  match goal with |- (if ?b then _ else _) = _ -> _ => destruct b eqn:Hb; [done|] end.
  bool_prop. case_bool_decide as Hd; cbn [negb]; [|done]. intros [= <-].
  split; cbn; try done; (by apply identity_str) || by apply digest_str.
Qed.

Lemma pair_decode_ok v p : lease_capacity_pair_from_payload v = Ok p -> pair_ok p.
Proof.
  unfold lease_capacity_pair_from_payload. destruct v as [| | | | | |d]; try done.
  destruct (negb _); [done|].
  intros (a&Ha&(c&Hc&(u&Hu&Hp)%bind_ok)%bind_ok)%bind_ok. injection Hp as <-.
  apply raise_unless_ok in Hu. split_and!; cbn; [by eapply aggregate_decode_ok|by eapply checkpoint_decode_ok|done].
Qed.

Lemma new_pair_ok counts epoch gen cp f1 f2 p :
  NoDup counts.*1 -> 0 <= gen ->
  is_hex_of_length 32 (or_drawn epoch f1) = true -> is_hex_of_length 32 (or_drawn cp f2) = true ->
  new_lease_capacity_pair counts epoch gen cp f1 f2 = Ok p ->
  pair_ok p /\ ag_cluster_kind_counts (pair_aggregate p) = counts /\
  ag_generation (pair_aggregate p) = gen /\ ag_epoch_id (pair_aggregate p) = or_drawn epoch f1.
Proof.
  intros Hnd Hg He Hc (n&Hn&[= <-])%bind_ok.
  apply normalize_inv in Hn as (->&Hok&Hbd); [|done].
  split; [|done]. split; [by split|]. split.
  - split; try done. apply digest_shape.
  - unfold pair_bound. cbn. by rewrite !bool_decide_true.
Qed.

(** Encoding a well-formed capacity pair and decoding it gives the same pair:
    the same checkpoint, and an aggregate equal to the original as the source
    compares aggregates. *)
Theorem capacity_pair_roundtrip p :
  pair_ok p ->
  exists a, lease_capacity_pair_from_payload (lease_capacity_pair_payload p) =
              Ok (mkPair a (pair_checkpoint p)) /\
            aggregate_eqb a (pair_aggregate p) = true.
Proof.
  intros Hp. eexists. split; [by apply pair_decodes|].
  apply bool_decide_true, canonical_aggregate_key. apply Hp.
Qed.

(** a decoded capacity pair is consistent, whatever the document was: positive
    counts on distinct scopes that add up to the declared number of live leases,
    within the bounds of the queue, a digest that matches, and a checkpoint that
    names this very aggregate. *)
Theorem decoded_pair_consistent v p :
  lease_capacity_pair_from_payload v = Ok p ->
  counts_ok (ag_cluster_kind_counts (pair_aggregate p)) /\
  ag_global_live_leases (pair_aggregate p) = total_leases (ag_cluster_kind_counts (pair_aggregate p)) /\
  0 <= ag_global_live_leases (pair_aggregate p) <= MAX_LIVE_LEASE_RECORDS /\
  cp_aggregate_document_sha256 (pair_checkpoint p) = canonical_document_sha256
    (lease_capacity_aggregate_digest_payload (ag_epoch_id (pair_aggregate p))
       (ag_generation (pair_aggregate p)) (ag_checkpoint_id (pair_aggregate p))
       (ag_global_live_leases (pair_aggregate p)) (ag_cluster_kind_counts (pair_aggregate p))) /\
  cp_generation (pair_checkpoint p) = ag_generation (pair_aggregate p).
Proof.
  intros (Ha&Hc&Hb)%pair_decode_ok. unfold pair_bound in Hb. bool_prop. destruct Ha, ao_bounded0.
  pose proof (total_leases_nonneg _ ao_counts0). split_and!; try done; congruence || lia.
Qed.

(** ** The records fit their byte bound

    The store refuses a capacity record of more than 4 MiB.  The bounds on live
    leases and nonzero scopes keep every record within it: a scope takes at most
    367 bytes, and there are at most ten thousand. *)

(** Generations whose decimal form is short; the code draws them by counting. *)
Definition MAX_GENERATION : Z := 2 ^ 1000.

Lemma size_kind_entry (kc : JobKind * Z) :
  0 < kc.2 <= MAX_LIVE_LEASE_RECORDS ->
  (12 * String.length (json_entry (kind_entry kc)).1 + 6 + size_bound (json_entry (kind_entry kc)).2 <= 167)%nat.
Proof.
  intros Hc. destruct kc as [k n]. cbn [kind_entry json_entry fst snd size_bound] in *.
  assert (Hb : (bits n <= 15)%nat) by (apply (bits_bound n 14); unfold MAX_LIVE_LEASE_RECORDS, MAX_ACTIVE_JOB_RECORDS in Hc; lia).
  assert (String.length (JobKind_value k) <= 12)%nat by (destruct k; cbn; lia). lia.
Qed.

Lemma sum_Z_elem (l : list Z) x : Forall (fun z => 0 <= z) l -> x ∈ l -> x <= sum_Z l.
Proof.
  induction 1 as [|y l Hy Hl IH]; [intros Hx; inversion Hx|]. unfold sum_Z in *. cbn.
  assert (0 <= foldr Z.add 0 l) by (clear -Hl; induction Hl; cbn; lia).
  intros [->|Hx]%elem_of_cons; [lia|]. specialize (IH Hx). lia.
Qed.

Lemma sum_Z_nonneg l : Forall (fun z => 0 <= z) l -> 0 <= sum_Z l.
Proof. unfold sum_Z. induction 1; cbn; lia. Qed.

Lemma kinds_nonneg ks : kinds_ok ks -> Forall (fun z => 0 <= z) ks.*2.
Proof.
  intros (_&_&Hpos). apply Forall_fmap. eapply Forall_impl; [exact Hpos|]. intros kc Hkc. cbn in *. lia.
Qed.

Lemma total_leases_elem c kv kc :
  counts_ok c -> kv ∈ c -> kc ∈ kv.2 -> 0 < kc.2 <= total_leases c.
Proof.
  intros [_ Hall] Hkv Hkc. rewrite Forall_forall in Hall. pose proof (Hall kv Hkv) as [_ Hk]. split.
  - destruct Hk as (_&_&Hpos). rewrite Forall_forall in Hpos. by apply Hpos.
  - transitivity (sum_Z kv.2.*2).
    + apply sum_Z_elem; [by apply kinds_nonneg|]. by apply (list_elem_of_fmap_2 snd).
    + apply sum_Z_elem; [|by apply (list_elem_of_fmap_2 (fun kv : string * list (JobKind * Z) => sum_Z kv.2.*2))].
      apply Forall_fmap, Forall_forall. intros kv' Hkv'. apply sum_Z_nonneg, kinds_nonneg, Hall, Hkv'.
Qed.

Lemma size_scope c kv :
  counts_ok c -> counts_bounded c -> kv ∈ c ->
  (12 * String.length kv.1 + 6 + (2 + sum_nat ((fun e => 12 * String.length e.1 + 6 + size_bound e.2)
     <$> (json_entry <$> sort_by key_leb (kind_entry <$> kv.2)))) <= 367 * length kv.2)%nat.
Proof.
  intros Hc [_ Hb] Hkv. pose proof Hc as [_ Hall]. rewrite Forall_forall in Hall.
  destruct (Hall kv Hkv) as [Ht (Hne&_&_)]. unfold is_short_ref_token, is_hex_of_length in Ht. bool_prop.
  rewrite sort_by_perm, <- !list_fmap_compose.
  match goal with |- context [sum_nat (?f <$> kv.2)] => pose proof (sum_nat_bound f 167 kv.2) as Hs end.
  assert (String.length kv.1 = 16%nat) by (by apply Nat.eqb_eq).
  assert (1 <= length kv.2)%nat by (destruct kv.2; [done|cbn; lia]).
  assert (Hk : Forall (fun kc => 12 * String.length (json_entry (kind_entry kc)).1 + 6
      + size_bound (json_entry (kind_entry kc)).2 <= 167)%nat kv.2); [|specialize (Hs Hk); lia].
  apply Forall_forall. intros kc Hkc. apply size_kind_entry.
  pose proof (total_leases_elem c kv kc Hc Hkv Hkc). lia.
Qed.

Lemma size_counts c :
  counts_ok c -> counts_bounded c ->
  (size_bound (json_counts (serialized_lease_capacity_counts c)) <= 2 + 367 * total_scopes c)%nat.
Proof.
  intros Hc Hb. unfold json_counts, serialized_lease_capacity_counts. cbn [size_bound].
  rewrite sort_by_perm, <- !list_fmap_compose. apply Nat.add_le_mono_l.
  match goal with |- (sum_nat (?f <$> c) <= _)%nat =>
    enough (Hl : forall l, Forall (fun kv => kv ∈ c) l -> (sum_nat (f <$> l) <= 367 * total_scopes l)%nat)
      by (by apply Hl, Forall_forall)
  end.
  unfold total_scopes. intros l.
  induction l as [|kv l IH]; intros Hall; [cbn; lia|]. apply Forall_cons in Hall as [Hkv Hall].
  specialize (IH Hall). cbn [fmap list_fmap foldr]. unfold sum_nat in *. cbn [foldr].
  pose proof (size_scope c kv Hc Hb Hkv) as Hs. unfold sum_nat in Hs.
  rewrite Nat.mul_add_distr_l. apply Nat.add_le_mono; [exact Hs|exact IH].
Qed.

(** The bytes of a capacity record are within the bound of its file. *)
Section fits.
Context `{World}.

Lemma hex_length n s : is_hex_of_length n s = true -> String.length s = n.
Proof. unfold is_hex_of_length. intros Hn. bool_prop. by apply Nat.eqb_eq. Qed.

Lemma generation_bits g : 0 <= g < MAX_GENERATION -> (bits g <= 1001)%nat.
Proof. apply (bits_bound g 1000). Qed.

Lemma aggregate_fits a :
  aggregate_ok a -> ag_generation a < MAX_GENERATION ->
  Z.of_nat (encoded_size (DJson (lease_capacity_aggregate_document a))) <= MAX_LEASE_CAPACITY_RECORD_BYTES.
Proof.
  intros Ha Hg. cbn [encoded_size].
  etransitivity; [apply inj_le, (length_dumps_default (lease_capacity_aggregate_document a))|].
  pose proof (size_counts _ (ao_counts _ Ha) (ao_bounded _ Ha)) as Hs.
  pose proof (hex_length _ _ (ao_epoch _ Ha)). pose proof (hex_length _ _ (ao_checkpoint _ Ha)).
  assert (Hd : String.length (ag_document_sha256 a) = 64%nat).
  { rewrite (ao_digest _ Ha). apply hex_length, digest_shape. }
  pose proof (generation_bits _ (conj (ao_generation _ Ha) Hg)) as Hgb.
  pose proof (total_leases_nonneg _ (ao_counts _ Ha)) as Hnn. destruct (ao_bounded _ Ha) as [Hsc Htl].
  assert (Htb : (bits (ag_global_live_leases a) <= 15)%nat).
  { rewrite (ao_total _ Ha). apply (bits_bound _ 14).
    unfold MAX_LIVE_LEASE_RECORDS, MAX_ACTIVE_JOB_RECORDS in Htl. lia. }
  unfold lease_capacity_aggregate_document, lease_capacity_aggregate_digest_payload.
  cbn [size_bound app fmap list_fmap fst snd].
  set (sc := size_bound (json_counts _)) in *. unfold sum_nat. cbn [foldr].
  unfold LEASE_CAPACITY_AGGREGATE_SCHEMA. cbn [String.length].
  unfold MAX_LEASE_CAPACITY_RECORD_BYTES, MAX_LEASE_CAPACITY_SCOPES, MAX_LIVE_LEASE_RECORDS, MAX_ACTIVE_JOB_RECORDS in *.
  lia.
Qed.

Lemma checkpoint_fits c :
  checkpoint_ok c -> cp_generation c < MAX_GENERATION ->
  Z.of_nat (encoded_size (DJson (lease_capacity_checkpoint_document c))) <= MAX_LEASE_CAPACITY_RECORD_BYTES.
Proof.
  intros Hc Hg. cbn [encoded_size].
  etransitivity; [apply inj_le, (length_dumps_default (lease_capacity_checkpoint_document c))|].
  pose proof (hex_length _ _ (co_epoch _ Hc)). pose proof (hex_length _ _ (co_checkpoint _ Hc)).
  pose proof (hex_length _ _ (co_aggregate _ Hc)).
  assert (Hd : String.length (cp_document_sha256 c) = 64%nat).
  { rewrite (co_digest _ Hc). apply hex_length, digest_shape. }
  pose proof (generation_bits _ (conj (co_generation _ Hc) Hg)) as Hgb.
  unfold lease_capacity_checkpoint_document, lease_capacity_checkpoint_digest_payload.
  cbn [size_bound app fmap list_fmap fst snd]. unfold sum_nat. cbn [foldr].
  unfold LEASE_CAPACITY_CHECKPOINT_SCHEMA. cbn [String.length].
  unfold MAX_LEASE_CAPACITY_RECORD_BYTES. lia.
Qed.
End fits.
