(* ===== verification/LeaseCapacity.v ===== *)
(** * The lease-capacity pair ([queue_lease_capacity_state.py])

    Admission reads the number of live leases from two fixed files, an aggregate
    and a checkpoint that binds it.  They cannot be replaced together, so a
    change is first journaled as a transition that holds the exact pair before
    and after, and then applied: applying again after a crash converges whatever
    half of the pair was written. *)

From S2P Require Import Prelude Sha256 Json Identifiers Models Store LeaseRecords.
From stdpp Require Import base list gmap strings.
From Stdlib Require Import ZArith Lia.
From Stdlib Require Ascii String.
Open Scope Z_scope.

Definition capacity_dir : path := ["lease_capacity"].
Definition aggregate_path : path := ["lease_capacity"; "aggregate.json"].
Definition checkpoint_path : path := ["lease_capacity"; "checkpoint.json"].
Definition capacity_names : list string := ["aggregate.json"; "checkpoint.json"].

(** No object of the document repeats a key. *)
Fixpoint unique_keys (v : json) : bool :=
  match v with
  | JList l => forallb unique_keys l
  | JObj d => bool_decide (NoDup d.*1) && forallb (fun kv => unique_keys kv.2) d
  | _ => true
  end.

(** ** Reading *)
Section reads.
Context `{World}.

(** [_read_unique_json_document] *)
Definition _read_unique_json_document (p : path) : M disk json :=
  d ← read_doc p;
  match d with
  | Some (DJson v) => _ ← ensure (unique_keys v) (conflict "duplicate JSON key "); mret v
  | Some _ => raise (conflict "invalid JSON record ")
  | None => raise (conflict "missing record ")
  end.

(** The directory loop of [_lease_capacity_record_paths_unlocked]. *)
Fixpoint inspect_entries (entries : list (path * doc)) (paths : list (string * path))
  : result (list (string * path)) :=
  match entries with
  | [] => Ok paths
  | (p, d) :: rest =>
      let name := default "" (last p) in
      if (2 <=? length paths)%nat then
        Err (conflict "lease capacity directory exceeds its fixed two-record inventory")
      else if negb (bool_decide (name ∈ capacity_names)) then
        Err (conflict "lease capacity directory contains an unexpected record: ")
      else if MAX_LEASE_CAPACITY_RECORD_BYTES <? Z.of_nat (encoded_size d) then
        Err (conflict "lease capacity record exceeds its byte bound: ")
      else inspect_entries rest (dict_set name p paths)
  end.

(** [_lease_capacity_record_paths_unlocked]; a directory without files and a
    directory that does not exist are the same store. *)
Definition _lease_capacity_record_paths_unlocked (allow_missing : bool)
  : M disk (list (string * path)) :=
  entries ← scandir capacity_dir;
  paths ← lift (inspect_entries entries []);
  _ ← ensure (allow_missing || keys_are capacity_names paths)
        (conflict "lease capacity pair is incomplete; missing ");
  mret paths.

(** [_read_lease_capacity_components_unlocked] *)
Definition _read_lease_capacity_components_unlocked (allow_missing : bool)
  : M disk (option LeaseCapacityAggregate * option LeaseCapacityCheckpoint) :=
  paths ← _lease_capacity_record_paths_unlocked allow_missing;
  aggregate ← match dict_get "aggregate.json" paths with
              | None => mret None
              | Some p =>
                  v ← _read_unique_json_document p;
                  a ← lift (lease_capacity_aggregate_from_document v);
                  mret (Some a)
              end;
  checkpoint ← match dict_get "checkpoint.json" paths with
               | None => mret None
               | Some p =>
                   v ← _read_unique_json_document p;
                   c ← lift (lease_capacity_checkpoint_from_document v);
                   mret (Some c)
               end;
  mret (aggregate, checkpoint).

(** [_read_lease_capacity_aggregate_unlocked] *)
Definition _read_lease_capacity_aggregate_unlocked : M disk LeaseCapacityPair :=
  components ← _read_lease_capacity_components_unlocked false;
  match components with
  | (Some a, Some c) =>
      _ ← lift (validate_lease_capacity_pair (mkPair a c));
      mret (mkPair a c)
  | _ => raise (conflict "lease capacity pair is incomplete")
  end.

(** [_lease_capacity_snapshot] *)
Definition _lease_capacity_snapshot (cluster : string) : M disk (list (JobKind * Z) * Z) :=
  pair ← _read_lease_capacity_aggregate_unlocked;
  mret (default [] (dict_get (lease_cluster_token cluster)
                             (ag_cluster_kind_counts (pair_aggregate pair))),
        ag_global_live_leases (pair_aggregate pair)).

(** ** Writing *)

(** [_write_lease_capacity_pair_unlocked] *)
Definition _write_lease_capacity_pair_unlocked (p : LeaseCapacityPair) : M disk unit :=
  _ ← lift (validate_lease_capacity_pair p);
  _ ← write_doc aggregate_path (DJson (lease_capacity_aggregate_document (pair_aggregate p)));
  write_doc checkpoint_path (DJson (lease_capacity_checkpoint_document (pair_checkpoint p))).

(** One round of the loop over [scope_deltas]. *)
Definition apply_delta (counts : capacity_counts) (cluster : string) (kind : JobKind) (delta : Z)
  : result capacity_counts :=
  if delta =? 0 then
    Err (conflict "lease capacity transition delta must be a nonzero integer")
  else
    let cluster_token := lease_cluster_token cluster in
    let kind_counts := default [] (dict_get cluster_token counts) in
    let next_count := default 0 (dict_get kind kind_counts) + delta in
    if next_count <? 0 then Err (conflict "lease capacity transition underflow: ")
    else
      let kind_counts' :=
        if next_count =? 0 then dict_pop kind kind_counts
        else dict_set kind next_count kind_counts in
      Ok (match kind_counts' with
          | [] => dict_pop cluster_token counts
          | _ => dict_set cluster_token kind_counts' counts
          end).

Fixpoint apply_deltas (counts : capacity_counts) (deltas : list ((string * JobKind) * Z))
  : result capacity_counts :=
  match deltas with
  | [] => Ok counts
  | ((cluster, kind), delta) :: rest =>
      counts' ← apply_delta counts cluster kind delta;
      apply_deltas counts' rest
  end.

(** [_prepare_lease_capacity_transition_unlocked] *)
Definition _prepare_lease_capacity_transition_unlocked
    (scope_deltas : list ((string * JobKind) * Z)) (include_rollback : bool) : M disk json :=
  before ← _read_lease_capacity_aggregate_unlocked;
  counts ← lift (apply_deltas (ag_cluster_kind_counts (pair_aggregate before)) scope_deltas);
  u ← uuid4_hex;
  after ← lift (new_lease_capacity_pair counts (Some (ag_epoch_id (pair_aggregate before)))
                  (ag_generation (pair_aggregate before) + 1) None u u);
  let transition := [("before", lease_capacity_pair_payload before);
                     ("after", lease_capacity_pair_payload after)] in
  if include_rollback then
    u' ← uuid4_hex;
    rollback ← lift (new_lease_capacity_pair (ag_cluster_kind_counts (pair_aggregate before))
                       (Some (ag_epoch_id (pair_aggregate before)))
                       (ag_generation (pair_aggregate after) + 1) None u' u');
    mret (JObj (transition ++ [("rollback", lease_capacity_pair_payload rollback)]))
  else mret (JObj transition).

(** The dictionary comprehension over [transition.items()]. *)
Fixpoint decode_pairs (items : list (string * json)) : result (list (string * LeaseCapacityPair)) :=
  match items with
  | [] => Ok []
  | (name, v) :: rest =>
      p ← lease_capacity_pair_from_payload v;
      ps ← decode_pairs rest;
      Ok ((name, p) :: ps)
  end.

Definition transition_target (after : bool) : string := if after then "after" else "rollback".

(** [_apply_lease_capacity_transition_unlocked]; [after] selects the target. *)
Definition _apply_lease_capacity_transition_unlocked (transition_value : json) (after : bool)
  : M disk LeaseCapacityPair :=
  match transition_value with
  | JObj transition =>
      _ ← ensure (forallb (fun k => bool_decide (k ∈ transition.*1)) ["before"; "after"]
                  && forallb (fun k => bool_decide (k ∈ ["before"; "after"; "rollback"])) transition.*1)
            (conflict "lease capacity transition is invalid");
      pairs ← lift (decode_pairs transition);
      match dict_get (transition_target after) pairs with
      | None => raise (conflict "has no authorized capacity generation")
      | Some selected =>
          current ← _read_lease_capacity_components_unlocked true;
          _ ← ensure (match current.1 with
                      | None => true
                      | Some a => existsb (fun kv => aggregate_eqb a (pair_aggregate kv.2)) pairs
                      end)
                (conflict "found an unauthorized aggregate generation");
          _ ← ensure (match current.2 with
                      | None => true
                      | Some c => existsb (fun kv => bool_decide (c = pair_checkpoint kv.2)) pairs
                      end)
                (conflict "found an unauthorized checkpoint generation");
          _ ← ensure (negb (bool_decide (current.1 = None) && bool_decide (current.2 = None)))
                (conflict "found both capacity records missing");
          _ ← _write_lease_capacity_pair_unlocked selected;
          mret selected
      end
  | _ => raise (conflict "has no lease capacity transition")
  end.
End reads.

(** ** Rebuilding the counts from the canonical leases *)
Section rebuild.
Context `{World}.

(** Every constraint of [Lease]. *)
Definition valid_lease (l : Lease) : bool :=
  valid_id (lease_id l) && valid_id (lease_job_id l) && valid_id (lease_endpoint_id l).

(** [read_json_file] and the identity check of [_read_records] for a lease. *)
Definition read_lease_entry (e : path * doc) : result Lease :=
  match e.2 with
  | DLease l =>
      if negb (valid_lease l) then Err (ValidationError "Lease")
      else if bool_decide (lease_id l = json_stem (default "" (last e.1))) then Ok l
      else Err (conflict "canonical lease_id filename/content identity mismatch: ")
  | _ => Err (ValidationError "Lease")
  end.

(** [scan_many(directory, Lease, limit=limit)] *)
Definition scan_many_lease : path -> nat -> M disk (list Lease * bool) :=
  scan_many read_lease_entry.

(** [_lease_index_identity] *)
Definition _lease_index_identity (l : Lease) (j : RelayJob) : result LeaseIndexIdentity :=
  if negb (bool_decide (lease_job_id l = job_id j)) then
    Err (conflict "lease job identity mismatch: ")
  else
    _ ← require_durable_record_id (JStr (lease_id l)) "lease_id";
    _ ← require_durable_record_id (JStr (lease_job_id l)) "lease_job_id";
    _ ← require_durable_record_id (JStr (lease_endpoint_id l)) "lease_endpoint_id";
    Ok (mkIdentity (lease_id l) (lease_job_id l) (lease_endpoint_id l) (job_cluster j) (job_kind j)
          (expires_at l)).

(** The variables of the loop of [_canonical_lease_capacity_records_unlocked]. *)
Record rebuild_state := mkRebuild {
  rb_indexed : list (Lease * RelayJob * LeaseIndexIdentity);
  rb_counts : capacity_counts;
  rb_clusters_by_token : list (string * string);
  rb_references : list (string * string);
  rb_lease_tokens : list string;
}.

(** The loop's body after the job is read. *)
Definition rebuild_step (st : rebuild_state) (l : Lease) (j : RelayJob) : result rebuild_state :=
  identity ← _lease_index_identity l j;
  let reference := lease_reference identity in
  if bool_decide (reference ∈ rb_references st) || bool_decide (reference.1 ∈ rb_lease_tokens st) then
    Err (conflict "lease capacity rebuild found an identity collision: ")
  else
    let cluster_token := lease_cluster_token (job_cluster j) in
    let previous := default (job_cluster j) (dict_get cluster_token (rb_clusters_by_token st)) in
    let clusters := dict_set cluster_token previous (rb_clusters_by_token st) in
    if negb (bool_decide (previous = job_cluster j)) then
      Err (conflict "lease capacity rebuild found a cluster-token collision: ")
    else
      let kind_counts := default [] (dict_get cluster_token (rb_counts st)) in
      let kind_counts' :=
        dict_set (job_kind j) (default 0 (dict_get (job_kind j) kind_counts) + 1) kind_counts in
      Ok (mkRebuild (rb_indexed st ++ [(l, j, identity)])
            (dict_set cluster_token kind_counts' (rb_counts st)) clusters
            (rb_references st ++ [reference]) (rb_lease_tokens st ++ [reference.1])).

Fixpoint rebuild_loop (leases : list Lease) (st : rebuild_state) : M disk rebuild_state :=
  match leases with
  | [] => mret st
  | l :: rest =>
      j ← read_optional_job (lease_job_id l);
      match j with
      | None => raise (conflict "lease capacity rebuild cannot resolve job: ")
      | Some j =>
          st' ← lift (rebuild_step st l j);
          rebuild_loop rest st'
      end
  end.

(** [_canonical_lease_capacity_records_unlocked] *)
Definition _canonical_lease_capacity_records_unlocked (limit : nat)
  : M disk (list (Lease * RelayJob * LeaseIndexIdentity) * capacity_counts) :=
  scanned ← scan_many_lease ["leases"] limit;
  _ ← ensure (negb scanned.2) (conflict "lease capacity rebuild exceeded its safety bound of ");
  st ← rebuild_loop scanned.1 (mkRebuild [] [] [] [] []);
  counts ← lift (normalize_lease_capacity_counts (rb_counts st));
  mret (rb_indexed st, counts).
End rebuild.
