(* ===== verification/LeaseCapacityProofs.v ===== *)
(** * The lease-capacity pair survives crashes and counts leases exactly

    Applying a journaled transition converges to its target from every state a
    crash can leave, and a prepared transition changes each scope's count by
    exactly the requested deltas. *)

From S2P Require Import Prelude Sha256 Json Identifiers Models Store LeaseRecords.
From S2P Require Import LeaseRecordsProofs LeaseDocuments LeaseCapacity.
From stdpp Require Import base list gmap strings.
From Stdlib Require Import ZArith Lia.
From Stdlib Require Ascii String.
Open Scope Z_scope.

(** ** Encoded documents have no repeated key *)
Lemma unique_json_kinds l :
  NoDup l.*1 -> unique_keys (JObj (json_entry <$> (kind_entry <$> l))) = true.
Proof.
  intros Hnd. cbn [unique_keys]. apply andb_true_iff. split.
  - apply bool_decide_true. replace ((json_entry <$> (kind_entry <$> l)).*1) with (JobKind_value <$> l.*1)
      by (rewrite <- !list_fmap_compose; done).
    by apply (NoDup_fmap_2 _).
  - apply forallb_forall. intros x (y&->&_)%list_elem_of_In%list_elem_of_fmap. done.
Qed.

Lemma unique_json_counts c :
  counts_ok c -> unique_keys (json_counts (serialized_lease_capacity_counts c)) = true.
Proof.
  intros Hc. rewrite serialized_sorted. pose proof (counts_ok_sort c Hc) as Hs.
  pose proof (counts_ok_kinds _ Hs) as Hk. destruct Hs as [Hnd _].
  unfold json_counts. cbn [unique_keys]. apply andb_true_iff. split.
  - apply bool_decide_true.
    replace ((json_scope <$> (encode_scope <$> sorted_counts c)).*1) with (sorted_counts c).*1
      by (rewrite <- !list_fmap_compose; done). done.
  - apply forallb_forall.
    intros x (y&->&Hy)%list_elem_of_In%list_elem_of_fmap. apply list_elem_of_fmap in Hy as (z&->&Hz).
    rewrite Forall_forall in Hk. apply (unique_json_kinds z.2), Hk, Hz.
Qed.

Lemma unique_aggregate a :
  counts_ok (ag_cluster_kind_counts a) -> unique_keys (lease_capacity_aggregate_document a) = true.
Proof.
  intros Hc. pose proof (unique_json_counts _ Hc) as Hu.
  unfold lease_capacity_aggregate_document, lease_capacity_aggregate_digest_payload.
  cbn [app]. unfold unique_keys; fold unique_keys. cbn [forallb snd].
  rewrite Hu. cbn [unique_keys andb]. apply andb_true_iff. split; [|done]. by apply bool_decide_true; compute_done.
Qed.

Lemma unique_checkpoint c : unique_keys (lease_capacity_checkpoint_document c) = true.
Proof.
  unfold lease_capacity_checkpoint_document, lease_capacity_checkpoint_digest_payload.
  cbn [app unique_keys forallb snd]. apply andb_true_iff. split; [|done]. by apply bool_decide_true; compute_done.
Qed.

(** ** The two files *)
Section files.
Context `{World}.

Definition capacity_file (name : string) : path := ["lease_capacity"; name].

(** The directory holds nothing but the two records, each within its bound. *)
Definition capacity_wf (m : gmap path doc) : Prop :=
  forall name d, m !! capacity_file name = Some d ->
  name ∈ capacity_names /\ Z.of_nat (encoded_size d) <= MAX_LEASE_CAPACITY_RECORD_BYTES.

Definition named (e : path * doc) : string * path := (default "" (last e.1), e.1).

Lemma inspect_run es acc :
  (length acc + length es <= 2)%nat -> NoDup (acc ++ (named <$> es)).*1 ->
  Forall (fun e => (named e).1 ∈ capacity_names /\
                   Z.of_nat (encoded_size e.2) <= MAX_LEASE_CAPACITY_RECORD_BYTES) es ->
  inspect_entries es acc = Ok (acc ++ (named <$> es)).
Proof.
  revert acc. induction es as [|[p d] es IH]; intros acc Hlen Hnd Hall; cbn [inspect_entries].
  { cbn. by rewrite app_nil_r. }
  apply Forall_cons in Hall as [[Hn Hsz] Hall]. cbn [named fst snd length] in *.
  rewrite (proj2 (Nat.leb_gt 2 (length acc))) by lia.
  rewrite bool_decide_true by done. rewrite (proj2 (Z.ltb_ge _ _)) by done. cbn [negb].
  rewrite fmap_cons, fmap_app, fmap_cons in Hnd. cbn [fst] in Hnd.
  rewrite dict_set_fresh.
  - rewrite IH; [by rewrite <- app_assoc|rewrite length_app; cbn; lia| |done].
    rewrite <- app_assoc, fmap_app. exact Hnd.
  - apply NoDup_app in Hnd as (_&Hd&_). intros Hin. apply (Hd _ Hin). left.
Qed.

Lemma paths_run s allow :
  capacity_wf (files s) ->
  exists paths,
    _lease_capacity_record_paths_unlocked allow s =
      (if allow || keys_are capacity_names paths then Ok paths
       else Err (conflict "lease capacity pair is incomplete; missing "), s) /\
    NoDup paths.*1 /\
    forall name p, (name, p) ∈ paths <-> p = capacity_file name /\ is_Some (files s !! p).
Proof.
  intros Hwf. set (es := scandir_order (filter (fun kv => removelast kv.1 = capacity_dir /\ kv.1 <> [])
                                               (map_to_list (files s)))).
  assert (Hin : forall p d, (p, d) ∈ es <-> files s !! p = Some d /\ exists name, p = capacity_dir ++ [name])
    by (intros; by apply scandir_elem).
  assert (Hnd : NoDup es.*1) by apply scandir_nodup.
  assert (Hnames : NoDup (named <$> es).*1).
  { rewrite <- list_fmap_compose. clear -Hnd Hin.
    assert (Hin' : forall p d, (p, d) ∈ es -> exists name, p = capacity_dir ++ [name]) by naive_solver.
    clear Hin. induction es as [|[p d] es IH]; cbn in *; [constructor|].
    apply NoDup_cons in Hnd as [Hp Hnd]. constructor.
    - intros ([q e]&Heq&Hq)%list_elem_of_fmap. cbn in Heq. destruct Hp.
      destruct (Hin' p d) as [n ->]; [left|]. destruct (Hin' q e) as [n' ->]; [by right|].
      cbn in Heq. subst n'. apply list_elem_of_fmap. by eexists (_, e).
    - apply IH; [done|]. intros q e Hq. apply (Hin' q e). by right. }
  assert (Hall : Forall (fun e => (named e).1 ∈ capacity_names /\
                   Z.of_nat (encoded_size e.2) <= MAX_LEASE_CAPACITY_RECORD_BYTES) es).
  { apply Forall_forall. intros [p d] Hpd. apply Hin in Hpd as [Hl [name ->]].
    apply Hwf in Hl. done. }
  assert (Hlen : (length es <= 2)%nat).
  { rewrite <- (length_fmap named es), <- (length_fmap fst). change 2%nat with (length capacity_names).
    apply submseteq_length, NoDup_submseteq; [done|].
    intros x ([n p]&->&([q e]&[= -> ->]&Hq)%list_elem_of_fmap)%list_elem_of_fmap.
    rewrite Forall_forall in Hall. by apply (Hall (q, e)). }
  exists (named <$> es). split_and!; [|done|].
  - unfold _lease_capacity_record_paths_unlocked. rewrite (M_bind_run _ _ _ es s) by done.
    rewrite (M_bind_run _ _ _ (named <$> es) s); [|unfold lift; by rewrite (inspect_run es [])].
    by destruct (allow || _).
  - intros name p. rewrite list_elem_of_fmap. split.
    + intros ([q d]&[= -> ->]&Hq). apply Hin in Hq as [Hl [n ->]]. split; [done|]. by exists d.
    + intros [-> [d Hd]]. exists (capacity_file name, d). split; [done|]. apply Hin. eauto.
Qed.

Lemma capacity_max_bytes name : record_max_bytes (capacity_file name) = MAX_LEASE_CAPACITY_RECORD_BYTES.
Proof. reflexivity. Qed.

Lemma read_unique_run name v s :
  files s !! capacity_file name = Some (DJson v) -> unique_keys v = true ->
  Z.of_nat (encoded_size (DJson v)) <= MAX_LEASE_CAPACITY_RECORD_BYTES ->
  _read_unique_json_document (capacity_file name) s = (Ok v, s).
Proof.
  intros Hl Hu Hs. unfold _read_unique_json_document.
  rewrite (M_bind_run _ _ _ (Some (DJson v)) s).
  - by rewrite Hu.
  - unfold read_doc. rewrite Hl, capacity_max_bytes. by rewrite (proj2 (Z.ltb_ge _ _)).
Qed.

(** What the store holds of the pair: each record well formed, or missing. *)
Record holds (a : option LeaseCapacityAggregate) (c : option LeaseCapacityCheckpoint)
    (m : gmap path doc) : Prop := {
  h_wf : capacity_wf m;
  h_aggregate : m !! aggregate_path = (fun a => DJson (lease_capacity_aggregate_document a)) <$> a;
  h_checkpoint : m !! checkpoint_path = (fun c => DJson (lease_capacity_checkpoint_document c)) <$> c;
  h_aggregate_ok : forall x, a = Some x -> aggregate_ok x;
  h_checkpoint_ok : forall x, c = Some x -> checkpoint_ok x;
}.

Lemma dict_get_paths (paths : list (string * path)) (m : gmap path doc) name :
  NoDup paths.*1 ->
  (forall name p, (name, p) ∈ paths <-> p = capacity_file name /\ is_Some (m !! p)) ->
  dict_get name paths = (fun _ => capacity_file name) <$> m !! capacity_file name.
Proof.
  intros Hnd Hin. destruct (m !! capacity_file name) as [d|] eqn:Hm; cbn.
  - apply dict_get_elem; [done|]. apply Hin. rewrite Hm. by eauto.
  - apply dict_get_None. intros ([n p]&Heq&Hp)%list_elem_of_fmap. cbn in Heq. subst n.
    apply Hin in Hp as [-> [d Hd]]. congruence.
Qed.

Lemma components_run allow a c s :
  holds a c (files s) -> allow = true \/ (is_Some a /\ is_Some c) ->
  _read_lease_capacity_components_unlocked allow s = (Ok (canonical_aggregate <$> a, c), s).
Proof.
  intros [Hwf Ha Hc Hao Hco] Hallow. destruct (paths_run s allow Hwf) as (paths&Hrun&Hnd&Hin).
  pose proof (dict_get_paths paths (files s) "aggregate.json" Hnd Hin) as Hga.
  pose proof (dict_get_paths paths (files s) "checkpoint.json" Hnd Hin) as Hgc.
  change (capacity_file "aggregate.json") with aggregate_path in Hga.
  change (capacity_file "checkpoint.json") with checkpoint_path in Hgc.
  rewrite Ha in Hga. rewrite Hc in Hgc.
  assert (Hok : allow || keys_are capacity_names paths = true).
  { destruct Hallow as [->|[[x ->] [y ->]]]; [done|]. apply orb_true_iff. right.
    cbn in Hga, Hgc. unfold keys_are. apply andb_true_iff. split; apply forallb_forall.
    - intros k ([n p]&->&Hp)%list_elem_of_In%list_elem_of_fmap. apply bool_decide_true.
      apply Hin in Hp as [-> [d Hd]]. by apply Hwf in Hd as [? _].
    - intros k Hk%list_elem_of_In. apply bool_decide_true. unfold dict_keys.
      apply list_elem_of_fmap. unfold capacity_names in Hk. rewrite !elem_of_cons, elem_of_nil in Hk.
      destruct Hk as [->|[->|[]]].
      + apply (dict_get_elem _ _ _ Hnd) in Hga. by eexists (_, _).
      + apply (dict_get_elem _ _ _ Hnd) in Hgc. by eexists (_, _). }
  rewrite Hok in Hrun. unfold _read_lease_capacity_components_unlocked.
  rewrite (M_bind_run _ _ _ _ _ Hrun), Hga, Hgc. clear Hga Hgc Hrun Hin Hok Hallow.
  rewrite (M_bind_run _ _ _ (canonical_aggregate <$> a) s).
  2:{ destruct a as [x|]; cbn; [|done]. specialize (Hao x eq_refl).
      change aggregate_path with (capacity_file "aggregate.json") in *.
      rewrite (M_bind_run _ _ _ (lease_capacity_aggregate_document x) s).
      - unfold mbind, M_bind, lift. by rewrite aggregate_decodes.
      - apply read_unique_run; [done|by apply unique_aggregate; destruct Hao|].
        by eapply Hwf. }
  rewrite (M_bind_run _ _ _ c s); [done|].
  destruct c as [x|]; cbn; [|done]. specialize (Hco x eq_refl).
  change checkpoint_path with (capacity_file "checkpoint.json") in *.
  rewrite (M_bind_run _ _ _ (lease_capacity_checkpoint_document x) s).
  - unfold mbind, M_bind, lift. by rewrite checkpoint_decodes.
  - apply read_unique_run; [done|apply unique_checkpoint|]. by eapply Hwf.
Qed.
End files.

(** ** Applying a transition *)
Section apply.
Context `{World}.

Definition pair_fits (p : LeaseCapacityPair) : Prop :=
  Z.of_nat (encoded_size (DJson (lease_capacity_aggregate_document (pair_aggregate p))))
    <= MAX_LEASE_CAPACITY_RECORD_BYTES /\
  Z.of_nat (encoded_size (DJson (lease_capacity_checkpoint_document (pair_checkpoint p))))
    <= MAX_LEASE_CAPACITY_RECORD_BYTES.

Lemma pair_ok_fits p : pair_ok p -> ag_generation (pair_aggregate p) < MAX_GENERATION -> pair_fits p.
Proof.
  intros (Ha&Hc&Hb) Hg. split; [by apply aggregate_fits|]. apply checkpoint_fits; [done|].
  unfold pair_bound in Hb. by bool_prop; congruence.
Qed.

(** The transition names the pairs [ps], and [sel] is the target. *)
Record transition_ok (tr : list (string * json)) (after : bool)
    (ps : list (string * LeaseCapacityPair)) (sel : LeaseCapacityPair) : Prop := {
  to_fields : forallb (fun k => bool_decide (k ∈ tr.*1)) ["before"; "after"] &&
    forallb (fun k => bool_decide (k ∈ ["before"; "after"; "rollback"])) tr.*1 = true;
  to_pairs : decode_pairs tr = Ok ps;
  to_target : dict_get (transition_target after) ps = Some sel;
  to_generation : Forall (fun kv => ag_generation (pair_aggregate kv.2) < MAX_GENERATION) ps;
}.

(** Every record on disk belongs to one of the journaled pairs, and they are not
    both missing. *)
Definition authorized (ps : list (string * LeaseCapacityPair)) (m : gmap path doc) : Prop :=
  exists a c, holds a c m /\ (is_Some a \/ is_Some c) /\
    (forall x, a = Some x ->
       exists kv, kv ∈ ps /\ aggregate_key x = aggregate_key (pair_aggregate kv.2)) /\
    (forall x, c = Some x -> exists kv, kv ∈ ps /\ x = pair_checkpoint kv.2).

Definition holds_pair (p : LeaseCapacityPair) (m : gmap path doc) : Prop :=
  holds (Some (pair_aggregate p)) (Some (pair_checkpoint p)) m.

Lemma decode_pairs_ok tr ps : decode_pairs tr = Ok ps -> Forall (fun kv => pair_ok kv.2) ps.
Proof.
  revert ps. induction tr as [|[n v] tr IH]; intros ps; cbn [decode_pairs].
  { intros [= <-]. constructor. }
  intros (p&Hp&(qs&Hqs&[= <-])%bind_ok)%bind_ok. constructor; [by eapply pair_decode_ok|]. by apply IH.
Qed.

Lemma dict_get_In {V} k (v : V) (d : list (string * V)) : dict_get k d = Some v -> (k, v) ∈ d.
Proof.
  induction d as [|[k' v'] d IH]; cbn; [done|]. case_bool_decide; [intros [= ->]; subst; left|].
  intros Hg. right. by apply IH.
Qed.

Lemma transition_selected tr after ps sel :
  transition_ok tr after ps sel ->
  pair_ok sel /\ pair_fits sel /\ exists n, (n, sel) ∈ ps.
Proof.
  intros [_ Hps Hsel Hgen]. apply dict_get_In in Hsel. apply decode_pairs_ok in Hps.
  rewrite Forall_forall in Hps, Hgen.
  split_and!; [exact (Hps _ Hsel)|exact (pair_ok_fits _ (Hps _ Hsel) (Hgen _ Hsel))|].
  by eexists.
Qed.

Lemma capacity_wf_insert m name d :
  name ∈ capacity_names -> Z.of_nat (encoded_size d) <= MAX_LEASE_CAPACITY_RECORD_BYTES ->
  capacity_wf m -> capacity_wf (<[capacity_file name := d]> m).
Proof.
  intros Hn Hs Hwf name' d'. rewrite lookup_insert_Some. intros [[[= <-] <-]|[_ Hl]]; [done|by apply Hwf].
Qed.

Lemma holds_write_aggregate a c m x :
  holds a c m -> aggregate_ok x ->
  Z.of_nat (encoded_size (DJson (lease_capacity_aggregate_document x)))
    <= MAX_LEASE_CAPACITY_RECORD_BYTES ->
  holds (Some x) c (<[aggregate_path := DJson (lease_capacity_aggregate_document x)]> m).
Proof.
  intros [Hwf _ Hc _ Hco] Hx Hs. split.
  - apply (capacity_wf_insert m "aggregate.json"); [left|done|done].
  - by rewrite lookup_insert_eq.
  - by rewrite lookup_insert_ne.
  - by intros y [= <-].
  - done.
Qed.

Lemma holds_write_checkpoint a c m x :
  holds a c m -> checkpoint_ok x ->
  Z.of_nat (encoded_size (DJson (lease_capacity_checkpoint_document x)))
    <= MAX_LEASE_CAPACITY_RECORD_BYTES ->
  holds a (Some x) (<[checkpoint_path := DJson (lease_capacity_checkpoint_document x)]> m).
Proof.
  intros [Hwf Ha _ Hao _] Hx Hs. split.
  - apply (capacity_wf_insert m "checkpoint.json"); [right; left|done|done].
  - by rewrite lookup_insert_ne.
  - by rewrite lookup_insert_eq.
  - done.
  - by intros y [= <-].
Qed.

(** Every check of [_apply_lease_capacity_transition_unlocked] passes in an
    authorized state; what is left is to write the target. *)
Lemma apply_checks tr after ps sel s :
  transition_ok tr after ps sel -> authorized ps (files s) ->
  _apply_lease_capacity_transition_unlocked (JObj tr) after s =
    (_ ← _write_lease_capacity_pair_unlocked sel; mret sel) s.
Proof.
  intros Htr (a&c&Hh&Hsome&Ha&Hc). pose proof Htr as [Hf Hps Hsel _].
  unfold _apply_lease_capacity_transition_unlocked. rewrite Hf.
  rewrite (M_bind_run _ _ _ tt s) by done.
  rewrite (M_bind_run _ _ _ ps s) by (unfold lift; by rewrite Hps).
  rewrite Hsel. rewrite (M_bind_run _ _ _ (canonical_aggregate <$> a, c) s).
  2:{ apply components_run; [done|by left]. }
  cbn [fst snd]. destruct Hh as [_ _ _ Hao _].
  rewrite (M_bind_run _ _ _ tt s).
  2:{ destruct a as [x|]; cbn; [|done]. destruct (Ha x eq_refl) as (kv&Hkv&Hkey).
      replace (existsb _ ps) with true; [done|]. symmetry. apply existsb_exists.
      exists kv. split; [by apply list_elem_of_In|]. apply bool_decide_true.
      rewrite canonical_aggregate_key; [done|]. apply Hao. done. }
  rewrite (M_bind_run _ _ _ tt s).
  2:{ destruct c as [x|]; cbn; [|done]. destruct (Hc x eq_refl) as (kv&Hkv&->).
      replace (existsb _ ps) with true; [done|]. symmetry. apply existsb_exists.
      exists kv. split; [by apply list_elem_of_In|]. by apply bool_decide_true. }
  rewrite (M_bind_run _ _ _ tt s); [done|].
  destruct Hsome as [[x ->]|[x ->]]; cbn; [done|]. by rewrite andb_false_r.
Qed.

(** Whatever happens during an attempt, the state stays authorized, and an attempt
    that returns has stored the target. *)
Lemma apply_attempt tr after ps sel s :
  transition_ok tr after ps sel -> authorized ps (files s) ->
  wp (_apply_lease_capacity_transition_unlocked (JObj tr) after) s
     (fun res s' => authorized ps (files s') /\
        forall p, res = Ok p -> p = sel /\ holds_pair sel (files s')).
Proof.
  intros Htr Hauth. unfold wp. rewrite (apply_checks tr after ps sel s Htr Hauth).
  destruct (transition_selected _ _ _ _ Htr) as ((Hao&Hco&Hb)&(Hfa&Hfc)&(n&Hin)).
  destruct Hauth as (a&c&Hh&Hsome&Ha&Hc).
  assert (H0' : authorized ps (files s)) by (by exists a, c).
  pose proof (holds_write_aggregate _ _ _ _ Hh Hao Hfa) as Hh1.
  assert (H1 : authorized ps (<[aggregate_path :=
            DJson (lease_capacity_aggregate_document (pair_aggregate sel))]> (files s))).
  { exists (Some (pair_aggregate sel)), c. split_and!; [done|by left; eauto| |done].
    intros x [= <-]. by exists (n, sel). }
  enough (Hw : wp (_ ← _write_lease_capacity_pair_unlocked sel; mret sel) s
     (fun res s' => authorized ps (files s') /\
        forall p, res = Ok p -> p = sel /\ holds_pair sel (files s'))) by exact Hw.
  apply wp_bind. unfold _write_lease_capacity_pair_unlocked.
  apply wp_bind, wp_lift. unfold validate_lease_capacity_pair. rewrite Hb. cbn [raise_unless].
  apply wp_bind, wp_write; [|by split]. intros s1 Hs1.
  apply wp_write; [|intros e; rewrite Hs1; by split]. intros s2 Hs2. apply wp_ret.
  pose proof (holds_write_checkpoint _ _ _ _ Hh1 Hco Hfc) as Hh2. rewrite <- Hs1, <- Hs2 in Hh2.
  split; [|by intros p [= <-]].
  exists (Some (pair_aggregate sel)), (Some (pair_checkpoint sel)).
  split_and!; [done|by left; eauto|intros x [= <-]; by exists (n, sel)..].
Qed.

Lemma write_run name d s :
  budget s = None -> Z.of_nat (encoded_size d) <= MAX_LEASE_CAPACITY_RECORD_BYTES ->
  write_doc (capacity_file name) d s = (Ok tt, set_files (<[capacity_file name := d]> (files s)) s).
Proof.
  intros Hb Hs. unfold write_doc. rewrite capacity_max_bytes, (proj2 (Z.ltb_ge _ _)) by done.
  unfold durable. by rewrite Hb.
Qed.

Lemma apply_run tr after ps sel s :
  transition_ok tr after ps sel -> authorized ps (files s) -> budget s = None ->
  exists s', _apply_lease_capacity_transition_unlocked (JObj tr) after s = (Ok sel, s') /\
             holds_pair sel (files s') /\ budget s' = None.
Proof.
  intros Htr Hauth Hb. pose proof (apply_attempt tr after ps sel s Htr Hauth) as Hw. unfold wp in Hw.
  destruct (transition_selected _ _ _ _ Htr) as ((Hao&Hco&Hbd)&(Hfa&Hfc)&_).
  rewrite (apply_checks tr after ps sel s Htr Hauth) in *.
  assert (Hrun : (_ ← _write_lease_capacity_pair_unlocked sel; mret sel) s =
    (Ok sel, set_files (<[checkpoint_path := DJson (lease_capacity_checkpoint_document (pair_checkpoint sel))]>
               (<[aggregate_path := DJson (lease_capacity_aggregate_document (pair_aggregate sel))]> (files s))) s)).
  { unfold _write_lease_capacity_pair_unlocked, mbind, M_bind, lift, validate_lease_capacity_pair.
    rewrite Hbd. cbn [raise_unless].
    rewrite (write_run "aggregate.json") by done.
    rewrite (write_run "checkpoint.json") by done. done. }
  rewrite Hrun in *. eexists. split; [done|]. destruct Hw as [_ Hw]. destruct (Hw sel eq_refl) as [_ Hh].
  by split.
Qed.

Lemma read_aggregate_run p s :
  holds_pair p (files s) -> pair_bound p = true ->
  _read_lease_capacity_aggregate_unlocked s =
    (Ok (mkPair (canonical_aggregate (pair_aggregate p)) (pair_checkpoint p)), s).
Proof.
  intros Hh Hb. unfold _read_lease_capacity_aggregate_unlocked.
  rewrite (M_bind_run _ _ _ (Some (canonical_aggregate (pair_aggregate p)), Some (pair_checkpoint p)) s).
  - unfold mbind, M_bind, lift, validate_lease_capacity_pair.
    change (pair_bound _) with (pair_bound p). by rewrite Hb.
  - apply (components_run false (Some (pair_aggregate p)) (Some (pair_checkpoint p)));
      [done|right; split; eauto].
Qed.

(** C20: crash recovery of the capacity pair.  From any state in which every record
    belongs to the journaled transition, any number of attempts to apply it,
    each stopped at any durable step, followed by one that is not interrupted,
    succeeds and leaves exactly the target pair on disk, which the next read
    returns. *)
Theorem capacity_replay_converges tr after ps sel s attempts :
  transition_ok tr after ps sel -> authorized ps (files s) ->
  let s1 := foldl (fun st b =>
    (_apply_lease_capacity_transition_unlocked (JObj tr) after (set_budget b st)).2) s attempts in
  exists s2 a, _apply_lease_capacity_transition_unlocked (JObj tr) after (set_budget None s1) = (Ok sel, s2) /\
    holds_pair sel (files s2) /\
    _read_lease_capacity_aggregate_unlocked s2 = (Ok (mkPair a (pair_checkpoint sel)), s2) /\
    aggregate_eqb a (pair_aggregate sel) = true.
Proof.
  intros Htr Hauth s1. assert (Hauth1 : authorized ps (files s1)).
  { subst s1. revert s Hauth. induction attempts as [|b bs IH]; intros s Hauth; [done|]. cbn.
    apply IH. by apply (apply_attempt tr after ps sel (set_budget b s) Htr). }
  destruct (apply_run tr after ps sel (set_budget None s1) Htr Hauth1 eq_refl) as (s2&Hrun&Hh&_).
  destruct (transition_selected _ _ _ _ Htr) as ((Hao&Hco&Hbd)&_&_).
  exists s2, (canonical_aggregate (pair_aggregate sel)). split_and!; [done|done|by apply read_aggregate_run|].
  apply bool_decide_true, canonical_aggregate_key, Hao.
Qed.
End apply.

(** ** What a transition changes *)
Definition count_of (counts : capacity_counts) (token : string) (kind : JobKind) : Z :=
  default 0 (dict_get kind (default [] (dict_get token counts))).

(** The change [deltas] ask for in one scope. *)
Definition delta_of (deltas : list ((string * JobKind) * Z)) (token : string) (kind : JobKind) : Z :=
  sum_Z ((fun d => if bool_decide (lease_cluster_token d.1.1 = token /\ d.1.2 = kind) then d.2 else 0)
         <$> deltas).

Lemma dict_get_pop {K V} `{EqDecision K} (k k' : K) (d : list (K * V)) :
  dict_get k' (dict_pop k d) = if bool_decide (k' = k) then None else dict_get k' d.
Proof.
  unfold dict_pop. induction d as [|[x v] d IH]; [by case_bool_decide|].
  rewrite filter_cons. destruct (decide ((x, v).1 <> k)) as [Hx|Hx]; cbn in Hx.
  - cbn [dict_get]. rewrite IH. destruct (decide (k' = x)) as [->|Hne].
    + rewrite (bool_decide_true (x = x)) by done. by rewrite (bool_decide_false (x = k)).
    + by rewrite (bool_decide_false (k' = x)).
  - apply dec_stable in Hx. subst x. rewrite IH. cbn [dict_get].
    destruct (decide (k' = k)) as [->|Hne]; [by rewrite !bool_decide_true|by rewrite !bool_decide_false].
Qed.

Lemma dict_get_set {K V} `{EqDecision K} (k k' : K) (v : V) d :
  dict_get k' (dict_set k v d) = if bool_decide (k' = k) then Some v else dict_get k' d.
Proof.
  case_bool_decide as Hk; [subst; apply dict_get_set_eq|]. apply dict_get_set_ne. congruence.
Qed.

Lemma NoDup_dict_pop {K V} `{EqDecision K} (k : K) (d : list (K * V)) :
  NoDup d.*1 -> NoDup (dict_pop k d).*1.
Proof. intros Hnd. eapply sublist_NoDup; [exact Hnd|]. apply fmap_sublist, sublist_filter. Qed.

Lemma apply_delta_spec c cluster kind delta c' :
  apply_delta c cluster kind delta = Ok c' ->
  (NoDup c.*1 -> NoDup c'.*1) /\
  forall tok k, count_of c' tok k = count_of c tok k +
    (if bool_decide (lease_cluster_token cluster = tok /\ kind = k) then delta else 0).
Proof.
  unfold apply_delta. destruct (delta =? 0); [done|]. set (t := lease_cluster_token cluster).
  set (kc := default [] (dict_get t c)). set (n := default 0 (dict_get kind kc) + delta).
  destruct (n <? 0) eqn:Hn; [done|]. bool_prop.
  set (kc' := if n =? 0 then dict_pop kind kc else dict_set kind n kc).
  assert (Hkc' : forall k, default 0 (dict_get k kc') =
            default 0 (dict_get k kc) + (if bool_decide (kind = k) then delta else 0)).
  { intros k. unfold kc'. destruct (n =? 0) eqn:H0; bool_prop;
      rewrite ?dict_get_pop, ?dict_get_set;
      (destruct (decide (kind = k)) as [<-|Hne];
        [rewrite !bool_decide_true by done; cbn; lia|rewrite !bool_decide_false by congruence; lia]). }
  intros [= <-]. split.
  { intros Hnd. destruct kc'; [by apply NoDup_dict_pop|by apply NoDup_dict_set]. }
  intros tok k. unfold count_of.
  assert (Hget : dict_get tok (match kc' with [] => dict_pop t c | _ :: _ => dict_set t kc' c end) =
    if bool_decide (tok = t) then (match kc' with [] => None | _ :: _ => Some kc' end) else dict_get tok c).
  { destruct kc'; [apply dict_get_pop|apply dict_get_set]. }
  rewrite Hget. clear Hget. destruct (decide (tok = t)) as [->|Hne].
  - rewrite bool_decide_true by done. specialize (Hkc' k). fold kc.
    replace (bool_decide (t = t /\ kind = k)) with (bool_decide (kind = k)) by (apply bool_decide_ext; tauto).
    rewrite <- Hkc'. by destruct kc'.
  - rewrite !bool_decide_false by (intuition congruence). lia.
Qed.

Lemma apply_deltas_spec deltas c c' :
  apply_deltas c deltas = Ok c' ->
  (NoDup c.*1 -> NoDup c'.*1) /\
  forall tok k, count_of c' tok k = count_of c tok k + delta_of deltas tok k.
Proof.
  revert c. induction deltas as [|[[cl kd] d] deltas IH]; intros c; cbn [apply_deltas].
  { intros [= <-]. split; [done|]. intros. unfold delta_of. cbn. lia. }
  intros (c1&H1&H2)%bind_ok. apply apply_delta_spec in H1 as [Hnd1 Hc1]. apply IH in H2 as [Hnd2 Hc2].
  split; [auto|]. intros tok k. rewrite Hc2, Hc1. unfold delta_of, sum_Z. cbn. lia.
Qed.

(** Sorting does not change a count. *)
Lemma dict_get_perm {K V} `{EqDecision K} (k : K) (l l' : list (K * V)) :
  NoDup l.*1 -> l ≡ₚ l' -> dict_get k l = dict_get k l'.
Proof.
  intros Hnd Hp. assert (Hnd' : NoDup l'.*1) by (by rewrite <- Hp).
  destruct (dict_get k l) as [v|] eqn:Hl; symmetry.
  - apply (dict_get_elem _ _ _ Hnd'). rewrite <- Hp. by apply dict_get_elem.
  - apply dict_get_None in Hl. apply dict_get_None. by rewrite <- Hp.
Qed.

Lemma count_of_sorted c tok k : counts_ok c -> count_of (sorted_counts c) tok k = count_of c tok k.
Proof.
  intros Hc. unfold count_of.
  assert (Hget : dict_get tok (sorted_counts c) = sort_kinds <$> dict_get tok c).
  { rewrite <- (dict_get_perm tok (sort_by key_leb c) c); [|by rewrite sort_by_perm; apply Hc|apply sort_by_perm].
    unfold sorted_counts. induction (sort_by key_leb c) as [|[t ks] l IH]; cbn; [done|].
    by case_bool_decide. }
  rewrite Hget. destruct (dict_get tok c) as [ks|] eqn:Hks; cbn; [|done]. f_equal.
  apply dict_get_perm; [|apply sort_kinds_perm]. rewrite sort_kinds_perm.
  pose proof (counts_ok_kinds c Hc) as Hall. rewrite Forall_forall in Hall.
  apply (Hall (tok, ks)). by apply dict_get_In.
Qed.

Section prepare.
Context `{World}.

Definition counts_of (p : LeaseCapacityPair) : capacity_counts := ag_cluster_kind_counts (pair_aggregate p).

Lemma uuid_hex n : is_hex_of_length 32 (uuid4_at n) = true.
Proof. destruct (uuid4_shape n) as [Hh Hl]. unfold is_hex_of_length. by rewrite Hl, Hh. Qed.

(** The pair that the decoder returns for the document of a pair. *)
Definition canonical_pair (p : LeaseCapacityPair) : LeaseCapacityPair :=
  mkPair (canonical_aggregate (pair_aggregate p)) (pair_checkpoint p).

(** A pair made for the same epoch decodes again and keeps its counts. *)
Lemma next_pair counts p gen n q :
  NoDup counts.*1 -> pair_ok p -> 0 <= gen ->
  new_lease_capacity_pair counts (Some (ag_epoch_id (pair_aggregate p))) gen None (uuid4_at n) (uuid4_at n) = Ok q ->
  exists q', lease_capacity_pair_from_payload (lease_capacity_pair_payload q) = Ok q' /\
    ag_epoch_id (pair_aggregate q') = ag_epoch_id (pair_aggregate p) /\
    ag_generation (pair_aggregate q') = gen /\ ag_generation (pair_aggregate q) = gen /\
    forall tok k, count_of (counts_of q') tok k = count_of counts tok k.
Proof.
  intros Hnd (Hao&_&_) Hg Hq.
  assert (He : or_drawn (Some (ag_epoch_id (pair_aggregate p))) (uuid4_at n) = ag_epoch_id (pair_aggregate p)).
  { cbn. destruct (ag_epoch_id (pair_aggregate p)) eqn:He; [|done].
    destruct Hao as [Hhex _ _ _ _ _ _]. by rewrite He in Hhex. }
  apply new_pair_ok in Hq as (Hok&Hc&Hgen&Hep); [|done|done| |apply uuid_hex].
  2:{ rewrite He. apply Hao. }
  eexists. split; [by apply pair_decodes|]. cbn [pair_aggregate]. unfold counts_of. cbn [pair_aggregate].
  unfold canonical_aggregate. cbn [ag_epoch_id ag_generation ag_cluster_kind_counts].
  rewrite Hep, He, Hgen. split_and!; try done.
  intros tok k. rewrite count_of_sorted; [by rewrite Hc|]. apply Hok.
Qed.

(** What a prepared transition contains: the exact pair before it, the next
    generation with the requested change, and on request a rollback of that. *)
Lemma prepare_exact p deltas (rollback : bool) s v s' :
  pair_ok p -> holds_pair p (files s) ->
  _prepare_lease_capacity_transition_unlocked deltas rollback s = (Ok v, s') ->
  exists tr ps after, v = JObj tr /\ files s' = files s /\ decode_pairs tr = Ok ps /\
    dict_get (transition_target true) ps = Some after /\
    ag_epoch_id (pair_aggregate after) = ag_epoch_id (pair_aggregate p) /\
    ag_generation (pair_aggregate after) = ag_generation (pair_aggregate p) + 1 /\
    (forall tok k, count_of (counts_of after) tok k =
                   count_of (counts_of p) tok k + delta_of deltas tok k) /\
    authorized ps (files s') /\
    tr.*1 = ["before"; "after"] ++ (if rollback then ["rollback"] else []) /\
    Forall (fun kv => ag_generation (pair_aggregate kv.2) <= ag_generation (pair_aggregate p) + 2) ps /\
    (rollback = true -> exists rb, dict_get (transition_target false) ps = Some rb /\
       forall tok k, count_of (counts_of rb) tok k = count_of (counts_of p) tok k).
Proof.
  intros Hp Hh Hrun. pose proof Hp as (Hao&Hco&Hb). unfold _prepare_lease_capacity_transition_unlocked in Hrun.
  rewrite (M_bind_run _ _ _ _ _ (read_aggregate_run p s Hh Hb)) in Hrun.
  set (before := mkPair (canonical_aggregate (pair_aggregate p)) (pair_checkpoint p)) in Hrun.
  assert (Hbok : pair_ok before).
  { eapply pair_decode_ok. by apply pair_decodes. }
  apply M_bind_ok in Hrun as (counts&s1&Hd&Hrun). injection Hd as Hd <-.
  apply M_bind_ok in Hrun as (u&s2&Hu&Hrun). injection Hu as <- <-.
  apply M_bind_ok in Hrun as (after&s3&Hn&Hrun). injection Hn as Hn <-.
  apply apply_deltas_spec in Hd as [Hnd Hcounts].
  assert (Hnd' : NoDup counts.*1) by (apply Hnd, Hbok). clear Hnd.
  pose proof (ao_generation _ Hao) as Hg0.
  apply next_pair in Hn as (after'&Hdec&Hep&Hgen&Hgen0&Hc); [|done|done|lia].
  pose proof (pair_decodes before Hbok) as Hbdec.
  assert (Hauth : forall ps, ("before", canonical_pair before) ∈ ps -> authorized ps (files s)).
  { intros ps Hin. exists (Some (pair_aggregate p)), (Some (pair_checkpoint p)).
    split; [done|]. split; [by left; eauto|]. split; intros x [= <-]; eexists; (split; [exact Hin|]); cbn; [|done].
    rewrite canonical_aggregate_key; [|apply Hbok]. by rewrite canonical_aggregate_key by apply Hao. }
  assert (Hcnt : forall tok k, count_of (counts_of after') tok k =
                   count_of (counts_of p) tok k + delta_of deltas tok k).
  { intros tok k. rewrite Hc, Hcounts. f_equal. apply count_of_sorted, Hao. }
  destruct rollback.
  - apply M_bind_ok in Hrun as (u'&s4&Hu&Hrun). injection Hu as <- <-.
    apply M_bind_ok in Hrun as (rb&s5&Hn&Hrun). injection Hn as Hn <-. injection Hrun as <- <-.
    apply next_pair in Hn as (rb'&Hrdec&_&Hrgen&_&Hrc); [|apply Hbok|done|cbn [pair_aggregate]; lia].
    eexists _, _, after'. split; [done|]. split; [done|]. split.
    { cbn [decode_pairs app]. rewrite Hbdec. cbn [mbind result_bind]. rewrite Hdec.
      cbn [mbind result_bind]. rewrite Hrdec. done. }
    split_and!; [done|done|done|done|apply Hauth; left|done|repeat constructor; cbn [snd pair_aggregate]; cbn; lia|].
    intros _. exists rb'. split; [done|]. intros tok k. rewrite Hrc. apply count_of_sorted, Hao.
  - injection Hrun as <- <-. eexists _, _, after'. split; [done|]. split; [done|]. split.
    { cbn [decode_pairs]. rewrite Hbdec. cbn [mbind result_bind]. rewrite Hdec. done. }
    split_and!; [done|done|done|done|apply Hauth; left|done|repeat constructor; cbn [snd pair_aggregate]; cbn; lia|done].
Qed.

(** a prepared transition is exact: it is journaled without touching the two
    records, its target is the next generation of the same epoch in which every
    scope's count has changed by exactly the requested deltas, and it authorizes
    the state it was prepared in, so that applying it converges. *)
Theorem prepared_transition_exact p deltas s v s' :
  pair_ok p -> holds_pair p (files s) ->
  _prepare_lease_capacity_transition_unlocked deltas false s = (Ok v, s') ->
  exists tr ps after, v = JObj tr /\ files s' = files s /\ decode_pairs tr = Ok ps /\
    dict_get (transition_target true) ps = Some after /\
    ag_epoch_id (pair_aggregate after) = ag_epoch_id (pair_aggregate p) /\
    ag_generation (pair_aggregate after) = ag_generation (pair_aggregate p) + 1 /\
    (forall tok k, count_of (counts_of after) tok k =
                   count_of (counts_of p) tok k + delta_of deltas tok k) /\
    authorized ps (files s').
Proof.
  intros Hp Hh Hrun. destruct (prepare_exact p deltas false s v s' Hp Hh Hrun) as (tr&ps&after&Hrest).
  exists tr, ps, after. tauto.
Qed.
End prepare.

(** ** The rebuilt counts *)
Section rebuilt.
Context `{World}.

(** The leases of one scope. *)
Definition in_scope (tok : string) (k : JobKind) (e : Lease * RelayJob * LeaseIndexIdentity) : bool :=
  bool_decide (lease_cluster_token (job_cluster e.1.2) = tok) && bool_decide (job_kind e.1.2 = k).

Definition rebuild_inv (st : rebuild_state) : Prop :=
  NoDup (rb_counts st).*1 /\
  (forall tok k, count_of (rb_counts st) tok k =
     Z.of_nat (length (List.filter (in_scope tok k) (rb_indexed st)))) /\
  rb_lease_tokens st = (fun e => lease_index_token (lease_id e.1.1)) <$> rb_indexed st /\
  NoDup (rb_lease_tokens st).

Lemma identity_lease l j i : _lease_index_identity l j = Ok i -> ix_lease_id i = lease_id l.
Proof.
  unfold _lease_index_identity. destruct (negb _); [done|].
  intros (?&_&(?&_&(?&_&[= <-])%bind_ok)%bind_ok)%bind_ok. done.
Qed.

Lemma rebuild_step_inv st l j st' :
  rebuild_inv st -> rebuild_step st l j = Ok st' ->
  rebuild_inv st' /\ exists i, rb_indexed st' = rb_indexed st ++ [(l, j, i)].
Proof.
  intros (Hnd&Hc&Ht&Htd) (i&Hi&Hrun)%bind_ok. cbv zeta in Hrun.
  destruct (_ || _) eqn:Hcol; [done|]. bool_prop.
  destruct (negb _); [done|]. injection Hrun as <-. split; [|by exists i].
  unfold rebuild_inv. cbn [rb_counts rb_indexed rb_lease_tokens]. split_and!.
  - by apply NoDup_dict_set.
  - intros tok k. rewrite List.filter_app, length_app. cbn [List.filter].
    specialize (Hc tok k). unfold count_of in *. rewrite dict_get_set.
    unfold in_scope at 2. cbn [fst snd].
    destruct (decide (lease_cluster_token (job_cluster j) = tok)) as [<-|Hne].
    + rewrite !bool_decide_true by done. cbn [from_option id andb].
      rewrite dict_get_set. destruct (decide (job_kind j = k)) as [<-|Hne].
      * rewrite !bool_decide_true by done. cbn [length]. cbn [from_option].
        change (id ?x) with x. rewrite Hc. lia.
      * rewrite !bool_decide_false by congruence. cbn [length]. rewrite Hc. lia.
    + rewrite !bool_decide_false by congruence. cbn [andb length]. rewrite Hc. lia.
  - rewrite fmap_app, Ht. cbn. by rewrite (identity_lease l j i Hi).
  - by apply NoDup_snoc.
Qed.

Lemma rebuild_loop_inv ls st s st' s' :
  rebuild_inv st -> rebuild_loop ls st s = (Ok st', s') ->
  rebuild_inv st' /\ (fun e => e.1.1) <$> rb_indexed st' = ((fun e => e.1.1) <$> rb_indexed st) ++ ls.
Proof.
  revert st s. induction ls as [|l ls IH]; intros st s Hinv; cbn [rebuild_loop].
  { intros [= <- _]. by rewrite app_nil_r. }
  intros Hrun. apply M_bind_ok in Hrun as (j&s1&_&Hrun). destruct j as [j|]; [|done].
  apply M_bind_ok in Hrun as (st1&s2&Hstep&Hrun). injection Hstep as Hstep _.
  apply rebuild_step_inv in Hstep as [Hinv1 [i Hi]]; [|done].
  apply IH in Hrun as [Hinv2 Hidx]; [|done]. split; [done|].
  rewrite Hidx, Hi, fmap_app. cbn. by rewrite <- app_assoc.
Qed.

(** The counts rebuilt from the canonical leases are exact: every scope's count
    is the number of lease records of that cluster and job kind, every lease
    record of the directory is counted once, and the counts are well formed. *)
Theorem rebuilt_counts_exact limit s indexed counts s' :
  _canonical_lease_capacity_records_unlocked limit s = (Ok (indexed, counts), s') ->
  counts_ok counts /\ counts_bounded counts /\
  (forall tok k, count_of counts tok k =
     Z.of_nat (length (List.filter (in_scope tok k) indexed))) /\
  NoDup ((fun e => lease_id e.1.1) <$> indexed) /\
  (forall name l, files s !! ["leases"; name] = Some (DLease l) -> exists j i, (l, j, i) ∈ indexed).
Proof.
  unfold _canonical_lease_capacity_records_unlocked. intros Hrun.
  apply M_bind_ok in Hrun as ([ls tr]&s1&Hscan&Hrun). apply M_bind_ok in Hrun as ([]&s2&Htr&Hrun).
  apply M_bind_ok in Hrun as (st&s3&Hloop&Hrun). apply M_bind_ok in Hrun as (c&s4&Hn&Hrun).
  injection Hn as Hn <-. injection Hrun as <- <- _. cbn [fst snd] in *.
  apply rebuild_loop_inv in Hloop as [(Hnd&Hc&Ht&Htd) Hidx].
  2:{ split_and!; try constructor. }
  apply normalize_inv in Hn as (->&Hok&Hbd); [|done].
  split_and!; try done.
  - rewrite Ht in Htd. apply (NoDup_fmap_1 lease_index_token).
    rewrite <- list_fmap_compose. exact Htd.
  - intros name l Hl. cbn in Hidx.
    assert (Hin : l ∈ ls).
    { destruct tr; [done|]. apply scan_many_spec in Hscan as (_&_&Hcompl); [|done].
      destruct (Hcompl eq_refl name _ Hl) as (r&Hr&Hrd). unfold read_lease_entry in Hrd. cbn [snd] in Hrd.
      destruct (valid_lease l); cbn [negb] in Hrd; [|done]. case_bool_decide; [|done]. by injection Hrd as ->. }
    rewrite <- Hidx in Hin. apply list_elem_of_fmap in Hin as ([[l' j] i]&->&Hin). by exists j, i.
Qed.
End rebuilt.
