(* ===== verification/LeaseExamples.v ===== *)
(** * Lease capacity on concrete values: witnesses *)

From S2P Require Import Prelude Sha256 Json Identifiers Models Store LeaseRecords.
From S2P Require Import LeaseRecordsProofs LeaseDocuments LeaseCapacity LeaseCapacityProofs.
From stdpp Require Import base list gmap strings.
From Stdlib Require Import ZArith Lia.
From Stdlib Require Ascii String.
Open Scope Z_scope.

#[local] Existing Instance reference_world.

Definition demo_identity (t : Z) : LeaseIndexIdentity :=
  mkIdentity "lease_1" "job_1" "ep_1" "ares" JARVIS t.

Lemma expiry_ref_roundtrip_witness :
  is_Some (parse_lease_expiry_ref_name (lease_expiry_ref_name (demo_identity 1700000000000000))).
Proof. rewrite expiry_ref_roundtrip; [by eexists|cbn; lia]. Defined.

Lemma expiry_ref_sorts_witness :
  str_leb (lease_expiry_ref_name (demo_identity 999)) (lease_expiry_ref_name (demo_identity 1000)) = true.
Proof. apply expiry_ref_sorts; cbn; lia. Defined.

Lemma expiry_ref_authentic_witness :
  exists p, parse_lease_expiry_ref_name (lease_expiry_ref_name (demo_identity 5)) = Some p /\
    0 <= ep_expires_key p < 10 ^ 20.
Proof.
  eexists. split; [apply expiry_ref_parses; cbn; lia|].
  apply (expiry_ref_authentic (lease_expiry_ref_name (demo_identity 5))).
  apply expiry_ref_parses. cbn. lia.
Defined.

(** ** Pairs *)
Definition epoch : string := hex_of_nat 32 7.
Definition dummy_pair : LeaseCapacityPair :=
  mkPair (mkAggregate "" 0 "" 0 [] "") (mkCheckpoint "" 0 "" "" "").
Definition pair_of (counts : capacity_counts) (gen : Z) : LeaseCapacityPair :=
  match new_lease_capacity_pair counts (Some epoch) gen (Some epoch) "" "" with
  | Ok p => p
  | Err _ => dummy_pair
  end.
Definition demo_counts : capacity_counts := [("0123456789abcdef", [(MCP_CALL, 2); (JARVIS, 1)])].
Definition pair0 : LeaseCapacityPair := pair_of [] 0.
Definition pair1 : LeaseCapacityPair := pair_of demo_counts 1.

Lemma pair_of_ok counts gen :
  counts_ok counts -> counts_bounded counts -> 0 <= gen -> pair_ok (pair_of counts gen).
Proof.
  intros Hc Hb Hg. unfold pair_of.
  destruct (new_lease_capacity_pair counts (Some epoch) gen (Some epoch) "" "") as [p|e] eqn:Hp.
  - by apply new_pair_ok in Hp as [Hok _]; [|apply Hc|..].
  - unfold new_lease_capacity_pair in Hp. by rewrite normalize_ok in Hp.
Qed.

Lemma demo_counts_ok : counts_ok demo_counts.
Proof.
  split; [apply NoDup_singleton|]. constructor; [|constructor]. split; [reflexivity|].
  split_and!; [done|by apply (bool_decide_unpack _)|]. repeat constructor; lia.
Qed.

Lemma pair0_ok : pair_ok pair0.
Proof. apply pair_of_ok; [split; constructor|split; by vm_compute|lia]. Qed.
Lemma pair1_ok : pair_ok pair1.
Proof. apply pair_of_ok; [apply demo_counts_ok|split; by vm_compute|lia]. Qed.

Lemma capacity_pair_roundtrip_witness :
  exists a, lease_capacity_pair_from_payload (lease_capacity_pair_payload pair1) =
              Ok (mkPair a (pair_checkpoint pair1)) /\
            aggregate_eqb a (pair_aggregate pair1) = true.
Proof. apply (capacity_pair_roundtrip pair1), pair1_ok. Defined.

Lemma decoded_pair_consistent_witness :
  exists p, lease_capacity_pair_from_payload (lease_capacity_pair_payload pair1) = Ok p /\
    counts_ok (ag_cluster_kind_counts (pair_aggregate p)).
Proof.
  eexists. split; [apply pair_decodes, pair1_ok|].
  eapply (decoded_pair_consistent (lease_capacity_pair_payload pair1)). apply pair_decodes, pair1_ok.
Defined.

(** ** The store *)
Definition pair_disk (p : LeaseCapacityPair) : disk :=
  mkDisk (<[checkpoint_path := DJson (lease_capacity_checkpoint_document (pair_checkpoint p))]>
         (<[aggregate_path := DJson (lease_capacity_aggregate_document (pair_aggregate p))]> ∅)) None 0 0.

Lemma pair_disk_holds p :
  pair_ok p -> ag_generation (pair_aggregate p) < MAX_GENERATION -> holds_pair p (files (pair_disk p)).
Proof.
  intros Hp Hg. pose proof (pair_ok_fits p Hp Hg) as [Hfa Hfc]. destruct Hp as (Ha&Hc&_).
  eapply holds_write_checkpoint; [|done|done]. eapply (holds_write_aggregate None None); [|done|done].
  split; done.
Qed.

Lemma pair_of_generation counts gen :
  counts_ok counts -> counts_bounded counts -> ag_generation (pair_aggregate (pair_of counts gen)) = gen.
Proof. intros Hc Hb. unfold pair_of, new_lease_capacity_pair. by rewrite normalize_ok. Qed.

Lemma pair0_generation : ag_generation (pair_aggregate pair0) = 0.
Proof. apply pair_of_generation; [split; constructor|split; by vm_compute]. Qed.
Lemma pair1_generation : ag_generation (pair_aggregate pair1) = 1.
Proof. apply pair_of_generation; [apply demo_counts_ok|split; by vm_compute]. Qed.

Definition demo_transition : list (string * json) :=
  [("before", lease_capacity_pair_payload pair0); ("after", lease_capacity_pair_payload pair1)].
Definition demo_pairs : list (string * LeaseCapacityPair) :=
  [("before", canonical_pair pair0); ("after", canonical_pair pair1)].

Lemma demo_transition_ok : transition_ok demo_transition true demo_pairs (canonical_pair pair1).
Proof.
  split.
  - by apply (bool_decide_unpack _).
  - unfold demo_transition. cbn [decode_pairs].
    rewrite (pair_decodes pair0 pair0_ok), (pair_decodes pair1 pair1_ok). reflexivity.
  - reflexivity.
  - repeat constructor; unfold canonical_pair, canonical_aggregate;
      cbn [snd pair_aggregate ag_generation]; rewrite ?pair0_generation, ?pair1_generation; by vm_compute.
Qed.

Lemma demo_authorized : authorized demo_pairs (files (pair_disk pair0)).
Proof.
  exists (Some (pair_aggregate pair0)), (Some (pair_checkpoint pair0)).
  split; [apply pair_disk_holds; [apply pair0_ok|rewrite pair0_generation; by vm_compute]|].
  split; [by left; eexists|]. split; intros x [= <-]; eexists; (split; [left|]).
  - symmetry. apply canonical_aggregate_key, pair0_ok.
  - reflexivity.
Qed.

Lemma capacity_replay_converges_witness :
  let s1 := foldl (fun st b =>
    (_apply_lease_capacity_transition_unlocked (JObj demo_transition) true (set_budget b st)).2)
    (pair_disk pair0) [Some 0%nat; Some 1%nat] in
  exists s2, _apply_lease_capacity_transition_unlocked (JObj demo_transition) true (set_budget None s1)
               = (Ok (canonical_pair pair1), s2) /\ holds_pair (canonical_pair pair1) (files s2).
Proof.
  destruct (capacity_replay_converges demo_transition true demo_pairs (canonical_pair pair1)
    (pair_disk pair0) [Some 0%nat; Some 1%nat] demo_transition_ok demo_authorized) as (s2&_&Hr&Hh&_).
  exists s2. split; [exact Hr|exact Hh].
Defined.

Definition demo_deltas : list ((string * JobKind) * Z) := [(("ares", JARVIS), 1)].
Definition ares_counts : capacity_counts := [(lease_cluster_token "ares", [(JARVIS, 1)])].

Lemma ares_counts_ok : counts_ok ares_counts.
Proof.
  split; [apply NoDup_singleton|]. constructor; [|constructor]. split; [apply cluster_token_ok|].
  split_and!; [done|apply NoDup_singleton|]. repeat constructor.
Qed.
Lemma ares_counts_bounded : counts_bounded ares_counts.
Proof. split; unfold ares_counts; cbn; unfold MAX_LEASE_CAPACITY_SCOPES, MAX_LIVE_LEASE_RECORDS, MAX_ACTIVE_JOB_RECORDS; lia. Qed.

Lemma pair0_counts : ag_cluster_kind_counts (canonical_aggregate (pair_aggregate pair0)) = [].
Proof.
  unfold pair0, pair_of, new_lease_capacity_pair. rewrite normalize_ok; [reflexivity| |].
  - split; constructor.
  - split; by vm_compute.
Qed.

Lemma demo_prepare_runs :
  exists v s', _prepare_lease_capacity_transition_unlocked demo_deltas false (pair_disk pair0) = (Ok v, s').
Proof.
  assert (Hh : holds_pair pair0 (files (pair_disk pair0)))
    by (apply pair_disk_holds; [apply pair0_ok|rewrite pair0_generation; by vm_compute]).
  unfold _prepare_lease_capacity_transition_unlocked.
  rewrite (M_bind_run _ _ _ _ _ (read_aggregate_run pair0 _ Hh (proj2 (proj2 pair0_ok)))).
  cbn [pair_aggregate]. rewrite pair0_counts.
  rewrite (M_bind_run _ _ _ ares_counts (pair_disk pair0)) by reflexivity.
  rewrite (M_bind_run _ _ _ (uuid4_at 0) (mkDisk (files (pair_disk pair0)) None 0 1)) by reflexivity.
  unfold new_lease_capacity_pair. rewrite (normalize_ok ares_counts ares_counts_ok ares_counts_bounded).
  eexists _, _. reflexivity.
Qed.

Lemma prepared_transition_exact_witness :
  exists v s', _prepare_lease_capacity_transition_unlocked demo_deltas false (pair_disk pair0) = (Ok v, s') /\
    files s' = files (pair_disk pair0).
Proof.
  destruct demo_prepare_runs as (v&s'&Hrun). exists v, s'. split; [exact Hrun|].
  assert (Hh : holds_pair pair0 (files (pair_disk pair0)))
    by (apply pair_disk_holds; [apply pair0_ok|rewrite pair0_generation; by vm_compute]).
  destruct (prepared_transition_exact pair0 demo_deltas (pair_disk pair0) v s' pair0_ok Hh Hrun)
    as (_&_&_&_&Hf&_). exact Hf.
Defined.

(** ** A rebuild from one lease *)
Definition demo_lease : Lease := mkLease "lease_1" "job_1" "ep_1" 0 5.
Definition demo_job : RelayJob :=
  mkJob "job_1" "ares" JARVIS RUNNING JNull "key" None None [] None 0 0 None 0 None None [].
Definition rebuild_disk : disk :=
  mkDisk {[ ["jobs"; "job_1.json"] := DJob demo_job; ["leases"; "lease_1.json"] := DLease demo_lease ]} None 0 0.

Definition rebuilt_identity : LeaseIndexIdentity := demo_identity 5.
Definition rebuilt : list (Lease * RelayJob * LeaseIndexIdentity) :=
  [(demo_lease, demo_job, rebuilt_identity)].

Lemma demo_rebuild_runs :
  _canonical_lease_capacity_records_unlocked 10 rebuild_disk = (Ok (rebuilt, ares_counts), rebuild_disk).
Proof.
  unfold _canonical_lease_capacity_records_unlocked.
  rewrite (M_bind_run _ _ _ ([demo_lease], false) rebuild_disk) by (vm_compute; reflexivity).
  rewrite (M_bind_run _ _ _ tt rebuild_disk) by reflexivity. cbn [fst rebuild_loop].
  rewrite (M_bind_run _ _ _ (mkRebuild rebuilt ares_counts [(lease_cluster_token "ares", "ares")]
    [lease_reference rebuilt_identity] [(lease_reference rebuilt_identity).1]) rebuild_disk).
  - cbn [rb_counts rb_indexed].
    by rewrite (normalize_ok ares_counts ares_counts_ok ares_counts_bounded).
  - rewrite (M_bind_run _ _ _ (Some demo_job) rebuild_disk) by (vm_compute; reflexivity). reflexivity.
Qed.

Lemma rebuilt_counts_exact_witness :
  _canonical_lease_capacity_records_unlocked 10 rebuild_disk = (Ok (rebuilt, ares_counts), rebuild_disk) /\
  count_of ares_counts (lease_cluster_token "ares") JARVIS =
    Z.of_nat (length (List.filter (in_scope (lease_cluster_token "ares") JARVIS) rebuilt)).
Proof.
  split; [apply demo_rebuild_runs|].
  destruct (rebuilt_counts_exact 10 rebuild_disk rebuilt ares_counts rebuild_disk demo_rebuild_runs)
    as (_&_&Hc&_). apply Hc.
Defined.
