(* ===== verification/LeaseIndexes.v ===== *)
(** * Operational lease indexes ([queue_lease_indexes.py])

    Beside its canonical record, a lease has one index document and five empty
    files whose names carry everything admission asks for: its endpoint, cluster,
    kind and expiry.  Scans read names only; a name binds its parts by a token, so
    a name that was not written for its directory is refused. *)

From S2P Require Import Prelude Sha256 Json Decimal Identifiers Models Store LeaseRecords.
From S2P Require Import LeaseCapacity.
From stdpp Require Import base list gmap strings.
From Stdlib Require Import ZArith Lia.
From Stdlib Require Ascii String.
Open Scope Z_scope.

(** ** Paths *)
Definition _lease_index_path_from_token (lease_token : string) : path :=
  ["lease_indexes"; json_name lease_token].
Definition _lease_index_path (lease_id : string) : path :=
  _lease_index_path_from_token (lease_index_token lease_id).

Definition _lease_identity_ref_path_from_tokens (lease_token identity_token : string) : path :=
  ["lease_identity_refs"; str_join dot_str [lease_token; identity_token; "ref"]].
Definition _lease_identity_ref_path (i : LeaseIndexIdentity) : path :=
  _lease_identity_ref_path_from_tokens (lease_reference i).1 (lease_reference i).2.

Definition _lease_endpoint_directory_from_token (endpoint_token : string) : path :=
  ["leases_by_endpoint"; endpoint_token].
Definition _lease_endpoint_directory (endpoint_id : string) : path :=
  _lease_endpoint_directory_from_token (lease_endpoint_token endpoint_id).
Definition _lease_cluster_kind_directory (cluster : string) (kind : JobKind) : path :=
  ["leases_by_cluster_kind"; lease_cluster_token cluster; JobKind_value kind].
Definition expiry_directory : path := ["leases_by_expiry"].

(** The scope arguments of the two [lease_scope_ref_name] calls. *)
Definition endpoint_scope (endpoint_id : string) : list string :=
  ["endpoint"; lease_endpoint_token endpoint_id].
Definition cluster_kind_scope (cluster : string) (kind : JobKind) : list string :=
  ["cluster-kind"; lease_cluster_token cluster; JobKind_value kind].

(** [path.with_suffix(".guard")] of a name that ends with [.ref]. *)
Definition guard_name (ref_name : string) : string :=
  take_str (String.length ref_name - 4) ref_name +:+ ".guard".

Definition endpoint_ref_name (i : LeaseIndexIdentity) : string :=
  lease_scope_ref_name i (endpoint_scope (ix_endpoint_id i)).

Definition _lease_endpoint_ref_path (i : LeaseIndexIdentity) : path :=
  _lease_endpoint_directory (ix_endpoint_id i) ++ [endpoint_ref_name i].
Definition _lease_endpoint_guard_path (i : LeaseIndexIdentity) : path :=
  _lease_endpoint_directory (ix_endpoint_id i) ++ [guard_name (endpoint_ref_name i)].
Definition _lease_cluster_kind_ref_path (i : LeaseIndexIdentity) : path :=
  _lease_cluster_kind_directory (ix_cluster i) (ix_job_kind i)
  ++ [lease_scope_ref_name i (cluster_kind_scope (ix_cluster i) (ix_job_kind i))].
Definition _lease_expiry_ref_path (i : LeaseIndexIdentity) : path :=
  expiry_directory ++ [lease_expiry_ref_name i].

(** The five references, in the order [sync_operational_indexes] writes them and
    in the order the deletions remove them. *)
Definition written_refs (i : LeaseIndexIdentity) : list path :=
  [_lease_identity_ref_path i; _lease_endpoint_ref_path i; _lease_endpoint_guard_path i;
   _lease_cluster_kind_ref_path i; _lease_expiry_ref_path i].
Definition removed_refs (i : LeaseIndexIdentity) : list path :=
  [_lease_endpoint_ref_path i; _lease_endpoint_guard_path i; _lease_cluster_kind_ref_path i;
   _lease_expiry_ref_path i; _lease_identity_ref_path i].

(** ** Identities *)

(** The field checks of [lease_index_identity_from_document]. *)
Definition valid_lease_identity (i : LeaseIndexIdentity) : bool :=
  safe_global_record_id (JStr (ix_lease_id i)) && safe_global_record_id (JStr (ix_job_id i)) &&
  safe_global_record_id (JStr (ix_endpoint_id i)) && str_nonempty (ix_cluster i).

Section indexes.
Context `{World}.

(** [os.lstat(path).st_size], [None] when the path is absent. *)
Definition file_size (p : path) : M disk (option nat) := fun s =>
  (Ok (encoded_size <$> files s !! p), s).

Definition _require_empty_lease_ref (p : path) (label : string) : M disk unit :=
  size ← file_size p;
  match size with
  | None => raise (conflict (label +:+ " is missing: "))
  | Some size => ensure (size =? 0)%nat (conflict (label +:+ " is unsafe: "))
  end.

Definition _read_lease_index_identity_by_token (lease_token : string) (identity_token : option string)
  : M disk LeaseIndexIdentity :=
  raw ← read_doc (_lease_index_path_from_token lease_token);
  match raw with
  | None => raise (conflict "lease operational index is missing: ")
  | Some (DLeaseIndex identity) =>
      _ ← ensure (valid_lease_identity identity) (conflict "lease operational index identity mismatch");
      _ ← ensure (bool_decide (lease_index_token (ix_lease_id identity) = lease_token))
            (conflict "lease operational index identity mismatch: ");
      _ ← ensure (opt_forall (fun t => bool_decide (lease_identity_token identity = t)) identity_token)
            (conflict "lease operational index binding mismatch: ");
      mret identity
  | Some _ => raise (conflict "lease operational index has invalid fields")
  end.

Definition _read_lease_index_identity (lease_id : string) : M disk LeaseIndexIdentity :=
  identity ← _read_lease_index_identity_by_token (lease_index_token lease_id) None;
  _ ← ensure (bool_decide (ix_lease_id identity = lease_id))
        (conflict "lease operational index identity mismatch: ");
  mret identity.

Definition _write_lease_index_identity_unlocked (identity : LeaseIndexIdentity) : M disk unit :=
  let p := _lease_index_path (ix_lease_id identity) in
  present ← path_exists p;
  _ ← (if (present : bool) then
         existing ← _read_lease_index_identity_by_token (lease_index_token (ix_lease_id identity)) None;
         ensure (bool_decide (ix_lease_id existing = ix_lease_id identity))
           (conflict "lease operational index token collision: ")
       else mret tt);
  write_doc p (DLeaseIndex identity).

Definition _validate_lease_index_identity (l : Lease) (i : LeaseIndexIdentity) : result unit :=
  raise_unless
    (bool_decide (lease_id l = ix_lease_id i) && bool_decide (lease_job_id l = ix_job_id i) &&
     bool_decide (lease_endpoint_id l = ix_endpoint_id i) && bool_decide (expires_at l = ix_expires_at i))
    (conflict "canonical lease and operational index disagree: ").

(** The removal of the references of the previous lease of a renewal. *)
Definition unlink_stale_refs (previous identity : LeaseIndexIdentity) : M disk unit :=
  for_each (fun p => if bool_decide (p ∈ written_refs identity) then mret tt else unlink_durable_path p)
    (removed_refs previous).

Definition sync_operational_indexes (l : Lease) (job : RelayJob) (previous_lease : option Lease)
  : M disk LeaseIndexIdentity :=
  identity ← lift (_lease_index_identity l job);
  _ ← match previous_lease with
      | None => mret tt
      | Some previous_lease =>
          previous ← lift (_lease_index_identity previous_lease job);
          _ ← ensure (bool_decide (ix_lease_id previous = ix_lease_id identity) &&
                      bool_decide (ix_job_id previous = ix_job_id identity) &&
                      bool_decide (ix_endpoint_id previous = ix_endpoint_id identity))
                (conflict "lease renewal changed immutable identity: ");
          unlink_stale_refs previous identity
      end;
  _ ← _write_lease_index_identity_unlocked identity;
  _ ← for_each (fun p => write_doc p (DText "")) (written_refs identity);
  mret identity.

(** The endpoint directory that becomes empty is also removed; the store has no
    empty directories. *)
Definition _delete_lease_operational_indexes_unlocked
    (identity : LeaseIndexIdentity) (allow_foreign_manifest : bool) : M disk unit :=
  let index_path := _lease_index_path (ix_lease_id identity) in
  present ← path_exists index_path;
  owns_manifest ← (if (present : bool) then
    indexed ← _read_lease_index_identity_by_token (lease_index_token (ix_lease_id identity)) None;
    if bool_decide (indexed = identity) then mret true
    else
      _ ← ensure allow_foreign_manifest (conflict "lease operational index token is occupied: ");
      mret false
    else mret false);
  _ ← for_each unlink_durable_path (removed_refs identity);
  present ← path_exists index_path;
  if (owns_manifest : bool) && (present : bool) then unlink_durable_path index_path else mret tt.
End indexes.

(** ** Scans of the reference directories *)

(** Python compares tuples of strings by the first difference. *)
Fixpoint strings_leb (a b : list string) : bool :=
  match a, b with
  | [], _ => true
  | _, [] => false
  | x :: a', y :: b' => if bool_decide (x = y) then strings_leb a' b' else str_leb x y
  end.

Definition reference_leb (a b : string * string) : bool := strings_leb [a.1; a.2] [b.1; b.2].

Definition expiry_leb (a b : LeaseExpiryParts) : bool :=
  if ep_expires_key a =? ep_expires_key b then
    strings_leb
      [ep_cluster_token a; JobKind_value (ep_job_kind a); ep_endpoint_token a; ep_job_token a;
       ep_lease_token a; ep_identity_token a]
      [ep_cluster_token b; JobKind_value (ep_job_kind b); ep_endpoint_token b; ep_job_token b;
       ep_lease_token b; ep_identity_token b]
  else ep_expires_key a <? ep_expires_key b.

Section scans.
Context `{World}.

(** The common loop of [_scan_lease_scope_refs], [_scan_expiry_refs] and
    [_scan_lease_identity_refs]: parse each name, and stop at the entry after
    [limit]. *)
Fixpoint scan_refs {A : Type} (parse : string -> option A) (text : string) (limit : nat)
    (entries : list (path * doc)) (refs : list A) : result (list A * bool) :=
  match entries with
  | [] => Ok (refs, false)
  | (p, d) :: rest =>
      if (limit <=? length refs)%nat then Ok (refs, true)
      else match parse (default "" (last p)) with
           | Some ref =>
               if (encoded_size d =? 0)%nat then scan_refs parse text limit rest (refs ++ [ref])
               else Err (conflict text)
           | None => Err (conflict text)
           end
  end.

Definition _scan_lease_scope_refs (directory : path) (scope : list string) (limit : nat)
  : M disk (list (string * string) * bool) :=
  _ ← ensure (1 <=? limit)%nat (ValueError "lease reference scan limit must be at least 1");
  entries ← scandir directory;
  found ← lift (scan_refs (fun name => lease_reference_from_scope_ref name scope)
                  "contains an unsafe lease reference: " limit entries []);
  mret (sort_by reference_leb found.1, found.2).

Definition _scan_expiry_refs (limit : nat) : M disk (list LeaseExpiryParts * bool) :=
  entries ← scandir expiry_directory;
  found ← lift (scan_refs parse_lease_expiry_ref_name
                  "lease expiry index contains an unsafe reference: " limit entries []);
  mret (sort_by expiry_leb found.1, found.2).

Definition _scan_lease_identity_refs (limit : nat) : M disk (list (string * string) * bool) :=
  _ ← ensure (1 <=? limit)%nat (ValueError "lease identity reference scan limit must be at least 1");
  entries ← scandir ["lease_identity_refs"];
  found ← lift (scan_refs parse_lease_identity_ref_name
                  "lease identity reference index contains an unsafe " limit entries []);
  mret (sort_by reference_leb found.1, found.2).

(** [name.endswith(".guard")] and the reference a name of the endpoint directory
    stands for. *)
Definition endpoint_entry (endpoint_id name : string) : bool * option (string * string) :=
  if ends_with ".guard" name then
    (true, lease_reference_from_scope_ref (take_str (String.length name - 6) name +:+ ".ref")
             (endpoint_scope endpoint_id))
  else (false, lease_reference_from_scope_ref name (endpoint_scope endpoint_id)).

(** The loop of [_scan_lease_endpoint_refs]; [None] is the early return. *)
Fixpoint scan_endpoint_entries (endpoint_id : string) (limit file_count : nat)
    (entries : list (path * doc)) (references guards : list (string * string))
  : result (list (string * string) * option (list (string * string))) :=
  match entries with
  | [] => Ok (references, Some guards)
  | (p, d) :: rest =>
      if (limit * 2 <? S file_count)%nat then Ok (references, None)
      else
        let '(is_guard, parsed) := endpoint_entry endpoint_id (default "" (last p)) in
        match parsed with
        | Some ref =>
            if (encoded_size d =? 0)%nat
               && negb (bool_decide (ref ∈ if is_guard then guards else references))
            then if is_guard
                 then scan_endpoint_entries endpoint_id limit (S file_count) rest references
                        (guards ++ [ref])
                 else scan_endpoint_entries endpoint_id limit (S file_count) rest
                        (references ++ [ref]) guards
            else Err (conflict "lease endpoint index contains an unsafe reference: ")
        | None => Err (conflict "lease endpoint index contains an unsafe reference: ")
        end
  end.

(** [set(a) == set(b)] *)
Definition same_elements {A} `{EqDecision A} (a b : list A) : bool :=
  forallb (fun x => bool_decide (x ∈ b)) a && forallb (fun x => bool_decide (x ∈ a)) b.

Definition _scan_lease_endpoint_refs (endpoint_id : string) (limit : nat)
  : M disk (list (string * string) * bool) :=
  _ ← ensure (1 <=? limit)%nat (ValueError "lease endpoint reference scan limit must be at least 1");
  entries ← scandir (_lease_endpoint_directory endpoint_id);
  found ← lift (scan_endpoint_entries endpoint_id limit 0 entries [] []);
  match found with
  | (references, None) => mret (sort_by reference_leb references, true)
  | (references, Some guards) =>
      _ ← ensure (same_elements references guards)
            (conflict "lease endpoint references and guards disagree: ");
      mret (sort_by reference_leb references, false)
  end.
End scans.
