(* ===== verification/LeaseTransitions.v ===== *)
(** * Lease changes and their journal ([queue_leases.py], [queue_lease_recovery.py],
      [queue_lease_admission.py], [queue_transitions.py], [core_queue.py])

    Taking, renewing and dropping a lease each touch up to ten files.  An intent
    with the exact records of the change is written first and removed last; every
    queue operation starts by replaying the intents it finds, so a change a crash
    cut short is finished, or for an acquisition undone, before anything else. *)

From S2P Require Import Prelude Sha256 Json Decimal Identifiers Models Store OrderIndex JobIndex Events.
From S2P Require Import LeaseRecords LeaseCapacity LeaseIndexes.
From stdpp Require Import base list gmap strings.
From Stdlib Require Import ZArith Lia.
From Stdlib Require Ascii String.
Open Scope Z_scope.

Definition MAX_TRANSITION_INTENT_RECORDS : nat := Z.to_nat 10000.

Definition lease_path (lease_id : string) : path := ["leases"; json_name lease_id].
Definition job_path (job_id : string) : path := ["jobs"; json_name job_id].

(** [job_record_path] *)
Definition job_record_path (family job_id record_id : string) : result path :=
  job_key ← require_durable_record_id (JStr job_id) "record_id";
  record_key ← require_durable_record_id (JStr record_id) "record_id";
  Ok [family; job_key; json_name record_key].

Definition intent_kind (body : intent_payload) : string :=
  match body with
  | LeaseAcquireIntent _ _ _ _ _ => "lease_acquire"
  | LeaseSyncIntent _ _ _ _ => "lease_sync"
  | LeaseDeleteIntent _ _ _ _ => "lease_delete"
  | StaleRecoveryIntent _ _ _ _ _ _ => "stale_lease_recovery"
  | JobSyncIntent _ _ => "job_sync"
  | TaskSyncIntent _ _ => "task_sync"
  | GatewaySyncIntent _ => "gateway_sync"
  end.

(** The table [order] of [_reconcile_transition_intents_unlocked]. *)
Definition intent_order (body : intent_payload) : Z :=
  match body with
  | LeaseAcquireIntent _ _ _ _ _ => 1
  | LeaseSyncIntent _ _ _ _ => 2
  | LeaseDeleteIntent _ _ _ _ => 3
  | StaleRecoveryIntent _ _ _ _ _ _ => 4
  | JobSyncIntent _ _ => 5
  | TaskSyncIntent _ _ => 6
  | GatewaySyncIntent _ => 7
  end.

Definition intent_path (kind identity : string) : path :=
  ["transition_intents"; json_name (kind +:+ "-" +:+ _stable_ref_token [kind; identity])].

(** [job.model_copy(update=...)] of an acquisition. *)
Definition leased_copy (j : RelayJob) (endpoint : string) (now : Z) : RelayJob :=
  mkJob (job_id j) (job_cluster j) (job_kind j) LEASED (job_spec j) (idempotency_key j)
    (owner_session_id j) (owner_session_generation_id j) (used_artifact_refs j) (submission_digest j)
    (job_created_at j) now (Some endpoint) (job_attempts j + 1) (job_last_error j)
    (storage_reservation j) (metadata j).

(** ** What job, task and gateway writes do in other components

    Writing a job also migrates its execution-cleanup shard, records its
    owner-session membership and links its scheduler identities; a gateway has an index
    of its own.  Those parts keep files of their own, and promise to leave every other
    file alone. *)
Class JobDerived `{World} := {
  _migrate_execution_cleanup_shard_unlocked : string -> string -> M disk unit;
  _sync_owner_session_job_membership_unlocked : RelayJob -> M disk unit;
  _sync_scheduler_source_unlocked : string -> string -> list (string * json) -> M disk unit;
  _sync_gateway_session_derived_unlocked : string -> M disk unit;
  derived_families : list string;
  derived_families_apart :
    Forall (fun f => f ∉ derived_families)
      ["jobs"; "jobs_active"; "jobs_queued"; "leases"; "leases_by_job"; "lease_indexes";
       "lease_identity_refs"; "leases_by_endpoint"; "leases_by_cluster_kind"; "leases_by_expiry";
       "lease_capacity"; "transition_intents"; "events"; "job_indexes"; "migrations"; "idempotency"; "gateway_sessions"; "tasks"];
  migrate_frame : forall cluster jid s p,
    default "" (head p) ∉ derived_families ->
    files (_migrate_execution_cleanup_shard_unlocked cluster jid s).2 !! p = files s !! p;
  owner_session_frame : forall job s p,
    default "" (head p) ∉ derived_families ->
    files (_sync_owner_session_job_membership_unlocked job s).2 !! p = files s !! p;
  scheduler_source_frame : forall jid source meta s p,
    default "" (head p) ∉ derived_families ->
    files (_sync_scheduler_source_unlocked jid source meta s).2 !! p = files s !! p;
  gateway_session_frame : forall sid s p,
    default "" (head p) ∉ derived_families ->
    files (_sync_gateway_session_derived_unlocked sid s).2 !! p = files s !! p;
}.

Section journal.
Context `{World}.

(** [_write_transition_intent_unlocked] *)
Definition _write_transition_intent_unlocked (identity : string) (body : intent_payload)
  : M disk path :=
  let p := intent_path (intent_kind body) identity in
  now ← utc_now;
  _ ← write_doc p (DIntent (mkIntent identity now body));
  mret p.

(** [_lease_capacity_migration_complete_unlocked] *)
Definition _lease_capacity_migration_complete_unlocked : M disk bool :=
  d ← read_doc ["migrations"; "index-v1.json"];
  match d with
  | Some (DJson (JObj st)) =>
      _ ← ensure (is_string "clio-relay.index-migration.v1" (dict_get "schema_version" st))
            (QueueConflictError "unsupported index migration state: ");
      mret (match dict_get "lease_capacity_aggregate" st with
            | Some (JObj checkpoint) => is_true (dict_get "complete" checkpoint)
            | _ => false
            end)
  | Some (DJson _) => raise (QueueConflictError "index migration state is not an object: ")
  | _ => raise (QueueConflictError "invalid index migration state ")
  end.

(** [read_optional(path, Lease)] in the flat family [leases]. *)
Definition read_optional_lease (lid : string) : M disk (option Lease) :=
  d ← read_doc (lease_path lid);
  match d with
  | None => mret None
  | Some (DLease l) =>
      _ ← ensure (valid_lease l) (ValidationError "Lease");
      _ ← ensure (bool_decide (lease_id l = lid)) (QueueConflictError "canonical lease identity mismatch: ");
      mret (Some l)
  | Some _ => raise (ValidationError "Lease")
  end.

(** [try: get_job(...) except NotFoundError] *)
Definition catch_not_found {A : Type} (m : M disk A) : M disk (option A) := fun s =>
  match m s with
  | (Ok a, s') => (Ok (Some a), s')
  | (Err (NotFoundError _), s') => (Ok None, s')
  | (Err e, s') => (Err e, s')
  end.

Definition get_job : string -> M disk RelayJob := read_required_job.

(** [Lease.new], with the validation pydantic runs. *)
Definition new_lease (jid endpoint : string) (ttl_seconds : Z) : M disk Lease :=
  now ← utc_now;
  u ← uuid4_hex;
  let l := mkLease ("lease_" +:+ u) jid endpoint now (now + ttl_seconds * 1000000) in
  _ ← ensure (valid_lease l) (ValidationError "Lease");
  mret l.

(** The end of an intent: its capacity transition, then its removal. *)
Definition settle_capacity (capacity : option json) (after : bool) (missing : string) : M disk unit :=
  match capacity with
  | Some transition =>
      _ ← _apply_lease_capacity_transition_unlocked transition after; mret tt
  | None =>
      complete ← _lease_capacity_migration_complete_unlocked;
      ensure (negb complete) (QueueConflictError missing)
  end.

(** ** Deleting a lease *)

(** The arguments [job] and [identity] of [_delete_lease_unlocked], resolved. *)
Definition delete_identity (l : Lease) (job : option RelayJob) (identity : option LeaseIndexIdentity)
  : M disk LeaseIndexIdentity :=
  match identity with
  | Some i => mret i
  | None =>
      job ← match job with
            | Some j => mret (Some j)
            | None => catch_not_found (get_job (lease_job_id l))
            end;
      match job with
      | Some j => lift (_lease_index_identity l j)
      | None => _read_lease_index_identity (lease_id l)
      end
  end.

(** The removal of a lease's files. *)
Definition remove_lease_files (l : Lease) (identity : LeaseIndexIdentity) : M disk unit :=
  _ ← unlink_durable_path (lease_path (lease_id l));
  by_job ← lift (job_record_path "leases_by_job" (lease_job_id l) (lease_id l));
  _ ← unlink_durable_path by_job;
  _delete_lease_operational_indexes_unlocked identity false.

(** [_delete_lease_unlocked]; [intent] is the path of an intent the caller owns. *)
Definition _delete_lease_unlocked (l : Lease) (job : option RelayJob) (intent : option path)
    (identity : option LeaseIndexIdentity) (finalize_intent : bool) : M disk unit :=
  identity ← delete_identity l job identity;
  _ ← lift (_validate_lease_index_identity l identity);
  present ← path_exists (_lease_index_path (lease_id l));
  _ ← (if (present : bool) then
         indexed ← _read_lease_index_identity (lease_id l);
         ensure (bool_decide (indexed = identity))
           (conflict "lease operational identity changed before deletion: ")
       else ensure (bool_decide (is_Some intent))
              (conflict "lease operational index is missing before deletion: "));
  owned ← match intent with
          | Some p => mret (p, None)
          | None =>
              transition ← _prepare_lease_capacity_transition_unlocked
                [((ix_cluster identity, ix_job_kind identity), -1)] false;
              p ← _write_transition_intent_unlocked (lease_id l)
                (LeaseDeleteIntent (lease_job_id l) (lease_id l) (Some (l, identity)) (Some transition));
              mret (p, Some transition)
          end;
  _ ← remove_lease_files l identity;
  if finalize_intent then
    match owned.2 with
    | None => raise (conflict "lease deletion has no capacity transition: ")
    | Some transition =>
        _ ← _apply_lease_capacity_transition_unlocked transition true;
        unlink_durable_path owned.1
    end
  else mret tt.

(** The branch [lease_delete] of the replay. *)
Definition replay_lease_delete (p : path) (jid lid : string) (index : option (Lease * LeaseIndexIdentity))
    (capacity : option json) : M disk unit :=
  _ ← ensure (str_nonempty lid && str_nonempty jid) (conflict "invalid lease deletion intent: ");
  _ ← match index with
      | None => mret tt
      | Some (l, i) =>
          _ ← ensure (valid_lease l) (ValidationError "Lease");
          _ ← ensure (valid_lease_identity i) (conflict "lease deletion index identity mismatch");
          _ ← lift (_validate_lease_index_identity l i);
          ensure (bool_decide (lid = lease_id l) && bool_decide (jid = lease_job_id l))
            (conflict "lease deletion intent identity mismatch: ")
      end;
  _ ← unlink_durable_path (lease_path lid);
  by_job ← lift (job_record_path "leases_by_job" jid lid);
  _ ← unlink_durable_path by_job;
  _ ← match index with
      | None => mret tt
      | Some (_, i) => _delete_lease_operational_indexes_unlocked i false
      end;
  _ ← settle_capacity capacity true "lease deletion intent has no capacity transition: ";
  unlink_durable_path p.

(** ** Renewing a lease *)

(** The files of a renewal, written by the operation and by the replay. *)
Definition write_renewed_lease (renewed previous : Lease) (job : RelayJob) : M disk unit :=
  _ ← write_doc (lease_path (lease_id renewed)) (DLease renewed);
  by_job ← lift (job_record_path "leases_by_job" (lease_job_id renewed) (lease_id renewed));
  _ ← write_doc by_job (DLease renewed);
  _ ← sync_operational_indexes renewed job (Some previous);
  mret tt.

(** The branch [lease_sync] of the replay. *)
Definition replay_lease_sync (p : path) (l previous : Lease) (job : RelayJob) (capacity : option json)
  : M disk unit :=
  _ ← ensure (valid_lease l) (ValidationError "Lease");
  _ ← ensure (valid_lease previous) (ValidationError "Lease");
  _ ← ensure (valid_job job) (ValidationError "RelayJob");
  _ ← ensure (bool_decide (lease_job_id l = job_id job) && bool_decide (lease_id previous = lease_id l))
        (conflict "lease synchronization identity mismatch: ");
  _ ← write_renewed_lease l previous job;
  _ ← settle_capacity capacity true "lease synchronization intent has no capacity transition: ";
  unlink_durable_path p.
End journal.

(** ** Writing a job *)
Section jobs.
Context `{JobDerived}.

(** [_sync_job_derived_unlocked] *)
Definition _sync_job_derived_unlocked (job : RelayJob) : M disk unit :=
  let active_path := ["jobs_active"; json_name (job_id job)] in
  let queued_path := ["jobs_queued"; json_name (job_id job)] in
  _ ← _sync_owner_session_job_membership_unlocked job;
  _ ← _sync_scheduler_source_unlocked (job_id job) "job" (metadata job);
  if is_terminal (job_state job) then
    _ ← unlink_durable_path active_path; unlink_durable_path queued_path
  else
    _ ← write_doc active_path (DJob job);
    if bool_decide (job_state job = QUEUED) then write_doc queued_path (DJob job)
    else unlink_durable_path queued_path.

(** [write_job] *)
Definition write_job (job : RelayJob) : M disk unit :=
  _ ← _migrate_execution_cleanup_shard_unlocked (job_cluster job) (job_id job);
  p ← _write_transition_intent_unlocked (job_id job) (JobSyncIntent (job_id job) (job_updated_at job));
  _ ← write_doc (job_path (job_id job)) (DJob job);
  _ ← _sync_job_derived_unlocked job;
  unlink_durable_path p.

(** ** Taking a lease *)

(** [_lease_job_unlocked] *)
Definition _lease_job_unlocked (job : RelayJob) (endpoint : string) (ttl_seconds : Z)
    (validated_global_total : option Z) : M disk Lease :=
  _ ← ensure (negb (bool_decide (job_kind job = INPUT_INGEST)))
        (conflict "input ingest jobs are never worker-leased");
  total ← match validated_global_total with
          | Some total => mret total
          | None => snapshot ← _lease_capacity_snapshot (job_cluster job); mret snapshot.2
          end;
  _ ← ensure (total <? MAX_LIVE_LEASE_RECORDS)
        (conflict "active lease population reached its safety bound of ");
  lease ← new_lease (job_id job) endpoint ttl_seconds;
  now ← utc_now;
  let leased_job := leased_copy job endpoint now in
  transition ← _prepare_lease_capacity_transition_unlocked [((job_cluster job, job_kind job), 1)] true;
  p ← _write_transition_intent_unlocked (lease_id lease)
        (LeaseAcquireIntent lease job leased_job now (Some transition));
  _ ← write_job leased_job;
  _ ← write_doc (lease_path (lease_id lease)) (DLease lease);
  by_job ← lift (job_record_path "leases_by_job" (job_id job) (lease_id lease));
  _ ← write_doc by_job (DLease lease);
  _ ← sync_operational_indexes lease leased_job None;
  _ ← _apply_lease_capacity_transition_unlocked transition true;
  _ ← unlink_durable_path p;
  _ ← append_event (job_id job) "job.leased" ("Job leased by " +:+ endpoint)
        (Some [("lease_id", JStr (lease_id lease))]);
  mret lease.

(** [_reconcile_lease_acquire_intent_unlocked] *)
Definition _reconcile_lease_acquire_intent_unlocked (p : path) (lease : Lease)
    (original_job target_job : RelayJob) (target_updated_at : Z) (capacity : option json) : M disk unit :=
  _ ← ensure (valid_lease lease) (ValidationError "Lease");
  _ ← ensure (valid_job original_job) (ValidationError "RelayJob");
  _ ← ensure (valid_job target_job) (ValidationError "RelayJob");
  _ ← ensure (bool_decide (lease_job_id lease = job_id original_job) &&
              bool_decide (job_id target_job = job_id original_job) &&
              bool_decide (job_cluster target_job = job_cluster original_job) &&
              bool_decide (job_kind target_job = job_kind original_job) &&
              bool_decide (job_state target_job = LEASED) &&
              bool_decide (leased_by target_job = Some (lease_endpoint_id lease)) &&
              (job_updated_at target_job =? target_updated_at))
        (conflict "lease acquisition intent identity mismatch: ");
  current ← read_optional_job (lease_job_id lease);
  let leased_here j := bool_decide (leased_by j = Some (lease_endpoint_id lease)) in
  let target_is_current :=
    match current with
    | Some j => (job_updated_at j =? target_updated_at) && bool_decide (job_state j = LEASED)
                && leased_here j
    | None => false
    end in
  _ ← (if target_is_current then
         _ ← write_doc (job_path (job_id original_job)) (DJob original_job);
         _sync_job_derived_unlocked original_job
       else mret tt);
  by_job ← lift (job_record_path "leases_by_job" (lease_job_id lease) (lease_id lease));
  identity ← lift (_lease_index_identity lease original_job);
  let preserved :=
    match current with
    | Some j =>
        if negb target_is_current && bool_decide (job_state j ∈ [LEASED; RUNNING]) && leased_here j
        then Some j else None
    | None => None
    end in
  _ ← match preserved with
      | Some j =>
          _ ← write_doc (lease_path (lease_id lease)) (DLease lease);
          _ ← write_doc by_job (DLease lease);
          _ ← sync_operational_indexes lease j None; mret tt
      | None =>
          _ ← unlink_durable_path (lease_path (lease_id lease));
          _ ← unlink_durable_path by_job;
          _delete_lease_operational_indexes_unlocked identity true
      end;
  _ ← settle_capacity capacity (bool_decide (is_Some preserved))
        "lease acquisition intent has no capacity transition: ";
  unlink_durable_path p.

(** ** Taking expired leases from a job *)

Definition retry_limit_error : string := "expired lease exceeded retry limit".

(** The event of a recovery: type, message and payload. *)
Definition recovery_event_type (target : JobState) : string :=
  if bool_decide (target = FAILED) then "job.failed" else "job.requeued".
Definition recovery_message (target : JobState) : string :=
  if bool_decide (target = FAILED) then "Job failed after expired lease retry limit"
  else "Job requeued after expired worker lease".
Definition recovery_payload (original target : JobState) (leases : list Lease) : list (string * json) :=
  [("state", JStr (JobState_value target)); ("expired_lease_ids", JList (JStr <$> (lease_id <$> leases)));
   ("previous_state", JStr (JobState_value original))]
  ++ (if bool_decide (target = FAILED) then [("error", JStr retry_limit_error)] else []).

(** [original.model_copy(update=...)] of a recovery to [st] at [now]. *)
Definition recovered_copy (j : RelayJob) (st : JobState) (now : Z) : RelayJob :=
  mkJob (job_id j) (job_cluster j) (job_kind j) st (job_spec j) (idempotency_key j)
    (owner_session_id j) (owner_session_generation_id j) (used_artifact_refs j) (submission_digest j)
    (job_created_at j) now None (job_attempts j)
    (if bool_decide (st = FAILED) then Some retry_limit_error else job_last_error j)
    (storage_reservation j) (metadata j).

(** [_write_recovery_event_unlocked] *)
Definition _write_recovery_event_unlocked (event : RelayEvent) : M disk unit :=
  existing ← read_optional_event (event_job_id event) (event_seq event);
  _ ← match existing with
      | Some e => ensure (bool_decide (e = event)) (conflict "stale recovery event sequence changed: ")
      | None => write_doc (seq_path (event_dir (event_job_id event)) (event_seq event)) (DEvent event)
      end;
  index ← read_job_index (event_job_id event);
  match index with
  | None => raise (conflict "stale recovery job index is missing: ")
  | Some index =>
      latest ← lift (index_integer index "latest_event_seq");
      if latest <? event_seq event then
        _update_job_index_unlocked (event_job_id event) [("latest_event_seq", JInt (event_seq event))]
      else mret tt
  end.

(** The checks of a recovery intent against itself. *)
Definition recovery_consistent (jid : string) (original target : RelayJob) (leases : list Lease)
    (event : RelayEvent) : bool :=
  bool_decide (jid = job_id original) && bool_decide (job_id target = job_id original) &&
  bool_decide (job_cluster target = job_cluster original) && bool_decide (job_kind target = job_kind original) &&
  bool_decide (job_state original ∈ [LEASED; RUNNING]) && bool_decide (job_state target ∈ [QUEUED; FAILED]) &&
  bool_decide (leased_by target = None) &&
  bool_decide (target = recovered_copy original (job_state target) (job_updated_at target)) &&
  bool_decide (event_job_id event = job_id original) &&
  bool_decide (event_type event = recovery_event_type (job_state target)) &&
  bool_decide (event_message event = recovery_message (job_state target)) &&
  bool_decide (event_payload event = recovery_payload (job_state original) (job_state target) leases) &&
  (1 <=? event_seq event) && bool_decide (leases <> []) && bool_decide (NoDup (lease_id <$> leases)) &&
  forallb (fun l => bool_decide (lease_job_id l = job_id original)) leases.

(** One round of the loop that compares the leases with the store. *)
Definition check_recovered_lease (current : option RelayJob) (original : RelayJob) (l : Lease) : M disk unit :=
  canonical ← read_optional_lease (lease_id l);
  _ ← ensure (opt_forall (fun c => bool_decide (c = l)) canonical)
        (conflict "stale recovery canonical lease changed: ");
  _ ← ensure (negb (bool_decide (canonical = None) && bool_decide (current = Some original)))
        (conflict "stale recovery canonical lease is missing: ");
  present ← path_exists (_lease_index_path (lease_id l));
  if (present : bool) then
    expected ← lift (_lease_index_identity l original);
    indexed ← _read_lease_index_identity (lease_id l);
    ensure (bool_decide (indexed = expected)) (conflict "stale recovery lease index changed: ")
  else ensure (bool_decide (canonical = None)) (conflict "stale recovery lease index is missing: ").

(** [_apply_stale_lease_recovery_intent_unlocked] *)
Definition _apply_stale_lease_recovery_intent_unlocked (p : path) (jid : string) (original target : RelayJob)
    (leases : list Lease) (event : RelayEvent) (capacity : option json) : M disk RelayJob :=
  _ ← ensure (valid_job original) (ValidationError "RelayJob");
  _ ← ensure (valid_job target) (ValidationError "RelayJob");
  _ ← ensure (valid_event event) (ValidationError "RelayEvent");
  _ ← ensure (forallb valid_lease leases) (ValidationError "Lease");
  _ ← ensure (recovery_consistent jid original target leases event)
        (conflict "stale recovery intent identity mismatch: ");
  current ← read_optional_job (job_id original);
  _ ← ensure (bool_decide (current = Some original) || bool_decide (current = Some target))
        (conflict "stale recovery job changed after intent creation: ");
  _ ← for_each (check_recovered_lease current original) leases;
  _ ← write_job target;
  _ ← _write_recovery_event_unlocked event;
  _ ← for_each (fun l =>
        identity ← lift (_lease_index_identity l original);
        _delete_lease_unlocked l (Some original) (Some p) (Some identity) false) leases;
  _ ← settle_capacity capacity true "stale recovery intent has no capacity transition: ";
  _ ← unlink_durable_path p;
  mret target.

(** ** The indexes of a task *)

(** [_sync_task_retention_indexes_unlocked] *)
Definition _sync_task_retention_indexes_unlocked (t : RelayTask) : M disk unit :=
  active_path ← lift (job_record_path "active_tasks_by_job" (task_job_id t) (task_id t));
  _ ← (if is_terminal (task_state t) then unlink_durable_path active_path else write_doc active_path (DTask t));
  _sync_scheduler_source_unlocked (task_job_id t) ("task:" +:+ task_id t) (task_metadata t).

(** [read_optional(path, RelayTask)] *)
Definition read_optional_task (tid : string) : M disk (option RelayTask) :=
  d ← read_doc ["tasks"; json_name tid];
  match d with
  | None => mret None
  | Some (DTask t) =>
      _ ← ensure (valid_task t) (ValidationError "RelayTask");
      _ ← ensure (bool_decide (task_id t = tid)) (conflict "canonical task identity mismatch: ");
      mret (Some t)
  | Some _ => raise (ValidationError "RelayTask")
  end.

(** [_sync_task_derived_unlocked] *)
Definition _sync_task_derived_unlocked (t : RelayTask) : M disk unit :=
  _ ← _initialize_job_index_unlocked (task_job_id t);
  p ← lift (job_record_path "tasks_by_job" (task_job_id t) (task_id t));
  _ ← write_doc p (DTask t);
  _ ← match task_sequence t with
      | None => mret tt
      | Some sequence =>
          _ ← _write_ordered_job_record "task" (task_job_id t) sequence (DTask t);
          index ← read_job_index (task_job_id t);
          match index with
          | None => mret tt
          | Some index =>
              count ← lift (index_integer index "task_count");
              if count <? sequence then _update_job_index_unlocked (task_job_id t) [("task_count", JInt sequence)]
              else mret tt
          end
      end;
  _sync_task_retention_indexes_unlocked t.

(** ** Replaying the journal *)

(** The branch [job_sync]. *)
Definition replay_job_sync (p : path) (jid : string) : M disk unit :=
  _ ← ensure (str_nonempty jid) (conflict "invalid job transition intent: ");
  job ← read_optional_job jid;
  _ ← match job with Some j => _sync_job_derived_unlocked j | None => mret tt end;
  unlink_durable_path p.

(** The branches [task_sync] and [gateway_sync]. *)
Definition replay_task_sync (p : path) (tid : string) : M disk unit :=
  _ ← ensure (str_nonempty tid) (conflict "invalid task transition intent: ");
  task ← read_optional_task tid;
  _ ← match task with Some t => _sync_task_derived_unlocked t | None => mret tt end;
  unlink_durable_path p.

Definition replay_gateway_sync (p : path) (sid : string) : M disk unit :=
  _ ← ensure (str_nonempty sid) (conflict "invalid gateway transition intent: ");
  _ ← _sync_gateway_session_derived_unlocked sid;
  unlink_durable_path p.

Definition replay_intent (e : path * TransitionIntent) : M disk unit :=
  match intent_body e.2 with
  | LeaseAcquireIntent lease original_job target_job target_updated_at capacity =>
      _reconcile_lease_acquire_intent_unlocked e.1 lease original_job target_job target_updated_at capacity
  | LeaseSyncIntent l previous job capacity => replay_lease_sync e.1 l previous job capacity
  | LeaseDeleteIntent jid lid index capacity => replay_lease_delete e.1 jid lid index capacity
  | StaleRecoveryIntent jid original target leases event capacity =>
      _ ← _apply_stale_lease_recovery_intent_unlocked e.1 jid original target leases event capacity; mret tt
  | JobSyncIntent jid _ => replay_job_sync e.1 jid
  | TaskSyncIntent _ tid => replay_task_sync e.1 tid
  | GatewaySyncIntent sid => replay_gateway_sync e.1 sid
  end.

(** The loop of [bounded_json_record_paths]. *)
Fixpoint bounded_entries (limit : nat) (entries : list (path * doc)) (paths : list path)
  : result (list path) :=
  match entries with
  | [] => Ok paths
  | e :: rest =>
      if (limit <=? length paths)%nat then Err (QueueConflictError "exceeded its safety bound of ")
      else if negb (ends_with ".json" (default "" (last e.1))) then
        Err (QueueConflictError "contains an unsafe record: ")
      else bounded_entries limit rest (paths ++ [e.1])
  end.

Definition bounded_json_record_paths (directory : path) (limit : nat) : M disk (list path) :=
  entries ← scandir directory;
  lift (bounded_entries limit entries []).

(** The first loop of [_reconcile_transition_intents_unlocked]. *)
Fixpoint read_intents (paths : list path) : M disk (list (path * TransitionIntent)) :=
  match paths with
  | [] => mret []
  | p :: rest =>
      d ← read_doc p;
      match d with
      | Some (DIntent t) => ts ← read_intents rest; mret ((p, t) :: ts)
      | Some _ => raise (conflict "invalid queue transition intent: ")
      | None => raise (OSError "FileNotFoundError")
      end
  end.

Definition intent_leb (a b : path * TransitionIntent) : bool :=
  intent_order (intent_body a.2) <=? intent_order (intent_body b.2).

(** [_reconcile_transition_intents_unlocked]; the list of recovered jobs it returns
    is read by no modelled caller. *)
Definition _reconcile_transition_intents_unlocked : M disk unit :=
  paths ← bounded_json_record_paths ["transition_intents"] MAX_TRANSITION_INTENT_RECORDS;
  intents ← read_intents paths;
  for_each replay_intent (sort_by intent_leb intents).

(** [_recover_pending_transitions_unlocked] *)
Definition _recover_pending_transitions_unlocked : M disk unit := _reconcile_transition_intents_unlocked.

(** ** The operations *)
Definition release_lease (lid : string) : M disk unit :=
  lid ← lift (require_durable_record_id (JStr lid) "lease_id");
  _ ← _recover_pending_transitions_unlocked;
  l ← read_optional_lease lid;
  match l with
  | None => mret tt
  | Some l =>
      _ ← ensure (bool_decide (lease_id l = lid)) (conflict "canonical lease identity mismatch: ");
      _delete_lease_unlocked l None None None true
  end.

Definition renew_lease (lid : string) (ttl_seconds : Z) : M disk (option Lease) :=
  lid ← lift (require_durable_record_id (JStr lid) "lease_id");
  _ ← require_index_migration_complete;
  _ ← _recover_pending_transitions_unlocked;
  l ← read_optional_lease lid;
  match l with
  | None => mret None
  | Some l =>
      _ ← ensure (bool_decide (lease_id l = lid)) (conflict "canonical lease identity mismatch: ");
      job ← get_job (lease_job_id l);
      fresh ← new_lease (lease_job_id l) (lease_endpoint_id l) ttl_seconds;
      let renewed := mkLease (lease_id l) (lease_job_id fresh) (lease_endpoint_id fresh)
                             (acquired_at fresh) (expires_at fresh) in
      transition ← _prepare_lease_capacity_transition_unlocked [] false;
      p ← _write_transition_intent_unlocked (lease_id renewed)
            (LeaseSyncIntent renewed l job (Some transition));
      _ ← write_renewed_lease renewed l job;
      _ ← _apply_lease_capacity_transition_unlocked transition true;
      _ ← unlink_durable_path p;
      mret (Some renewed)
  end.

(** [scan_leases] *)
Fixpoint leases_of_cluster (cluster : string) (leases : list Lease) : M disk (list Lease) :=
  match leases with
  | [] => mret []
  | l :: rest =>
      job ← catch_not_found (get_job (lease_job_id l));
      matched ← leases_of_cluster cluster rest;
      mret (match job with
            | Some j => if bool_decide (job_cluster j = cluster) then l :: matched else matched
            | None => matched
            end)
  end.

Definition acquired_leb (a b : Lease) : bool := acquired_at a <=? acquired_at b.

Definition scan_leases (limit : nat) (cluster : option string) : M disk (list Lease * bool) :=
  _ ← _recover_pending_transitions_unlocked;
  scanned ← scan_many_lease ["leases"] limit;
  leases ← match cluster with
           | None => mret scanned.1
           | Some c => leases_of_cluster c scanned.1
           end;
  mret (sort_by acquired_leb leases, scanned.2).

(** [lease_admission_capacity_snapshot] *)
Definition lease_admission_capacity_snapshot (cluster : string) : M disk (list (JobKind * Z) * Z) :=
  _ ← require_index_migration_complete;
  _ ← _recover_pending_transitions_unlocked;
  _lease_capacity_snapshot cluster.
End jobs.
