(* ===== verification/Recovery.v ===== *)
(** * Crash-safe runs and recovery

    [runs m s St Q]: from [s], the computation [m] can only be stopped by a crash,
    a crash leaves files that satisfy [St], and a run that returns satisfies [Q].
    The rules follow the durable steps: at each one the current files must be a
    state the recovery can start from.  [recovery_converges] then gives the usual
    theorem of a journal: any number of interrupted recoveries and one that is not
    reach the final state.  [touches P m] says that [m] only changes files in
    [P]. *)

From S2P Require Import Prelude Sha256 Json Identifiers Models Store.
From stdpp Require Import base list gmap strings.
From Stdlib Require Import ZArith Lia.
From Stdlib Require Ascii String.

(** What a store holds. *)
Definition filemap : Type := gmap path doc.

Section runs.
Context `{World}.

Definition runs {A : Type} (m : M disk A) (s : disk) (St : filemap -> Prop)
    (Q : A -> filemap -> Prop) : Prop :=
  match m s with
  | (Ok a, s') => Q a (files s') /\ (budget s = None -> budget s' = None)
  | (Err e, s') => e = Crashed /\ budget s <> None /\ St (files s')
  end.

Context {St : filemap -> Prop}.

Lemma runs_ret {A : Type} (a : A) (s : disk) (Q : A -> filemap -> Prop) :
  Q a (files s) -> runs (mret a) s St Q.
Proof. done. Qed.

Lemma runs_bind {A B : Type} (m : M disk A) (k : A -> M disk B) s Q R :
  runs m s St Q -> (forall a s', Q a (files s') -> runs (k a) s' St R) -> runs (m ≫= k) s St R.
Proof.
  unfold runs, mbind, M_bind. intros Hm Hk. destruct (m s) as [[a|e] s1]; [|done].
  destruct Hm as [Hq Hb]. specialize (Hk a s1 Hq). destruct (k a s1) as [[b|e] s2].
  - destruct Hk as [? Hb']. split; [done|]. auto.
  - destruct Hk as (?&Hn&?). split_and!; [done| |done]. intros Hs. by apply Hn, Hb.
Qed.

Lemma runs_conseq {A : Type} (m : M disk A) (s : disk) (St' : filemap -> Prop) (Q R : A -> filemap -> Prop) :
  runs m s St Q -> (forall f, St f -> St' f) -> (forall a f, Q a f -> R a f) -> runs m s St' R.
Proof. unfold runs. destruct (m s) as [[a|e] s1]; naive_solver. Qed.

(** A computation that changes no file: what it returns is computed in one go. *)
Lemma runs_pure {A : Type} (m : M disk A) (s : disk) (a : A) (s1 : disk) (Q : A -> filemap -> Prop) :
  m s = (Ok a, s1) -> files s1 = files s -> (budget s = None -> budget s1 = None) ->
  Q a (files s) -> runs m s St Q.
Proof. unfold runs. intros -> -> Hb HQ. by split. Qed.

Lemma runs_lift {A : Type} (r : result A) (a : A) (s : disk) (Q : A -> filemap -> Prop) :
  r = Ok a -> Q a (files s) -> runs (lift r) s St Q.
Proof. intros ->. unfold runs, lift. done. Qed.

Lemma runs_ensure b e (s : disk) (Q : unit -> filemap -> Prop) :
  b = true -> Q tt (files s) -> runs (ensure b e) s St Q.
Proof. intros ->. unfold runs, ensure, lift. done. Qed.

Lemma runs_utc_now (s : disk) (Q : Z -> filemap -> Prop) :
  (forall t, Q t (files s)) -> runs utc_now s St Q.
Proof. intros HQ. split; [apply HQ|done]. Qed.

Lemma runs_uuid (s : disk) (Q : string -> filemap -> Prop) :
  (forall n, Q (uuid4_at n) (files s)) -> runs uuid4_hex s St Q.
Proof. intros HQ. split; [apply HQ|done]. Qed.

Lemma runs_durable f (s : disk) (Q : unit -> filemap -> Prop) :
  St (files s) -> Q tt (f (files s)) -> runs (durable f) s St Q.
Proof. unfold runs, durable. intros. destruct (budget s) as [[|n]|] eqn:Hb; cbn; by split_and!. Qed.

Lemma runs_unlink p (s : disk) (Q : unit -> filemap -> Prop) :
  St (files s) -> Q tt (delete p (files s)) -> runs (unlink_durable_path p) s St Q.
Proof. apply runs_durable. Qed.

Lemma runs_write p d (s : disk) (Q : unit -> filemap -> Prop) :
  fits p d -> St (files s) -> Q tt (<[p := d]> (files s)) -> runs (write_doc p d) s St Q.
Proof.
  unfold write_doc, fits. intros Hf. rewrite (proj2 (Z.ltb_ge _ _)) by done. apply runs_durable.
Qed.

Lemma runs_read_doc p (s : disk) (Q : option doc -> filemap -> Prop) :
  (forall d, files s !! p = Some d -> fits p d) -> Q (files s !! p) (files s) ->
  runs (read_doc p) s St Q.
Proof.
  intros Hf HQ. unfold runs, read_doc. destruct (files s !! p) as [d|] eqn:Hp; [|done].
  rewrite (proj2 (Z.ltb_ge _ _)); [done|]. by apply Hf.
Qed.

Lemma runs_path_exists p (s : disk) (Q : bool -> filemap -> Prop) :
  Q (bool_decide (is_Some (files s !! p))) (files s) -> runs (path_exists p) s St Q.
Proof. intros HQ. by split. Qed.

(** A loop of steps that keep an indexed assertion. *)
Lemma runs_for_each {A : Type} (f : A -> M disk unit) (l : list A) (s : disk) (J : list A -> filemap -> Prop) :
  J [] (files s) ->
  (forall done x rest s', l = done ++ x :: rest -> J done (files s') ->
     runs (f x) s' St (fun _ => J (done ++ [x]))) ->
  runs (for_each f l) s St (fun _ => J l).
Proof.
  intros H0 Hstep.
  enough (Hg : forall done rest s', l = done ++ rest -> J done (files s') ->
    runs (for_each f rest) s' St (fun _ => J l)) by (by apply (Hg [] l)).
  intros done rest. revert done. induction rest as [|x rest IH]; intros done s' Hl HJ; cbn [for_each].
  - apply runs_ret. by rewrite Hl, app_nil_r.
  - eapply runs_bind; [by eapply Hstep|]. cbn. intros _ s1 HJ1. apply (IH (done ++ [x])); [|done].
    by rewrite Hl, <- app_assoc.
Qed.
End runs.

(** From a run to a precondition on the returned value and the files. *)
Lemma runs_wp `{World} {A : Type} (m : M disk A) (s : disk) (St : filemap -> Prop) Q
    (R : result A -> disk -> Prop) :
  runs m s St Q ->
  (forall a s', Q a (files s') -> R (Ok a) s') ->
  (forall s', budget s <> None -> St (files s') -> R (Err Crashed) s') -> wp m s R.
Proof. unfold runs, wp. destruct (m s) as [[a|e] s1]; naive_solver. Qed.

(** ** Recovery *)
Section recovery.
Context `{World} (recover : M disk unit) (St F : filemap -> Prop).

(** A sequence of recoveries, each with its own crash point. *)
Definition recover_attempts (attempts : list (option nat)) (s : disk) : disk :=
  foldl (fun st b => (recover (set_budget b st)).2) s attempts.

Context (Hst : forall s, St (files s) -> runs recover s St (fun _ => F)).
Context (Hfin : forall s, F (files s) -> runs recover s F (fun _ => F)).

Lemma recover_attempt s : St (files s) \/ F (files s) ->
  St (files (recover s).2) \/ F (files (recover s).2).
Proof using Hst Hfin.
  intros [Hs|Hs].
  - specialize (Hst s Hs). unfold runs in Hst. destruct (recover s) as [[u|e] s1]; cbn; tauto.
  - specialize (Hfin s Hs). unfold runs in Hfin. destruct (recover s) as [[u|e] s1]; cbn; tauto.
Qed.

Lemma recovery_converges attempts s :
  St (files s) \/ F (files s) ->
  exists s', recover (set_budget None (recover_attempts attempts s)) = (Ok tt, s') /\
             F (files s') /\ budget s' = None.
Proof using Hst Hfin.
  intros Hs. assert (Ha : St (files (recover_attempts attempts s)) \/ F (files (recover_attempts attempts s))).
  { revert s Hs. induction attempts as [|b bs IH]; intros s Hs; [done|]. cbn.
    apply IH. by apply (recover_attempt (set_budget b s)). }
  set (s1 := set_budget None (recover_attempts attempts s)).
  assert (Hr : exists St', runs recover s1 St' (fun _ => F)).
  { destruct Ha; [exists St; by apply Hst|exists F; by apply Hfin]. }
  destruct Hr as [St' Hr]. unfold runs in Hr. destruct (recover s1) as [[[]|e] s2].
  - destruct Hr as [HF Hb]. exists s2. split_and!; [done|done|by apply Hb].
  - by destruct Hr as (_&Hb&_).
Qed.
End recovery.

(** ** Frames *)
Section frames.
Context `{World} (P : path -> Prop).

Definition touches {A : Type} (m : M disk A) : Prop :=
  forall s p, ~ P p -> files (m s).2 !! p = files s !! p.

Lemma touches_ret {A : Type} (a : A) : touches (mret a).
Proof. done. Qed.

Lemma touches_bind {A B : Type} (m : M disk A) (k : A -> M disk B) :
  touches m -> (forall a, touches (k a)) -> touches (m ≫= k).
Proof.
  intros Hm Hk s p Hp. unfold mbind, M_bind. specialize (Hm s p Hp).
  destruct (m s) as [[a|e] s1]; cbn in *; [|done]. by rewrite (Hk a s1 p Hp).
Qed.

Lemma touches_lift {A : Type} (r : result A) : touches (lift r).
Proof. done. Qed.

Lemma touches_ensure b e : touches (ensure b e).
Proof. done. Qed.

Lemma touches_raise {A : Type} e : touches (@raise disk A e).
Proof. done. Qed.

Lemma touches_pure {A : Type} (m : M disk A) : (forall s, files (m s).2 = files s) -> touches m.
Proof. intros Hm s p _. by rewrite Hm. Qed.

Lemma touches_durable f : (forall m p, ~ P p -> f m !! p = m !! p) -> touches (durable f).
Proof. intros Hf s p Hp. unfold durable. destruct (budget s) as [[|n]|]; cbn; auto. Qed.

Lemma touches_unlink p : P p -> touches (unlink_durable_path p).
Proof. intros HP. apply touches_durable. intros m q Hq. apply lookup_delete_ne. by intros ->. Qed.

Lemma touches_write p d : P p -> touches (write_doc p d).
Proof.
  intros HP. unfold write_doc. case_match; [apply touches_raise|].
  apply touches_durable. intros m q Hq. apply lookup_insert_ne. by intros ->.
Qed.

Lemma touches_for_each {A : Type} (f : A -> M disk unit) l : (forall x, x ∈ l -> touches (f x)) -> touches (for_each f l).
Proof.
  intros Hf. induction l as [|x l IH]; cbn; [apply touches_ret|].
  apply touches_bind; [apply Hf; left|]. intros _. apply IH. intros y Hy. apply Hf. by right.
Qed.

Lemma touches_read_doc p : touches (read_doc p).
Proof. apply touches_pure. intros s. unfold read_doc. by repeat case_match. Qed.

Lemma touches_path_exists p : touches (path_exists p).
Proof. by apply touches_pure. Qed.

Lemma touches_utc_now : touches utc_now.
Proof. by apply touches_pure. Qed.

Lemma touches_uuid : touches uuid4_hex.
Proof. by apply touches_pure. Qed.

Lemma touches_scandir p : touches (scandir p).
Proof. by apply touches_pure. Qed.
End frames.

Lemma touches_weaken `{World} (P Q : path -> Prop) {A : Type} (m : M disk A) :
  (forall p, P p -> Q p) -> touches P m -> touches Q m.
Proof. intros HPQ Hm s p Hp. apply Hm. auto. Qed.

(** A computation that touches nothing. *)
Definition readonly `{World} {A : Type} (m : M disk A) : Prop := touches (fun _ => False) m.

Lemma readonly_files `{World} {A : Type} (m : M disk A) s : readonly m -> files (m s).2 = files s.
Proof. intros Hm. apply map_eq. intros p. apply Hm. tauto. Qed.

Create HintDb touches.
#[export] Hint Resolve touches_read_doc touches_path_exists touches_utc_now touches_uuid touches_scandir : touches.
#[export] Hint Resolve touches_ret touches_lift touches_ensure touches_raise touches_unlink touches_write : touches.

(** Step through a computation towards its frame. *)
Ltac step_touches :=
  match goal with
  | |- touches _ (mbind _ _) => apply touches_bind; [|intros ?]
  | |- touches _ (match ?x with _ => _ end) => destruct x eqn:?
  | |- touches _ _ => solve [auto with touches]
  | |- touches _ _ => apply touches_pure; intros ?; reflexivity
  end.
