(* ===== verification/JournalStages.v ===== *)
(** * The states of a journaled change

    A change of the lease files is journaled with the exact records it writes and
    removes.  While its intent is pending, every file it touches is as it was or as
    the change leaves it, the capacity records belong to its transition, and nothing
    else has moved ([pending]); when the intent is gone every touched file is as the
    change leaves it ([settled]).  The rules below are those of [Recovery] for steps
    that stay within such a change. *)

From S2P Require Import Prelude Sha256 Json Identifiers Models Store Recovery LeaseRecords.
From S2P Require Import LeaseDocuments LeaseCapacity LeaseCapacityProofs.
From stdpp Require Import base list gmap strings.
From Stdlib Require Import ZArith Lia.
From Stdlib Require Ascii String.
Open Scope Z_scope.

(** ** The capacity records depend on their directory only *)
Definition capacity_path (p : path) : Prop := p = aggregate_path \/ p = checkpoint_path.

#[export] Instance capacity_path_dec p : Decision (capacity_path p).
Proof. unfold capacity_path. apply _. Defined.

Definition same_capacity (m m' : gmap path doc) : Prop :=
  forall name, m' !! capacity_file name = m !! capacity_file name.

Section capacity_frames.
Context `{World}.

Lemma holds_frame a c m m' : same_capacity m m' -> holds a c m -> holds a c m'.
Proof.
  intros Hs [Hwf Ha Hc Hao Hco]. split; [|..|done|done].
  - intros name d. rewrite Hs. apply Hwf.
  - change aggregate_path with (capacity_file "aggregate.json"). by rewrite Hs.
  - change checkpoint_path with (capacity_file "checkpoint.json"). by rewrite Hs.
Qed.

Lemma authorized_frame ps m m' : same_capacity m m' -> authorized ps m -> authorized ps m'.
Proof. intros Hs (a&c&Hh&Hrest). exists a, c. split; [by eapply holds_frame|done]. Qed.

Lemma same_capacity_insert p d m : head p <> Some "lease_capacity" -> same_capacity m (<[p := d]> m).
Proof. intros Hp name. apply lookup_insert_ne. by intros ->. Qed.

Lemma same_capacity_delete p m : head p <> Some "lease_capacity" -> same_capacity m (delete p m).
Proof. intros Hp name. apply lookup_delete_ne. by intros ->. Qed.

(** Writing a pair is two steps, each of which leaves an authorized state. *)
Lemma runs_apply tr after ps sel s (St : filemap -> Prop) (Q : LeaseCapacityPair -> filemap -> Prop) :
  transition_ok tr after ps sel -> authorized ps (files s) ->
  (forall m, authorized ps m -> (forall p, ~ capacity_path p -> m !! p = files s !! p) -> St m) ->
  (forall m, holds_pair sel m -> (forall p, ~ capacity_path p -> m !! p = files s !! p) -> Q sel m) ->
  runs (_apply_lease_capacity_transition_unlocked (JObj tr) after) s St Q.
Proof.
  intros Htr Hauth Hst HQ. unfold runs. rewrite (apply_checks tr after ps sel s Htr Hauth).
  destruct (transition_selected _ _ _ _ Htr) as ((Hao&Hco&Hb)&(Hfa&Hfc)&(n&Hin)).
  destruct Hauth as (a&c&Hh&Hsome&Ha&Hc). assert (Hauth : authorized ps (files s)) by (by exists a, c).
  set (m1 := <[aggregate_path := DJson (lease_capacity_aggregate_document (pair_aggregate sel))]> (files s)).
  pose proof (holds_write_aggregate _ _ _ _ Hh Hao Hfa : holds _ _ m1) as Hh1.
  pose proof (holds_write_checkpoint _ _ _ _ Hh1 Hco Hfc) as Hh2.
  assert (H1 : authorized ps m1).
  { exists (Some (pair_aggregate sel)), c. split_and!; [done|by left; eauto| |done].
    intros x [= <-]. by exists (n, sel). }
  enough (Hr : runs (_ ← _write_lease_capacity_pair_unlocked sel; mret sel) s St Q) by exact Hr.
  unfold _write_lease_capacity_pair_unlocked.
  eapply (runs_bind _ _ _ (fun _ m => m = <[checkpoint_path :=
     DJson (lease_capacity_checkpoint_document (pair_checkpoint sel))]> m1)).
  2:{ intros [] s2 Hs2. apply runs_ret. rewrite Hs2. apply HQ; [exact Hh2|]. intros q Hq.
      unfold capacity_path in Hq. unfold m1. rewrite !lookup_insert_ne; naive_solver. }
  eapply (runs_bind _ _ _ (fun _ m => m = files s)).
  { apply (runs_lift _ tt); [|done]. unfold validate_lease_capacity_pair. by rewrite Hb. }
  intros _ s0 Hs0. eapply (runs_bind _ _ _ (fun _ m => m = m1)).
  { apply (runs_write aggregate_path); [exact Hfa| |by rewrite Hs0]. rewrite Hs0. by apply Hst. }
  intros _ s1 Hs1. apply (runs_write checkpoint_path); [exact Hfc| |by rewrite Hs1].
  rewrite Hs1. apply Hst; [done|]. intros q Hq. apply lookup_insert_ne. intros <-. apply Hq. by left.
Qed.

Lemma touches_apply v after : touches capacity_path (_apply_lease_capacity_transition_unlocked v after).
Proof.
  assert (Hc : forall allow, touches capacity_path (_read_lease_capacity_components_unlocked allow)).
  { intros allow. unfold _read_lease_capacity_components_unlocked, _lease_capacity_record_paths_unlocked,
      _read_unique_json_document.
    assert (Hrd : forall q, touches capacity_path (read_doc q)).
    { intros q. apply touches_pure. intros s. unfold read_doc. by repeat case_match. }
    assert (Hsd : forall q, touches capacity_path (scandir q)) by (intros q; by apply touches_pure).
    repeat first [apply Hrd | apply Hsd | step_touches]. }
  unfold _apply_lease_capacity_transition_unlocked, _write_lease_capacity_pair_unlocked.
  assert (Ha : capacity_path aggregate_path) by (by left).
  assert (Hp : capacity_path checkpoint_path) by (by right).
  repeat first [apply Hc | step_touches].
Qed.
End capacity_frames.

(** ** A journaled change *)
Record change := mkChange {
  ch_before : gmap path doc;
  ch_target : path -> option (option doc);
  ch_intent : path;
  ch_body : TransitionIntent;
  ch_pairs : list (string * LeaseCapacityPair);
  ch_families : list string;
}.

(** The family of a path; the families of a change are those its other components
    keep, and are not described. *)
Definition family_of (p : path) : string := default "" (head p).

Section stages.
Context `{World} (c : change).

(** The change touches neither the capacity records nor its own intent. *)
Definition change_wf : Prop :=
  (forall p v, ch_target c p = Some v ->
     head p <> Some "lease_capacity" /\ p <> ch_intent c /\ family_of p ∉ ch_families c) /\
  head (ch_intent c) <> Some "lease_capacity" /\
  family_of (ch_intent c) ∉ ch_families c /\ "lease_capacity" ∉ ch_families c.

(** The files the change describes, its intent and the capacity records apart. *)
Definition described (p : path) : Prop := ~ capacity_path p /\ family_of p ∉ ch_families c.

(** Outside the capacity records and the intent, a file is as before or as after. *)
Definition midway (m : gmap path doc) : Prop :=
  forall p, described p -> p <> ch_intent c ->
    m !! p = ch_before c !! p \/ ch_target c p = Some (m !! p).

Definition pending (m : gmap path doc) : Prop :=
  midway m /\ m !! ch_intent c = Some (DIntent (ch_body c)) /\ authorized (ch_pairs c) m.

(** The files [l] have reached their target. *)
Definition reached (l : list path) (m : gmap path doc) : Prop :=
  pending m /\ forall p, p ∈ l -> ch_target c p = Some (m !! p).

Definition settled (sel : LeaseCapacityPair) (m : gmap path doc) : Prop :=
  holds_pair sel m /\
  forall p, described p ->
    m !! p = match ch_target c p with Some v => v | None => ch_before c !! p end.

Context (Hwf : change_wf).

Lemma pending_update p v m :
  ch_target c p = Some v ->
  (forall f : gmap path doc -> gmap path doc,
     (forall m q, q <> p -> f m !! q = m !! q) -> (forall m, f m !! p = v) ->
     pending m -> pending (f m)).
Proof using Hwf.
  intros Ht f Hne Heq (Hmid&Hi&Ha). destruct (proj1 Hwf p v Ht) as (Hc&Hp&_). split_and!.
  - intros q Hq Hqi. destruct (decide (q = p)) as [->|Hqp].
    + right. by rewrite Heq.
    + rewrite Hne by done. by apply Hmid.
  - by rewrite Hne.
  - eapply authorized_frame; [|exact Ha]. intros name. apply Hne. by intros <-.
Qed.

Lemma runs_unlink_target p l s :
  ch_target c p = Some None -> reached l (files s) ->
  runs (unlink_durable_path p) s pending (fun _ => reached (l ++ [p])).
Proof using Hwf.
  intros Ht [Hp Hl]. apply runs_unlink; [done|]. split.
  - apply (pending_update p None); [done|intros; by apply lookup_delete_ne|intros; apply lookup_delete_eq|done].
  - intros q [Hq| ->%list_elem_of_singleton]%elem_of_app; [|by rewrite lookup_delete_eq].
    destruct (decide (q = p)) as [->|Hne]; [by rewrite lookup_delete_eq|]. rewrite lookup_delete_ne by done. auto.
Qed.

Lemma runs_write_target p d l s :
  ch_target c p = Some (Some d) -> fits p d -> reached l (files s) ->
  runs (write_doc p d) s pending (fun _ => reached (l ++ [p])).
Proof using Hwf.
  intros Ht Hf [Hp Hl]. apply runs_write; [done|done|]. split.
  - apply (pending_update p (Some d)); [done|intros; by apply lookup_insert_ne|intros; apply lookup_insert_eq|done].
  - intros q [Hq| ->%list_elem_of_singleton]%elem_of_app; [|by rewrite lookup_insert_eq].
    destruct (decide (q = p)) as [->|Hne]; [by rewrite lookup_insert_eq|]. rewrite lookup_insert_ne by done. auto.
Qed.

(** A loop of such steps. *)
Lemma runs_each_target (f : path -> M disk unit) ps l s :
  (forall p k s', p ∈ ps -> reached k (files s') -> runs (f p) s' pending (fun _ => reached (k ++ [p]))) ->
  reached l (files s) -> runs (for_each f ps) s pending (fun _ => reached (l ++ ps)).
Proof using Hwf.
  intros Hf Hl. apply (runs_for_each f ps s (fun ds => reached (l ++ ds))); [by rewrite app_nil_r|].
  intros ds p rest s' -> Hs'. rewrite app_assoc. apply Hf; [|done]. set_solver.
Qed.

(** Another component may change its own families. *)
Lemma reached_foreign l m m' :
  (forall p, family_of p ∉ ch_families c -> m' !! p = m !! p) -> reached l m -> reached l m'.
Proof using Hwf.
  intros Hf [(Hmid&Hi&Ha) Hl]. destruct Hwf as (Ht&_&Hif&Hcf). split; [split_and!|].
  - intros p Hp Hpi. rewrite Hf by apply Hp. by apply Hmid.
  - by rewrite Hf.
  - eapply authorized_frame; [|exact Ha]. intros name. by apply Hf.
  - intros p Hp. specialize (Hl p Hp). rewrite Hf; [done|]. by apply Ht in Hl as (_&_&?).
Qed.

(** Once every target is reached, the transition and the removal of the intent
    settle the change. *)
Lemma runs_settle tr after sel l s :
  transition_ok tr after (ch_pairs c) sel ->
  (forall p v, ch_target c p = Some v -> p ∈ l) ->
  ch_before c !! ch_intent c = None ->
  reached l (files s) ->
  runs (_ ← _apply_lease_capacity_transition_unlocked (JObj tr) after; unlink_durable_path (ch_intent c))
    s pending (fun _ => settled sel).
Proof using Hwf.
  intros Htr Hl Hb [(Hmid&Hi&Ha) Hr].
  assert (Hout : forall m, (forall p, ~ capacity_path p -> m !! p = files s !! p) ->
            authorized (ch_pairs c) m -> pending m).
  { intros m Hm Hm'. split_and!; [| |done].
    - intros p Hp Hpi. rewrite Hm by apply Hp. by apply Hmid.
    - rewrite Hm; [done|]. destruct Hwf as (_&Hc&_). intros [Hi'|Hi']; by rewrite Hi' in Hc. }
  eapply (runs_bind _ _ _ (fun _ m => holds_pair sel m /\ pending m /\
            forall p, ~ capacity_path p -> m !! p = files s !! p)).
  { eapply runs_apply; [done|done|auto|]. intros m Hm Hs. split_and!; [done| |done]. apply Hout; [done|].
    destruct (transition_selected _ _ _ _ Htr) as (_&_&(n&Hin)).
    exists (Some (pair_aggregate sel)), (Some (pair_checkpoint sel)).
    split_and!; [done|by left; eauto|intros x [= <-]; by exists (n, sel)..]. }
  intros _ s1 (Hh&Hp&Hs). apply runs_unlink; [done|]. split.
  - eapply holds_frame; [|exact Hh]. apply same_capacity_delete, Hwf.
  - intros p Hp'. destruct (decide (p = ch_intent c)) as [->|Hne].
    + rewrite lookup_delete_eq. destruct (ch_target c (ch_intent c)) as [v|] eqn:Ht; [|by rewrite Hb].
      by destruct (proj1 Hwf _ _ Ht) as (_&?&_).
    + rewrite lookup_delete_ne by done. destruct (ch_target c p) as [v|] eqn:Ht.
      * rewrite Hs by apply Hp'. pose proof (Hr p (Hl _ _ Ht)) as Hv. congruence.
      * rewrite Hs by apply Hp'. destruct (Hmid p Hp' Hne); congruence.
Qed.
End stages.
