(* ===== verification/LeaseReplay.v ===== *)
(** * Replaying the journal of lease changes

    A replay finds nothing to do in a store without intents and applies exactly the
    one intent a crash left.  From every state of a pending deletion or renewal,
    the replay settles the change. *)

From S2P Require Import Prelude Sha256 Json Decimal Identifiers Models Store Recovery.
From S2P Require Import LeaseRecords LeaseDocuments LeaseCapacity LeaseCapacityProofs.
From S2P Require Import LeaseIndexes LeaseTransitions JournalStages.
From stdpp Require Import base list gmap strings.
From Stdlib Require Import ZArith Lia.
From Stdlib Require Ascii String.
Open Scope Z_scope.

(** ** The journal's directory *)
Lemma drop_str_app a b : drop_str (String.length a) (a +:+ b) = b.
Proof. induction a as [|c a IH]; [by destruct b|]. exact IH. Qed.

Lemma ends_with_app suffix s : ends_with suffix (s +:+ suffix) = true.
Proof.
  unfold ends_with. rewrite string_length_app. apply andb_true_iff. split; [apply Nat.leb_le; lia|].
  apply bool_decide_true. replace (String.length s + String.length suffix - String.length suffix)%nat
    with (String.length s) by lia. apply drop_str_app.
Qed.

Definition no_intents (m : gmap path doc) : Prop := forall name, m !! ["transition_intents"; name] = None.

Record only_intent (p : path) (t : TransitionIntent) (m : gmap path doc) : Prop := {
  oi_name : exists stem, p = ["transition_intents"; json_name stem];
  oi_present : m !! p = Some (DIntent t);
  oi_only : forall name, is_Some (m !! ["transition_intents"; name]) -> ["transition_intents"; name] = p;
}.

Lemma intent_path_name kind identity :
  exists stem, intent_path kind identity = ["transition_intents"; json_name stem].
Proof. by eexists. Qed.

Section directory.
Context `{JobDerived}.

Lemma scandir_intents s :
  scandir ["transition_intents"] s =
    (Ok (scandir_order (filter (fun kv => removelast kv.1 = ["transition_intents"] /\ kv.1 <> [])
                          (map_to_list (files s)))), s).
Proof. reflexivity. Qed.

Lemma reconcile_none s : no_intents (files s) -> _reconcile_transition_intents_unlocked s = (Ok tt, s).
Proof.
  intros Hno. unfold _reconcile_transition_intents_unlocked, bounded_json_record_paths.
  rewrite (M_bind_run _ _ _ [] s); [done|]. rewrite (M_bind_run _ _ _ _ s (scandir_intents s)).
  destruct (scandir_order _) as [|[p d] es] eqn:Hes; [done|].
  assert (Hin : (p, d) ∈ (p, d) :: es) by left. rewrite <- Hes in Hin.
  apply scandir_elem in Hin as [Hl [name ->]]; [|done]. cbn in Hl. by rewrite Hno in Hl.
Qed.

Lemma reconcile_one p t s :
  only_intent p t (files s) -> fits p (DIntent t) ->
  _reconcile_transition_intents_unlocked s = (_ ← replay_intent (p, t); mret tt) s.
Proof.
  intros [(stem&Hstem) Hp Honly] Hf. unfold _reconcile_transition_intents_unlocked, bounded_json_record_paths.
  assert (Hes : scandir ["transition_intents"] s = (Ok [(p, DIntent t)], s)).
  { rewrite scandir_intents. do 2 f_equal. set (es := scandir_order _).
    assert (Hin : forall q d, (q, d) ∈ es -> q = p /\ d = DIntent t).
    { intros q d Hq. apply scandir_elem in Hq as [Hl [name ->]]; [|done]. cbn in Hl.
      assert (Heq : ["transition_intents"; name] = p) by (apply Honly; by eexists).
      split; [done|]. cbn [app] in *. rewrite Heq in Hl. congruence. }
    assert (Hpe : (p, DIntent t) ∈ es).
    { apply scandir_elem; [done|]. split; [done|]. rewrite Hstem. by eexists. }
    assert (Hnd : NoDup es.*1) by apply scandir_nodup. clearbody es.
    destruct es as [|[q d] [|[q' d'] es]]; [by apply elem_of_nil in Hpe| |].
    - destruct (Hin q d) as [-> ->]; [left|done].
    - exfalso. destruct (Hin q d) as [-> ->]; [left|]. destruct (Hin q' d') as [-> ->]; [right; left|].
      apply NoDup_cons in Hnd as [Hn _]. apply Hn. left. }
  rewrite (M_bind_run _ _ _ [p] s).
  2:{ rewrite (M_bind_run _ _ _ _ s Hes). cbn [bounded_entries length].
      rewrite (proj2 (Nat.leb_gt _ _)) by (unfold MAX_TRANSITION_INTENT_RECORDS; lia). cbn [fst].
      rewrite Hstem. unfold json_name. cbn [fst last default]. unfold id.
      by rewrite ends_with_app. }
  rewrite (M_bind_run _ _ _ [(p, t)] s); [done|]. cbn [read_intents].
  rewrite (M_bind_run _ _ _ (Some (DIntent t)) s); [done|]. unfold read_doc. rewrite Hp.
  by rewrite (proj2 (Z.ltb_ge _ _)).
Qed.
End directory.

(** ** The files of a lease *)
Definition by_job_path (jid lid : string) : path := ["leases_by_job"; jid; json_name lid].

Definition lease_files (l : Lease) (i : LeaseIndexIdentity) : list path :=
  [lease_path (lease_id l); by_job_path (lease_job_id l) (lease_id l)]
  ++ removed_refs i ++ [_lease_index_path (lease_id l)].

Lemma job_record_path_ok family jid rid p :
  job_record_path family jid rid = Ok p -> p = [family; jid; json_name rid].
Proof.
  intros (a&Ha&(b&Hb&[= <-])%bind_ok)%bind_ok. unfold require_durable_record_id in *.
  destruct (validate_durable_record_id (JStr jid)) as [a'|[]] eqn:H1; try done; injection Ha as <-.
  destruct (validate_durable_record_id (JStr rid)) as [b'|[]] eqn:H2; try done; injection Hb as <-.
  apply validate_ok_inv in H1 as ([= ->]&_), H2 as ([= ->]&_). done.
Qed.

Lemma job_record_path_valid family jid rid :
  valid_id jid = true -> valid_id rid = true -> job_record_path family jid rid = Ok [family; jid; json_name rid].
Proof.
  intros Hj Hr. unfold job_record_path, valid_id, require_durable_record_id in *.
  destruct (validate_durable_record_id (JStr jid)) as [a|] eqn:H1; [|done].
  destruct (validate_durable_record_id (JStr rid)) as [b|] eqn:H2; [|done].
  apply validate_ok_inv in H1 as ([= ->]&_), H2 as ([= ->]&_). done.
Qed.

Lemma lease_files_heads l i :
  Forall (fun p => head p ∈ [Some "leases"; Some "leases_by_job"; Some "leases_by_endpoint";
    Some "leases_by_cluster_kind"; Some "leases_by_expiry"; Some "lease_identity_refs";
    Some "lease_indexes"]) (lease_files l i).
Proof. repeat constructor; cbn; set_solver. Qed.

Lemma lease_file_head l i p :
  p ∈ lease_files l i -> head p <> Some "lease_capacity" /\ head p <> Some "transition_intents".
Proof.
  intros Hp. pose proof (lease_files_heads l i) as Hall. rewrite Forall_forall in Hall.
  specialize (Hall p Hp). rewrite !elem_of_cons, elem_of_nil in Hall.
  destruct Hall as [->|[->|[->|[->|[->|[->|[->|[]]]]]]]]; done.
Qed.

(** ** Deleting the files of a lease *)
Definition delete_change (m : gmap path doc) (l : Lease) (i : LeaseIndexIdentity) (ip : path)
    (t : TransitionIntent) (ps : list (string * LeaseCapacityPair)) : change :=
  mkChange m (fun p => if bool_decide (p ∈ lease_files l i) then Some None else None) ip t ps [].

Section deletion.
Context `{JobDerived} (m : gmap path doc) (l : Lease) (i : LeaseIndexIdentity) (identity : string)
  (t : TransitionIntent) (ps : list (string * LeaseCapacityPair)).

Definition del : change := delete_change m l i (intent_path "lease_delete" identity) t ps.

Lemma del_target p : p ∈ lease_files l i -> ch_target del p = Some None.
Proof. intros Hp. cbn [del delete_change ch_target]. by rewrite bool_decide_true. Qed.

Lemma del_wf : change_wf del.
Proof.
  split; [|split_and!; [done|apply not_elem_of_nil..]].
  intros p v. cbn [del delete_change ch_target]. case_bool_decide as Hp; [|done]. intros _.
  apply lease_file_head in Hp as [H1 H2]. split_and!; [done| |apply not_elem_of_nil]. intros ->. by apply H2.
Qed.

Lemma index_in_files : _lease_index_path (lease_id l) ∈ lease_files l i.
Proof. unfold lease_files. rewrite !elem_of_app. right. right. by left. Qed.

(** A file that is already gone has reached its target. *)
Lemma reached_absent p k m' :
  p ∈ lease_files l i -> m' !! p = None -> reached del k m' -> reached del (k ++ [p]) m'.
Proof.
  intros Hp Hm [Hpe Hk]. split; [done|]. intros q [Hq| ->%list_elem_of_singleton]%elem_of_app; [by apply Hk|].
  rewrite Hm. by apply del_target.
Qed.

Lemma reached_mono k k' m' : (forall p, p ∈ k' -> p ∈ k) -> reached del k m' -> reached del k' m'.
Proof. intros Hsub [Hp Hk]. split; auto. Qed.

Context (Hvalid : valid_lease l = true) (Hident : valid_lease_identity i = true)
  (Hid : ix_lease_id i = lease_id l)
  (Hindex : forall d, m !! _lease_index_path (lease_id l) = Some d -> d = DLeaseIndex i)
  (Hfits : fits (_lease_index_path (lease_id l)) (DLeaseIndex i)).

Lemma run_read_own_index s :
  files s !! _lease_index_path (lease_id l) = Some (DLeaseIndex i) ->
  _read_lease_index_identity_by_token (lease_index_token (ix_lease_id i)) None s = (Ok i, s).
Proof using Hident Hid Hfits.
  intros Hs. unfold _read_lease_index_identity_by_token.
  rewrite (M_bind_run _ _ _ (Some (DLeaseIndex i)) s).
  2:{ unfold read_doc. rewrite Hid. fold (_lease_index_path (lease_id l)). rewrite Hs.
      by rewrite (proj2 (Z.ltb_ge _ _)). }
  rewrite Hident, bool_decide_true by done. done.
Qed.

Lemma index_midway m' :
  pending del m' ->
  m' !! _lease_index_path (lease_id l) = Some (DLeaseIndex i) \/ m' !! _lease_index_path (lease_id l) = None.
Proof using Hindex.
  intros [Hmid _]. destruct (Hmid (_lease_index_path (lease_id l))) as [Heq|Heq]; [|done|..].
  - split; [intros [Hc|Hc]; discriminate|apply not_elem_of_nil].
  - rewrite Heq. cbn [del delete_change ch_before]. destruct (m !! _) as [d|] eqn:Hd; [left|by right].
    by rewrite (Hindex d).
  - right. rewrite del_target in Heq; [congruence|apply index_in_files].
Qed.

Lemma runs_delete_indexes k s :
  reached del k (files s) ->
  runs (_delete_lease_operational_indexes_unlocked i false) s (pending del)
    (fun _ => reached del (k ++ removed_refs i ++ [_lease_index_path (lease_id l)])).
Proof using Hvalid Hident Hid Hindex Hfits.
  intros Hk. unfold _delete_lease_operational_indexes_unlocked. rewrite Hid.
  set (ip := _lease_index_path (lease_id l)).
  pose proof index_in_files as Hip. fold ip in Hip.
  assert (Hrefs : forall k' s', reached del k' (files s') ->
    runs (for_each unlink_durable_path (removed_refs i)) s' (pending del)
      (fun _ => reached del (k' ++ removed_refs i))).
  { intros k' s' Hk'. apply (runs_each_target del del_wf); [|done]. intros p k'' s'' Hp Hk''.
    apply (runs_unlink_target del del_wf); [|done]. apply del_target. unfold lease_files. set_solver. }
  eapply (runs_bind _ _ _ (fun b f => f = files s /\ b = bool_decide (is_Some (files s !! ip)))).
  { by apply runs_path_exists. }
  intros b s1 [Hs1 ->].
  eapply (runs_bind _ _ _ (fun own f => f = files s /\ own = bool_decide (is_Some (files s !! ip)))).
  { destruct (index_midway _ (proj1 Hk)) as [Hi|Hi]; fold ip in Hi; rewrite Hi.
    - rewrite bool_decide_true by eauto. apply (runs_pure _ _ true s1); [|reflexivity|done|by rewrite Hs1].
      rewrite <- Hid. rewrite (M_bind_run _ _ _ i s1); [by rewrite bool_decide_true|].
      apply run_read_own_index. by rewrite Hs1.
    - rewrite bool_decide_false by (by intros [? ?]). by apply runs_ret. }
  intros own s2 [Hs2 ->]. destruct (index_midway _ (proj1 Hk)) as [Hi|Hi]; fold ip in Hi; rewrite Hi.
  - rewrite bool_decide_true by eauto.
    eapply runs_bind; [apply Hrefs; rewrite Hs2; exact Hk|]. intros [] s3 Hs3.
    eapply (runs_bind _ _ _ (fun b f => reached del (k ++ removed_refs i) f /\ b = bool_decide (is_Some (f !! ip)))).
    { by apply runs_path_exists. }
    intros b' s4 [Hs4 ->]. rewrite app_assoc. cbn [andb]. case_bool_decide as Hp.
    + apply (runs_unlink_target del del_wf); [by apply del_target|done].
    + apply runs_ret. apply reached_absent; [done| |done]. by apply eq_None_not_Some.
  - rewrite bool_decide_false by (by intros [? ?]).
    eapply runs_bind; [apply (Hrefs (k ++ [ip])); rewrite Hs2; by apply reached_absent|]. intros [] s3 Hs3.
    eapply (runs_bind _ _ _ (fun _ f => reached del ((k ++ [ip]) ++ removed_refs i) f)).
    { by apply runs_path_exists. }
    intros b' s4 Hs4. cbn [andb]. apply runs_ret. eapply reached_mono; [|exact Hs4]. set_solver.
Qed.

Lemma runs_remove_files k s :
  reached del k (files s) ->
  runs (remove_lease_files l i) s (pending del) (fun _ => reached del (k ++ lease_files l i)).
Proof using Hvalid Hident Hid Hindex Hfits.
  intros Hk. unfold remove_lease_files.
  assert (Hv : valid_id (lease_id l) = true /\ valid_id (lease_job_id l) = true).
  { unfold valid_lease in Hvalid. by bool_prop. }
  eapply runs_bind; [apply (runs_unlink_target del del_wf); [apply del_target; by left|exact Hk]|].
  intros [] s1 Hs1. rewrite job_record_path_valid by apply Hv.
  eapply (runs_bind _ _ _ (fun p f => p = by_job_path (lease_job_id l) (lease_id l) /\
            reached del (k ++ [lease_path (lease_id l)]) f)).
  { by eapply runs_lift. }
  intros p s2 [-> Hs2].
  eapply runs_bind; [apply (runs_unlink_target del del_wf); [apply del_target; by right; left|exact Hs2]|].
  intros [] s3 Hs3. eapply runs_conseq; [by apply runs_delete_indexes|done|].
  intros [] f Hf. eapply reached_mono; [|exact Hf]. unfold lease_files. set_solver.
Qed.
End deletion.

(** ** Replaying a deletion *)
Lemma runs_ext `{World} {A : Type} (m m' : M disk A) (s : disk) (St : filemap -> Prop) (Q : A -> filemap -> Prop) :
  m s = m' s -> runs m' s St Q -> runs m s St Q.
Proof. unfold runs. by intros ->. Qed.

Lemma bind_ext {S A B} (m : M S A) (k k' : A -> M S B) s :
  (forall a s', k a s' = k' a s') -> (m ≫= k) s = (m ≫= k') s.
Proof. intros Hk. unfold mbind, M_bind. by destruct (m s) as [[a|e] s']. Qed.

Lemma bind_assoc {S A B C} (m : M S A) (k : A -> M S B) (h : B -> M S C) s :
  ((m ≫= k) ≫= h) s = (x ← m; k x ≫= h) s.
Proof. unfold mbind, M_bind. by destruct (m s) as [[a|e] s']. Qed.

Lemma settle_bind `{World} {B : Type} v after text (k : unit -> M disk B) s :
  (settle_capacity (Some v) after text ≫= k) s =
  (_ ← _apply_lease_capacity_transition_unlocked v after; k tt) s.
Proof. unfold settle_capacity, mbind, M_bind. by destruct (_apply_lease_capacity_transition_unlocked v after s) as [[]]. Qed.

Lemma valid_id_nonempty s : valid_id s = true -> str_nonempty s = true.
Proof. destruct s; [|done]. intros Hv. by vm_compute in Hv. Qed.

(** In a store without intents, the pending change has the only intent. *)
Lemma pending_only `{World} c m :
  "transition_intents" ∉ ch_families c -> no_intents (ch_before c) -> (exists stem, ch_intent c = ["transition_intents"; json_name stem]) ->
  (forall p v, ch_target c p = Some v -> head p <> Some "transition_intents") ->
  pending c m -> only_intent (ch_intent c) (ch_body c) m.
Proof.
  intros Hfam Hno Hname Ht (Hmid&Hi&_). split; [done|done|].
  intros name [d Hd]. destruct (decide (["transition_intents"; name] = ch_intent c)) as [|Hne]; [done|].
  exfalso. destruct (Hmid ["transition_intents"; name]) as [Heq|Heq]; [|done|..].
  - split; [intros [Hc|Hc]; discriminate|done].
  - by rewrite Heq, Hno in Hd.
  - by apply Ht in Heq.
Qed.

Lemma settled_no_intents `{World} c sel m :
  "transition_intents" ∉ ch_families c -> no_intents (ch_before c) -> (forall p v, ch_target c p = Some v -> head p <> Some "transition_intents") ->
  settled c sel m -> no_intents m.
Proof.
  intros Hfam Hno Ht [_ Hs] name. rewrite Hs by (split; [intros [Hc|Hc]; discriminate|done]).
  destruct (ch_target c _) as [v|] eqn:Hv; [by apply Ht in Hv|]. apply Hno.
Qed.

Lemma runs_reconcile_none `{JobDerived} s (St Q : filemap -> Prop) :
  no_intents (files s) -> Q (files s) -> runs _reconcile_transition_intents_unlocked s St (fun _ => Q).
Proof. intros Hno HQ. unfold runs. by rewrite reconcile_none. Qed.

Section replay_delete.
Context `{JobDerived} (m : gmap path doc) (l : Lease) (i : LeaseIndexIdentity) (created : Z)
  (tr : list (string * json)) (ps : list (string * LeaseCapacityPair)) (sel : LeaseCapacityPair).

Definition delete_intent : TransitionIntent :=
  mkIntent (lease_id l) created
    (LeaseDeleteIntent (lease_job_id l) (lease_id l) (Some (l, i)) (Some (JObj tr))).
Definition deletion : change := del m l i (lease_id l) delete_intent ps.

(** What was checked before the intent was written. *)
Record deletable : Prop := {
  dl_lease : valid_lease l = true;
  dl_identity : valid_lease_identity i = true;
  dl_match : _validate_lease_index_identity l i = Ok tt;
  dl_index : forall d, m !! _lease_index_path (lease_id l) = Some d -> d = DLeaseIndex i;
  dl_fits : fits (_lease_index_path (lease_id l)) (DLeaseIndex i);
  dl_intent_fits : fits (ch_intent deletion) (DIntent delete_intent);
  dl_transition : transition_ok tr true ps sel;
  dl_journal : no_intents m;
}.

Context (Hd : deletable).

Lemma deletable_id : ix_lease_id i = lease_id l.
Proof using Hd.
  destruct Hd as [_ _ Hm _ _ _ _ _]. unfold _validate_lease_index_identity in Hm.
  apply raise_unless_ok in Hm. by bool_prop.
Qed.

Lemma deletion_journal p v : ch_target deletion p = Some v -> head p <> Some "transition_intents".
Proof.
  unfold deletion, del, delete_change. cbn [ch_target]. case_bool_decide as Hp; [|done]. intros _.
  by apply lease_file_head in Hp as [_ ?].
Qed.

Lemma deletion_before : ch_before deletion !! ch_intent deletion = None.
Proof using Hd. apply (dl_journal Hd). Qed.

Lemma deletion_targets p v : ch_target deletion p = Some v -> p ∈ lease_files l i.
Proof. unfold deletion, del, delete_change. cbn [ch_target]. by case_bool_decide. Qed.

(** The operation's own end, from a state in which the intent is written. *)
Lemma runs_finish_delete s :
  pending deletion (files s) ->
  runs (_ ← remove_lease_files l i;
        _ ← _apply_lease_capacity_transition_unlocked (JObj tr) true;
        unlink_durable_path (ch_intent deletion)) s (pending deletion) (fun _ => settled deletion sel).
Proof using Hd.
  intros Hp. eapply runs_bind.
  - apply (runs_remove_files m l i (lease_id l) delete_intent ps
      (dl_lease Hd) (dl_identity Hd) deletable_id (dl_index Hd) (dl_fits Hd) [] s).
    split; [exact Hp|]. intros q Hq. by apply elem_of_nil in Hq.
  - intros [] s1 Hs1. eapply (runs_settle deletion); [apply del_wf|apply (dl_transition Hd)| |apply deletion_before|].
    + intros p v Hv. by apply deletion_targets in Hv.
    + exact Hs1.
Qed.

Lemma runs_replay_delete s :
  pending deletion (files s) ->
  runs (replay_intent (ch_intent deletion, delete_intent)) s (pending deletion)
    (fun _ => settled deletion sel).
Proof using Hd.
  intros Hp. unfold replay_intent, delete_intent. cbn [intent_body fst snd]. unfold replay_lease_delete.
  assert (Hv : valid_id (lease_id l) = true /\ valid_id (lease_job_id l) = true).
  { pose proof (dl_lease Hd) as Hv. unfold valid_lease in Hv. by bool_prop. }
  eapply (runs_bind _ _ _ (fun _ f => f = files s)).
  { apply runs_ensure; [|done]. by rewrite !valid_id_nonempty by apply Hv. }
  intros [] s1 Hs1. eapply (runs_bind _ _ _ (fun _ f => f = files s)).
  { apply (runs_pure _ _ tt s1); [|done|done|done].
    rewrite (dl_lease Hd), (dl_identity Hd), (dl_match Hd). by rewrite !bool_decide_true. }
  intros [] s2 Hs2. eapply runs_ext; [|apply (runs_finish_delete s2); by rewrite Hs2].
  unfold remove_lease_files. rewrite !bind_assoc. apply bind_ext. intros _ s3.
  rewrite bind_assoc. apply bind_ext. intros p s4. rewrite bind_assoc. apply bind_ext. intros _ s5.
  apply bind_ext. intros _ s6. apply settle_bind.
Qed.

Lemma runs_reconcile_delete s :
  pending deletion (files s) ->
  runs _reconcile_transition_intents_unlocked s (pending deletion) (fun _ => settled deletion sel).
Proof using Hd.
  intros Hp. eapply runs_ext.
  { apply reconcile_one; [|apply (dl_intent_fits Hd)]. eapply (pending_only deletion);
      [apply not_elem_of_nil|apply (dl_journal Hd)|apply intent_path_name|apply deletion_journal|done]. }
  eapply runs_bind; [by apply runs_replay_delete|]. intros [] s1 Hs1. by apply runs_ret.
Qed.

Lemma runs_reconcile_deleted s :
  settled deletion sel (files s) ->
  runs _reconcile_transition_intents_unlocked s (settled deletion sel) (fun _ => settled deletion sel).
Proof using Hd.
  intros Hs. apply runs_reconcile_none; [|done]. eapply (settled_no_intents deletion);
    [apply not_elem_of_nil|apply (dl_journal Hd)|apply deletion_journal|done].
Qed.
End replay_delete.
