(* ===== verification/LeaseRelease.v ===== *)
(** * Releasing a lease is atomic

    Whatever stops [release_lease], the recoveries that follow leave either the
    store as it was or the store without the lease and with its capacity counted
    down, and never anything in between. *)

From S2P Require Import Prelude Sha256 Json Decimal Identifiers Models Store Recovery.
From S2P Require Import LeaseRecords LeaseDocuments LeaseCapacity LeaseCapacityProofs.
From S2P Require Import LeaseIndexes LeaseTransitions JournalStages LeaseReplay.
From stdpp Require Import base list gmap strings.
From Stdlib Require Import ZArith Lia.
From Stdlib Require Ascii String.
Open Scope Z_scope.

(** ** Reads that precede the intent *)
Section reads.
Context `{JobDerived}.

Lemma readonly_catch {A : Type} (m : M disk A) : readonly m -> readonly (catch_not_found m).
Proof.
  intros Hm s p Hp. specialize (Hm s p Hp). unfold catch_not_found.
  by destruct (m s) as [[a|[]] s1].
Qed.

Lemma readonly_get_job jid : readonly (get_job jid).
Proof. unfold readonly, get_job, read_required_job. repeat step_touches. Qed.

Lemma readonly_read_index tok o : readonly (_read_lease_index_identity_by_token tok o).
Proof. unfold readonly, _read_lease_index_identity_by_token. repeat step_touches. Qed.

Lemma readonly_delete_identity l job identity : readonly (delete_identity l job identity).
Proof.
  unfold readonly, delete_identity, _read_lease_index_identity.
  repeat first [apply readonly_catch, readonly_get_job | apply readonly_read_index | step_touches].
Qed.

Lemma readonly_capacity_read allow : readonly (_read_lease_capacity_components_unlocked allow).
Proof.
  unfold readonly, _read_lease_capacity_components_unlocked, _lease_capacity_record_paths_unlocked,
    _read_unique_json_document. repeat step_touches.
Qed.

Lemma readonly_prepare deltas b : readonly (_prepare_lease_capacity_transition_unlocked deltas b).
Proof.
  unfold readonly, _prepare_lease_capacity_transition_unlocked, _read_lease_capacity_aggregate_unlocked.
  repeat first [apply readonly_capacity_read | step_touches].
Qed.

Lemma wp_read_doc_checked p s (Q : result (option doc) -> disk -> Prop) :
  ((forall d, files s !! p = Some d -> fits p d) -> Q (Ok (files s !! p)) s) ->
  (forall e, Q (Err e) s) -> wp (read_doc p) s Q.
Proof.
  intros Hok Herr. unfold wp, read_doc. destruct (files s !! p) as [d|] eqn:Hp.
  - destruct (Z.ltb_spec (record_max_bytes p) (Z.of_nat (encoded_size d))); [apply Herr|].
    apply Hok. by intros d' [= <-].
  - by apply Hok.
Qed.

Lemma wp_read_index tok s (Q : result LeaseIndexIdentity -> disk -> Prop) :
  (forall i, files s !! _lease_index_path_from_token tok = Some (DLeaseIndex i) ->
     fits (_lease_index_path_from_token tok) (DLeaseIndex i) -> valid_lease_identity i = true ->
     Q (Ok i) s) ->
  (forall e, Q (Err e) s) -> wp (_read_lease_index_identity_by_token tok None) s Q.
Proof.
  intros Hok Herr. unfold _read_lease_index_identity_by_token.
  apply wp_bind, wp_read_doc_checked; [|auto]. intros Hf.
  destruct (files s !! _lease_index_path_from_token tok) as [d|] eqn:Hd; [|apply wp_raise, Herr].
  destruct d; try apply wp_raise, Herr.
  apply wp_bind, wp_ensure; [|auto]. intros Hv. apply wp_bind, wp_ensure; [|auto]. intros _.
  apply wp_bind, wp_ensure; [|auto]. intros _. apply wp_ret. apply Hok; auto.
Qed.

Lemma wp_read_lease lid s (Q : result (option Lease) -> disk -> Prop) :
  (files s !! lease_path lid = None -> Q (Ok None) s) ->
  (forall l, files s !! lease_path lid = Some (DLease l) -> valid_lease l = true -> lease_id l = lid ->
     Q (Ok (Some l)) s) ->
  (forall e, Q (Err e) s) -> wp (read_optional_lease lid) s Q.
Proof.
  intros Hnone Hsome Herr. unfold read_optional_lease. apply wp_bind, wp_read_doc; [|auto].
  destruct (files s !! lease_path lid) as [d|] eqn:Hd; [|by apply wp_ret, Hnone].
  destruct d; try apply wp_raise, Herr.
  apply wp_bind, wp_ensure; [|auto]. intros Hv. apply wp_bind, wp_ensure; [|auto]. intros Hl.
  bool_prop. apply wp_ret. auto.
Qed.

(** A prepared transition is usable for as long as the generations fit. *)
Lemma wp_prepare p deltas b s (Q : result json -> disk -> Prop) :
  pair_ok p -> holds_pair p (files s) -> ag_generation (pair_aggregate p) + 2 < MAX_GENERATION ->
  (forall tr ps sel s', files s' = files s -> transition_ok tr true ps sel ->
     (forall tok k, count_of (counts_of sel) tok k = count_of (counts_of p) tok k + delta_of deltas tok k) ->
     authorized ps (files s) ->
     (b = true -> exists rb, transition_ok tr false ps rb /\
        forall tok k, count_of (counts_of rb) tok k = count_of (counts_of p) tok k) ->
     Q (Ok (JObj tr)) s') ->
  (forall e s', files s' = files s -> Q (Err e) s') ->
  wp (_prepare_lease_capacity_transition_unlocked deltas b) s Q.
Proof.
  intros Hp Hh Hg Hok Herr. unfold wp. pose proof (readonly_files _ s (readonly_prepare deltas b)) as Hf.
  destruct (_prepare_lease_capacity_transition_unlocked deltas b s) as [[v|e] s'] eqn:Hrun; [|by apply Herr].
  destruct (prepare_exact p deltas b s v s' Hp Hh Hrun)
    as (tr&ps&after&->&Hs&Hdec&Hafter&_&_&Hc&Hauth&Hkeys&Hgens&Hrb). cbn [fst snd] in *.
  assert (Ht : forall a x, dict_get (transition_target a) ps = Some x -> transition_ok tr a ps x).
  { intros a x Hx. split; [rewrite Hkeys; by destruct b|done|done|].
    eapply Forall_impl; [exact Hgens|]. cbn. intros. lia. }
  apply (Hok tr ps after); [done|by apply Ht|done|by rewrite <- Hs|].
  intros Hb. destruct (Hrb Hb) as (rb&Hx&Hc'). exists rb. split; [by apply Ht|done].
Qed.
End reads.

(** ** Releasing *)
Section release.
Context `{JobDerived}.

(** What is left of store [m] when lease [l] with identity [i] is gone. *)
Record released (l : Lease) (i : LeaseIndexIdentity) (p : LeaseCapacityPair)
    (m m' : gmap path doc) : Prop := {
  rl_files : forall q, ~ capacity_path q ->
    m' !! q = if bool_decide (q ∈ lease_files l i) then None else m !! q;
  rl_capacity : exists p', holds_pair p' m' /\ pair_ok p' /\
    forall tok k, count_of (counts_of p') tok k =
      count_of (counts_of p) tok k
      - (if bool_decide (lease_cluster_token (ix_cluster i) = tok /\ ix_job_kind i = k) then 1 else 0);
}.

Definition release_post (lid : string) (p : LeaseCapacityPair) (s : disk) (r : result unit) (s' : disk) : Prop :=
  (files s' = files s /\ (r = Ok tt -> files s !! lease_path lid = None)) \/
  exists l i created tr ps sel,
    files s !! lease_path lid = Some (DLease l) /\ lease_id l = lid /\
    files s !! _lease_index_path lid = Some (DLeaseIndex i) /\
    deletable (files s) l i created tr ps sel /\
    (forall tok k, count_of (counts_of sel) tok k = count_of (counts_of p) tok k
       + delta_of [((ix_cluster i, ix_job_kind i), -1)] tok k) /\
    (pending (deletion (files s) l i created tr ps) (files s') \/
     settled (deletion (files s) l i created tr ps) sel (files s')) /\
    (r = Ok tt -> settled (deletion (files s) l i created tr ps) sel (files s')).

Lemma wp_release lid p s :
  no_intents (files s) -> pair_ok p -> holds_pair p (files s) ->
  ag_generation (pair_aggregate p) + 2 < MAX_GENERATION ->
  wp (release_lease lid) s (release_post lid p s).
Proof.
  intros Hno Hp Hh Hg. unfold release_lease.
  assert (Herr : forall e s', files s' = files s -> release_post lid p s (Err e) s').
  { intros e s' Hs'. left. by split. }
  apply wp_bind, wp_lift. destruct (require_durable_record_id _ _) as [lid'|e] eqn:Hlid; [|by apply Herr].
  assert (lid' = lid) as ->.
  { unfold require_durable_record_id in Hlid.
    destruct (validate_durable_record_id (JStr lid)) as [x|[]] eqn:Hv; try done. injection Hlid as ->.
    apply validate_ok_inv in Hv as ([= ->]&_). done. }
  apply wp_bind. unfold _recover_pending_transitions_unlocked, wp at 1. rewrite reconcile_none by done.
  cbn [fst snd]. apply wp_bind, wp_read_lease; [|intros l Hl Hv Hid|intros e; by apply Herr].
  { intros Hnone. apply wp_ret. left. by split. }
  subst lid. apply wp_bind, wp_ensure; [intros _|intros _; by apply Herr].
  unfold _delete_lease_unlocked. apply wp_bind, wp_readonly; [intros; apply readonly_files, readonly_delete_identity|].
  intros [i|e] s1 Hs1; [|by apply Herr].
  apply wp_bind, wp_lift. destruct (_validate_lease_index_identity l i) as [[]|e] eqn:Hmatch; [|by apply Herr].
  apply wp_bind, wp_path_exists. apply wp_bind. case_bool_decide as Hpresent.
  2:{ apply wp_ensure; [intros Hc; by apply bool_decide_eq_true in Hc as [? ?]|intros _; by apply Herr]. }
  apply wp_bind. unfold _read_lease_index_identity. apply wp_bind.
  apply wp_read_index; [|intros e; by apply Herr]. intros i' Hi' Hfit Hvi.
  fold (_lease_index_path (lease_id l)) in Hi', Hfit.
  apply wp_bind, wp_ensure; [intros _|intros _; by apply Herr]. apply wp_ret.
  apply wp_ensure; [intros Heq|intros _; by apply Herr]. bool_prop. subst i'.
  apply wp_bind, wp_bind. rewrite Hs1 in Hi'.
  apply (wp_prepare p); [done|by rewrite Hs1|done| |].
  2:{ intros e s2 Hs2. apply Herr. by rewrite Hs2. }
  intros tr ps sel s2 Hs2 Htr Hc Hauth _. rewrite Hs1 in Hs2, Hauth.
  apply wp_bind. unfold _write_transition_intent_unlocked. apply wp_bind, wp_utc_now.
  intros s3 Hs3 _ _. set (created := clock (ticks s2)). cbn [intent_kind].
  apply wp_bind, wp_write_checked.
  2:{ intros e. apply Herr. congruence. }
  intros s4 Hfi Hs4 _. rewrite Hs3, Hs2 in Hs4. apply wp_ret, wp_ret. cbn [fst snd].
  assert (Hd : deletable (files s) l i created tr ps sel).
  { split; try done.
    intros d. rewrite Hi'. by intros [= ->]. }
  set (c := deletion (files s) l i created tr ps).
  assert (Hpend : pending c (files s4)).
  { rewrite Hs4. split_and!.
    - intros q _ Hq. left. change (q <> intent_path "lease_delete" (lease_id l)) in Hq.
      by apply lookup_insert_ne.
    - unfold c, deletion, del, delete_change. cbn [ch_intent ch_body]. by rewrite lookup_insert_eq.
    - eapply authorized_frame; [|exact Hauth]. by apply same_capacity_insert. }
  assert (Hpost : forall r s', (pending c (files s') \/ settled c sel (files s')) ->
            (r = Ok tt -> settled c sel (files s')) -> release_post (lease_id l) p s r s').
  { intros r s' H1 H2. right. exists l, i, created, tr, ps, sel. done. }
  apply (runs_wp _ s4 (pending c) (fun _ => settled c sel)).
  - by apply (runs_finish_delete (files s) l i created tr ps sel).
  - intros [] s5 Hs5. by apply Hpost; [right|].
  - intros s5 _ Hs5. by apply Hpost; [left|].
Qed.
End release.
(** A store without intents is left alone by any number of recoveries. *)
Lemma recover_idle `{JobDerived} attempts s :
  no_intents (files s) ->
  files (recover_attempts _reconcile_transition_intents_unlocked attempts s) = files s.
Proof.
  unfold recover_attempts. revert s. induction attempts as [|b bs IH]; intros s Hno; [done|]. cbn.
  rewrite reconcile_none by done. cbn [snd]. rewrite IH; done.
Qed.

Section release_atomic.
Context `{JobDerived}.

Lemma settled_released l i created tr ps sel p m m' :
  deletable m l i created tr ps sel ->
  (forall tok k, count_of (counts_of sel) tok k = count_of (counts_of p) tok k
     + delta_of [((ix_cluster i, ix_job_kind i), -1)] tok k) ->
  settled (deletion m l i created tr ps) sel m' -> released l i p m m'.
Proof.
  intros Hd Hc [Hh Hs]. split.
  - intros q Hq. rewrite Hs by (split; [done|apply not_elem_of_nil]). unfold deletion, del, delete_change. cbn [ch_target ch_before].
    by case_bool_decide.
  - exists sel. split_and!; [done| |].
    + by destruct (transition_selected _ _ _ _ (dl_transition m l i created tr ps sel Hd)).
    + intros tok k. rewrite Hc. unfold delta_of. cbn. case_bool_decide; lia.
Qed.

(** C9: releasing a lease is atomic.  From a store whose journal is empty, whatever
    stops [release_lease] (an error or a crash at any durable step) and however
    often the recovery that follows is itself stopped, the first recovery that is
    not leaves the files exactly as they were, or without any of the lease's eight
    files and with its cluster and kind counted down by one, and changes nothing
    else; a release that returned has already done so and has left no intent. *)
Theorem release_atomic lid p s attempts :
  no_intents (files s) -> pair_ok p -> holds_pair p (files s) ->
  ag_generation (pair_aggregate p) + 2 < MAX_GENERATION ->
  exists s', _reconcile_transition_intents_unlocked
      (set_budget None (recover_attempts _reconcile_transition_intents_unlocked attempts
                          (release_lease lid s).2)) = (Ok tt, s') /\
    (files s' = files s \/
     exists l i, files s !! lease_path lid = Some (DLease l) /\
       files s !! _lease_index_path lid = Some (DLeaseIndex i) /\ released l i p (files s) (files s')) /\
    ((release_lease lid s).1 = Ok tt ->
       files s' = files (release_lease lid s).2 /\ files s' !! lease_path lid = None).
Proof.
  intros Hno Hp Hh Hg. pose proof (wp_release lid p s Hno Hp Hh Hg) as Hw. unfold wp in Hw.
  destruct (release_lease lid s) as [r s1]. cbn [fst snd] in *.
  assert (Hidle : no_intents (files s1) -> exists s', _reconcile_transition_intents_unlocked
      (set_budget None (recover_attempts _reconcile_transition_intents_unlocked attempts s1)) = (Ok tt, s') /\
      files s' = files s1).
  { intros Hno1. eexists. split; [apply reconcile_none|]; cbn [set_budget files]; by rewrite recover_idle. }
  destruct Hw as [[Hf Hok]|(l&i&created&tr&ps&sel&Hl&Hid&Hi&Hd&Hc&Hstate&Hok)].
  - destruct Hidle as (s'&Hr&Hs'); [by rewrite Hf|]. exists s'. rewrite Hs', Hf.
    split_and!; [done|by left|]. intros ->. split; [done|]. by apply Hok.
  - set (c := deletion (files s) l i created tr ps) in *.
    assert (Hend : forall m', settled c sel m' -> m' !! lease_path lid = None).
    { intros m' [_ Hs]. rewrite Hs by (split; [intros [Hx|Hx]; discriminate|apply not_elem_of_nil]). unfold c, deletion.
      rewrite del_target; [done|]. rewrite <- Hid. by left. }
    destruct (recovery_converges _ (pending c) (settled c sel)
      (runs_reconcile_delete (files s) l i created tr ps sel Hd)
      (runs_reconcile_deleted (files s) l i created tr ps sel Hd) attempts s1 Hstate) as (s'&Hr&Hset&_).
    exists s'. split; [done|]. split.
    + right. exists l, i. split_and!; [done|done|]. by eapply settled_released.
    + intros Hr1. specialize (Hok Hr1). destruct Hidle as (s2&Hr2&Hs2).
      { eapply (settled_no_intents c); [apply not_elem_of_nil|apply (dl_journal _ _ _ _ _ _ _ Hd)|apply deletion_journal|done]. }
      rewrite Hr in Hr2. injection Hr2 as ->. rewrite Hs2. split; [done|]. by apply Hend.
Qed.
End release_atomic.
