(* ===== verification/LeaseRenew.v ===== *)
(** * Renewing a lease is atomic

    A renewal rewrites the lease and moves its references to the new expiry.  From
    every state a crash can leave, the replay of its intent finishes it. *)

From S2P Require Import Prelude Sha256 Json Decimal Identifiers Models Store Recovery.
From S2P Require Import LeaseRecords LeaseDocuments LeaseCapacity LeaseCapacityProofs.
From S2P Require Import LeaseIndexes LeaseTransitions JournalStages LeaseReplay LeaseRelease.
From stdpp Require Import base list gmap strings.
From Stdlib Require Import ZArith Lia.
From Stdlib Require Ascii String.
Open Scope Z_scope.

Lemma empty_text_fits `{World} p : fits p (DText "").
Proof.
  unfold fits. cbn [encoded_size String.length]. unfold record_max_bytes.
  destruct (dict_get _ _) as [n|] eqn:Hn; [|done]. cbn [default].
  assert (Hall : Forall (fun kv => 0 <= kv.2) RECORD_FAMILY_MAX_BYTES) by (repeat constructor; done).
  rewrite Forall_forall in Hall. apply dict_get_In in Hn. apply (Hall _ Hn).
Qed.

(** A stored index document of lease [lid] that can be read. *)
Definition index_of_lease `{World} (lid : string) (d : doc) : Prop :=
  exists i, d = DLeaseIndex i /\ valid_lease_identity i = true /\ ix_lease_id i = lid /\
    fits (_lease_index_path lid) (DLeaseIndex i).

(** The files a renewal leaves: [l] is the renewed lease with identity [i], and
    [i0] the identity of the previous one. *)
Definition renewal_target (l : Lease) (i i0 : LeaseIndexIdentity) (p : path) : option (option doc) :=
  if bool_decide (p ∈ [lease_path (lease_id l); by_job_path (lease_job_id l) (lease_id l)])
  then Some (Some (DLease l))
  else if bool_decide (p = _lease_index_path (lease_id l)) then Some (Some (DLeaseIndex i))
  else if bool_decide (p ∈ written_refs i) then Some (Some (DText ""))
  else if bool_decide (p ∈ removed_refs i0) then Some None
  else None.

Lemma identity_of_lease l j i :
  _lease_index_identity l j = Ok i ->
  i = mkIdentity (lease_id l) (lease_job_id l) (lease_endpoint_id l) (job_cluster j) (job_kind j) (expires_at l) /\
  lease_job_id l = job_id j.
Proof.
  unfold _lease_index_identity. case_bool_decide as Hj; [|done]. cbn [negb].
  intros (?&_&(?&_&(?&_&[= <-])%bind_ok)%bind_ok)%bind_ok. done.
Qed.

Lemma valid_id_require s field : valid_id s = true -> require_durable_record_id (JStr s) field = Ok s.
Proof.
  unfold valid_id, require_durable_record_id. destruct (validate_durable_record_id (JStr s)) as [a|] eqn:Hv; [|done].
  by apply validate_ok_inv in Hv as ([= ->]&_).
Qed.

Lemma identity_valid l j :
  valid_lease l = true -> lease_job_id l = job_id j ->
  _lease_index_identity l j =
    Ok (mkIdentity (lease_id l) (lease_job_id l) (lease_endpoint_id l) (job_cluster j) (job_kind j) (expires_at l)).
Proof.
  intros Hv Hj. unfold valid_lease in Hv. bool_prop. unfold _lease_index_identity.
  rewrite bool_decide_true by done. cbn [negb]. by rewrite !valid_id_require by done.
Qed.

Lemma refs_heads i p : p ∈ written_refs i \/ p ∈ removed_refs i ->
  head p ∈ [Some "leases_by_endpoint"; Some "leases_by_cluster_kind"; Some "leases_by_expiry";
            Some "lease_identity_refs"].
Proof.
  unfold written_refs, removed_refs. rewrite !elem_of_cons, elem_of_nil.
  intros [H|H]; destruct_or! H; subst p; try done; cbn; set_solver.
Qed.

Section renewal.
Context `{JobDerived} (m : gmap path doc) (previous l : Lease) (job : RelayJob) (created : Z)
  (tr : list (string * json)) (ps : list (string * LeaseCapacityPair)) (sel : LeaseCapacityPair).

Definition renewed_identity : LeaseIndexIdentity :=
  mkIdentity (lease_id l) (lease_job_id l) (lease_endpoint_id l) (job_cluster job) (job_kind job) (expires_at l).
Definition previous_identity : LeaseIndexIdentity :=
  mkIdentity (lease_id previous) (lease_job_id previous) (lease_endpoint_id previous)
    (job_cluster job) (job_kind job) (expires_at previous).
Definition renew_intent : TransitionIntent :=
  mkIntent (lease_id l) created (LeaseSyncIntent l previous job (Some (JObj tr))).
Definition renewal : change :=
  mkChange m (renewal_target l renewed_identity previous_identity)
    (intent_path "lease_sync" (lease_id l)) renew_intent ps [].

Record renewable : Prop := {
  rn_lease_fit : Forall (fun q => fits q (DLease l)) [lease_path (lease_id l); by_job_path (lease_job_id l) (lease_id l)];
  rn_index_fit : fits (_lease_index_path (lease_id l)) (DLeaseIndex renewed_identity);
  rn_intent_fit : fits (ch_intent renewal) (DIntent renew_intent);
  rn_lease : valid_lease l = true;
  rn_previous : valid_lease previous = true;
  rn_job : valid_job job = true;
  rn_ids : lease_id previous = lease_id l /\ lease_job_id previous = lease_job_id l /\
           lease_endpoint_id previous = lease_endpoint_id l /\ lease_job_id l = job_id job;
  rn_cluster : str_nonempty (job_cluster job) = true;
  rn_index : forall d, m !! _lease_index_path (lease_id l) = Some d ->
    index_of_lease (lease_id l) d;
  rn_transition : transition_ok tr true ps sel;
  rn_journal : no_intents m;
}.

Context (Hr : renewable).

Lemma renewal_head p v :
  renewal_target l renewed_identity previous_identity p = Some v ->
  head p <> Some "lease_capacity" /\ head p <> Some "transition_intents".
Proof.
  unfold renewal_target. repeat case_bool_decide; try done; intros _.
  - match goal with Hp : p ∈ [_; _] |- _ => rewrite !elem_of_cons, elem_of_nil in Hp; destruct Hp as [->|[->|[]]]; done end.
  - by subst p.
  - assert (Hh := refs_heads renewed_identity p). rewrite !elem_of_cons, elem_of_nil in Hh.
    destruct Hh as [->|[->|[->|[->|[]]]]]; auto.
  - assert (Hh := refs_heads previous_identity p). rewrite !elem_of_cons, elem_of_nil in Hh.
    destruct Hh as [->|[->|[->|[->|[]]]]]; auto.
Qed.

Lemma renewal_wf : change_wf renewal.
Proof.
  split; [|split_and!; [done|apply not_elem_of_nil..]].
  intros p v Hp. apply renewal_head in Hp as [H1 H2]. split_and!; [done| |apply not_elem_of_nil].
  intros ->. by apply H2.
Qed.

Lemma target_lease p :
  p ∈ [lease_path (lease_id l); by_job_path (lease_job_id l) (lease_id l)] ->
  ch_target renewal p = Some (Some (DLease l)).
Proof. intros Hp. unfold renewal. cbn [ch_target]. unfold renewal_target. by rewrite bool_decide_true. Qed.

Lemma target_index : ch_target renewal (_lease_index_path (lease_id l)) = Some (Some (DLeaseIndex renewed_identity)).
Proof.
  unfold renewal. cbn [ch_target]. unfold renewal_target. rewrite bool_decide_false, bool_decide_true; [done|done|].
  rewrite !elem_of_cons, elem_of_nil. intros [Hx|[Hx|[]]]; discriminate Hx.
Qed.

Lemma target_written p : p ∈ written_refs renewed_identity -> ch_target renewal p = Some (Some (DText "")).
Proof.
  intros Hp. pose proof (refs_heads renewed_identity p (or_introl Hp)) as Hh.
  rewrite !elem_of_cons, elem_of_nil in Hh.
  unfold renewal. cbn [ch_target]. unfold renewal_target.
  rewrite bool_decide_false, bool_decide_false, bool_decide_true; [done|done|..].
  - intros ->. by destruct Hh as [Hx|[Hx|[Hx|[Hx|[]]]]].
  - rewrite !elem_of_cons, elem_of_nil. intros [->|[->|[]]]; by destruct Hh as [Hx|[Hx|[Hx|[Hx|[]]]]].
Qed.

Lemma target_removed p :
  p ∈ removed_refs previous_identity -> p ∉ written_refs renewed_identity -> ch_target renewal p = Some None.
Proof.
  intros Hp Hn. pose proof (refs_heads previous_identity p (or_intror Hp)) as Hh.
  rewrite !elem_of_cons, elem_of_nil in Hh.
  unfold renewal. cbn [ch_target]. unfold renewal_target.
  rewrite bool_decide_false, bool_decide_false, bool_decide_false, bool_decide_true; [done|done|done|..].
  - intros ->. by destruct Hh as [Hx|[Hx|[Hx|[Hx|[]]]]].
  - rewrite !elem_of_cons, elem_of_nil. intros [->|[->|[]]]; by destruct Hh as [Hx|[Hx|[Hx|[Hx|[]]]]].
Qed.

Definition renewal_files : list path :=
  [lease_path (lease_id l); by_job_path (lease_job_id l) (lease_id l)]
  ++ filter (fun p => p ∉ written_refs renewed_identity) (removed_refs previous_identity)
  ++ [_lease_index_path (lease_id l)] ++ written_refs renewed_identity.

Lemma renewal_targets p v : ch_target renewal p = Some v -> p ∈ renewal_files.
Proof.
  unfold renewal, renewal_files. cbn [ch_target]. unfold renewal_target.
  rewrite !elem_of_app, list_elem_of_filter, list_elem_of_singleton.
  repeat case_bool_decide; naive_solver.
Qed.

Lemma renewed_identity_valid : valid_lease_identity renewed_identity = true.
Proof using Hr.
  pose proof (rn_lease Hr) as Hv. unfold valid_lease in Hv. bool_prop. unfold valid_lease_identity.
  cbn [renewed_identity ix_lease_id ix_job_id ix_endpoint_id ix_cluster]. unfold safe_global_record_id.
  unfold valid_id in *. by rewrite (rn_cluster Hr), !andb_true_iff.
Qed.

(** The index document is absent or of this lease at every stage. *)
Lemma renewal_index m' d :
  pending renewal m' -> m' !! _lease_index_path (lease_id l) = Some d -> index_of_lease (lease_id l) d.
Proof using Hr.
  intros [Hmid _] Hd. destruct (Hmid (_lease_index_path (lease_id l))) as [Heq|Heq]; [|done|..].
  - split; [intros [Hx|Hx]; discriminate Hx|apply not_elem_of_nil].
  - rewrite Heq in Hd. by apply (rn_index Hr).
  - rewrite target_index, Hd in Heq. injection Heq as <-. exists renewed_identity.
    split_and!; [done|apply renewed_identity_valid|done|apply (rn_index_fit Hr)].
Qed.

Lemma runs_write_index k s :
  reached renewal k (files s) ->
  runs (_write_lease_index_identity_unlocked renewed_identity) s (pending renewal)
    (fun _ => reached renewal (k ++ [_lease_index_path (lease_id l)])).
Proof using Hr.
  intros Hk. unfold _write_lease_index_identity_unlocked.
  change (ix_lease_id renewed_identity) with (lease_id l).
  eapply (runs_bind _ _ _ (fun b f => reached renewal k f /\
            b = bool_decide (is_Some (f !! _lease_index_path (lease_id l))))).
  { by apply runs_path_exists. }
  intros b s1 [Hs1 ->]. eapply (runs_bind _ _ _ (fun _ f => reached renewal k f)).
  - case_bool_decide as Hp; [|by apply runs_ret]. destruct Hp as [d Hd].
    destruct (renewal_index (files s1) d (proj1 Hs1) Hd) as (i0&->&Hv&Hid&Hfit).
    apply (runs_pure _ _ tt s1); [|done|done|done].
    rewrite (M_bind_run _ _ _ i0 s1); [by rewrite bool_decide_true|].
    unfold _read_lease_index_identity_by_token. fold (_lease_index_path (lease_id l)).
    rewrite (M_bind_run _ _ _ (Some (DLeaseIndex i0)) s1).
    2:{ assert (Hd' : files s1 !! _lease_index_path (lease_id l) = Some (DLeaseIndex i0)) by exact Hd.
        unfold read_doc. rewrite Hd'. rewrite (proj2 (Z.ltb_ge _ _)); [done|exact Hfit]. }
    rewrite Hv, Hid, bool_decide_true by done. done.
  - intros [] s2 Hs2. apply (runs_write_target renewal renewal_wf); [apply target_index| |done].
    exact (rn_index_fit Hr).
Qed.

Lemma runs_unlink_stale k s :
  reached renewal k (files s) ->
  runs (unlink_stale_refs previous_identity renewed_identity) s (pending renewal)
    (fun _ => reached renewal (k ++ filter (fun p => p ∉ written_refs renewed_identity)
                                     (removed_refs previous_identity))).
Proof using Hr.
  intros Hk. unfold unlink_stale_refs.
  apply (runs_for_each _ _ s (fun ds => reached renewal
    (k ++ filter (fun p => p ∉ written_refs renewed_identity) ds))); [by rewrite app_nil_r|].
  intros ds p rest s' Hsplit Hs'. rewrite filter_app, filter_cons.
  case_bool_decide as Hw.
  - rewrite decide_False by tauto. rewrite app_nil_r. by apply runs_ret.
  - rewrite decide_True by done. rewrite filter_nil, app_assoc.
    apply (runs_unlink_target renewal renewal_wf); [|done]. apply target_removed; [|done].
    rewrite Hsplit. set_solver.
Qed.

Lemma runs_write_renewed s :
  pending renewal (files s) ->
  runs (write_renewed_lease l previous job) s (pending renewal) (fun _ => reached renewal renewal_files).
Proof using Hr.
  intros Hp. destruct (rn_ids Hr) as (Hi1&Hi2&Hi3&Hi4). unfold write_renewed_lease.
  assert (Hv : valid_id (lease_id l) = true /\ valid_id (lease_job_id l) = true).
  { pose proof (rn_lease Hr) as Hv. unfold valid_lease in Hv. by bool_prop. }
  pose proof (rn_lease_fit Hr) as Hfit. apply Forall_cons in Hfit as [Hfit1 Hfit2]. apply Forall_cons in Hfit2 as [Hfit2 _].
  eapply runs_bind.
  { apply (runs_write_target renewal renewal_wf _ _ []); [apply target_lease; by left|exact Hfit1|].
    split; [exact Hp|]. intros q Hq. by apply elem_of_nil in Hq. }
  intros [] s1 Hs1. rewrite job_record_path_valid by apply Hv.
  eapply (runs_bind _ _ _ (fun q f => q = by_job_path (lease_job_id l) (lease_id l) /\ reached renewal _ f)).
  { eapply runs_lift; [done|]. split; [done|exact Hs1]. }
  intros q s2 [-> Hs2]. eapply runs_bind.
  { apply (runs_write_target renewal renewal_wf); [apply target_lease; by right; left|exact Hfit2|exact Hs2]. }
  intros [] s3 Hs3. unfold sync_operational_indexes.
  assert (Hid : _lease_index_identity l job = Ok renewed_identity) by (apply identity_valid; [apply Hr|done]).
  assert (Hid0 : _lease_index_identity previous job = Ok previous_identity)
    by (apply identity_valid; [apply Hr|congruence]).
  rewrite Hid, Hid0. eapply (runs_bind _ _ _ (fun _ => reached renewal renewal_files)).
  2:{ intros i s4 Hs4. by apply runs_ret. }
  eapply (runs_bind _ _ _ (fun i f => i = renewed_identity /\ reached renewal _ f)).
  { eapply runs_lift; [done|]. split; [done|exact Hs3]. }
  intros i s4 [-> Hs4]. eapply runs_bind.
  { eapply (runs_bind _ _ _ (fun i f => i = previous_identity /\ reached renewal _ f)).
    { eapply runs_lift; [done|]. split; [done|exact Hs4]. }
    intros i s5 [-> Hs5]. eapply (runs_bind _ _ _ (fun _ f => reached renewal _ f)).
    { apply runs_ensure; [|exact Hs5]. cbn [renewed_identity previous_identity ix_lease_id ix_job_id ix_endpoint_id].
      by rewrite !bool_decide_true. }
    intros [] s6 Hs6. apply runs_unlink_stale. exact Hs6. }
  intros [] s5 Hs5. eapply runs_bind; [apply runs_write_index; exact Hs5|]. intros [] s6 Hs6.
  eapply runs_bind.
  { eapply (runs_each_target renewal renewal_wf _ (written_refs renewed_identity)); [|exact Hs6].
    intros q k s' Hq Hk. apply (runs_write_target renewal renewal_wf); [by apply target_written|apply empty_text_fits|done]. }
  intros [] s7 Hs7. apply runs_ret. rewrite <- !app_assoc in Hs7. exact Hs7.
Qed.

Lemma renewal_before : ch_before renewal !! ch_intent renewal = None.
Proof using Hr. apply (rn_journal Hr). Qed.

Lemma runs_finish_renewal s :
  pending renewal (files s) ->
  runs (_ ← write_renewed_lease l previous job;
        _ ← _apply_lease_capacity_transition_unlocked (JObj tr) true;
        unlink_durable_path (ch_intent renewal)) s (pending renewal) (fun _ => settled renewal sel).
Proof using Hr.
  intros Hp. eapply runs_bind; [by apply runs_write_renewed|]. intros [] s1 Hs1.
  apply (runs_settle renewal renewal_wf _ _ _ renewal_files);
    [apply Hr|apply renewal_targets|apply renewal_before|done].
Qed.

Lemma runs_reconcile_renewal s :
  pending renewal (files s) ->
  runs _reconcile_transition_intents_unlocked s (pending renewal) (fun _ => settled renewal sel).
Proof using Hr.
  intros Hp. eapply runs_ext.
  { apply reconcile_one.
    - eapply (pending_only renewal); [apply not_elem_of_nil|apply (rn_journal Hr)|apply intent_path_name| |exact Hp].
      intros p v Hv. by apply renewal_head in Hv as [_ ?].
    - exact (rn_intent_fit Hr). }
  eapply (runs_bind _ _ _ (fun _ => settled renewal sel)); [|intros [] s1 Hs1; by apply runs_ret].
  unfold replay_intent. cbn [ch_body renewal renew_intent intent_body fst snd]. unfold replay_lease_sync.
  destruct (rn_ids Hr) as (Hi1&Hi2&Hi3&Hi4).
  rewrite (rn_lease Hr), (rn_previous Hr), (rn_job Hr), Hi1, Hi4, !bool_decide_true by done.
  do 4 (eapply (runs_bind _ _ _ (fun _ => pending renewal)); [by apply runs_ensure|intros [] ? ?]).
  eapply runs_ext; [|eapply (runs_finish_renewal _)]; [|done].
  apply bind_ext. intros _ s6. apply settle_bind.
Qed.
End renewal.

(** ** Renewing *)
Section renew.
Context `{JobDerived}.

Lemma wp_get_job jid s (Q : result RelayJob -> disk -> Prop) :
  (forall j, files s !! job_path jid = Some (DJob j) -> valid_job j = true -> job_id j = jid -> Q (Ok j) s) ->
  (forall e, Q (Err e) s) -> wp (get_job jid) s Q.
Proof.
  intros Hok Herr. unfold get_job, read_required_job. apply wp_bind, wp_lift.
  destruct (require_durable_record_id _ _) as [jid'|e] eqn:Hj; [|done].
  assert (jid' = jid) as ->.
  { unfold require_durable_record_id in Hj.
    destruct (validate_durable_record_id (JStr jid)) as [x|[]] eqn:Hv; try done. injection Hj as ->.
    apply validate_ok_inv in Hv as ([= ->]&_). done. }
  apply wp_bind, wp_read_doc; [|auto]. fold (job_path jid).
  destruct (files s !! job_path jid) as [d|] eqn:Hd; [|apply wp_raise, Herr].
  destruct d; try apply wp_raise, Herr.
  apply wp_bind, wp_ensure; [intros Hv|auto]. apply wp_bind, wp_ensure; [intros Hi|auto].
  bool_prop. apply wp_ret. auto.
Qed.

(** A new lease starts now and lasts [ttl_seconds]. *)
Lemma wp_new_lease jid endpoint ttl s (Q : result Lease -> disk -> Prop) :
  (forall s', let u := uuid4_at (draws s) in let now := clock (ticks s) in files s' = files s ->
     valid_lease (mkLease ("lease_" +:+ u) jid endpoint now (now + ttl * 1000000)) = true ->
     Q (Ok (mkLease ("lease_" +:+ u) jid endpoint now (now + ttl * 1000000))) s') ->
  (forall e s', files s' = files s -> Q (Err e) s') ->
  wp (new_lease jid endpoint ttl) s Q.
Proof.
  intros HQ Herr. unfold new_lease. apply wp_bind, wp_utc_now. intros s1 Hs1 _ Hd. set (now := clock (ticks s)).
  apply wp_bind, wp_uuid. intros s2 Hs2 _. rewrite Hd. rewrite Hs1 in Hs2.
  apply wp_bind, wp_ensure; [intros Hv|intros _; by apply Herr]. apply wp_ret. by apply HQ.
Qed.

(** Lease [l] is [previous] with a new term. *)
Definition renews (previous l : Lease) (ttl_seconds : Z) : Prop :=
  lease_id l = lease_id previous /\ lease_job_id l = lease_job_id previous /\
  lease_endpoint_id l = lease_endpoint_id previous /\ expires_at l = acquired_at l + ttl_seconds * 1000000.

Definition renew_post (lid : string) (ttl : Z) (p : LeaseCapacityPair) (s : disk)
    (r : result (option Lease)) (s' : disk) : Prop :=
  (files s' = files s /\ forall v, r = Ok v -> v = None /\ files s !! lease_path lid = None) \/
  exists previous l job created tr ps sel,
    files s !! lease_path lid = Some (DLease previous) /\ lease_id previous = lid /\
    renews previous l ttl /\ files s !! job_path (lease_job_id previous) = Some (DJob job) /\
    renewable (files s) previous l job created tr ps sel /\
    (forall tok k, count_of (counts_of sel) tok k = count_of (counts_of p) tok k) /\
    (pending (renewal (files s) previous l job created tr ps) (files s') \/
     settled (renewal (files s) previous l job created tr ps) sel (files s')) /\
    (forall v, r = Ok v -> v = Some l /\
       settled (renewal (files s) previous l job created tr ps) sel (files s')).

(** The lease that a renewal of [previous] writes when the clock reads [clock n]. *)
Definition renewed_lease (previous : Lease) (ttl_seconds : Z) (n : nat) : Lease :=
  mkLease (lease_id previous) (lease_job_id previous) (lease_endpoint_id previous) (clock n)
    (clock n + ttl_seconds * 1000000).

(** What renewal asks of the store: no transition is pending, the index document of the
    lease is its own if there is one, and the stored lease and its index document are small
    enough to be written with another term.  Nothing is asked of the size of the intent,
    whose job record may be of any size: an intent over its limit is refused before
    anything is written. *)
Record renew_ready (lid : string) (ttl : Z) (m : gmap path doc) : Prop := {
  rr_journal : no_intents m;
  rr_index : forall d, m !! _lease_index_path lid = Some d -> index_of_lease lid d;
  rr_sizes : forall previous job n,
    m !! lease_path lid = Some (DLease previous) -> m !! job_path (lease_job_id previous) = Some (DJob job) ->
    let l := renewed_lease previous ttl n in
    fits (lease_path lid) (DLease l) /\ fits (by_job_path (lease_job_id l) lid) (DLease l) /\
    fits (_lease_index_path lid) (DLeaseIndex (renewed_identity l job));
  rr_clusters : forall jid j, m !! job_path jid = Some (DJob j) -> str_nonempty (job_cluster j) = true;
}.

Lemma readonly_require_migration : readonly require_index_migration_complete.
Proof. unfold readonly, require_index_migration_complete. repeat step_touches. Qed.

Lemma wp_renew lid ttl p s :
  renew_ready lid ttl (files s) -> pair_ok p -> holds_pair p (files s) ->
  ag_generation (pair_aggregate p) + 2 < MAX_GENERATION ->
  wp (renew_lease lid ttl) s (renew_post lid ttl p s).
Proof.
  intros [Hno Hix Hsz Hcl] Hp Hh Hg. unfold renew_lease.
  assert (Herr : forall e s', files s' = files s -> renew_post lid ttl p s (Err e) s').
  { intros e s' Hs'. left. by split. }
  apply wp_bind, wp_lift. destruct (require_durable_record_id _ _) as [lid'|e] eqn:Hlid; [|by apply Herr].
  assert (lid' = lid) as ->.
  { unfold require_durable_record_id in Hlid.
    destruct (validate_durable_record_id (JStr lid)) as [x|[]] eqn:Hv; try done. injection Hlid as ->.
    apply validate_ok_inv in Hv as ([= ->]&_). done. }
  apply wp_bind, wp_readonly; [intros; apply readonly_files, readonly_require_migration|].
  intros [[]|e] s0 Hs0; [|by apply Herr].
  apply wp_bind. unfold _recover_pending_transitions_unlocked, wp at 1.
  rewrite reconcile_none by (by rewrite Hs0). cbn [fst snd].
  apply wp_bind, wp_read_lease; rewrite ?Hs0; [|intros previous Hl Hv Hid|intros e; by apply Herr].
  { intros Hnone. apply wp_ret. left. split; [done|]. by intros v [= <-]. }
  subst lid. apply wp_bind, wp_ensure; [intros _|intros _; by apply Herr].
  apply wp_bind, wp_get_job; rewrite ?Hs0; [|intros e; by apply Herr]. intros job Hjob Hvj Hji.
  apply wp_bind, wp_new_lease.
  2:{ intros e s1 Hs1. apply Herr. by rewrite Hs1. }
  intros s1 u now Hs1 _. rewrite Hs0 in Hs1.
  cbn [lease_job_id lease_endpoint_id acquired_at expires_at].
  set (l := mkLease (lease_id previous) (lease_job_id previous) (lease_endpoint_id previous) now
              (now + ttl * 1000000)).
  destruct (Hsz previous job (ticks s0) Hl Hjob) as (Hf1&Hf2&Hf3).
  apply wp_bind, (wp_prepare p); [done|by rewrite Hs1|done| |].
  2:{ intros e s2 Hs2. apply Herr. by rewrite Hs2. }
  intros tr ps sel s2 Hs2 Htr Hc Hauth _. rewrite Hs1 in Hs2, Hauth.
  apply wp_bind. unfold _write_transition_intent_unlocked. apply wp_bind, wp_utc_now.
  intros s3 Hs3 _ _. set (created := clock (ticks s2)). cbn [intent_kind].
  apply wp_bind, wp_write_checked.
  2:{ intros e. apply Herr. congruence. }
  intros s4 Hfi Hs4 _. rewrite Hs3, Hs2 in Hs4. apply wp_ret.
  assert (Hd : renewable (files s) previous l job created tr ps sel).
  { split; try done; [by repeat constructor|by eapply Hcl]. }
  set (c := renewal (files s) previous l job created tr ps).
  assert (Hpend : pending c (files s4)).
  { rewrite Hs4. split_and!.
    - intros q _ Hq. left. change (q <> intent_path "lease_sync" (lease_id l)) in Hq. by apply lookup_insert_ne.
    - unfold c, renewal. cbn [ch_intent ch_body]. by rewrite lookup_insert_eq.
    - eapply authorized_frame; [|exact Hauth]. by apply same_capacity_insert. }
  assert (Hpost : forall r s', (pending c (files s') \/ settled c sel (files s')) ->
            (forall v, r = Ok v -> v = Some l /\ settled c sel (files s')) ->
            renew_post (lease_id previous) ttl p s r s').
  { intros r s' H1 H2. right. exists previous, l, job, created, tr, ps, sel. split_and!; try done.
    intros tok k. rewrite Hc. unfold delta_of. cbn. lia. }
  change (lease_id l) with (lease_id previous).
  apply (runs_wp _ s4 (pending c) (fun v f => v = Some l /\ settled c sel f)).
  - eapply runs_ext; [|eapply (runs_bind (_ ← write_renewed_lease l previous job;
        _ ← _apply_lease_capacity_transition_unlocked (JObj tr) true;
        unlink_durable_path (ch_intent c)) (fun _ => mret (Some l)) s4 (fun _ => settled c sel))].
    + rewrite bind_assoc. apply bind_ext. intros _ s5. by rewrite bind_assoc.
    + by apply (runs_finish_renewal (files s) previous l job created tr ps sel).
    + intros [] s5 Hs5. by apply runs_ret.
  - intros v s5 [-> Hs5]. apply Hpost; [by right|]. by intros v [= <-].
  - intros s5 _ Hs5. by apply Hpost; [left|].
Qed.

(** What is left of store [m] when [previous] has been renewed as [l]. *)
Record renewed (previous l : Lease) (job : RelayJob) (p : LeaseCapacityPair) (m m' : gmap path doc) : Prop := {
  rw_files : forall q, ~ capacity_path q ->
    m' !! q = default (m !! q)
                (renewal_target l (renewed_identity l job) (previous_identity previous job) q);
  rw_capacity : exists p', holds_pair p' m' /\ pair_ok p' /\
    forall tok k, count_of (counts_of p') tok k = count_of (counts_of p) tok k;
}.

End renew.
