(* ===== verification/LeaseLifecycleExamples.v ===== *)
(** * Lease changes on a concrete store: witnesses *)

From S2P Require Import Prelude Json Identifiers Models Store LeaseRecords LeaseRecordsProofs LeaseCapacity.
From S2P Require Import LeaseDocuments LeaseCapacityProofs LeaseExamples LeaseIndexes LeaseTransitions Recovery JournalStages.
From S2P Require Import LeaseReplay LeaseRelease LeaseRenew.
From stdpp Require Import base list gmap strings.
From Stdlib Require Import ZArith Lia.
From Stdlib Require Ascii String.
Open Scope Z_scope.

#[local] Existing Instance reference_world.

(** The other components, with nothing of their own to update. *)
#[local] Program Instance no_derived : JobDerived := {|
  _migrate_execution_cleanup_shard_unlocked _ _ := mret tt;
  _sync_owner_session_job_membership_unlocked _ := mret tt;
  _sync_scheduler_source_unlocked _ _ _ := mret tt;
  _sync_gateway_session_derived_unlocked _ := mret tt;
  derived_families := [];
|}.
Next Obligation. repeat constructor; apply not_elem_of_nil. Qed.
Next Obligation. done. Qed.
Next Obligation. done. Qed.
Next Obligation. done. Qed.
Next Obligation. done. Qed.

(** One lease, its job and its index document beside a capacity pair that counts it. *)
Definition lease_pair : LeaseCapacityPair := pair_of ares_counts 1.
Definition lease_files_disk : gmap path doc :=
  <[_lease_index_path "lease_1" := DLeaseIndex rebuilt_identity]>
  (<[["leases_by_job"; "job_1"; "lease_1.json"] := DLease demo_lease]>
  (<[lease_path "lease_1" := DLease demo_lease]>
  (<[job_path "job_1" := DJob demo_job]> (files (pair_disk lease_pair))))).
Definition lease_disk : disk := mkDisk lease_files_disk (Some 4%nat) 0 0.

Lemma lease_pair_ok : pair_ok lease_pair.
Proof. apply pair_of_ok; [apply ares_counts_ok|apply ares_counts_bounded|lia]. Qed.
Lemma lease_pair_generation : ag_generation (pair_aggregate lease_pair) = 1.
Proof. apply pair_of_generation; [apply ares_counts_ok|apply ares_counts_bounded]. Qed.


Lemma lease_disk_holds : holds_pair lease_pair lease_files_disk.
Proof.
  unfold lease_files_disk, holds_pair.
  do 4 (eapply holds_frame; [by apply same_capacity_insert|]).
  apply pair_disk_holds; [apply lease_pair_ok|]. rewrite lease_pair_generation. by vm_compute.
Qed.

(** The files of [lease_disk] by family; no proof here evaluates a digest. *)
Ltac lease_lookup := unfold lease_files_disk, pair_disk; cbn [files];
  repeat (first [rewrite lookup_insert_eq | rewrite lookup_insert_ne by (intros [=])]).

Lemma lease_disk_quiet : no_intents lease_files_disk.
Proof. intros name. lease_lookup. apply lookup_empty. Qed.
Lemma lease_disk_index : lease_files_disk !! _lease_index_path "lease_1" = Some (DLeaseIndex rebuilt_identity).
Proof. unfold lease_files_disk. apply lookup_insert_eq. Qed.
Lemma lease_disk_jobs jid j : lease_files_disk !! job_path jid = Some (DJob j) -> j = demo_job.
Proof.
  unfold lease_files_disk, pair_disk. cbn [files]. do 3 rewrite lookup_insert_ne by (intros [=]).
  intros [(_&[= <-])|[_ Hj]]%lookup_insert_Some; [done|].
  revert Hj. do 2 rewrite lookup_insert_ne by (intros [=]). by rewrite lookup_empty.
Qed.

Lemma record_limits_positive p : 1024 <= record_max_bytes p.
Proof.
  assert (Hall : Forall (fun kv => 1024 <= kv.2) RECORD_FAMILY_MAX_BYTES) by (repeat constructor; done).
  unfold record_max_bytes. destruct (dict_get _ _) as [n|] eqn:Hn; [|done]. cbn [default].
  rewrite Forall_forall in Hall. apply dict_get_In in Hn. apply (Hall _ Hn).
Qed.

(** ** A release stopped after four durable steps, and a recovery stopped twice *)
Lemma release_atomic_witness :
  exists s', _reconcile_transition_intents_unlocked
      (set_budget None (recover_attempts _reconcile_transition_intents_unlocked [Some 2%nat; Some 5%nat]
                          (release_lease "lease_1" lease_disk).2)) = (Ok tt, s') /\
    (files s' = lease_files_disk \/
     exists l i, lease_files_disk !! lease_path "lease_1" = Some (DLease l) /\
       lease_files_disk !! _lease_index_path "lease_1" = Some (DLeaseIndex i) /\
       released l i lease_pair lease_files_disk (files s')).
Proof.
  destruct (release_atomic "lease_1" lease_pair lease_disk [Some 2%nat; Some 5%nat]) as (s'&Hr&Hs&_).
  - apply lease_disk_quiet.
  - apply lease_pair_ok.
  - apply lease_disk_holds.
  - rewrite lease_pair_generation. by vm_compute.
  - exists s'. split; [exact Hr|exact Hs].
Defined.

Lemma lease_disk_lease previous :
  lease_files_disk !! lease_path "lease_1" = Some (DLease previous) -> previous = demo_lease.
Proof. lease_lookup. by intros [= <-]. Qed.

Lemma lease_disk_ready : renew_ready "lease_1" 60 lease_files_disk.
Proof.
  split; [apply lease_disk_quiet| | |].
  - intros d. rewrite lease_disk_index. intros [= <-]. exists rebuilt_identity. split_and!; [done..|].
    apply Z.leb_le. by vm_compute.
  - intros previous job n ->%lease_disk_lease ->%lease_disk_jobs.
    split_and!; apply Z.leb_le; vm_compute; reflexivity.
  - by intros jid j ->%lease_disk_jobs.
Qed.

