(* ===== verification/OwnerSessions.v ===== *)
(** * Owner sessions ([queue_owner_session_records.py], [queue_owner_session_lifecycle.py])

    An owner session is a sequence of generations.  Three kinds of files say where it
    stands: which generation is active, which one is closing and under what cleanup
    policy, and an immutable closure for each generation that was torn down.  New work
    names its generation and is refused unless that generation is open. *)

From S2P Require Import Prelude Sha256 Json Identifiers Models Store OrderIndex LeaseRecords Decimal.
From stdpp Require Import base list gmap strings.
From Stdlib Require Import ZArith Lia.
From Stdlib Require Ascii String.
Open Scope Z_scope.

(** [datetime.fromisoformat]: whether it accepts a text and, if so, whether the result
    has a time zone; it reads back what [isoformat] printed. *)
Class IsoParser := {
  fromisoformat : string -> option bool;
  fromisoformat_isoformat : forall t, fromisoformat (isoformat t) = Some true;
}.

Definition OWNER_SESSION_CLOSURE_WRITE_ATTEMPTS : nat := 3.

(** ** Identity in the metadata of a record *)

(** [metadata.get(key)]: a missing key and [None] read the same. *)
Definition get_value (key : string) (meta : list (string * json)) : option json :=
  match dict_get key meta with Some JNull => None | v => v end.

Definition _owner_session_identity (meta : list (string * json)) (allow_legacy : bool)
  : result (option (string * option string)) :=
  let generation := get_value "owner_session_generation_id" meta in
  let admission := get_value "owner_session_admission_id" meta in
  match get_value "owner_session_id" meta with
  | None =>
      _ ← raise_unless (bool_decide (generation = None) && bool_decide (admission = None))
            (QueueConflictError "owner_session_generation_id and owner_session_admission_id require ");
      Ok None
  | Some (JStr owner) =>
      _ ← raise_unless (str_nonempty owner) (QueueConflictError "owner_session_id must be a non-empty string");
      _ ← raise_unless (match admission with None => true | Some a => safe_global_record_id a end)
            (QueueConflictError "owner_session_admission_id must be a safe identifier");
      match generation with
      | None =>
          if allow_legacy then Ok (Some (owner, None))
          else Err (QueueConflictError "new owner-session records require owner_session_generation_id")
      | Some (JStr g) =>
          _ ← raise_unless (is_ok (validate_durable_record_id (JStr g)))
                (QueueConflictError "owner_session_generation_id must be a portable durable identifier");
          Ok (Some (owner, Some g))
      | Some _ => Err (QueueConflictError "new owner-session records require owner_session_generation_id")
      end
  | Some _ => Err (QueueConflictError "owner_session_id must be a non-empty string")
  end.

Definition _validate_owner_session_identity_metadata (meta : list (string * json)) (allow_legacy : bool)
  : result unit :=
  _ ← _owner_session_identity meta allow_legacy; Ok tt.
Definition _validate_new_owner_session_metadata (meta : list (string * json)) : result unit :=
  _validate_owner_session_identity_metadata meta false.

(** ** Files *)
Definition session_label (owner : string) : result string := filesystem_key (JStr owner) "owner-session".

Definition closing_path (owner : string) : result path :=
  label ← session_label owner; Ok ["owner_sessions"; label +:+ ".closing.json"].
Definition _owner_session_active_path (owner : string) : result path :=
  label ← session_label owner; Ok ["owner_sessions"; label +:+ ".active.json"].
Definition _owner_session_closed_path (owner : string) (generation : option string) : result path :=
  label ← session_label owner;
  Ok match generation with
     | None => ["owner_sessions"; label +:+ ".closed.json"]
     | Some g => ["owner_sessions"; label +:+ ".closures"; json_name (_stable_ref_token [g])]
     end.
(** The closing record as the intake check looks for it. *)
Definition intake_closing_path (admission : string) : result path :=
  key ← require_durable_record_id (JStr admission) "record_id";
  Ok ["owner_sessions"; key +:+ ".closing.json"].

Definition _owner_session_membership_dir (owner : string) (generation : option string) : path :=
  match generation with
  | None => ["owner_session_legacy_jobs"; _stable_ref_token [owner]]
  | Some g => ["owner_session_jobs"; _stable_ref_token [owner]; _stable_ref_token [g]]
  end.

(** ** Checks of the transition records *)
Definition safe_text (v : option json) : option string :=
  match v with
  | Some (JStr s) => if safe_global_record_id (JStr s) then Some s else None
  | _ => None
  end.

Definition _validate_owner_session_active_record (owner : string) (active : option (list (string * json)))
  : result (option string) :=
  match active with
  | None => Ok None
  | Some d =>
      let previous := get_value "previous_session_generation_id" d in
      match safe_text (dict_get "session_generation_id" d) with
      | Some g =>
          if is_string owner (dict_get "owner_session_id" d) && is_true (dict_get "active" d)
             && match previous with None => true | Some p => safe_global_record_id p end
          then Ok (Some g)
          else Err (QueueConflictError "owner session active record is invalid: ")
      | None => Err (QueueConflictError "owner session active record is invalid: ")
      end
  end.

Definition _validate_owner_session_closing_record (owner : string) (closing : option (list (string * json)))
  : result (option string) :=
  match closing with
  | None => Ok None
  | Some d =>
      match safe_text (dict_get "session_generation_id" d) with
      | Some g =>
          if is_string owner (dict_get "owner_session_id" d) && is_true (dict_get "closing" d)
          then Ok (Some g)
          else Err (QueueConflictError "owner session closing record is invalid: ")
      | None => Err (QueueConflictError "owner session closing record is invalid: ")
      end
  end.

(** [stop_worker], [cancel_jobs] and [cancel_scheduler_jobs]. *)
Record cleanup_policy := mkPolicy { stop_worker : bool; cancel_jobs : bool; cancel_scheduler_jobs : bool }.

#[export] Instance cleanup_policy_eq_dec : EqDecision cleanup_policy.
Proof. solve_decision. Defined.

Definition bool_field (key : string) (d : list (string * json)) : option bool :=
  match dict_get key d with Some (JBool b) => Some b | _ => None end.

Definition intent_policy (d : list (string * json)) : option cleanup_policy :=
  w ← bool_field "stop_worker" d; j ← bool_field "cancel_jobs" d; c ← bool_field "cancel_scheduler_jobs" d;
  Some (mkPolicy w j c).

Definition safe_operation_id (operation : string) : bool :=
  starts_with "cleanup_" operation && safe_global_record_id (JStr operation).

Section validate_intent.
Context `{IsoParser}.

Definition _validate_owner_session_cleanup_intent (owner generation : string) (raw : option json)
    (required : bool) : result (option (list (string * json))) :=
  match raw, required with
  | None, false => Ok None
  | Some (JObj d), _ =>
      let invalid := QueueConflictError "owner session cleanup intent is invalid: " in
      match dict_get "operation_id" d, dict_get "created_at" d, intent_policy d with
      | Some (JStr operation), Some (JStr created), Some p =>
          _ ← raise_unless (is_string "clio-relay.owner-session-cleanup-intent.v1" (dict_get "schema_version" d)
                && is_string owner (dict_get "owner_session_id" d)
                && is_string generation (dict_get "session_generation_id" d)
                && safe_operation_id operation
                && negb (cancel_scheduler_jobs p && negb (cancel_jobs p))) invalid;
          match fromisoformat created with
          | None => Err (QueueConflictError "owner session cleanup intent time is invalid: ")
          | Some false => Err (QueueConflictError "owner session cleanup intent time is naive: ")
          | Some true => Ok (Some d)
          end
      | _, _, _ => Err invalid
      end
  | _, _ => Err (QueueConflictError "owner session cleanup intent is invalid: ")
  end.
End validate_intent.

(** ** Documents *)
Definition JOptStr (v : option string) : json := match v with Some s => JStr s | None => JNull end.

Definition active_document (owner generation : string) (previous : option string) (mirrored : bool) (now : Z)
  : json :=
  JObj ([("owner_session_id", JStr owner); ("session_generation_id", JStr generation);
         ("previous_session_generation_id", JOptStr previous); ("active", JBool true)]
        ++ (if mirrored then [("mirrored_remote_authority", JBool true)] else [])
        ++ [("updated_at", JStr (isoformat now))]).

Definition cleanup_intent_document (operation owner generation : string) (p : cleanup_policy) (now : Z)
  : list (string * json) :=
  [("schema_version", JStr "clio-relay.owner-session-cleanup-intent.v1"); ("operation_id", JStr operation);
   ("owner_session_id", JStr owner); ("session_generation_id", JStr generation);
   ("stop_worker", JBool (stop_worker p)); ("cancel_jobs", JBool (cancel_jobs p));
   ("cancel_scheduler_jobs", JBool (cancel_scheduler_jobs p)); ("created_at", JStr (isoformat now))].

Definition closing_document (owner generation : string) (intent : list (string * json)) (now : Z) : json :=
  JObj [("owner_session_id", JStr owner); ("session_generation_id", JStr generation);
        ("closing", JBool true); ("cleanup_intent", JObj intent); ("updated_at", JStr (isoformat now))].

Definition closure_schema : string := "clio-relay.owner-session-closure.v1".
Definition membership_schema : string := "clio-relay.owner-session-job-membership.v1".

(** [closure.model_copy(update={"closed_at": at})] *)
Definition closed_copy (c : OwnerSessionClosure) (at_ : Z) : OwnerSessionClosure :=
  mkClosure (closure_schema_version c) (closure_owner_session_id c) (closure_generation_id c)
    (covered_by_session_generation_id c) (covered_legacy_job_ids c) (residual_resource_ids c) at_.

Section records.
Context `{World} `{IsoParser}.

Definition nonempty_owner (owner : string) : M disk unit :=
  ensure (str_nonempty owner) (ValueError "owner_session_id must not be empty").
Definition require_generation (g : string) : M disk string :=
  lift (require_durable_record_id (JStr g) "session_generation_id").

Definition _read_owner_session_transition_record (p : path) : M disk (option (list (string * json))) :=
  raw ← read_json_document p;
  match raw with
  | None => mret None
  | Some (JObj d) => mret (Some d)
  | Some _ => raise (QueueConflictError "owner session transition record is invalid: ")
  end.

(** [read_optional(path, OwnerSessionClosure)] *)
Definition read_optional_closure (p : path) : M disk (option OwnerSessionClosure) :=
  d ← read_doc p;
  match d with
  | None => mret None
  | Some (DClosure c) => _ ← ensure (valid_closure c) (ValidationError "OwnerSessionClosure"); mret (Some c)
  | Some _ => raise (ValidationError "OwnerSessionClosure")
  end.

Definition read_active (owner : string) : M disk (option (list (string * json))) :=
  p ← lift (_owner_session_active_path owner); _read_owner_session_transition_record p.
Definition read_closing (owner : string) : M disk (option (list (string * json))) :=
  p ← lift (closing_path owner); _read_owner_session_transition_record p.

Definition _owner_session_active_generation (owner : string) : M disk (option string) :=
  active ← read_active owner; lift (_validate_owner_session_active_record owner active).

Definition get_owner_session_closed (owner : string) (generation : option string)
  : M disk (option OwnerSessionClosure) :=
  _ ← nonempty_owner owner;
  generation ← match generation with
               | Some g => g ← require_generation g; mret (Some g)
               | None => mret None
               end;
  p ← lift (_owner_session_closed_path owner generation);
  closure ← read_optional_closure p;
  match closure with
  | None => mret None
  | Some c =>
      _ ← ensure (bool_decide (closure_owner_session_id c = owner) &&
                  bool_decide (closure_generation_id c = generation))
            (QueueConflictError "owner session closure identity mismatch: ");
      mret (Some c)
  end.

(** [closure is None or closure.residual_resource_ids], negated. *)
Definition safely_closed (closure : option OwnerSessionClosure) : bool :=
  match closure with Some c => bool_decide (residual_resource_ids c = []) | None => false end.

(** ** Starting a generation *)

(** The checks for a session that already has an active generation. *)
Definition resume_generation (owner : string) (recorded : option string) (active : list (string * json))
    (generation : string) (closing : option string) : M disk string :=
  let previous := get_value "previous_session_generation_id" active in
  let recorded_is g := bool_decide (recorded = None) || bool_decide (recorded = Some g) in
  match closing with
  | Some c =>
      closure ← get_owner_session_closed owner (Some c);
      _ ← ensure (is_string c previous && recorded_is c && safely_closed closure)
            (QueueConflictError "owner session has an unfinished generation transition: ");
      p ← lift (closing_path owner);
      _ ← unlink_durable_path p;
      mret generation
  | None =>
      if recorded_is generation then mret generation
      else
        closure ← match previous with
                  | Some (JStr q) => get_owner_session_closed owner (Some q)
                  | _ => mret None
                  end;
        _ ← ensure (match recorded with Some r => is_string r previous | None => false end
                    && safely_closed closure)
              (QueueConflictError "recorded owner session generation does not match active core state: ");
        mret generation
  end.

(** A session with no active generation starts the candidate. *)
Definition start_generation (owner : string) (recorded : option string) (candidate : string)
    (closing : option string) : M disk string :=
  _ ← match closing with
      | Some c =>
          _ ← ensure (bool_decide (recorded = Some c))
                (QueueConflictError "recorded owner session generation does not match closure state: ");
          closure ← get_owner_session_closed owner (Some c);
          _ ← ensure (safely_closed closure)
                (QueueConflictError "owner session generation is not safely closed: ");
          ensure (negb (bool_decide (candidate = c)))
            (QueueConflictError "new owner session generation must differ from the closed generation: ")
      | None =>
          ensure (bool_decide (recorded = None))
            (QueueConflictError "recorded owner session generation has no core state: ")
      end;
  now ← utc_now;
  p ← lift (_owner_session_active_path owner);
  _ ← write_doc p (DJson (active_document owner candidate closing false now));
  _ ← match closing with
      | Some _ => q ← lift (closing_path owner); unlink_durable_path q
      | None => mret tt
      end;
  mret candidate.

Definition prepare_owner_session_start (owner : string) (recorded : option string) (candidate : string)
  : M disk string :=
  _ ← nonempty_owner owner;
  recorded ← match recorded with
             | Some r => r ← lift (require_durable_record_id (JStr r) "recorded_generation_id"); mret (Some r)
             | None => mret None
             end;
  candidate ← lift (require_durable_record_id (JStr candidate) "candidate_generation_id");
  active ← read_active owner;
  closing ← read_closing owner;
  active_generation ← lift (_validate_owner_session_active_record owner active);
  closing_generation ← lift (_validate_owner_session_closing_record owner closing);
  match active_generation with
  | Some g => resume_generation owner recorded (default [] active) g closing_generation
  | None => start_generation owner recorded candidate closing_generation
  end.

Definition clear_owner_session_closing (owner generation : string) : M disk unit :=
  _ ← nonempty_owner owner;
  generation ← require_generation generation;
  closing ← read_closing owner;
  _ ← ensure (bool_decide (closing = None))
        (QueueConflictError "owner session closing state cannot be cleared by resume: ");
  active ← _owner_session_active_generation owner;
  ensure (bool_decide (active = Some generation))
    (QueueConflictError "owner session active generation does not match resume: ").

Definition reopen_owner_session (owner previous generation : string) : M disk unit :=
  _ ← nonempty_owner owner;
  previous ← lift (require_durable_record_id (JStr previous) "previous_session_generation_id");
  generation ← require_generation generation;
  selected ← prepare_owner_session_start owner (Some previous) generation;
  ensure (bool_decide (selected = generation))
    (QueueConflictError "owner session reopen selected an existing generation: ").

(** ** Closing a generation *)

(** [_write_immutable_owner_session_closure_unlocked]; a write that returned is found. *)
Fixpoint write_closure (attempts : nat) (p : path) (closure : OwnerSessionClosure)
  : M disk OwnerSessionClosure :=
  match attempts with
  | O => raise (AssertionError "owner session closure retry loop exhausted without an outcome")
  | S attempts' =>
      let unchanged c := ensure (bool_decide (c = closed_copy closure (closed_at c)))
                           (QueueConflictError "owner session closure history changed: ") in
      existing ← read_optional_closure p;
      match existing with
      | Some c => _ ← unchanged c; mret c
      | None =>
          _ ← write_doc p (DClosure closure);
          persisted ← read_optional_closure p;
          match persisted with
          | Some c => _ ← unchanged c; mret c
          | None =>
              match attempts' with
              | O => raise (QueueConflictError "owner session closure did not remain durable: ")
              | S _ => write_closure attempts' p closure
              end
          end
      end
  end.

Definition _write_immutable_owner_session_closure_unlocked :
  path -> OwnerSessionClosure -> M disk OwnerSessionClosure :=
  write_closure OWNER_SESSION_CLOSURE_WRITE_ATTEMPTS.

(** [except (FileNotFoundError, OSError, QueueConflictError)] around the read. *)
Definition catch_unreadable {A : Type} (m : M disk (option A)) : M disk (option A) := fun s =>
  match m s with
  | (Err (QueueConflictError _), s') | (Err (OSError _), s') => (Ok None, s')
  | r => r
  end.

Definition check_legacy_job (owner jid : string) : M disk unit :=
  job ← read_required_job jid;
  ensure (is_string owner (dict_get "owner_session_id" (metadata job)) &&
          bool_decide (get_value "owner_session_generation_id" (metadata job) = None))
    (QueueConflictError "legacy owner-session coverage identity mismatch: ").

(** The arguments of [set_owner_session_closed]. *)
Definition check_closed_arguments (residual legacy : list string) : M disk unit :=
  _ ← ensure (bool_decide (legacy = sorted_set legacy))
        (ValueError "legacy_unversioned_job_ids must be unique and sorted");
  _ ← ensure (length legacy <=? 1000)%nat (ValueError "legacy_unversioned_job_ids cannot exceed 1000 entries");
  _ ← ensure (forallb (fun jid => safe_global_record_id (JStr jid)) legacy)
        (ValueError "legacy_unversioned_job_ids contains an unsafe job id");
  ensure (bool_decide (legacy = []) || bool_decide (residual = []))
    (QueueConflictError "legacy jobs cannot be covered while owner-session resources remain").

(** The checks on the closing record, which must name the generation. *)
Definition check_closing_proof (owner generation : string) (raw : option json) : M disk unit :=
  match raw with
  | Some (JObj d) =>
      let g := get_value "session_generation_id" d in
      _ ← ensure (is_string owner (dict_get "owner_session_id" d) && is_true (dict_get "closing" d)
                  && match g with None | Some (JStr _) => true | _ => false end)
            (QueueConflictError "owner session closing proof is invalid: ");
      ensure (is_string generation g) (QueueConflictError "owner session generation changed before closure: ")
  | _ => raise (QueueConflictError "owner session must be closing before it can be closed: ")
  end.

(** The closure that covers the jobs submitted before generations existed. *)
Definition cover_legacy_jobs (owner generation : string) (legacy : list string) : M disk unit :=
  match legacy with
  | [] => mret tt
  | _ =>
      at_ ← utc_now;
      let covered := mkClosure closure_schema owner None (Some generation) legacy [] at_ in
      _ ← ensure (valid_closure covered) (ValidationError "OwnerSessionClosure");
      p ← lift (_owner_session_closed_path owner None);
      _ ← _write_immutable_owner_session_closure_unlocked p covered; mret tt
  end.

(** The closure is written once, then the generation stops being active. *)
Definition settle_closure (owner generation : string) (legacy : list string) (closure : OwnerSessionClosure)
    (p q : path) (active : option string) (existing : option OwnerSessionClosure) : M disk OwnerSessionClosure :=
  _ ← ensure (bool_decide (active = Some generation) ||
              (bool_decide (active = None) && negb (bool_decide (existing = None))))
        (QueueConflictError "owner session active generation does not match closure: ");
  written ← _write_immutable_owner_session_closure_unlocked p closure;
  _ ← cover_legacy_jobs owner generation legacy;
  ap ← lift (_owner_session_active_path owner);
  _ ← unlink_durable_path ap;
  present ← path_exists q;
  _ ← ensure present (QueueConflictError "owner session closing proof disappeared: ");
  mret written.

Definition set_owner_session_closed (owner generation : string) (residual legacy : option (list string))
  : M disk OwnerSessionClosure :=
  _ ← nonempty_owner owner;
  generation ← require_generation generation;
  let legacy := default [] legacy in
  let residual := default [] residual in
  _ ← check_closed_arguments residual legacy;
  q ← lift (closing_path owner);
  raw ← catch_unreadable (read_json_document q);
  _ ← check_closing_proof owner generation raw;
  now ← utc_now;
  let closure := mkClosure closure_schema owner (Some generation) None [] residual now in
  _ ← ensure (valid_closure closure) (ValidationError "OwnerSessionClosure");
  _ ← for_each (check_legacy_job owner) legacy;
  p ← lift (_owner_session_closed_path owner (Some generation));
  active ← _owner_session_active_generation owner;
  existing ← read_optional_closure p;
  settle_closure owner generation legacy closure p q active existing.

(** Whether the request repeats one whose generation was closed with nothing left. *)
Definition closing_retry (owner generation : string) (active existing : option string) : M disk bool :=
  if bool_decide (active = Some generation) then mret false
  else
    p ← lift (_owner_session_closed_path owner (Some generation));
    closure ← read_optional_closure p;
    _ ← ensure (bool_decide (active = None) && bool_decide (existing = Some generation)
                && match closure with
                   | Some c => bool_decide (closure_owner_session_id c = owner) &&
                               bool_decide (closure_generation_id c = Some generation) &&
                               bool_decide (residual_resource_ids c = [])
                   | None => false
                   end)
          (QueueConflictError "owner session active generation does not match closing request: ");
    mret true.

(** The recorded cleanup intent, or a new one. *)
Definition settle_cleanup_intent (owner generation : string) (operation : option string)
    (policy : cleanup_policy) (closing : option (list (string * json))) (retry : bool)
  : M disk (list (string * json)) :=
  _ ← ensure (match closing with
              | Some d => is_string owner (dict_get "owner_session_id" d) && is_true (dict_get "closing" d)
                          && is_string generation (dict_get "session_generation_id" d)
              | None => true
              end)
        (QueueConflictError "owner session generation changed before quiescence: ");
  existing ← lift (_validate_owner_session_cleanup_intent owner generation
                     (match closing with Some d => get_value "cleanup_intent" d | None => None end) false);
  match existing with
  | Some d =>
      _ ← ensure (bool_decide (intent_policy d = Some policy))
            (QueueConflictError "owner session cleanup policy changed during retry: ");
      _ ← ensure (match operation with None => true | Some o => is_string o (dict_get "operation_id" d) end)
            (QueueConflictError "owner session cleanup operation changed during retry: ");
      mret d
  | None =>
      _ ← ensure (negb retry) (QueueConflictError "closed owner session has no durable cleanup policy for retry: ");
      operation ← match operation with
                  | Some o => mret o
                  | None => token ← uuid4_hex; mret ("cleanup_" +:+ token)
                  end;
      created ← utc_now;
      let intent := cleanup_intent_document operation owner generation policy created in
      now ← utc_now;
      q ← lift (closing_path owner);
      _ ← write_doc q (DJson (closing_document owner generation intent now));
      mret intent
  end.

Definition set_owner_session_closing (owner generation : string) (operation : option string)
    (policy : cleanup_policy) : M disk (list (string * json)) :=
  _ ← nonempty_owner owner;
  generation ← require_generation generation;
  _ ← ensure (match operation with None => true | Some o => safe_operation_id o end)
        (ValueError "operation_id must be a safe cleanup_ identifier");
  _ ← ensure (negb (cancel_scheduler_jobs policy && negb (cancel_jobs policy)))
        (ValueError "cancel_scheduler_jobs requires cancel_jobs");
  closing ← read_closing owner;
  existing_generation ← lift (_validate_owner_session_closing_record owner closing);
  active ← _owner_session_active_generation owner;
  retry ← closing_retry owner generation active existing_generation;
  settle_cleanup_intent owner generation operation policy closing retry.

Definition get_owner_session_cleanup_intent (owner generation : string) : M disk (option (list (string * json))) :=
  _ ← nonempty_owner owner;
  generation ← require_generation generation;
  closing ← read_closing owner;
  closing_generation ← lift (_validate_owner_session_closing_record owner closing);
  match closing_generation with
  | None => mret None
  | Some c =>
      _ ← ensure (bool_decide (c = generation))
            (QueueConflictError "owner session closing generation does not match request: ");
      lift (_validate_owner_session_cleanup_intent owner generation
              (match closing with Some d => get_value "cleanup_intent" d | None => None end) true)
  end.

(** ** Mirroring a generation of another queue *)
Definition admission_status (owner generation : string) (active closing : option string)
    (is_active is_closing closed open : bool) (intent closure : json) : list (string * json) :=
  [("schema_version", JStr "clio-relay.owner-session-admission-status.v1"); ("owner_session_id", JStr owner);
   ("session_generation_id", JStr generation); ("active_generation_id", JOptStr active);
   ("closing_generation_id", JOptStr closing); ("active", JBool is_active); ("closing", JBool is_closing);
   ("closed", JBool closed); ("open", JBool open); ("cleanup_intent", intent); ("closure", closure)].

Definition mirror_generation (owner generation : string) (active_generation closing_generation : option string)
  : M disk (list (string * json)) :=
  _ ← ensure (bool_decide (active_generation = None) || bool_decide (active_generation = Some generation))
        (QueueConflictError "owner session active generation does not match remote mirror: ");
  _ ← match closing_generation with
      | Some c =>
          closure ← get_owner_session_closed owner (Some c);
          _ ← ensure (negb (bool_decide (c = generation)) && safely_closed closure)
                (QueueConflictError "owner session has unfinished local cleanup and rejects remote mirror: ");
          q ← lift (closing_path owner);
          unlink_durable_path q
      | None => mret tt
      end;
  closure ← get_owner_session_closed owner (Some generation);
  _ ← ensure (bool_decide (closure = None)) (QueueConflictError "owner session generation is already closed: ");
  _ ← match active_generation with
      | None =>
          now ← utc_now;
          p ← lift (_owner_session_active_path owner);
          write_doc p (DJson (active_document owner generation closing_generation true now))
      | Some _ => mret tt
      end;
  mret (admission_status owner generation (Some generation) None true false false true JNull JNull).

Definition mirror_owner_session_generation_open (owner generation : string) : M disk (list (string * json)) :=
  _ ← nonempty_owner owner;
  generation ← require_generation generation;
  active ← read_active owner;
  closing ← read_closing owner;
  active_generation ← lift (_validate_owner_session_active_record owner active);
  closing_generation ← lift (_validate_owner_session_closing_record owner closing);
  mirror_generation owner generation active_generation closing_generation.

(** ** Status *)

(** [closure.model_dump(mode="json")]; pydantic writes a UTC time with a [Z]. *)
Definition pydantic_time (t : Z) : string :=
  let text := isoformat t in take_str (String.length text - 6) text +:+ "Z".
Definition closure_dump (c : OwnerSessionClosure) : json :=
  JObj [("schema_version", JStr (closure_schema_version c));
        ("owner_session_id", JStr (closure_owner_session_id c));
        ("session_generation_id", JOptStr (closure_generation_id c));
        ("covered_by_session_generation_id", JOptStr (covered_by_session_generation_id c));
        ("covered_legacy_job_ids", JList (JStr <$> covered_legacy_job_ids c));
        ("residual_resource_ids", JList (JStr <$> residual_resource_ids c));
        ("closed_at", JStr (pydantic_time (closed_at c)))].

Definition owner_session_generation_status (owner generation : string) : M disk (list (string * json)) :=
  _ ← nonempty_owner owner;
  generation ← require_generation generation;
  active ← _owner_session_active_generation owner;
  closing ← read_closing owner;
  closing_generation ← lift (_validate_owner_session_closing_record owner closing);
  intent ← if bool_decide (closing_generation = Some generation) then
             lift (_validate_owner_session_cleanup_intent owner generation
                     (match closing with Some d => get_value "cleanup_intent" d | None => None end) true)
           else mret None;
  closure ← get_owner_session_closed owner (Some generation);
  let is_active := bool_decide (active = Some generation) in
  let closed := negb (bool_decide (closure = None)) in
  mret (admission_status owner generation active closing_generation is_active
          (bool_decide (closing_generation = Some generation)) closed
          (is_active && bool_decide (closing_generation = None) && negb closed)
          (match intent with Some d => JObj d | None => JNull end)
          (match closure with Some c => closure_dump c | None => JNull end)).

Definition owner_session_is_closing (owner : string) : M disk bool :=
  _ ← nonempty_owner owner;
  p ← lift (closing_path owner);
  raw ← catch_unreadable (read_json_document p);
  mret (match raw with
        | Some (JObj d) => is_string owner (dict_get "owner_session_id" d) && is_true (dict_get "closing" d)
        | _ => false
        end).

(** ** Intake *)

(** [metadata.get("owner_session_admission_id", owner_session_id)] *)
Definition admission_session (owner : string) (meta : list (string * json)) : result string :=
  match dict_get "owner_session_admission_id" meta with
  | None =>
      if safe_global_record_id (JStr owner) then Ok owner
      else Err (QueueConflictError "owner_session_admission_id must be a safe identifier")
  | Some v =>
      match safe_text (Some v) with
      | Some a => Ok a
      | None => Err (QueueConflictError "owner_session_admission_id must be a safe identifier")
      end
  end.

Definition _assert_owner_session_intake_open_unlocked (meta : list (string * json)) (require_active : bool)
  : M disk unit :=
  identity ← lift (_owner_session_identity meta false);
  match identity with
  | None => mret tt
  | Some (owner, generation) =>
      admission ← lift (admission_session owner meta);
      p ← lift (intake_closing_path admission);
      closing ← _read_owner_session_transition_record p;
      closing_generation ← lift (_validate_owner_session_closing_record admission closing);
      _ ← ensure (bool_decide (closing_generation = None))
            (QueueConflictError "owner session generation is closing and rejects new work: ");
      active ← _owner_session_active_generation admission;
      _ ← ensure (negb (require_active && bool_decide (active = None)))
            (QueueConflictError "owner session generation has no active admission state: ");
      _ ← ensure (bool_decide (active = None) || bool_decide (active = generation))
            (QueueConflictError "owner session generation does not match active intake: ");
      closure ← get_owner_session_closed admission generation;
      ensure (bool_decide (closure = None)) (QueueConflictError "owner session generation is already closed: ")
  end.

(** ** Membership *)

(** [bounded_regular_json_count] *)
Fixpoint count_json (entries : list (path * doc)) (limit count : Z) : result (Z * bool) :=
  match entries with
  | [] => Ok (count, false)
  | e :: rest =>
      if negb (ends_with ".json" (default "" (last e.1))) then
        Err (QueueConflictError "contains an unsafe record: ")
      else if limit <? count + 1 then Ok (limit, true)
      else count_json rest limit (count + 1)
  end.
Definition bounded_regular_json_count (directory : path) (limit : Z) : M disk (Z * bool) :=
  entries ← scandir directory;
  lift (count_json entries limit 0).

Definition job_membership (job : RelayJob) (owner : string) (generation : option string)
  : OwnerSessionJobMembership :=
  mkMembership membership_schema owner generation (job_id job) (job_cluster job) (job_state job)
    (job_created_at job) (job_updated_at job).

Definition membership_path (owner : string) (generation : option string) (jid : string) : path :=
  _owner_session_membership_dir owner generation ++ [json_name (_stable_ref_token [jid])].

Definition sync_owner_session_job_membership (job : RelayJob) : M disk unit :=
  identity ← lift (_owner_session_identity (metadata job) true);
  match identity with
  | None => mret tt
  | Some (owner, generation) =>
      let membership := job_membership job owner generation in
      _ ← ensure (valid_membership membership) (ValidationError "OwnerSessionJobMembership");
      let target := membership_path owner generation (job_id job) in
      present ← path_exists target;
      _ ← if (present : bool) then mret tt
          else
            counted ← bounded_regular_json_count (_owner_session_membership_dir owner generation)
                        MAX_ACTIVE_JOB_RECORDS;
            ensure (negb (counted.2 || (MAX_ACTIVE_JOB_RECORDS <=? counted.1)))
              (QueueConflictError "owner_session_job_capacity_reached: owner-session generation job ");
      write_doc target (DMembership membership)
  end.
End records.
