(* ===== verification/OwnerSessionsProofs.v ===== *)
(** * Owner sessions hand over safely

    Every operation, stopped at any durable step or not, is a sequence of six guarded
    changes of the session files.  Over any such sequence a generation that was once
    active stays accounted for until it is durably closed with nothing left behind, a
    closing generation never takes work again, and a closure is final. *)

From S2P Require Import Prelude Sha256 Json Identifiers Models Store OrderIndex OrderIndexProofs.
From S2P Require Import LeaseRecords Decimal OwnerSessions.
From stdpp Require Import base list gmap strings relations.
From Stdlib Require Import ZArith Lia.
From Stdlib Require Ascii String.
Open Scope Z_scope.

(** ** What the files say *)
Definition reads_active (m : gmap path doc) (owner g : string) : Prop :=
  exists p d, _owner_session_active_path owner = Ok p /\ m !! p = Some (DJson (JObj d)) /\
    _validate_owner_session_active_record owner (Some d) = Ok (Some g).
Definition no_active (m : gmap path doc) (owner : string) : Prop :=
  exists p, _owner_session_active_path owner = Ok p /\ m !! p = None.

Definition reads_closing (m : gmap path doc) (owner g : string) : Prop :=
  exists p d, closing_path owner = Ok p /\ m !! p = Some (DJson (JObj d)) /\
    _validate_owner_session_closing_record owner (Some d) = Ok (Some g).
Definition no_closing (m : gmap path doc) (owner : string) : Prop :=
  exists p, closing_path owner = Ok p /\ m !! p = None.

Definition closure_of (m : gmap path doc) (owner g : string) (c : OwnerSessionClosure) : Prop :=
  exists p, _owner_session_closed_path owner (Some g) = Ok p /\ m !! p = Some (DClosure c) /\
    closure_owner_session_id c = owner /\ closure_generation_id c = Some g.
Definition closed_clean (m : gmap path doc) (owner g : string) : Prop :=
  exists c, closure_of m owner g c /\ residual_resource_ids c = [].

(** The closing record and the cleanup intent it fixes, if any. *)
Definition closing_with (m : gmap path doc) (owner g : string) (intent : option json) : Prop :=
  exists p d, closing_path owner = Ok p /\ m !! p = Some (DJson (JObj d)) /\
    _validate_owner_session_closing_record owner (Some d) = Ok (Some g) /\ get_value "cleanup_intent" d = intent.

(** ** The changes *)
Inductive session_step (m : gmap path doc) : gmap path doc -> Prop :=
  | step_start owner g previous mirrored now p :
      _owner_session_active_path owner = Ok p -> m !! p = None ->
      no_closing m owner \/ (exists c, reads_closing m owner c /\ closed_clean m owner c /\ g <> c) ->
      session_step m (<[p := DJson (active_document owner g previous mirrored now)]> m)
  | step_forget owner g q :
      closing_path owner = Ok q -> reads_closing m owner g -> closed_clean m owner g ->
      session_step m (delete q m)
  | step_close owner g intent now q :
      closing_path owner = Ok q -> safe_global_record_id (JStr g) = true ->
      reads_active m owner g -> no_closing m owner \/ closing_with m owner g None ->
      session_step m (<[q := DJson (closing_document owner g intent now)]> m)
  | step_record owner g c p :
      _owner_session_closed_path owner (Some g) = Ok p -> m !! p = None ->
      closure_owner_session_id c = owner -> closure_generation_id c = Some g ->
      reads_closing m owner g -> reads_active m owner g ->
      session_step m (<[p := DClosure c]> m)
  | step_cover owner c p :
      _owner_session_closed_path owner None = Ok p -> m !! p = None -> closure_generation_id c = None ->
      session_step m (<[p := DClosure c]> m)
  | step_retire owner g c p :
      _owner_session_active_path owner = Ok p -> reads_active m owner g \/ m !! p = None ->
      reads_closing m owner g -> closure_of m owner g c ->
      session_step m (delete p m).

Abbreviation session_steps := (rtc session_step).

(** ** Paths *)
Lemma suffix_eq (a b s t : string) : String.length s = String.length t -> a +:+ s = b +:+ t -> s = t.
Proof.
  revert b. induction a as [|x a IH]; intros [|y b] Hl Heq; [done| | |].
  - apply (f_equal String.length) in Heq. cbn in Heq.
    rewrite !string_length_app in Heq. cbn in Heq. lia.
  - apply (f_equal String.length) in Heq. cbn in Heq.
    rewrite !string_length_app in Heq. cbn in Heq. lia.
  - rewrite !append_cons in Heq. injection Heq as _ Heq. by apply (IH b).
Qed.

(** Two names whose last six characters differ. *)
Lemma tail_ne a b s s' t t' :
  String.length t = String.length t' -> t <> t' -> a +:+ (s +:+ t) <> b +:+ (s' +:+ t').
Proof. intros Hl Hne Heq. rewrite <- !append_assoc_str in Heq. by apply suffix_eq in Heq. Qed.

Lemma active_inv owner p :
  _owner_session_active_path owner = Ok p ->
  exists l, session_label owner = Ok l /\ p = ["owner_sessions"; l +:+ ".active.json"].
Proof. intros (l&Hl&[= <-])%bind_ok. eauto. Qed.
Lemma closing_inv owner p :
  closing_path owner = Ok p ->
  exists l, session_label owner = Ok l /\ p = ["owner_sessions"; l +:+ ".closing.json"].
Proof. intros (l&Hl&[= <-])%bind_ok. eauto. Qed.
Lemma covered_inv owner p :
  _owner_session_closed_path owner None = Ok p ->
  exists l, session_label owner = Ok l /\ p = ["owner_sessions"; l +:+ ".closed.json"].
Proof. intros (l&Hl&[= <-])%bind_ok. eauto. Qed.
Lemma closed_inv owner g p :
  _owner_session_closed_path owner (Some g) = Ok p -> exists a b, p = ["owner_sessions"; a; b].
Proof. intros (l&Hl&[= <-])%bind_ok. eauto. Qed.

Lemma active_closing o o' p q : _owner_session_active_path o = Ok p -> closing_path o' = Ok q -> p <> q.
Proof.
  intros (l&_&->)%active_inv (l'&_&->)%closing_inv [= Heq]. revert Heq. by apply (tail_ne l l' ".activ" ".closin").
Qed.
Lemma active_covered o o' p q :
  _owner_session_active_path o = Ok p -> _owner_session_closed_path o' None = Ok q -> p <> q.
Proof.
  intros (l&_&->)%active_inv (l'&_&->)%covered_inv [= Heq]. revert Heq. by apply (tail_ne l l' ".activ" ".close").
Qed.
Lemma closing_covered o o' p q :
  closing_path o = Ok p -> _owner_session_closed_path o' None = Ok q -> p <> q.
Proof.
  intros (l&_&->)%closing_inv (l'&_&->)%covered_inv [= Heq]. revert Heq. by apply (tail_ne l l' ".closin" ".close").
Qed.
Lemma active_closed o o' g p q :
  _owner_session_active_path o = Ok p -> _owner_session_closed_path o' (Some g) = Ok q -> p <> q.
Proof. by intros (l&_&->)%active_inv (a&b&->)%closed_inv. Qed.
Lemma closing_closed o o' g p q :
  closing_path o = Ok p -> _owner_session_closed_path o' (Some g) = Ok q -> p <> q.
Proof. by intros (l&_&->)%closing_inv (a&b&->)%closed_inv. Qed.
Lemma covered_closed o o' g p q :
  _owner_session_closed_path o None = Ok p -> _owner_session_closed_path o' (Some g) = Ok q -> p <> q.
Proof. by intros (l&_&->)%covered_inv (a&b&->)%closed_inv. Qed.

(** Sessions that share a label share both of their transition files. *)
Lemma same_active_same_closing o o' p q q' :
  _owner_session_active_path o = Ok p -> _owner_session_active_path o' = Ok p ->
  closing_path o = Ok q -> closing_path o' = Ok q' -> q = q'.
Proof.
  intros (l&Hl&->)%active_inv (l'&Hl'&[= Heq])%active_inv (k&Hk&->)%closing_inv (k'&Hk'&->)%closing_inv.
  apply app_inj_str in Heq. congruence.
Qed.

(** ** A record names its session *)
Lemma is_string_inj a b v : is_string a v = true -> is_string b v = true -> a = b.
Proof. destruct v as [[]|]; try done. cbn. intros ->%bool_decide_eq_true ->%bool_decide_eq_true. done. Qed.

Lemma validate_active_inv owner d g :
  _validate_owner_session_active_record owner (Some d) = Ok (Some g) ->
  is_string owner (dict_get "owner_session_id" d) = true /\ safe_text (dict_get "session_generation_id" d) = Some g.
Proof.
  cbn. destruct (safe_text _) as [x|]; [|done]. destruct (_ && _ && _) eqn:Hc; [|done]. intros [= ->].
  apply andb_true_iff in Hc as [Hc _]. by apply andb_true_iff in Hc as [-> _].
Qed.
Lemma validate_closing_inv owner d g :
  _validate_owner_session_closing_record owner (Some d) = Ok (Some g) ->
  is_string owner (dict_get "owner_session_id" d) = true /\ safe_text (dict_get "session_generation_id" d) = Some g.
Proof.
  cbn. destruct (safe_text _) as [x|]; [|done]. destruct (_ && _) eqn:Hc; [|done]. intros [= ->].
  by apply andb_true_iff in Hc as [-> _].
Qed.

(** A record that is there is refused or names a generation. *)
Lemma validate_active_some owner d :
  (exists g, _validate_owner_session_active_record owner (Some d) = Ok (Some g)) \/
  exists e, _validate_owner_session_active_record owner (Some d) = Err e.
Proof. cbn. destruct (safe_text _); [|eauto]. destruct (_ && _ && _); eauto. Qed.
Lemma validate_closing_some owner d :
  (exists g, _validate_owner_session_closing_record owner (Some d) = Ok (Some g)) \/
  exists e, _validate_owner_session_closing_record owner (Some d) = Err e.
Proof. cbn. destruct (safe_text _); [|eauto]. destruct (_ && _); eauto. Qed.

Lemma active_unique m o o' g g' p :
  _owner_session_active_path o = Ok p -> _owner_session_active_path o' = Ok p ->
  reads_active m o g -> reads_active m o' g' -> o = o' /\ g = g'.
Proof.
  intros Hp Hp' (p1&d&Hp1&Hd&Hv) (p2&d'&Hp2&Hd'&Hv').
  rewrite Hp in Hp1. rewrite Hp' in Hp2. injection Hp1 as <-. injection Hp2 as <-. rewrite Hd in Hd'. injection Hd' as <-.
  apply validate_active_inv in Hv as [Ho Hg], Hv' as [Ho' Hg']. split; [by eapply is_string_inj|congruence].
Qed.
Lemma closing_unique m o o' g g' q :
  closing_path o = Ok q -> closing_path o' = Ok q ->
  reads_closing m o g -> reads_closing m o' g' -> o = o' /\ g = g'.
Proof.
  intros Hp Hp' (p1&d&Hp1&Hd&Hv) (p2&d'&Hp2&Hd'&Hv').
  rewrite Hp in Hp1. rewrite Hp' in Hp2. injection Hp1 as <-. injection Hp2 as <-. rewrite Hd in Hd'. injection Hd' as <-.
  apply validate_closing_inv in Hv as [Ho Hg], Hv' as [Ho' Hg']. split; [by eapply is_string_inj|congruence].
Qed.

Lemma closing_with_reads m o g i : closing_with m o g i -> reads_closing m o g.
Proof. intros (p&d&?&?&?&_). by exists p, d. Qed.

Lemma closing_document_with m owner g intent now q :
  closing_path owner = Ok q -> safe_global_record_id (JStr g) = true ->
  closing_with (<[q := DJson (closing_document owner g intent now)]> m) owner g (Some (JObj intent)).
Proof.
  intros Hq Hg. exists q. eexists. split; [done|]. split; [apply lookup_insert_eq|].
  assert (Hs : safe_text (Some (JStr g)) = Some g) by (unfold safe_text; by rewrite Hg).
  unfold _validate_owner_session_closing_record, closing_document.
  change (dict_get "session_generation_id" _) with (Some (JStr g)). rewrite Hs.
  change (dict_get "owner_session_id" _) with (Some (JStr owner)).
  change (dict_get "closing" _) with (Some (JBool true)). cbn [is_string is_true]. by rewrite bool_decide_true.
Qed.

Lemma closing_document_reads m owner g intent now q :
  closing_path owner = Ok q -> safe_global_record_id (JStr g) = true ->
  reads_closing (<[q := DJson (closing_document owner g intent now)]> m) owner g.
Proof. intros Hq Hg. by eapply closing_with_reads, closing_document_with. Qed.

(** ** What a change leaves alone *)

(** [m'] agrees with [m] on the file a fact is about. *)
Definition keeps (m m' : gmap path doc) (p : path) : Prop := m' !! p = m !! p.

Lemma keeps_insert (m : gmap path doc) p q d : p <> q -> keeps m (<[q := d]> m) p.
Proof. intros Hne. unfold keeps. by apply lookup_insert_ne. Qed.
Lemma keeps_fresh (m : gmap path doc) p q d : m !! q = None -> is_Some (m !! p) -> keeps m (<[q := d]> m) p.
Proof. intros Hq [x Hp]. apply keeps_insert. congruence. Qed.
Lemma keeps_delete (m : gmap path doc) p q : p <> q -> keeps m (delete q m) p.
Proof. intros Hne. unfold keeps. by apply lookup_delete_ne. Qed.

Lemma active_kept m m' o g :
  reads_active m o g -> (forall p, _owner_session_active_path o = Ok p -> keeps m m' p) -> reads_active m' o g.
Proof. intros (p&d&Hp&Hd&Hv) Hk. exists p, d. split; [done|]. by rewrite (Hk p Hp). Qed.
Lemma no_active_kept m m' o :
  no_active m o -> (forall p, _owner_session_active_path o = Ok p -> keeps m m' p) -> no_active m' o.
Proof. intros (p&Hp&Hd) Hk. exists p. split; [done|]. by rewrite (Hk p Hp). Qed.
Lemma closing_kept m m' o g :
  reads_closing m o g -> (forall p, closing_path o = Ok p -> keeps m m' p) -> reads_closing m' o g.
Proof. intros (p&d&Hp&Hd&Hv) Hk. exists p, d. split; [done|]. by rewrite (Hk p Hp). Qed.
Lemma closure_kept m m' o g c :
  closure_of m o g c -> (forall p, _owner_session_closed_path o (Some g) = Ok p -> keeps m m' p) ->
  closure_of m' o g c.
Proof. intros (p&Hp&Hd&Hv) Hk. exists p. split; [done|]. by rewrite (Hk p Hp). Qed.

Lemma active_some m o g p :
  reads_active m o g -> _owner_session_active_path o = Ok p -> is_Some (m !! p).
Proof. intros (p'&d&Hp'&Hd&_) Hp. rewrite Hp in Hp'. injection Hp' as <-. by eexists. Qed.
Lemma closing_some m o g p : reads_closing m o g -> closing_path o = Ok p -> is_Some (m !! p).
Proof. intros (p'&d&Hp'&Hd&_) Hp. rewrite Hp in Hp'. injection Hp' as <-. by eexists. Qed.
Lemma closure_some m o g c p :
  closure_of m o g c -> _owner_session_closed_path o (Some g) = Ok p -> is_Some (m !! p).
Proof. intros (p'&Hp'&Hd&_) Hp. rewrite Hp in Hp'. injection Hp' as <-. by eexists. Qed.

(** ** Closures are final *)
Lemma step_keeps_closure m m' o g c : session_step m m' -> closure_of m o g c -> closure_of m' o g c.
Proof.
  intros Hstep Hc. eapply closure_kept; [exact Hc|]. intros p Hp. pose proof (closure_some _ _ _ _ _ Hc Hp) as Hs.
  destruct Hstep; (by apply keeps_fresh) || (apply keeps_delete || apply keeps_insert);
    eauto using not_eq_sym, active_closed, closing_closed.
Qed.

Lemma step_keeps_clean m m' o g : session_step m m' -> closed_clean m o g -> closed_clean m' o g.
Proof. intros Hs (c&Hc&Hr). exists c. eauto using step_keeps_closure. Qed.

Lemma steps_keep_closure m m' o g c : session_steps m m' -> closure_of m o g c -> closure_of m' o g c.
Proof. induction 1; eauto using step_keeps_closure. Qed.
Lemma steps_keep_clean m m' o g : session_steps m m' -> closed_clean m o g -> closed_clean m' o g.
Proof. intros Hs (c&Hc&Hr). exists c. eauto using steps_keep_closure. Qed.

(** ** A closing generation stays closing or is closed *)
Definition quiesced (m : gmap path doc) (owner g : string) : Prop :=
  reads_closing m owner g \/ exists c, closure_of m owner g c.

Lemma step_keeps_quiesced m m' o g : session_step m m' -> quiesced m o g -> quiesced m' o g.
Proof.
  intros Hstep [Hc|[c Hc]]; [|right; exists c; by eapply step_keeps_closure].
  pose proof Hc as (q&_&Hq&_). pose proof (closing_some _ _ _ _ Hc Hq) as Hs.
  assert (Hother : keeps m m' q -> quiesced m' o g).
  { intros Hk. left. eapply closing_kept; [exact Hc|]. intros q' Hq'. rewrite Hq in Hq'. by injection Hq' as <-. }
  destruct Hstep as [| o' g' q' Hq' Hc' Hclean | o' g' i n q' Hq' Hg Ha Hn | | |].
  - apply Hother. by apply keeps_fresh.
  - destruct (decide (q = q')) as [<-|Hne]; [|by apply Hother, keeps_delete].
    destruct (closing_unique m o o' g g' q) as [-> ->]; [done..|]. destruct Hclean as (c&Hcl&_).
    right. exists c. eapply closure_kept; [done|]. intros p Hp. apply keeps_delete.
    by eapply not_eq_sym, closing_closed.
  - destruct (decide (q = q')) as [<-|Hne]; [|by apply Hother, keeps_insert].
    destruct Hn as [(q1&Hq1&Hn)|Hc'].
    { rewrite Hq' in Hq1. injection Hq1 as <-. rewrite Hn in Hs. by destruct Hs. }
    apply closing_with_reads in Hc'. destruct (closing_unique m o o' g g' q) as [-> ->]; [done..|]. left. by apply closing_document_reads.
  - apply Hother. by apply keeps_fresh.
  - apply Hother. by apply keeps_fresh.
  - apply Hother, keeps_delete. by eapply not_eq_sym, active_closing.
Qed.

Lemma steps_keep_quiesced m m' o g : session_steps m m' -> quiesced m o g -> quiesced m' o g.
Proof. induction 1; eauto using step_keeps_quiesced. Qed.

(** ** A generation that was active is accounted for *)
Definition accounted (m : gmap path doc) (owner g : string) : Prop :=
  reads_active m owner g \/ (no_active m owner /\ reads_closing m owner g) \/ closed_clean m owner g.

Lemma clean_kept m m' o g : session_step m m' -> closed_clean m o g -> accounted m' o g.
Proof. intros Hstep (c&Hc&Hr). right. right. exists c. eauto using step_keeps_closure. Qed.

(** The file of an active generation changes only when that generation is retired. *)
Lemma active_step m m' o g : session_step m m' -> reads_active m o g -> accounted m' o g.
Proof.
  intros Hstep Ha. pose proof Ha as (p&_&Hp&_). pose proof (active_some _ _ _ _ Ha Hp) as Hs.
  assert (Hother : keeps m m' p -> accounted m' o g).
  { intros Hk. left. eapply active_kept; [exact Ha|]. intros p' Hp'. rewrite Hp in Hp'. by injection Hp' as <-. }
  destruct Hstep as [| | | | | o' g' c p' Hp' Ha' Hc Hcl]; try (by apply Hother, keeps_fresh).
  - apply Hother, keeps_delete. eauto using active_closing.
  - apply Hother, keeps_insert. eauto using active_closing.
  - destruct (decide (p = p')) as [<-|Hne]; [|by apply Hother, keeps_delete].
    destruct Ha' as [Ha'|Hn]; [|rewrite Hn in Hs; by destruct Hs].
    destruct (active_unique m o o' g g' p) as [-> ->]; [done..|]. right. left. split.
    + exists p. split; [done|]. apply lookup_delete_eq.
    + eapply closing_kept; [done|]. intros q Hq. apply keeps_delete. eauto using not_eq_sym, active_closing.
Qed.

Lemma between_step m m' o g :
  session_step m m' -> no_active m o -> reads_closing m o g -> accounted m' o g.
Proof.
  intros Hstep Hn Hc. pose proof Hn as (p&Hp&Hpn). pose proof Hc as (q&_&Hq&_).
  pose proof (closing_some _ _ _ _ Hc Hq) as Hs.
  assert (Hother : keeps m m' p -> keeps m m' q -> accounted m' o g).
  { intros Hk Hk'. right. left. split.
    - eapply no_active_kept; [exact Hn|]. intros p' Hp'. rewrite Hp in Hp'. by injection Hp' as <-.
    - eapply closing_kept; [exact Hc|]. intros q' Hq'. rewrite Hq in Hq'. by injection Hq' as <-. }
  destruct Hstep as [o' g' prev mir now p' Hp' Hfree Hguard | o' g' q' Hq' Hc' Hclean
    | o' g' i now q' Hq' Hg Ha Hcl | o' g' c p' Hp' Hfree | o' c p' Hp' Hfree | o' g' c p' Hp' Ha' Hc' Hcl].
  - destruct (decide (p = p')) as [<-|Hne]; [|apply Hother; [by apply keeps_insert|by apply keeps_fresh]].
    destruct Hguard as [(q'&Hq'&Hnone)|(c&Hc'&Hclean&Hgc)].
    + rewrite (same_active_same_closing _ _ _ _ _ Hp Hp' Hq Hq') in Hs. rewrite Hnone in Hs. by destruct Hs.
    + pose proof Hc' as (q'&_&Hq'&_). rewrite <- (same_active_same_closing _ _ _ _ _ Hp Hp' Hq Hq') in Hq'.
      destruct (closing_unique m o o' g c q) as [-> ->]; [done..|]. eapply clean_kept; [|done]. eapply step_start; [done|done|]. right. exists c. done.
  - destruct (decide (q = q')) as [<-|Hne].
    + destruct (closing_unique m o o' g g' q) as [-> ->]; [done..|]. eapply clean_kept; [|done]. by eapply step_forget.
    + apply Hother; apply keeps_delete; eauto using active_closing.
  - destruct (decide (q = q')) as [<-|Hne].
    + destruct Hcl as [(q1&Hq1&Hn1)|Hc'].
      { rewrite Hq' in Hq1. injection Hq1 as <-. rewrite Hn1 in Hs. by destruct Hs. }
      apply closing_with_reads in Hc'. destruct (closing_unique m o o' g g' q) as [-> ->]; [done..|].
      pose proof (active_some _ _ _ _ Ha Hp) as [x Hx]. congruence.
    + apply Hother; apply keeps_insert; eauto using active_closing.
  - apply Hother; [apply keeps_insert; eauto using active_closed|by apply keeps_fresh].
  - apply Hother; [apply keeps_insert; eauto using active_covered|by apply keeps_fresh].
  - apply Hother; [|apply keeps_delete; eauto using not_eq_sym, active_closing].
    unfold keeps. destruct (decide (p = p')) as [<-|Hne]; [rewrite lookup_delete_eq; congruence|by apply lookup_delete_ne].
Qed.

Lemma steps_keep_accounted m m' o g : session_steps m m' -> accounted m o g -> accounted m' o g.
Proof.
  induction 1 as [|m m1 m2 Hstep _ IH]; [done|]. intros [Ha|[[Hn Hc]|Hclean]]; apply IH;
    eauto using active_step, between_step, clean_kept.
Qed.

(** ** A cleanup intent is fixed until the generation is closed *)
Definition pinned (m : gmap path doc) (owner g : string) (intent : json) : Prop :=
  closing_with m owner g (Some intent) \/ closed_clean m owner g.

Lemma step_keeps_pinned m m' o g i : session_step m m' -> pinned m o g i -> pinned m' o g i.
Proof.
  intros Hstep [Hc|(c&Hc&Hr)]; [|right; exists c; eauto using step_keeps_closure].
  pose proof Hc as (q&d&Hq&Hd&Hv&Hi).
  assert (Hother : keeps m m' q -> pinned m' o g i) by (intros Hk; left; exists q, d; by rewrite Hk).
  assert (Hs : is_Some (m !! q)) by by eexists.
  destruct Hstep as [| o' g' q' Hq' Hc' Hclean | o' g' i' n q' Hq' Hg Ha Hn | | |].
  - apply Hother. by apply keeps_fresh.
  - destruct (decide (q = q')) as [<-|Hne]; [|by apply Hother, keeps_delete].
    apply closing_with_reads in Hc. destruct (closing_unique m o o' g g' q) as [-> ->]; [done..|].
    right. by eapply (step_keeps_clean m); [eapply step_forget|].
  - destruct (decide (q = q')) as [<-|Hne]; [|by apply Hother, keeps_insert].
    destruct Hn as [(q1&Hq1&Hn)|(q1&d1&Hq1&Hd1&_&Hn)]; rewrite Hq' in Hq1; injection Hq1 as <-; congruence.
  - apply Hother. by apply keeps_fresh.
  - apply Hother. by apply keeps_fresh.
  - apply Hother, keeps_delete. by eapply not_eq_sym, active_closing.
Qed.

Lemma steps_keep_pinned m m' o g i : session_steps m m' -> pinned m o g i -> pinned m' o g i.
Proof. induction 1; eauto using step_keeps_pinned. Qed.
