(* ===== verification/OwnerSessionsRuns.v ===== *)
(** * The owner-session operations are sequences of changes

    Every operation, complete or stopped at any durable step, takes the files through
    [session_step]s, so what those steps keep holds over any history of calls. *)

From S2P Require Import Prelude Sha256 Json Identifiers Models Store OrderIndex OrderIndexProofs.
From S2P Require Import LeaseRecords Decimal Recovery OwnerSessions OwnerSessionsProofs.
From stdpp Require Import base list gmap strings relations.
From Stdlib Require Import ZArith Lia.
From Stdlib Require Ascii String.
Open Scope Z_scope.

(** ** The operations are sequences of changes *)
Inductive session_op :=
  | OpStart (owner : string) (recorded : option string) (candidate : string)
  | OpResume (owner generation : string)
  | OpReopen (owner previous generation : string)
  | OpClosing (owner generation : string) (operation : option string) (policy : cleanup_policy)
  | OpClosed (owner generation : string) (residual legacy : option (list string))
  | OpMirror (owner generation : string)
  | OpIntent (owner generation : string)
  | OpStatus (owner generation : string)
  | OpIntake (meta : list (string * json)) (require_active : bool).

Section operations.
Context `{World} `{IsoParser}.

(** The call, as far as the store is concerned. *)
Definition call_session (o : session_op) : M disk unit :=
  match o with
  | OpStart owner recorded candidate => _ ← prepare_owner_session_start owner recorded candidate; mret tt
  | OpResume owner g => clear_owner_session_closing owner g
  | OpReopen owner previous g => reopen_owner_session owner previous g
  | OpClosing owner g operation p => _ ← set_owner_session_closing owner g operation p; mret tt
  | OpClosed owner g residual legacy => _ ← set_owner_session_closed owner g residual legacy; mret tt
  | OpMirror owner g => _ ← mirror_owner_session_generation_open owner g; mret tt
  | OpIntent owner g => _ ← get_owner_session_cleanup_intent owner g; mret tt
  | OpStatus owner g => _ ← owner_session_generation_status owner g; mret tt
  | OpIntake meta require_active => _assert_owner_session_intake_open_unlocked meta require_active
  end.

(** A history: calls, each stopped after so many durable steps or not at all. *)
Fixpoint run_sessions (calls : list (session_op * option nat)) (s : disk) : disk :=
  match calls with
  | [] => s
  | (o, b) :: rest => run_sessions rest (call_session o (set_budget b s)).2
  end.

(** ** What the reads tell *)
Lemma wp_transition p s (Q : result (option (list (string * json))) -> disk -> Prop) :
  (files s !! p = None -> Q (Ok None) s) ->
  (forall d, files s !! p = Some (DJson (JObj d)) -> Q (Ok (Some d)) s) ->
  (forall e, Q (Err e) s) -> wp (_read_owner_session_transition_record p) s Q.
Proof.
  intros Hn Hs He. unfold _read_owner_session_transition_record, read_json_document.
  apply wp_bind, wp_bind, wp_read_doc; [|done]. destruct (files s !! p) as [[[]| | | | | | | | | | | | | | | |]|] eqn:Hp;
    try (by apply wp_raise); try (by apply wp_ret, wp_raise); apply wp_ret, wp_ret; auto.
Qed.

Lemma wp_active_record o s (Q : result (option (list (string * json))) -> disk -> Prop) :
  (no_active (files s) o -> Q (Ok None) s) ->
  (forall p d, _owner_session_active_path o = Ok p -> files s !! p = Some (DJson (JObj d)) -> Q (Ok (Some d)) s) ->
  (forall e, Q (Err e) s) -> wp (read_active o) s Q.
Proof.
  intros Hn Hs He. unfold read_active. apply wp_bind, wp_lift.
  destruct (_owner_session_active_path o) as [p|e] eqn:Hp; [|done].
  apply wp_transition; [|by intros; eapply Hs|done]. intros Hf. apply Hn. by exists p.
Qed.

Lemma wp_closing_record o s (Q : result (option (list (string * json))) -> disk -> Prop) :
  (no_closing (files s) o -> Q (Ok None) s) ->
  (forall p d, closing_path o = Ok p -> files s !! p = Some (DJson (JObj d)) -> Q (Ok (Some d)) s) ->
  (forall e, Q (Err e) s) -> wp (read_closing o) s Q.
Proof.
  intros Hn Hs He. unfold read_closing. apply wp_bind, wp_lift.
  destruct (closing_path o) as [p|e] eqn:Hp; [|done].
  apply wp_transition; [|by intros; eapply Hs|done]. intros Hf. apply Hn. by exists p.
Qed.

(** A closure the reader accepts. *)
Definition readable_closure (p : path) (c : OwnerSessionClosure) : Prop :=
  valid_closure c = true /\ fits p (DClosure c).

Lemma wp_read_closure p s (Q : result (option OwnerSessionClosure) -> disk -> Prop) :
  (files s !! p = None -> Q (Ok None) s) ->
  (forall c, files s !! p = Some (DClosure c) -> readable_closure p c -> Q (Ok (Some c)) s) ->
  (forall e, Q (Err e) s) -> wp (read_optional_closure p) s Q.
Proof.
  intros Hn Hs He. unfold wp, read_optional_closure, read_doc, mbind, M_bind.
  destruct (files s !! p) as [d|] eqn:Hp; [|by apply Hn]. destruct (_ <? _) eqn:Hf; [apply He|].
  apply Z.ltb_ge in Hf. destruct d; try apply He. cbn.
  destruct (valid_closure c) eqn:Hv; [by apply Hs|apply He].
Qed.

Lemma wp_require_id g field s (Q : result string -> disk -> Prop) :
  (safe_global_record_id (JStr g) = true -> Q (Ok g) s) -> (forall e, Q (Err e) s) ->
  wp (lift (require_durable_record_id (JStr g) field)) s Q.
Proof.
  intros Hok He. apply wp_lift. unfold require_durable_record_id.
  destruct (validate_durable_record_id (JStr g)) as [x|[]] eqn:Hv; try done.
  pose proof Hv as ([= ->]&_)%validate_ok_inv. apply Hok. unfold safe_global_record_id. by rewrite Hv.
Qed.

Lemma wp_get_closed o g s (Q : result (option OwnerSessionClosure) -> disk -> Prop) :
  (forall p, _owner_session_closed_path o (Some g) = Ok p -> files s !! p = None -> Q (Ok None) s) ->
  (forall c, closure_of (files s) o g c -> Q (Ok (Some c)) s) ->
  (forall e, Q (Err e) s) -> wp (get_owner_session_closed o (Some g)) s Q.
Proof.
  intros Hn Hs He. unfold get_owner_session_closed, nonempty_owner, require_generation.
  apply wp_bind, wp_ensure; [intros _|done]. apply wp_bind, wp_bind, wp_require_id; [intros _|done]. apply wp_ret.
  apply wp_bind, wp_lift. destruct (_owner_session_closed_path o (Some g)) as [p|e] eqn:Hp; [|done].
  apply wp_bind, wp_read_closure; [|intros c Hc _|done].
  - intros Hf. apply wp_ret. by apply (Hn p).
  - apply wp_bind, wp_ensure; [|done]. intros [Ho Hg]%andb_true_iff.
    apply bool_decide_eq_true in Ho, Hg. apply wp_ret, Hs. by exists p.
Qed.

Lemma wp_active_gen o s (Q : result (option string) -> disk -> Prop) :
  (no_active (files s) o -> Q (Ok None) s) ->
  (forall g, reads_active (files s) o g -> Q (Ok (Some g)) s) ->
  (forall e, Q (Err e) s) -> wp (_owner_session_active_generation o) s Q.
Proof.
  intros Hn Hs He. unfold _owner_session_active_generation.
  apply wp_bind, wp_active_record; [intros Hf|intros p d Hp Hd|done]; apply wp_lift; [by apply Hn|].
  destruct (validate_active_some o d) as [[g Hg]|[e Hg]]; rewrite Hg; [|done]. apply Hs. by exists p, d.
Qed.

(** ** A run only takes guarded changes *)

(** Starting from [m] only guarded changes were made, and what a returned value tells
    about the files. *)
Definition stepped {A : Type} (m : gmap path doc) (Q : A -> gmap path doc -> Prop) (r : result A) (s' : disk)
  : Prop :=
  session_steps m (files s') /\ forall a, r = Ok a -> Q a (files s').

Lemma stepped_err {A : Type} (m : gmap path doc) (Q : A -> gmap path doc -> Prop) e (s : disk) :
  session_steps m (files s) -> stepped m Q (Err e) s.
Proof. by split. Qed.
Lemma stepped_ok {A : Type} (m : gmap path doc) (Q : A -> gmap path doc -> Prop) a (s : disk) :
  session_steps m (files s) -> Q a (files s) -> stepped m Q (Ok a) s.
Proof. split; [done|]. by intros ? [= <-]. Qed.
#[local] Hint Resolve stepped_err rtc_refl : core.

(** The owner's two records, validated. *)
Lemma wp_records {A : Type} o s (k : option (list (string * json)) -> option (list (string * json)) ->
    option string -> option string -> M disk A) Q :
  (forall active closing g c,
     match active, g with
     | None, None => no_active (files s) o
     | Some d, Some g => reads_active (files s) o g
     | _, _ => False
     end ->
     match closing, c with
     | None, None => no_closing (files s) o
     | Some d, Some c => reads_closing (files s) o c
     | _, _ => False
     end -> wp (k active closing g c) s Q) ->
  (forall e, Q (Err e) s) ->
  wp (active ← read_active o; closing ← read_closing o;
      g ← lift (_validate_owner_session_active_record o active);
      c ← lift (_validate_owner_session_closing_record o closing); k active closing g c) s Q.
Proof.
  intros Hk He.
  assert (Hc : forall active g, match active, g with
     | None, None => no_active (files s) o | Some d, Some g => reads_active (files s) o g | _, _ => False end ->
     _validate_owner_session_active_record o active = Ok g ->
     wp (closing ← read_closing o; g ← lift (_validate_owner_session_active_record o active);
         c ← lift (_validate_owner_session_closing_record o closing); k active closing g c) s Q).
  { intros active g Ha Hv. apply wp_bind, wp_closing_record; [intros Hn|intros p d Hp Hd|done];
      apply wp_bind, wp_lift; rewrite Hv; apply wp_bind, wp_lift.
    - by apply Hk.
    - destruct (validate_closing_some o d) as [[c Hc]|[e Hc]]; rewrite Hc; [|done].
      apply Hk; [done|]. by exists p, d. }
  apply wp_bind, wp_active_record; [intros Hn|intros p d Hp Hd|done]; [by apply (Hc None None)|].
  destruct (validate_active_some o d) as [[g Hg]|[e Hg]].
  - apply (Hc (Some d) (Some g)); [by exists p, d|done].
  - apply wp_bind, wp_closing_record; [intros _|intros q d' _ _|done]; apply wp_bind, wp_lift; by rewrite Hg.
Qed.

Lemma active_document_reads (m : gmap path doc) o g previous mirrored now p :
  _owner_session_active_path o = Ok p -> safe_global_record_id (JStr g) = true ->
  match previous with None => True | Some q => safe_global_record_id (JStr q) = true end ->
  reads_active (<[p := DJson (active_document o g previous mirrored now)]> m) o g.
Proof.
  intros Hp Hg Hq. exists p. eexists. split; [done|]. split; [apply lookup_insert_eq|].
  assert (Hs : safe_text (Some (JStr g)) = Some g) by (unfold safe_text; by rewrite Hg).
  unfold _validate_owner_session_active_record, active_document.
  change (dict_get "session_generation_id" _) with (Some (JStr g)). rewrite Hs.
  change (dict_get "owner_session_id" _) with (Some (JStr o)).
  change (dict_get "active" _) with (Some (JBool true)). cbn [is_string is_true].
  rewrite bool_decide_true by done. unfold get_value.
  change (dict_get "previous_session_generation_id" _) with (Some (JOptStr previous)).
  destruct previous as [q|]; cbn [JOptStr andb]; [by rewrite Hq|done].
Qed.

Lemma closing_safe (m : gmap path doc) o c : reads_closing m o c -> safe_global_record_id (JStr c) = true.
Proof.
  intros (p&d&_&_&[_ Hs]%validate_closing_inv). unfold safe_text in Hs.
  destruct (dict_get _ d) as [[]|]; try done. destruct (safe_global_record_id _) eqn:Hg; congruence.
Qed.

Lemma wp_resume o recorded active g closing s :
  reads_active (files s) o g ->
  match closing with Some c => reads_closing (files s) o c | None => True end ->
  wp (resume_generation o recorded active g closing) s (stepped (files s) (fun x m => x = g /\ reads_active m o g)).
Proof.
  intros Ha Hc. unfold resume_generation. destruct closing as [c|].
  - apply wp_bind, wp_get_closed; [intros p _ _|intros cl Hcl|auto]; apply wp_bind, wp_ensure; auto.
    { intros Hb. rewrite !andb_false_r in Hb. done. }
    intros [_ Hclean%bool_decide_eq_true]%andb_true_iff. apply wp_bind, wp_lift.
    destruct (closing_path o) as [q|e] eqn:Hq; auto.
    apply wp_bind, wp_unlink; auto. intros s' Hs'. apply wp_ret, stepped_ok; rewrite Hs'.
    + apply rtc_once. eapply step_forget; eauto. by exists cl.
    + split; [done|]. eapply active_kept; [done|]. intros p Hp. apply keeps_delete. eauto using active_closing.
  - case_match; [by apply wp_ret, stepped_ok|].
    apply wp_bind. assert (Hend : forall (closure : option OwnerSessionClosure),
      wp (_ ← ensure (match recorded with Some r => is_string r (get_value "previous_session_generation_id" active)
                       | None => false end && safely_closed closure)
              (QueueConflictError "recorded owner session generation does not match active core state: ");
          mret g) s (stepped (files s) (fun x m => x = g /\ reads_active m o g))).
    { intros cl. apply wp_bind, wp_ensure; auto. intros _. by apply wp_ret, stepped_ok. }
    destruct (get_value _ active) as [[]|]; try (by apply wp_ret, Hend).
    apply wp_get_closed; [intros p _ _|intros cl Hcl|auto]; apply Hend.
Qed.

(** Writing the active record of a new generation. *)
Lemma wp_write_active o g previous mirrored now p s :
  _owner_session_active_path o = Ok p -> files s !! p = None -> safe_global_record_id (JStr g) = true ->
  match previous with None => True | Some q => safe_global_record_id (JStr q) = true end ->
  no_closing (files s) o \/ (exists c, reads_closing (files s) o c /\ closed_clean (files s) o c /\ g <> c) ->
  wp (write_doc p (DJson (active_document o g previous mirrored now))) s
    (stepped (files s) (fun _ m => reads_active m o g /\
       forall q, closing_path o = Ok q -> m !! q = files s !! q)).
Proof.
  intros Hp Hf Hg Hq Hc. apply wp_write; auto. intros s' Hs'. split.
  - rewrite Hs'. apply rtc_once. by eapply step_start.
  - intros _ _. rewrite Hs'. split; [by apply active_document_reads|]. intros q Hq'.
    apply lookup_insert_ne. by eapply active_closing.
Qed.

Lemma stepped_trans {A : Type} (m m' : gmap path doc) (Q : A -> gmap path doc -> Prop) r (s : disk) :
  session_steps m m' -> stepped m' Q r s -> stepped m Q r s.
Proof. intros Hs [Hs' HQ]. split; [by etrans|done]. Qed.

Lemma closed_clean_of m o c (cl : option OwnerSessionClosure) :
  match cl with Some x => closure_of m o c x | None => True end -> safely_closed cl = true -> closed_clean m o c.
Proof. destruct cl as [x|]; [|done]. intros Hc Hb%bool_decide_eq_true. by exists x. Qed.

Lemma wp_safely_closed o c s (Q : result (option OwnerSessionClosure) -> disk -> Prop) :
  (forall cl, match cl with Some x => closure_of (files s) o c x | None => True end -> Q (Ok cl) s) ->
  (forall e, Q (Err e) s) -> wp (get_owner_session_closed o (Some c)) s Q.
Proof. intros Hok He. apply wp_get_closed; [intros p _ _; by apply Hok|intros cl Hcl; by apply Hok|done]. Qed.

Lemma wp_start o recorded candidate closing s :
  safe_global_record_id (JStr candidate) = true -> no_active (files s) o ->
  match closing with Some c => reads_closing (files s) o c | None => no_closing (files s) o end ->
  wp (start_generation o recorded candidate closing) s (stepped (files s) (fun g m => reads_active m o g)).
Proof.
  intros Hsafe (p&Hp&Hf) Hc. unfold start_generation. apply wp_bind.
  assert (Hend : match closing with Some c => closed_clean (files s) o c /\ candidate <> c | None => True end ->
    wp (now ← utc_now; p ← lift (_owner_session_active_path o);
        _ ← write_doc p (DJson (active_document o candidate closing false now));
        _ ← match closing with Some _ => q ← lift (closing_path o); unlink_durable_path q | None => mret tt end;
        mret candidate) s (stepped (files s) (fun g m => reads_active m o g))).
  { intros Hcl. apply wp_bind, wp_utc_now. intros s1 Hf1 _ _. apply wp_bind, wp_lift. rewrite Hp.
    apply wp_bind. eapply wp_mono; [apply wp_write_active; rewrite ?Hf1; try done|].
    - destruct closing as [c|]; [by eapply closing_safe|done].
    - destruct closing as [c|]; [right; exists c; naive_solver|by left].
    - rewrite Hf1. intros [u|e] s2 [Hs2 HQ]; [|by split]. destruct (HQ u eq_refl) as [Ha Hk].
      apply wp_bind. destruct closing as [c|]; [|by apply wp_ret, wp_ret, stepped_ok].
      apply wp_bind, wp_lift. destruct (closing_path o) as [q|e] eqn:Hq; [|by split].
      apply wp_unlink; [intros s3 Hs3|by split].
      apply wp_ret, stepped_ok; rewrite Hs3.
      + etrans; [done|]. apply rtc_once. eapply step_forget; [done| |].
        * eapply closing_kept; [done|]. intros q' Hq'. apply Hk. congruence.
        * eapply steps_keep_clean; [exact Hs2|]. by destruct Hcl.
      + eapply active_kept; [done|]. intros p' Hp'. apply keeps_delete. eauto using active_closing. }
  destruct closing as [c|].
  - apply wp_bind, wp_ensure; [intros _|auto]. apply wp_bind, wp_safely_closed; [intros cl Hcl|auto].
    apply wp_bind, wp_ensure; [intros Hsc|auto]. apply wp_ensure; [|auto].
    intros Hne%negb_true_iff%bool_decide_eq_false. apply Hend. split; [by eapply closed_clean_of|done].
  - apply wp_ensure; [|auto]. intros _. by apply Hend.
Qed.

Lemma wp_prepare_start o recorded candidate s :
  wp (prepare_owner_session_start o recorded candidate) s (stepped (files s) (fun g m => reads_active m o g)).
Proof.
  unfold prepare_owner_session_start, nonempty_owner. apply wp_bind, wp_ensure; [intros _|auto].
  apply wp_bind. set (Q := stepped _ _).
  assert (He : forall e, Q (Err e) s) by (intros e; by apply stepped_err).
  assert (Hend : forall r' : option string, wp (candidate ← lift (require_durable_record_id (JStr candidate) "candidate_generation_id");
    active ← read_active o; closing ← read_closing o;
    g ← lift (_validate_owner_session_active_record o active);
    c ← lift (_validate_owner_session_closing_record o closing);
    match g with Some g => resume_generation o r' (default [] active) g c | None => start_generation o r' candidate c end) s Q).
  { intros r'. apply wp_bind, wp_require_id; [intros Hsafe|exact He].
    apply (wp_records o s (fun active closing g c => match g with
      | Some g => resume_generation o r' (default [] active) g c | None => start_generation o r' candidate c end)); [|exact He].
    intros active closing g c Ha Hc. destruct active as [d|], g as [g|]; try done.
    - eapply wp_mono; [apply wp_resume; [exact Ha|by destruct closing, c]|].
      intros r s' [Hs HQ]. split; [done|]. intros a Hr. by destruct (HQ a Hr) as [-> H'].
    - apply wp_start; [done..|]. by destruct closing, c. }
  destruct recorded as [r|]; [|by apply wp_ret, Hend].
  apply wp_bind, wp_require_id; [intros _|exact He]. apply wp_ret, Hend.
Qed.

(** ** Closing *)
Lemma closing_names o d c g :
  _validate_owner_session_closing_record o (Some d) = Ok (Some c) ->
  is_string g (dict_get "session_generation_id" d) = true -> c = g.
Proof.
  intros [_ Hs]%validate_closing_inv Hg. unfold safe_text in Hs.
  destruct (dict_get "session_generation_id" d) as [[]|]; try done. cbn in Hg. apply bool_decide_eq_true in Hg.
  destruct (safe_global_record_id _); congruence.
Qed.

Lemma validate_intent_inv o g raw required d :
  _validate_owner_session_cleanup_intent o g raw required = Ok (Some d) -> raw = Some (JObj d).
Proof.
  destruct raw as [[| | | | | |d']|], required; try done; cbn;
    (destruct (dict_get _ d') as [[]|]; try done); (destruct (dict_get "created_at" d') as [[]|]; try done);
    (destruct (intent_policy d'); [|done]); intros (u&_&Hr)%bind_ok; by destruct (fromisoformat _) as [[]|]; simplify_eq.
Qed.

Lemma validate_no_intent o g raw : _validate_owner_session_cleanup_intent o g raw false = Ok None -> raw = None.
Proof.
  destruct raw as [[| | | | | |d']|]; try done; cbn;
    (destruct (dict_get _ d') as [[]|]; try done); (destruct (dict_get "created_at" d') as [[]|]; try done);
    (destruct (intent_policy d'); [|done]); intros (u&_&Hr)%bind_ok; by destruct (fromisoformat _) as [[]|].
Qed.

Lemma wp_settle o g operation policy closing (retry : bool) s :
  safe_global_record_id (JStr g) = true -> (retry = false -> reads_active (files s) o g) ->
  match closing with
  | None => no_closing (files s) o
  | Some d => exists p c, closing_path o = Ok p /\ files s !! p = Some (DJson (JObj d)) /\
                _validate_owner_session_closing_record o (Some d) = Ok (Some c)
  end ->
  wp (settle_cleanup_intent o g operation policy closing retry) s
    (stepped (files s) (fun d m => closing_with m o g (Some (JObj d)))).
Proof.
  intros Hg Ha Hc. unfold settle_cleanup_intent. apply wp_bind, wp_ensure; [intros Hb|auto].
  set (raw := match closing with Some d => get_value "cleanup_intent" d | None => None end).
  assert (Hr : (closing = None /\ no_closing (files s) o) \/ closing_with (files s) o g raw).
  { destruct closing as [d|]; [|by left]. right. destruct Hc as (p&c&Hp&Hd&Hv).
    apply andb_true_iff in Hb as [_ Hb]. rewrite (closing_names _ _ _ _ Hv Hb) in Hv. by exists p, d. }
  apply wp_bind, wp_lift.
  destruct (_validate_owner_session_cleanup_intent o g raw false) as [[d|]|e] eqn:Hi; auto.
  - apply wp_bind, wp_ensure; [intros _|auto]. apply wp_bind, wp_ensure; [intros _|auto].
    apply wp_ret, stepped_ok; [done|]. apply validate_intent_inv in Hi. rewrite Hi in Hr.
    destruct Hr as [[-> _]|Hr]; [done|exact Hr].
  - apply validate_no_intent in Hi. rewrite Hi in Hr.
    apply wp_bind, wp_ensure; [intros Hret%negb_true_iff|auto]. apply wp_bind.
    assert (Hend : forall op s', files s' = files s -> wp (created ← utc_now; now ← utc_now; q ← lift (closing_path o);
      _ ← write_doc q (DJson (closing_document o g (cleanup_intent_document op o g policy created) now));
      mret (cleanup_intent_document op o g policy created)) s'
      (stepped (files s) (fun d m => closing_with m o g (Some (JObj d))))).
    { intros op s' Hf. apply wp_bind, wp_utc_now. intros s1 Hf1 _ _. apply wp_bind, wp_utc_now. intros s2 Hf2 _ _.
      assert (Hfs : files s2 = files s) by congruence.
      apply wp_bind, wp_lift. destruct (closing_path o) as [q|e] eqn:Hq; [|apply stepped_err; by rewrite Hfs].
      apply wp_bind, wp_write; [|intros e; apply stepped_err; by rewrite Hfs].
      intros s3 Hs3. apply wp_ret, stepped_ok; rewrite Hs3, Hfs.
      - apply rtc_once. eapply step_close; [done|done|by apply Ha|]. destruct Hr as [[_ Hn]|Hr]; [by left|by right].
      - by apply closing_document_with. }
    destruct operation as [op|]; [by apply wp_ret, Hend|].
    apply wp_bind, wp_uuid. intros s' Hf _. by apply wp_ret, Hend.
Qed.

Lemma wp_set_closing o g operation policy s :
  wp (set_owner_session_closing o g operation policy) s
    (stepped (files s) (fun d m => closing_with m o g (Some (JObj d)))).
Proof.
  unfold set_owner_session_closing, nonempty_owner, require_generation.
  apply wp_bind, wp_ensure; [intros _|auto]. apply wp_bind, wp_require_id; [intros Hg|auto].
  apply wp_bind, wp_ensure; [intros _|auto]. apply wp_bind, wp_ensure; [intros _|auto].
  apply wp_bind. set (Q := stepped _ _).
  assert (He : forall e, Q (Err e) s) by (intros e; by apply stepped_err).
  assert (Hend : forall closing existing,
    match closing with
    | None => no_closing (files s) o
    | Some d => exists p c, closing_path o = Ok p /\ files s !! p = Some (DJson (JObj d)) /\
                  _validate_owner_session_closing_record o (Some d) = Ok (Some c)
    end -> wp (active ← _owner_session_active_generation o; retry ← closing_retry o g active existing;
               settle_cleanup_intent o g operation policy closing retry) s Q).
  { intros closing existing Hc. apply wp_bind, wp_active_gen; [intros Hn|intros g' Ha|exact He];
      apply wp_bind; unfold closing_retry.
    - rewrite bool_decide_false by done. apply wp_bind, wp_lift. destruct (_owner_session_closed_path _ _); [|apply He].
      apply wp_bind, wp_read_closure; intros; try apply He; (apply wp_bind, wp_ensure; [intros _|intros _; apply He]);
        by apply wp_ret, wp_settle.
    - destruct (bool_decide_reflect (Some g' = Some g)) as [[= ->]|_]; [by apply wp_ret, wp_settle|].
      apply wp_bind, wp_lift. destruct (_owner_session_closed_path _ _); [|apply He].
      apply wp_bind, wp_read_closure; intros; try apply He; (apply wp_bind, wp_ensure; [intros _|intros _; apply He]);
        by apply wp_ret, wp_settle. }
  apply wp_closing_record; [intros Hn|intros q d Hq Hd|exact He]; apply wp_bind, wp_lift; [by apply Hend|].
  destruct (validate_closing_some o d) as [[c Hc]|[e Hc]]; rewrite Hc; [|apply He]. apply Hend. eauto.
Qed.

(** The closure is there afterwards, written now or before. *)
Lemma wp_write_closure attempts p c s :
  (files s !! p = None -> session_step (files s) (<[p := DClosure c]> (files s))) ->
  wp (write_closure attempts p c) s (stepped (files s) (fun c' m =>
    m !! p = Some (DClosure c') /\ readable_closure p c' /\ c' = closed_copy c (closed_at c') /\
    (forall q, q <> p -> m !! q = files s !! q))).
Proof.
  intros Hstep. destruct attempts as [|n]; [by apply wp_raise, stepped_err|]. cbn [write_closure].
  apply wp_bind, wp_read_closure; [intros Hf|intros c' Hc' Hv'|auto].
  - apply wp_bind, wp_write; [intros s1 Hs1|auto].
    assert (Hss : session_steps (files s) (files s1)) by (rewrite Hs1; apply rtc_once; auto).
    apply wp_bind, wp_read_closure; [|intros c' Hc' Hv'|intros e; by apply stepped_err].
    { rewrite Hs1, lookup_insert_eq. done. }
    apply wp_bind, wp_ensure; [intros Hb%bool_decide_eq_true|intros _; by apply stepped_err].
    apply wp_ret, stepped_ok; [done|]. do 3 (split; [done|]). intros q Hq. rewrite Hs1.
    by apply lookup_insert_ne.
  - apply wp_bind, wp_ensure; [intros Hb%bool_decide_eq_true|auto]. by apply wp_ret, stepped_ok.
Qed.

Lemma wp_cover o g legacy s : wp (cover_legacy_jobs o g legacy) s (stepped (files s) (fun _ m =>
  forall q, (forall p, _owner_session_closed_path o None = Ok p -> q <> p) -> m !! q = files s !! q)).
Proof.
  unfold cover_legacy_jobs. destruct legacy as [|j l]; [by apply wp_ret, stepped_ok|].
  apply wp_bind, wp_utc_now. intros s1 Hf _ _. rewrite <- Hf.
  apply wp_bind, wp_ensure; [intros _|auto]. apply wp_bind, wp_lift.
  destruct (_owner_session_closed_path o None) as [p|e] eqn:Hp; [|auto].
  apply wp_bind. eapply wp_mono; [apply wp_write_closure; intros Hn; by eapply step_cover|].
  intros [c|e] s2 [Hs2 HQ]; [|by split]. apply wp_ret, stepped_ok; [done|]. intros q Hq.
  destruct (HQ c eq_refl) as (_&_&_&Hk). apply Hk. by apply Hq.
Qed.

Lemma check_closing_inv o g raw s (Q : result unit -> disk -> Prop) :
  (forall d, raw = Some (JObj d) -> safe_global_record_id (JStr g) = true ->
     _validate_owner_session_closing_record o (Some d) = Ok (Some g) -> Q (Ok tt) s) ->
  safe_global_record_id (JStr g) = true -> (forall e, Q (Err e) s) -> wp (check_closing_proof o g raw) s Q.
Proof.
  intros Hok Hg He. unfold check_closing_proof.
  destruct raw as [[| | | | | |d]|]; try (by apply wp_raise, He).
  apply wp_bind, wp_ensure; [intros Hb|done]. apply wp_ensure; [intros Hs|done].
  apply (Hok d); [done|done|]. apply andb_true_iff in Hb as [Hb _].
  unfold get_value in Hs. destruct (dict_get "session_generation_id" d) as [[]|] eqn:Hd; try done.
  cbn in Hs. apply bool_decide_eq_true in Hs as ->.
  unfold _validate_owner_session_closing_record. rewrite Hd. unfold safe_text. by rewrite Hg, Hb.
Qed.

Lemma wp_catch_read p s (Q : result (option json) -> disk -> Prop) :
  (forall raw, (forall d, raw = Some d -> files s !! p = Some (DJson d)) -> Q (Ok raw) s) ->
  (forall e, Q (Err e) s) -> wp (catch_unreadable (read_json_document p)) s Q.
Proof.
  intros Hok He. unfold wp, catch_unreadable. unfold read_json_document, read_doc, mbind, M_bind.
  destruct (files s !! p) as [d|] eqn:Hp; [|cbn; by apply Hok].
  destruct (_ <? _); cbn; [by apply Hok|]. destruct d; cbn; try (by apply Hok).
  apply Hok. by intros d [= <-].
Qed.

Lemma readonly_check_legacy o l : readonly (for_each (check_legacy_job o) l).
Proof.
  apply touches_for_each. intros jid _. unfold check_legacy_job, read_required_job. repeat step_touches.
Qed.

Lemma wp_record_closure o g c s p :
  _owner_session_closed_path o (Some g) = Ok p -> closure_owner_session_id c = o ->
  closure_generation_id c = Some g -> reads_closing (files s) o g ->
  reads_active (files s) o g \/ (no_active (files s) o /\ files s !! p <> None) ->
  wp (_write_immutable_owner_session_closure_unlocked p c) s (stepped (files s) (fun c' m =>
    closure_of m o g c' /\ readable_closure p c' /\ c' = closed_copy c (closed_at c') /\ reads_closing m o g /\
    (reads_active m o g \/ no_active m o))).
Proof.
  intros Hp Ho Hg Hc Ha. eapply wp_mono; [apply wp_write_closure|].
  - intros Hn. destruct Ha as [Ha|[_ Ha]]; [|by rewrite Hn in Ha]. by eapply step_record.
  - intros r s' [Hs HQ]. split; [done|]. intros c' Hr. destruct (HQ c' Hr) as (Hd&Hv&He&Hk).
    assert (Hids : closure_owner_session_id c' = o /\ closure_generation_id c' = Some g) by (by rewrite He).
    split; [by exists p|]. split; [done|]. split; [done|]. split.
    + eapply closing_kept; [done|]. intros q Hq. apply Hk. eauto using closing_closed.
    + destruct Ha as [Ha|[Ha _]]; [left; eapply active_kept|right; eapply no_active_kept]; try done;
        intros q Hq; apply Hk; eauto using active_closed.
Qed.

Lemma wp_retire o g c q s : closing_path o = Ok q ->
  closure_of (files s) o g c -> reads_closing (files s) o g -> reads_active (files s) o g \/ no_active (files s) o ->
  wp (ap ← lift (_owner_session_active_path o); _ ← unlink_durable_path ap; present ← path_exists q;
      _ ← ensure present (QueueConflictError "owner session closing proof disappeared: "); mret c) s
    (stepped (files s) (fun c' m => c' = c /\ closure_of m o g c')).
Proof.
  intros Hq Hcl Hc Ha. apply wp_bind, wp_lift. destruct (_owner_session_active_path o) as [p|e] eqn:Hp; [|auto].
  apply wp_bind, wp_unlink; [intros s' Hs'|auto].
  assert (Hs : session_step (files s) (files s')).
  { rewrite Hs'. eapply step_retire; try done. destruct Ha as [Ha|(p'&Hp'&Hn)]; [by left|right].
    rewrite Hp in Hp'. by injection Hp' as <-. }
  apply wp_bind, wp_path_exists, wp_bind, wp_ensure; [intros _|intros _; apply stepped_err; by apply rtc_once].
  apply wp_ret, stepped_ok; [by apply rtc_once|]. split; [done|]. by eapply step_keeps_closure.
Qed.

Lemma wp_settle_closure o g legacy c p q active existing s :
  _owner_session_closed_path o (Some g) = Ok p -> closing_path o = Ok q ->
  closure_owner_session_id c = o -> closure_generation_id c = Some g -> reads_closing (files s) o g ->
  match active with Some g' => reads_active (files s) o g' | None => no_active (files s) o end ->
  (files s !! p = None -> existing = None) ->
  wp (settle_closure o g legacy c p q active existing) s (stepped (files s) (fun c' m => closure_of m o g c' /\ readable_closure p c')).
Proof.
  intros Hp Hq Ho Hg Hc Ha Hx. unfold settle_closure. apply wp_bind, wp_ensure; [intros Hb|auto].
  apply wp_bind. eapply wp_mono; [apply wp_record_closure; [done..|]|].
  { apply orb_true_iff in Hb as [Hb%bool_decide_eq_true|[Hb%bool_decide_eq_true Hn%negb_true_iff]%andb_true_iff];
      subst active; [by left|]. right. split; [done|]. intros Hnone. by rewrite Hx in Hn. }
  intros [c'|e] s1 [Hs1 H1]; [|by split]. destruct (H1 c' eq_refl) as (Hcl&Hrd&_&Hc1&Ha1).
  apply wp_bind. eapply wp_mono; [apply wp_cover|]. intros [u|e] s2 [Hs2 H2]; [|split; [by etrans|done]].
  specialize (H2 u eq_refl). eapply wp_mono; [apply wp_retire; [done|by eapply steps_keep_closure| |]|].
  - eapply closing_kept; [done|]. intros x Hx'. apply H2. intros y Hy. by eapply closing_covered.
  - destruct Ha1 as [Ha1|Ha1]; [left; eapply active_kept|right; eapply no_active_kept]; try done;
      intros x Hx'; apply H2; intros y Hy; by eapply active_covered.
  - intros r s3 [Hs3 H3]. split; [etrans; [exact Hs1|by etrans]|]. intros c3 Hr. by destruct (H3 c3 Hr) as [-> ?].
Qed.

Lemma wp_set_closed o g residual legacy s :
  wp (set_owner_session_closed o g residual legacy) s (stepped (files s) (fun c m => closure_of m o g c /\
    exists p, _owner_session_closed_path o (Some g) = Ok p /\ readable_closure p c)).
Proof.
  unfold set_owner_session_closed, nonempty_owner, require_generation.
  apply wp_bind, wp_ensure; [intros _|auto]. apply wp_bind, wp_require_id; [intros Hg|auto].
  set (Q := stepped _ _). assert (He : forall e s', files s' = files s -> Q (Err e) s')
    by (intros e s' Hs'; apply stepped_err; by rewrite Hs').
  apply wp_bind. unfold check_closed_arguments.
  do 3 (apply wp_bind, wp_ensure; [intros _|intros _; by apply He]).
  apply wp_ensure; [intros _|intros _; by apply He].
  apply wp_bind, wp_lift. destruct (closing_path o) as [q|e] eqn:Hq; [|by apply He].
  apply wp_bind, wp_catch_read; [intros raw Hraw|intros e; by apply He].
  apply wp_bind, check_closing_inv; [intros d -> _ Hv|done|intros e; by apply He].
  assert (Hc : reads_closing (files s) o g) by (exists q, d; auto).
  apply wp_bind, wp_utc_now. intros s1 Hf1 _ _. apply wp_bind, wp_ensure; [intros _|intros _; by apply He].
  apply wp_bind, wp_readonly; [intros s'; apply readonly_files, readonly_check_legacy|]. intros r s2 Hf2.
  assert (Hf : files s2 = files s) by congruence. destruct r as [u|e]; [|by apply He].
  apply wp_bind, wp_lift. destruct (_owner_session_closed_path o (Some g)) as [p|e] eqn:Hp; [|by apply He].
  unfold Q. rewrite <- Hf in Hc |- *.
  apply wp_bind, wp_active_gen; [intros Hn|intros g' Ha|auto];
    (apply wp_bind, wp_read_closure; [intros Hn'|intros c' Hc' _|auto]);
    (eapply wp_mono; [apply wp_settle_closure; try done; by rewrite Hc'|]);
    intros r' s3 [Hs3 H3]; (split; [done|]); intros c3 Hr; destruct (H3 c3 Hr); eauto.
Qed.

(** ** Mirroring *)
Lemma wp_forget o c g s :
  match c with Some c => reads_closing (files s) o c | None => no_closing (files s) o end ->
  wp (match c with
      | Some c =>
          closure ← get_owner_session_closed o (Some c);
          _ ← ensure (negb (bool_decide (c = g)) && safely_closed closure)
                (QueueConflictError "owner session has unfinished local cleanup and rejects remote mirror: ");
          q ← lift (closing_path o); unlink_durable_path q
      | None => mret tt
      end) s (stepped (files s) (fun _ m => no_closing m o /\
        forall p, _owner_session_active_path o = Ok p -> m !! p = files s !! p)).
Proof.
  intros Hc. destruct c as [c|]; [|by apply wp_ret, stepped_ok].
  apply wp_bind, wp_safely_closed; [intros cl Hcl|auto].
  apply wp_bind, wp_ensure; [intros [_ Hsc]%andb_true_iff|auto].
  apply wp_bind, wp_lift. destruct (closing_path o) as [q|e] eqn:Hq; [|auto].
  apply wp_unlink; [intros s' Hs'|auto]. split; rewrite Hs'.
  - apply rtc_once. eapply step_forget; [done|done|]. by eapply closed_clean_of.
  - intros _ _. split; [exists q; split; [done|apply lookup_delete_eq]|].
    intros p Hp. apply lookup_delete_ne. eauto using not_eq_sym, active_closing.
Qed.

Lemma wp_mirror o g s :
  wp (mirror_owner_session_generation_open o g) s (stepped (files s) (fun _ m => reads_active m o g /\ no_closing m o)).
Proof.
  unfold mirror_owner_session_generation_open, nonempty_owner, require_generation.
  apply wp_bind, wp_ensure; [intros _|auto]. apply wp_bind, wp_require_id; [intros Hg|auto].
  apply (wp_records o s (fun _ _ a c => mirror_generation o g a c)); [|auto].
  intros active closing a c Ha Hc. unfold mirror_generation. apply wp_bind, wp_ensure; [intros Hb|auto].
  apply wp_bind. eapply wp_mono; [apply (wp_forget o c g); by destruct closing, c|].
  intros [u|e] s1 [Hs1 H1]; [|by split]. destruct (H1 u eq_refl) as [Hn1 Hk1].
  apply wp_bind, wp_safely_closed; [intros cl _|intros e; by apply stepped_err].
  apply wp_bind, wp_ensure; [intros _|intros _; by apply stepped_err].
  apply wp_bind. destruct active as [d|], a as [g'|]; try done.
  - apply wp_ret, wp_ret, stepped_ok; [done|]. split; [|done].
    apply orb_true_iff in Hb as [?%bool_decide_eq_true|[= ->]%bool_decide_eq_true]; [done|].
    by eapply active_kept.
  - apply wp_bind, wp_utc_now. intros s2 Hf2 _ _. apply wp_bind, wp_lift. destruct Ha as (p&Hp&Hf). rewrite Hp.
    eapply wp_mono; [eapply wp_write_active; [exact Hp| |done| |]|]; rewrite ?Hf2.
    + by rewrite Hk1.
    + destruct c as [c|]; [|done]. destruct closing; [by eapply closing_safe|done].
    + by left.
    + intros [u'|e] s3 [Hs3 H3]; [|split; [by etrans|done]]. destruct (H3 u' eq_refl) as [Ha3 Hk3].
      apply wp_ret, stepped_ok; [by etrans|]. split; [done|]. destruct Hn1 as (q&Hq&Hn). exists q. by rewrite Hk3.
Qed.

(** ** Calls that only read *)
Lemma touches_transition P p : touches P (_read_owner_session_transition_record p).
Proof. unfold _read_owner_session_transition_record, read_json_document. repeat step_touches. Qed.
Lemma touches_closure P p : touches P (read_optional_closure p).
Proof. unfold read_optional_closure. repeat step_touches. Qed.
#[local] Hint Resolve touches_transition touches_closure : touches.

Lemma touches_closing P o : touches P (read_closing o).
Proof. unfold read_closing. repeat step_touches. Qed.
Lemma touches_active P o : touches P (_owner_session_active_generation o).
Proof. unfold _owner_session_active_generation, read_active. repeat step_touches. Qed.
Lemma touches_get_closed P o g : touches P (get_owner_session_closed o g).
Proof. unfold get_owner_session_closed, nonempty_owner, require_generation. repeat step_touches. Qed.
#[local] Hint Resolve touches_closing touches_active touches_get_closed : touches.

Lemma touches_intent P o g : touches P (get_owner_session_cleanup_intent o g).
Proof. unfold get_owner_session_cleanup_intent, nonempty_owner, require_generation. repeat step_touches. Qed.
Lemma touches_status P o g : touches P (owner_session_generation_status o g).
Proof. unfold owner_session_generation_status, nonempty_owner, require_generation. repeat step_touches. Qed.
Lemma touches_clear P o g : touches P (clear_owner_session_closing o g).
Proof. unfold clear_owner_session_closing, nonempty_owner, require_generation. repeat step_touches. Qed.
Lemma touches_intake P meta ra : touches P (_assert_owner_session_intake_open_unlocked meta ra).
Proof. unfold _assert_owner_session_intake_open_unlocked. repeat step_touches. Qed.

Lemma wp_reopen o previous g s :
  wp (reopen_owner_session o previous g) s (stepped (files s) (fun _ m => reads_active m o g)).
Proof.
  unfold reopen_owner_session, nonempty_owner, require_generation.
  apply wp_bind, wp_ensure; [intros _|auto]. apply wp_bind, wp_require_id; [intros _|auto].
  apply wp_bind, wp_require_id; [intros _|auto]. apply wp_bind.
  eapply wp_mono; [apply wp_prepare_start|]. intros [x|e] s1 [Hs1 H1]; [|by split].
  apply wp_ensure; [intros Hx%bool_decide_eq_true|intros _; by apply stepped_err].
  apply stepped_ok; [done|]. subst x. by apply H1.
Qed.

(** ** Every call refines the changes *)
Lemma wp_forget_result {A : Type} (m : M disk A) (Q : A -> gmap path doc -> Prop) s :
  wp m s (stepped (files s) Q) -> session_steps (files s) (files ((_ ← m; mret tt) s).2).
Proof. intros [Hs _]. unfold mbind, M_bind. by destruct (m s) as [[a|e] s']. Qed.

Lemma session_refines call s : session_steps (files s) (files (call_session call s).2).
Proof.
  destruct call; cbn [call_session].
  - eapply wp_forget_result, wp_prepare_start.
  - rewrite readonly_files; [done|]. apply touches_clear.
  - eapply (wp_reopen owner previous generation s).
  - eapply wp_forget_result, wp_set_closing.
  - eapply wp_forget_result, wp_set_closed.
  - eapply wp_forget_result, wp_mirror.
  - rewrite readonly_files; [done|]. unfold readonly. repeat step_touches. apply touches_intent.
  - rewrite readonly_files; [done|]. unfold readonly. repeat step_touches. apply touches_status.
  - rewrite readonly_files; [done|]. apply touches_intake.
Qed.

Lemma history_refines calls s : session_steps (files s) (files (run_sessions calls s)).
Proof.
  revert s. induction calls as [|[o b] rest IH]; intros s; cbn [run_sessions]; [done|].
  etrans; [|apply IH]. by pose proof (session_refines o (set_budget b s)).
Qed.
End operations.
