(* ===== verification/OwnerSessionsClaims.v ===== *)
(** * What owner sessions promise

    The theorems about [OwnerSessions]: what any history of calls does to the session
    files, that a closing generation takes no more work, that a started generation stays
    accounted for, and that closures and cleanup intents are final.  The last two show
    where the code falls short. *)

From S2P Require Import Prelude Sha256 Json Identifiers Models Store OrderIndex OrderIndexProofs.
From S2P Require Import LeaseRecords Decimal Recovery OwnerSessions OwnerSessionsProofs OwnerSessionsRuns.
From stdpp Require Import base list gmap strings relations.
From Stdlib Require Import ZArith Lia.
From Stdlib Require Ascii String.
Open Scope Z_scope.

(** ** Names *)
Lemma safe_nonempty o : safe_global_record_id (JStr o) = true -> str_nonempty o = true.
Proof. by destruct o. Qed.

Lemma safe_require o f : safe_global_record_id (JStr o) = true -> require_durable_record_id (JStr o) f = Ok o.
Proof.
  unfold safe_global_record_id, require_durable_record_id.
  destruct (validate_durable_record_id (JStr o)) as [x|e] eqn:Hv; [|done]. by apply validate_str_ok in Hv as ->.
Qed.

Lemma require_safe g f x : require_durable_record_id (JStr g) f = Ok x -> safe_global_record_id (JStr g) = true.
Proof.
  unfold require_durable_record_id. destruct (validate_durable_record_id (JStr g)) as [y|[]] eqn:Hv; try done.
  intros _. unfold safe_global_record_id. by rewrite Hv.
Qed.

(** A portable name is its own label, so both lookups name one file. *)
Lemma intake_path_is_closing o :
  safe_global_record_id (JStr o) = true -> starts_with FILESYSTEM_KEY_PREFIX o = false ->
  closing_path o = Ok ["owner_sessions"; o +:+ ".closing.json"] /\
  intake_closing_path o = Ok ["owner_sessions"; o +:+ ".closing.json"].
Proof.
  intros Hs Hp. split; [|unfold intake_closing_path; by rewrite (safe_require _ _ Hs)].
  unfold closing_path, session_label, filesystem_key. cbn [mbind].
  change (_validate_filesystem_key_domain "owner-session") with (Ok tt : result unit). cbn.
  rewrite (safe_nonempty _ Hs). cbn. unfold _portable_passthrough_key. rewrite Hp.
  by change (is_ok (validate_durable_record_id (JStr o))) with (safe_global_record_id (JStr o)); rewrite Hs.
Qed.

Section claims.
Context `{World} `{IsoParser}.

(** ** Intake *)
Lemma read_transition_found p s d (H' : files s !! p = Some (DJson (JObj d))) :
  exists r, _read_owner_session_transition_record p s = (r, s) /\ (r = Ok (Some d) \/ exists e, r = Err e).
Proof.
  unfold _read_owner_session_transition_record, read_json_document, read_doc, mbind, M_bind. rewrite H'.
  destruct (_ <? _); cbn; eexists; split; eauto.
Qed.

Lemma intake_refused_closing meta ra owner g o s :
  _owner_session_identity meta false = Ok (Some (owner, Some g)) -> admission_session owner meta = Ok o ->
  intake_closing_path o = closing_path o -> quiesced (files s) o g ->
  exists e, (_assert_owner_session_intake_open_unlocked meta ra s).1 = Err e.
Proof.
  intros Hid Hadm Hpath Hq.
  enough (Hw : wp (_assert_owner_session_intake_open_unlocked meta ra) s (fun r _ => exists e, r = Err e)) by exact Hw.
  unfold _assert_owner_session_intake_open_unlocked. apply wp_bind, wp_lift. rewrite Hid.
  apply wp_bind, wp_lift. rewrite Hadm. apply wp_bind, wp_lift. rewrite Hpath.
  destruct (closing_path o) as [q|e] eqn:Hcp; [|eauto].
  destruct Hq as [(q'&d&Hq'&Hd&Hv)|(c&p&Hp&Hf&_)].
  - rewrite Hcp in Hq'. injection Hq' as <-.
    apply wp_bind, wp_transition; [congruence|intros d' Hd'|eauto]. rewrite Hd in Hd'. injection Hd' as <-.
    apply wp_bind, wp_lift. rewrite Hv. apply wp_bind, wp_ensure; eauto. by rewrite bool_decide_false.
  - apply wp_bind, wp_readonly; [intros s'; apply readonly_files; unfold readonly; apply touches_transition|].
    intros r s1 Hs1. destruct r as [r|e]; [|eauto]. apply wp_bind, wp_lift. destruct (_validate_owner_session_closing_record o r); [|eauto].
    apply wp_bind, wp_ensure; [intros _|eauto].
    apply wp_bind, wp_readonly; [intros s'; apply readonly_files; unfold readonly; apply touches_active|].
    intros r' s2 Hs2. destruct r' as [r'|e]; [|eauto].
    do 2 (apply wp_bind, wp_ensure; [intros _|eauto]).
    apply wp_bind, wp_get_closed; [intros p' Hp' Hn|intros cl _|eauto].
    + rewrite Hp in Hp'. injection Hp' as <-. rewrite Hs2, Hs1 in Hn. congruence.
    + apply wp_ensure; eauto. by rewrite bool_decide_false.
Qed.

(** C6: whatever calls are made and wherever each of them is stopped, the session files
    change only by the guarded steps of the specification [session_step]: a generation
    starts over no other, is closed only while it is active and marked closing, and is
    retired only behind its durable closure. *)
Theorem session_history_refines_steps calls s :
  rtc session_step (files s) (files (run_sessions calls s)).
Proof. apply history_refines. Qed.

(** C12: once a call marked a generation closing, no later intake for it succeeds, after
    any history of calls and crashes, for a session whose admission name does not begin
    with the reserved prefix. *)
Theorem closing_generation_admits_nothing o g operation policy s d calls meta owner ra b :
  (set_owner_session_closing o g operation policy s).1 = Ok d ->
  _owner_session_identity meta false = Ok (Some (owner, Some g)) -> admission_session owner meta = Ok o ->
  safe_global_record_id (JStr o) = true -> starts_with FILESYSTEM_KEY_PREFIX o = false ->
  exists e, (_assert_owner_session_intake_open_unlocked meta ra
    (set_budget b (run_sessions calls (set_owner_session_closing o g operation policy s).2))).1 = Err e.
Proof.
  intros Hr Hid Hadm Hsafe Hpre. destruct (intake_path_is_closing o Hsafe Hpre) as [Hc Hi].
  apply (intake_refused_closing meta ra owner g o); [done|done|congruence|].
  eapply steps_keep_quiesced; [apply history_refines|]. left. eapply closing_with_reads.
  by apply (wp_set_closing o g operation policy s).
Qed.

(** C19: a generation that a start call returned is, after any later history of calls and
    crashes, still active, or retired while still marked closing with nothing started in
    its place, or durably closed with no residual resources. *)
Theorem started_generation_accounted o recorded candidate s g calls :
  (prepare_owner_session_start o recorded candidate s).1 = Ok g ->
  accounted (files (run_sessions calls (prepare_owner_session_start o recorded candidate s).2)) o g.
Proof.
  intros Hr. eapply steps_keep_accounted; [apply history_refines|]. left. by apply (wp_prepare_start o recorded candidate s).
Qed.

(** C28: the closure a closing call returned is the one every later read returns, after any
    history of calls and crashes. *)
Theorem closure_is_final o g residual legacy s c calls b :
  (set_owner_session_closed o g residual legacy s).1 = Ok c ->
  (get_owner_session_closed o (Some g)
     (set_budget b (run_sessions calls (set_owner_session_closed o g residual legacy s).2))).1 = Ok (Some c).
Proof.
  intros Hr. set (s2 := set_budget b _).
  destruct (proj2 (wp_set_closed o g residual legacy s) c Hr) as (Hc&p&Hp&Hv&Hfit).
  assert (Hc2 : closure_of (files s2) o g c) by (eapply steps_keep_closure; [apply history_refines|done]).
  destruct Hc2 as (p'&Hp'&Hd&Ho&Hg). rewrite Hp in Hp'. injection Hp' as <-.
  assert (Hids : str_nonempty o = true /\ safe_global_record_id (JStr g) = true).
  { revert Hr. unfold set_owner_session_closed, nonempty_owner, require_generation, ensure, raise_unless, lift, mbind, M_bind.
    destruct (str_nonempty o); [|done]. cbn. destruct (require_durable_record_id (JStr g) _) as [x|e] eqn:Hq; [|done].
    intros _. split; [done|]. by eapply require_safe. }
  destruct Hids as [Hne Hsafe].
  enough (Hw : wp (get_owner_session_closed o (Some g)) s2 (fun r _ => r = Ok (Some c))) by exact Hw.
  unfold get_owner_session_closed, nonempty_owner, require_generation.
  apply wp_bind, wp_ensure; [intros _|congruence].
  apply wp_bind, wp_bind, wp_lift. rewrite (safe_require _ _ Hsafe). apply wp_ret, wp_bind, wp_lift. rewrite Hp.
  apply wp_bind. unfold wp at 1, read_optional_closure, read_doc, mbind, M_bind. rewrite Hd.
  rewrite (proj2 (Z.ltb_ge _ _) Hfit). cbn. rewrite Hv. cbn.
  unfold wp, ensure, lift, raise_unless, mbind, M_bind. by rewrite Ho, Hg, !bool_decide_true.
Qed.

(** A cleanup policy is decided once: after any later history a second successful
    closing call for the generation returns the intent of the first, unless the
    generation was durably closed with nothing left in the meantime. *)
Theorem closing_intent_fixed o g operation policy s d calls operation' policy' b d' :
  let s1 := (set_owner_session_closing o g operation policy s).2 in
  let s2 := set_budget b (run_sessions calls s1) in
  (set_owner_session_closing o g operation policy s).1 = Ok d ->
  (set_owner_session_closing o g operation' policy' s2).1 = Ok d' ->
  d' = d \/ closed_clean (files (set_owner_session_closing o g operation' policy' s2).2) o g.
Proof.
  intros s1 s2 Hr Hr'. destruct (wp_set_closing o g operation' policy' s2) as [Hs2 H2].
  specialize (H2 d' Hr'). destruct (wp_set_closing o g operation policy s) as [_ H1]. specialize (H1 d Hr).
  destruct (steps_keep_pinned (files s1) (files (set_owner_session_closing o g operation' policy' s2).2) o g (JObj d))
    as [(q&x&Hq&Hx&_&Hi)|Hcl]; [|by left| |by right].
  - etrans; [apply (history_refines calls)|exact Hs2].
  - left. destruct H2 as (q'&x'&Hq'&Hx'&_&Hi'). rewrite Hq in Hq'. injection Hq' as <-. congruence.
Qed.

(** ** Status *)
Lemma transition_same p s : exists r, _read_owner_session_transition_record p s = (r, s).
Proof.
  unfold _read_owner_session_transition_record, read_json_document, read_doc, mbind, M_bind.
  destruct (files s !! p) as [d|]; [|by eexists]. destruct (_ <? _); [by eexists|].
  destruct d as [[]| | | | | | | | | | | | | | | |]; by eexists.
Qed.

Lemma active_same o s : exists r, _owner_session_active_generation o s = (r, s).
Proof.
  unfold _owner_session_active_generation, read_active, lift, mbind, M_bind.
  destruct (_owner_session_active_path o) as [p|e]; [|by eexists].
  destruct (transition_same p s) as [[a|e] ->]; by eexists.
Qed.

Lemma closed_same o g s : exists r, get_owner_session_closed o (Some g) s = (r, s).
Proof.
  unfold get_owner_session_closed, nonempty_owner, require_generation, ensure, raise_unless, lift, mbind, M_bind.
  destruct (str_nonempty o); [|by eexists]. cbn. destruct (require_durable_record_id _ _) as [x|e]; [|by eexists]. cbn.
  destruct (_owner_session_closed_path o (Some x)) as [p|e]; [|by eexists].
  unfold read_optional_closure, read_doc, mbind, M_bind.
  destruct (files s !! p) as [d|]; [|by eexists]. destruct (_ <? _); [by eexists|].
  destruct d; try by eexists. unfold ensure, raise_unless, lift. destruct (valid_closure c); [|by eexists].
  cbn. destruct (_ && _); by eexists.
Qed.

(** What the status report says of a generation that new work may join: it is open, or work
    without an active session is allowed and the session has no active generation, is not
    closing, and the generation is not closed. *)
Definition admitting (require_active : bool) (status : list (string * json)) : Prop :=
  dict_get "open" status = Some (JBool true) \/
  require_active = false /\ dict_get "active_generation_id" status = Some JNull /\
  dict_get "closing_generation_id" status = Some JNull /\ dict_get "closed" status = Some (JBool false).

(** C29: new work for a generation is admitted exactly when the status report for it can be
    read and says the generation is open, or, for the calls that do not require an active
    session, such as the submission of a job, says that the session has no active
    generation, that none is closing and that this one is not closed.  The name the
    session is admitted under must not begin with the reserved prefix. *)
Theorem intake_agrees_with_status o g meta owner ra s :
  _owner_session_identity meta false = Ok (Some (owner, Some g)) -> admission_session owner meta = Ok o ->
  safe_global_record_id (JStr o) = true -> safe_global_record_id (JStr g) = true ->
  starts_with FILESYSTEM_KEY_PREFIX o = false ->
  (_assert_owner_session_intake_open_unlocked meta ra s).1 = Ok tt <->
  exists status, (owner_session_generation_status o g s).1 = Ok status /\ admitting ra status.
Proof.
  intros Hid Hadm Hsafe Hg Hpre. destruct (intake_path_is_closing o Hsafe Hpre) as [Hc Hi].
  destruct (transition_same ["owner_sessions"; o +:+ ".closing.json"] s) as [rc Hrc].
  destruct (active_same o s) as [ra' Hra]. destruct (closed_same o g s) as [rk Hrk].
  unfold _assert_owner_session_intake_open_unlocked, owner_session_generation_status, nonempty_owner,
    require_generation, read_closing, ensure, raise_unless, lift, mbind, M_bind.
  rewrite Hid, Hadm, Hi, Hc, (safe_nonempty o Hsafe), (safe_require g _ Hg), Hrc, Hra. cbn.
  assert (Herr : forall e e', Err e = Ok tt <-> exists status : list (string * json),
      (Err e' : result _) = Ok status /\ admitting ra status) by (split; [done|by intros (?&?&?)]).
  assert (Hshut : forall e closed a c x y z i k, Err e = Ok tt <-> exists status,
      Ok (admission_status o g a (Some c) y z closed (x && false && negb closed) i k) = Ok status /\ admitting ra status).
  { intros e closed a c x y z i k. rewrite andb_false_r. split; [done|].
    by intros (st&[= <-]&[?|(_&_&?&_)]). }
  destruct ra' as [a|e]; cbn; rewrite ?Hrc; (destruct rc as [raw|e']; cbn; [|apply Herr]);
    (destruct (_validate_owner_session_closing_record o raw) as [[c|]|e']; cbn; [| |apply Herr]); try (by apply Herr).
  - destruct (bool_decide (Some c = Some g)); cbn.
    + destruct (_validate_owner_session_cleanup_intent _ _ _ _) as [i|e]; cbn; [|apply Herr].
      rewrite Hrk. destruct rk as [k|e]; cbn; [apply Hshut|apply Herr].
    + rewrite Hrk. destruct rk as [k|e]; cbn; [apply Hshut|apply Herr].
  - rewrite (bool_decide_false (None = Some g)) by done. cbn. rewrite Hrk.
    destruct (bool_decide_reflect (a = None)) as [->|Hna]; cbn.
    { destruct ra; cbn.
      - destruct rk as [k|e]; cbn; [|apply Herr]. split; [done|]. by intros (st&[= <-]&[?|[? _]]).
      - rewrite ?Hrk. destruct rk as [[k|]|e]; cbn; [| |apply Herr].
        + split; [done|]. by intros (st&[= <-]&[?|(_&_&_&?)]).
        + split; [|done]. intros _. eexists. split; [done|]. by right. }
    rewrite andb_false_r. cbn. destruct (bool_decide_reflect (a = Some g)) as [->|Hng]; cbn; rewrite ?Hrk.
    + destruct rk as [[k|]|e]; cbn; [| |apply Herr].
      * split; [done|]. by intros (st&[= <-]&[?|(_&?&_)]).
      * split; [|done]. intros _. eexists. split; [done|]. by left.
    + destruct rk as [k|e]; cbn; [|apply Herr]. split; [done|]. intros (st&[= <-]&[?|(_&Ha&_)]); [done|].
      destruct a; [discriminate Ha|by destruct Hna].
Qed.
End claims.
