(* ===== verification/OwnerSessionsRotation.v ===== *)
(** * A session can always be rotated

    The liveness side of [OwnerSessions]: when nothing stops it, a session starts a
    generation, quiesces it, closes it and starts the next one.  The size limits of the
    store never get in the way of identifiers and times of ordinary length. *)

From S2P Require Import Prelude Sha256 Json JsonSize Identifiers Models Store OrderIndex OrderIndexProofs.
From S2P Require Import LeaseRecords Decimal Recovery OwnerSessions OwnerSessionsProofs OwnerSessionsRuns.
From S2P Require Import OwnerSessionsClaims.
From stdpp Require Import base list gmap strings relations.
From Stdlib Require Import ZArith Lia.
From Stdlib Require Ascii String.
Open Scope Z_scope.

(** Ordinary lengths. *)
Definition short (s : string) : Prop := (String.length s <= 256)%nat.

Section rotation.
Context `{World}.

(** ** Sizes *)
Lemma session_json_fits n v :
  (Z.of_nat (size_bound v) <= 65536) -> fits ["owner_sessions"; n] (DJson v).
Proof.
  intros Hb. unfold fits. change (record_max_bytes ["owner_sessions"; n]) with 65536. cbn [encoded_size].
  pose proof (length_dumps_default v). lia.
Qed.

Lemma safe_short g : safe_global_record_id (JStr g) = true -> short g.
Proof.
  unfold safe_global_record_id. destruct (validate_durable_record_id (JStr g)) as [x|] eqn:Hv; [|done].
  intros _. apply validate_ok_inv in Hv as ([= ->]&Hl&_&_). unfold short. lia.
Qed.

Lemma active_fits n o g previous mirrored t :
  short o -> short g -> match previous with Some q => short q | None => True end -> short (isoformat t) ->
  fits ["owner_sessions"; n] (DJson (active_document o g previous mirrored t)).
Proof.
  unfold short. intros Ho Hg Hq Ht. apply session_json_fits. unfold active_document.
  revert Ht. generalize (isoformat t). intros text Ht.
  destruct previous as [q|], mirrored; cbn [JOptStr app size_bound fmap list_fmap fst snd]; unfold sum_nat;
    cbn [foldr String.length]; lia.
Qed.

Lemma intent_size operation o g p t :
  short operation -> short o -> short g -> short (isoformat t) ->
  Z.of_nat (size_bound (JObj (cleanup_intent_document operation o g p t))) <= 20000.
Proof.
  unfold short. intros Hop Ho Hg Ht. unfold cleanup_intent_document.
  revert Ht. generalize (isoformat t). intros text Ht.
  cbn [size_bound fmap list_fmap fst snd]. unfold sum_nat. cbn [foldr String.length]. lia.
Qed.

Lemma closing_fits n o g intent t :
  short o -> short g -> short (isoformat t) -> Z.of_nat (size_bound (JObj intent)) <= 20000 ->
  fits ["owner_sessions"; n] (DJson (closing_document o g intent t)).
Proof.
  unfold short. intros Ho Hg Ht Hi. apply session_json_fits. unfold closing_document.
  revert Ht Hi. generalize (isoformat t). intros text Ht. generalize (JObj intent). intros v Hi.
  cbn [size_bound fmap list_fmap fst snd]. unfold sum_nat. cbn [foldr String.length]. lia.
Qed.

Context `{IsoParser}.

(** ** Reads and writes that go through *)
Lemma transition_none p s : files s !! p = None -> _read_owner_session_transition_record p s = (Ok None, s).
Proof. intros Hp. unfold _read_owner_session_transition_record, read_json_document, read_doc, mbind, M_bind. by rewrite Hp. Qed.

Lemma transition_some p d s :
  files s !! p = Some (DJson (JObj d)) -> fits p (DJson (JObj d)) ->
  _read_owner_session_transition_record p s = (Ok (Some d), s).
Proof.
  intros Hp Hf. unfold _read_owner_session_transition_record, read_json_document, read_doc, mbind, M_bind.
  by rewrite Hp, (proj2 (Z.ltb_ge _ _) Hf).
Qed.

Lemma closure_none p s : files s !! p = None -> read_optional_closure p s = (Ok None, s).
Proof. intros Hp. unfold read_optional_closure, read_doc, mbind, M_bind. by rewrite Hp. Qed.

Lemma closure_run p c s :
  files s !! p = Some (DClosure c) -> readable_closure p c -> read_optional_closure p s = (Ok (Some c), s).
Proof.
  intros Hp [Hv Hf]. unfold read_optional_closure, read_doc, mbind, M_bind.
  rewrite Hp, (proj2 (Z.ltb_ge _ _) Hf). cbn. by rewrite Hv.
Qed.

Lemma label_ok o : str_nonempty o = true -> exists l, session_label o = Ok l.
Proof.
  intros Ho. unfold session_label, filesystem_key.
  change (_validate_filesystem_key_domain "owner-session") with (Ok tt : result unit). cbn. rewrite Ho. cbn.
  destruct (_portable_passthrough_key o); by eexists.
Qed.

(** The two transition files of a session, and the closure of a generation. *)
Lemma session_files o : str_nonempty o = true -> exists a c,
  _owner_session_active_path o = Ok ["owner_sessions"; a] /\ closing_path o = Ok ["owner_sessions"; c] /\
  forall g, exists p, _owner_session_closed_path o (Some g) = Ok p.
Proof.
  intros [l Hl]%label_ok. exists (l +:+ ".active.json"), (l +:+ ".closing.json").
  unfold _owner_session_active_path, closing_path, _owner_session_closed_path. rewrite Hl. cbn. eauto.
Qed.

(** What is stored at a path can be read. *)
Definition fit_at (s : disk) (p : path) : Prop := forall d, files s !! p = Some d -> fits p d.

Lemma read_active_none o s : no_active (files s) o -> read_active o s = (Ok None, s).
Proof.
  intros (p&Hp&Hn). unfold read_active, lift, mbind, M_bind. rewrite Hp. by apply transition_none.
Qed.
Lemma read_closing_none o s : no_closing (files s) o -> read_closing o s = (Ok None, s).
Proof. intros (p&Hp&Hn). unfold read_closing, lift, mbind, M_bind. rewrite Hp. by apply transition_none. Qed.

Lemma read_active_run o g s :
  reads_active (files s) o g -> (forall p, _owner_session_active_path o = Ok p -> fit_at s p) ->
  exists d, read_active o s = (Ok (Some d), s) /\ _validate_owner_session_active_record o (Some d) = Ok (Some g).
Proof.
  intros (p&d&Hp&Hd&Hv) Hf. exists d. split; [|done]. unfold read_active, lift, mbind, M_bind. rewrite Hp.
  apply transition_some; [done|]. by apply (Hf p Hp).
Qed.
Lemma read_closing_run o g i s :
  closing_with (files s) o g i -> (forall p, closing_path o = Ok p -> fit_at s p) ->
  exists d, read_closing o s = (Ok (Some d), s) /\ _validate_owner_session_closing_record o (Some d) = Ok (Some g) /\
    get_value "cleanup_intent" d = i.
Proof.
  intros (p&d&Hp&Hd&Hv&Hi) Hf. exists d. split; [|done]. unfold read_closing, lift, mbind, M_bind. rewrite Hp.
  apply transition_some; [done|]. by apply (Hf p Hp).
Qed.

Lemma active_gen_run o g s :
  reads_active (files s) o g -> (forall p, _owner_session_active_path o = Ok p -> fit_at s p) ->
  _owner_session_active_generation o s = (Ok (Some g), s).
Proof.
  intros Ha Hf. destruct (read_active_run o g s Ha Hf) as (d&Hd&Hv).
  unfold _owner_session_active_generation. rewrite (M_bind_run _ _ _ _ _ Hd). unfold lift. by rewrite Hv.
Qed.

Lemma check_closing_run o g d s :
  safe_global_record_id (JStr g) = true -> _validate_owner_session_closing_record o (Some d) = Ok (Some g) ->
  check_closing_proof o g (Some (JObj d)) s = (Ok tt, s).
Proof.
  intros Hg Hv. pose proof (validate_closing_inv _ _ _ Hv) as [_ Hgd].
  assert (Hgid : dict_get "session_generation_id" d = Some (JStr g)).
  { unfold safe_text in Hgd. destruct (dict_get _ d) as [[| | | |x| |]|]; try done.
    destruct (safe_global_record_id (JStr x)); congruence. }
  unfold check_closing_proof, get_value. unfold _validate_owner_session_closing_record in Hv.
  rewrite Hgd in Hv. destruct (is_string o _ && is_true _) eqn:Hb; [|done]. rewrite Hgid.
  unfold ensure, raise_unless, lift, mbind, M_bind. cbn. by rewrite bool_decide_true.
Qed.

Lemma get_closed_run o g c s :
  str_nonempty o = true -> safe_global_record_id (JStr g) = true -> closure_of (files s) o g c ->
  (forall p, _owner_session_closed_path o (Some g) = Ok p -> readable_closure p c) ->
  get_owner_session_closed o (Some g) s = (Ok (Some c), s).
Proof.
  intros Ho Hg (p&Hp&Hc&Hco&Hcg) Hrd.
  unfold get_owner_session_closed, nonempty_owner, require_generation, ensure, raise_unless, lift, mbind, M_bind.
  rewrite Ho, (safe_require g _ Hg). cbn. rewrite Hp, (closure_run p c s Hc (Hrd p Hp)). cbn.
  by rewrite Hco, Hcg, !bool_decide_true.
Qed.

Lemma write_doc_run p d s :
  fits p d -> budget s = None -> write_doc p d s = (Ok tt, mkDisk (<[p := d]> (files s)) None (ticks s) (draws s)).
Proof. intros Hf Hb. unfold write_doc, durable. rewrite (proj2 (Z.ltb_ge _ _) Hf), Hb. destruct s. cbn in *. by subst. Qed.
Lemma unlink_run p s :
  budget s = None -> unlink_durable_path p s = (Ok tt, mkDisk (delete p (files s)) None (ticks s) (draws s)).
Proof. intros Hb. unfold unlink_durable_path, durable. rewrite Hb. destruct s. cbn in *. by subst. Qed.

(** ** The four calls *)
Context (o : string) (pa pc : string).
Context (Hname : str_nonempty o = true) (Hshort : short o).
Context (Hpa : _owner_session_active_path o = Ok ["owner_sessions"; pa]).
Context (Hpc : closing_path o = Ok ["owner_sessions"; pc]).
Context (Htimes : forall n, short (isoformat (clock n))).

#[local] Abbreviation active_file := ["owner_sessions"; pa].
#[local] Abbreviation closing_file := ["owner_sessions"; pc].

Lemma fit_active s : fit_at s active_file -> forall p, _owner_session_active_path o = Ok p -> fit_at s p.
Proof. intros Hf p Hp. rewrite Hpa in Hp. by injection Hp as <-. Qed.
Lemma fit_closing s : fit_at s closing_file -> forall p, closing_path o = Ok p -> fit_at s p.
Proof. intros Hf p Hp. rewrite Hpc in Hp. by injection Hp as <-. Qed.

Lemma start_run g s :
  budget s = None -> safe_global_record_id (JStr g) = true -> no_active (files s) o -> no_closing (files s) o ->
  prepare_owner_session_start o None g s = (Ok g,
    mkDisk (<[active_file := DJson (active_document o g None false (clock (ticks s)))]> (files s)) None
      (S (ticks s)) (draws s)).
Proof.
  intros Hb Hg Ha Hc. unfold prepare_owner_session_start, nonempty_owner, ensure, raise_unless, lift.
  rewrite (M_bind_run _ _ _ tt s) by (by rewrite Hname). rewrite (M_bind_run _ _ _ None s) by done.
  rewrite (M_bind_run _ _ _ g s) by (by rewrite (safe_require g _ Hg)).
  rewrite (M_bind_run _ _ _ _ _ (read_active_none o s Ha)), (M_bind_run _ _ _ _ _ (read_closing_none o s Hc)).
  rewrite (M_bind_run _ _ _ None s), (M_bind_run _ _ _ None s) by done.
  unfold start_generation, ensure, raise_unless, lift. rewrite (M_bind_run _ _ _ tt s) by done.
  erewrite (M_bind_run utc_now) by reflexivity.
  rewrite Hpa. erewrite (M_bind_run (fun s => (Ok active_file, s))) by reflexivity.
  erewrite M_bind_run; [done|]. apply write_doc_run; [|done]. by apply active_fits; [|apply safe_short|..].
Qed.

Lemma closing_run g p intent s :
  intent = cleanup_intent_document ("cleanup_" +:+ uuid4_at (draws s)) o g p (clock (ticks s)) ->
  budget s = None -> safe_global_record_id (JStr g) = true -> reads_active (files s) o g -> fit_at s active_file ->
  no_closing (files s) o -> cancel_scheduler_jobs p && negb (cancel_jobs p) = false ->
  set_owner_session_closing o g None p s = (Ok intent,
    mkDisk (<[closing_file := DJson (closing_document o g intent (clock (S (ticks s))))]> (files s)) None
      (S (S (ticks s))) (S (draws s))).
Proof.
  intros -> Hb Hg Ha Hfa Hc Hp.
  unfold set_owner_session_closing, nonempty_owner, require_generation, ensure, raise_unless, lift.
  rewrite (M_bind_run _ _ _ tt s) by (by rewrite Hname). rewrite (M_bind_run _ _ _ g s) by (by rewrite (safe_require g _ Hg)).
  rewrite (M_bind_run _ _ _ tt s) by done. rewrite (M_bind_run _ _ _ tt s) by (by rewrite Hp).
  rewrite (M_bind_run _ _ _ _ _ (read_closing_none o s Hc)), (M_bind_run _ _ _ None s) by done.
  rewrite (M_bind_run _ _ _ _ _ (active_gen_run o g s Ha (fit_active s Hfa))).
  rewrite (M_bind_run _ _ _ false s) by (unfold closing_retry; by rewrite bool_decide_true).
  unfold settle_cleanup_intent, ensure, raise_unless, lift. rewrite (M_bind_run _ _ _ tt s), (M_bind_run _ _ _ None s), (M_bind_run _ _ _ tt s) by done.
  rewrite (M_bind_run _ _ _ ("cleanup_" +:+ uuid4_at (draws s)) (mkDisk (files s) (budget s) (ticks s) (S (draws s)))) by done.
  rewrite (M_bind_run _ _ _ (clock (ticks s)) (mkDisk (files s) (budget s) (S (ticks s)) (S (draws s)))) by done.
  rewrite (M_bind_run _ _ _ (clock (S (ticks s))) (mkDisk (files s) (budget s) (S (S (ticks s))) (S (draws s)))) by done.
  rewrite Hpc. rewrite (M_bind_run _ _ _ closing_file (mkDisk (files s) (budget s) (S (S (ticks s))) (S (draws s)))) by done.
  erewrite M_bind_run; [done|]. apply write_doc_run; [|done].
  apply closing_fits; [done|by apply safe_short|done|]. apply intent_size; [|done|by apply safe_short|done].
  unfold short. rewrite string_length_app. destruct (uuid4_shape (draws s)) as [_ ->]. cbn. lia.
Qed.

Definition fresh_closure (g : string) (t : Z) : OwnerSessionClosure :=
  mkClosure closure_schema o (Some g) None [] [] t.

Lemma write_closure_run n p c s :
  files s !! p = None -> readable_closure p c -> budget s = None ->
  write_closure (S n) p c s = (Ok c, mkDisk (<[p := DClosure c]> (files s)) None (ticks s) (draws s)).
Proof.
  intros Hn Hrd Hb. cbn [write_closure].
  rewrite (M_bind_run _ _ _ _ _ (closure_none p s Hn)).
  rewrite (M_bind_run _ _ _ _ _ (write_doc_run p _ s (proj2 Hrd) Hb)).
  erewrite (M_bind_run (read_optional_closure p)) by (apply closure_run; [apply lookup_insert_eq|done]).
  unfold ensure, raise_unless, lift, mbind, M_bind. by rewrite bool_decide_true by (by destruct c).
Qed.

Lemma settle_closure_run g c p s :
  budget s = None -> files s !! p = None -> readable_closure p c -> is_Some (files s !! closing_file) ->
  closing_file <> active_file -> closing_file <> p ->
  settle_closure o g [] c p closing_file (Some g) None s =
    (Ok c, mkDisk (delete active_file (<[p := DClosure c]> (files s))) None (ticks s) (draws s)).
Proof.
  intros Hb Hn Hrd Hc Hca Hcp. unfold settle_closure, ensure, raise_unless, lift.
  rewrite (M_bind_run _ _ _ tt s) by (by rewrite bool_decide_true).
  rewrite (M_bind_run _ _ _ _ _ (write_closure_run 2 p c s Hn Hrd Hb)).
  erewrite (M_bind_run (cover_legacy_jobs _ _ _)) by reflexivity.
  rewrite Hpa. erewrite (M_bind_run (fun s => (Ok active_file, s))) by reflexivity.
  erewrite (M_bind_run (unlink_durable_path _)) by (by apply unlink_run). cbn [files ticks draws].
  erewrite (M_bind_run (path_exists _)) by reflexivity. erewrite M_bind_run; [done|]. cbn [files].
  rewrite bool_decide_true; [done|]. by rewrite lookup_delete_ne, lookup_insert_ne by done.
Qed.

Lemma closed_run g i p s :
  budget s = None -> safe_global_record_id (JStr g) = true ->
  reads_active (files s) o g -> fit_at s active_file -> closing_with (files s) o g i -> fit_at s closing_file ->
  _owner_session_closed_path o (Some g) = Ok p -> files s !! p = None ->
  readable_closure p (fresh_closure g (clock (ticks s))) ->
  set_owner_session_closed o g None None s = (Ok (fresh_closure g (clock (ticks s))),
    mkDisk (delete active_file (<[p := DClosure (fresh_closure g (clock (ticks s)))]> (files s))) None
      (S (ticks s)) (draws s)).
Proof.
  intros Hb Hg Ha Hfa Hc Hfc Hp Hn Hrd.
  destruct Hc as (q&d&Hq&Hd&Hv&_). rewrite Hpc in Hq. injection Hq as <-.
  unfold set_owner_session_closed, nonempty_owner, require_generation, ensure, raise_unless, lift.
  rewrite (M_bind_run _ _ _ tt s) by (by rewrite Hname). rewrite (M_bind_run _ _ _ g s) by (by rewrite (safe_require g _ Hg)).
  cbv zeta. rewrite (M_bind_run _ _ _ tt s) by done. rewrite Hpc. erewrite (M_bind_run (fun s => (Ok closing_file, s))) by reflexivity.
  rewrite (M_bind_run _ _ _ (Some (JObj d)) s).
  2:{ unfold catch_unreadable, read_json_document, read_doc, mbind, M_bind.
      by rewrite Hd, (proj2 (Z.ltb_ge _ _) (Hfc _ Hd)). }
  rewrite (M_bind_run _ _ _ _ _ (check_closing_run o g d s Hg Hv)).
  set (s1 := mkDisk (files s) (budget s) (S (ticks s)) (draws s)).
  rewrite (M_bind_run utc_now _ s (clock (ticks s)) s1) by done.
  change (mkClosure _ _ _ _ _ _ _) with (fresh_closure g (clock (ticks s))).
  rewrite (M_bind_run _ _ _ tt s1) by (by rewrite (proj1 Hrd)). rewrite (M_bind_run _ _ _ tt s1) by done.
  rewrite Hp. erewrite (M_bind_run (fun s => (Ok p, s))) by reflexivity.
  rewrite (M_bind_run _ _ _ _ _ (active_gen_run o g s1 Ha (fit_active s1 Hfa))).
  rewrite (M_bind_run _ _ _ _ _ (closure_none p s1 Hn)).
  apply settle_closure_run; try done.
  - eauto using not_eq_sym, active_closing.
  - eauto using closing_closed.
Qed.

Lemma restart_run g g2 i c p s :
  budget s = None -> safe_global_record_id (JStr g) = true -> safe_global_record_id (JStr g2) = true -> g2 <> g ->
  no_active (files s) o -> closing_with (files s) o g i -> fit_at s closing_file ->
  _owner_session_closed_path o (Some g) = Ok p -> closure_of (files s) o g c -> readable_closure p c ->
  residual_resource_ids c = [] ->
  prepare_owner_session_start o (Some g) g2 s = (Ok g2,
    mkDisk (delete closing_file
      (<[active_file := DJson (active_document o g2 (Some g) false (clock (ticks s)))]> (files s))) None
      (S (ticks s)) (draws s)).
Proof.
  intros Hb Hg Hg2 Hne Ha Hc Hfc Hp Hcl Hrd Hres.
  destruct (read_closing_run o g i s Hc (fit_closing s Hfc)) as (d&Hd&Hv&_).
  unfold prepare_owner_session_start, nonempty_owner, ensure, raise_unless, lift.
  rewrite (M_bind_run _ _ _ tt s) by (by rewrite Hname).
  rewrite (M_bind_run _ _ _ (Some g) s) by (by rewrite (safe_require g _ Hg)).
  rewrite (M_bind_run _ _ _ g2 s) by (by rewrite (safe_require g2 _ Hg2)).
  rewrite (M_bind_run _ _ _ _ _ (read_active_none o s Ha)), (M_bind_run _ _ _ _ _ Hd).
  rewrite (M_bind_run _ _ _ None s) by done. rewrite Hv. erewrite (M_bind_run (fun s => (Ok (Some g), s))) by reflexivity.
  unfold start_generation, ensure, raise_unless, lift. rewrite (M_bind_run _ _ _ tt s).
  2:{ rewrite (M_bind_run _ _ _ tt s) by (by rewrite bool_decide_true).
      rewrite (M_bind_run _ _ _ (Some c) s).
      2:{ apply get_closed_run; try done. intros p' Hp'. rewrite Hp in Hp'. by injection Hp' as <-. }
      rewrite (M_bind_run _ _ _ tt s) by (unfold safely_closed; by rewrite Hres, bool_decide_true).
      by rewrite bool_decide_false. }
  set (s1 := mkDisk (files s) (budget s) (S (ticks s)) (draws s)).
  rewrite (M_bind_run utc_now _ s (clock (ticks s)) s1) by done.
  rewrite Hpa. erewrite (M_bind_run (fun s => (Ok active_file, s))) by reflexivity.
  erewrite (M_bind_run (write_doc _ _)).
  2:{ apply write_doc_run; [|done]. apply active_fits; [done|by apply safe_short|by apply safe_short|done]. }
  rewrite Hpc. erewrite M_bind_run; [done|].
  unfold mbind, M_bind. rewrite unlink_run by done. reflexivity.
Qed.

End rotation.

(** ** A full rotation *)
Section rotates.
Context `{World} `{IsoParser}.

(** The states of the four calls, one after the other. *)
Lemma rotation_states o pa pc g g2 p policy s :
  budget s = None -> str_between 1 256 o = true -> str_nonempty o = true -> short o ->
  _owner_session_active_path o = Ok ["owner_sessions"; pa] -> closing_path o = Ok ["owner_sessions"; pc] ->
  safe_global_record_id (JStr g) = true -> safe_global_record_id (JStr g2) = true -> g2 <> g ->
  cancel_scheduler_jobs policy && negb (cancel_jobs policy) = false ->
  no_active (files s) o -> no_closing (files s) o ->
  _owner_session_closed_path o (Some g) = Ok p -> files s !! p = None ->
  (forall n, short (isoformat (clock n))) -> (forall t, fits p (DClosure (fresh_closure o g t))) ->
  exists s1 intent s2 c s3 s4,
    prepare_owner_session_start o None g s = (Ok g, s1) /\
    set_owner_session_closing o g None policy s1 = (Ok intent, s2) /\
    set_owner_session_closed o g None None s2 = (Ok c, s3) /\
    prepare_owner_session_start o (Some g) g2 s3 = (Ok g2, s4) /\ residual_resource_ids c = [] /\
    files s4 !! ["owner_sessions"; pc] = None.
Proof.
  intros Hb Hlen Hname Hshort Hpa Hpc Hg Hg2 Hne Hpol Ha Hc Hp Hn Ht Hfit.
  assert (Hac : ["owner_sessions"; pa] <> ["owner_sessions"; pc]) by (by eapply active_closing).
  assert (Hap : ["owner_sessions"; pa] <> p) by (by eapply active_closed).
  assert (Hcp : ["owner_sessions"; pc] <> p) by (by eapply closing_closed).
  pose proof (start_run o pa Hname Hshort Hpa Ht g s Hb Hg Ha Hc) as H1.
  set (s1 := mkDisk _ _ _ _) in H1.
  assert (Ha1 : reads_active (files s1) o g) by (by apply active_document_reads).
  assert (Hfa1 : fit_at s1 ["owner_sessions"; pa]).
  { intros d Hd. cbn in Hd. rewrite lookup_insert_eq in Hd. injection Hd as <-. by apply active_fits; [|apply safe_short|..]. }
  assert (Hc1 : no_closing (files s1) o).
  { exists ["owner_sessions"; pc]. split; [done|]. cbn. rewrite lookup_insert_ne by done.
    destruct Hc as (q&Hq&Hqn). rewrite Hpc in Hq. by injection Hq as <-. }
  pose proof (closing_run o pa pc Hname Hshort Hpa Hpc Ht g policy _ s1 eq_refl eq_refl Hg Ha1 Hfa1 Hc1 Hpol) as H2.
  set (intent := cleanup_intent_document _ _ _ _ _) in H2. set (s2 := mkDisk _ _ _ _) in H2.
  assert (Hc2 : closing_with (files s2) o g (Some (JObj intent))) by (by apply closing_document_with).
  assert (Ha2 : reads_active (files s2) o g).
  { eapply active_kept; [exact Ha1|]. intros q Hq. rewrite Hpa in Hq. injection Hq as <-. by apply keeps_insert. }
  assert (Hfa2 : fit_at s2 ["owner_sessions"; pa]).
  { intros d Hd. apply Hfa1. cbn in Hd |- *. by rewrite lookup_insert_ne in Hd by done. }
  assert (Hfc2 : fit_at s2 ["owner_sessions"; pc]).
  { intros d Hd. cbn in Hd. rewrite lookup_insert_eq in Hd. injection Hd as <-.
    apply closing_fits; [done|by apply safe_short|done|]. apply intent_size; [|done|by apply safe_short|done].
    unfold short. rewrite string_length_app. cbn [draws]. destruct (uuid4_shape (draws s1)) as [_ ->]. cbn. lia. }
  assert (Hrd : forall t, readable_closure p (fresh_closure o g t)).
  { intros t. split; [|apply Hfit]. unfold valid_closure, fresh_closure, opt_forall, valid_id.
    cbn [closure_owner_session_id closure_generation_id]. rewrite Hlen.
    change (is_ok (validate_durable_record_id (JStr g))) with (safe_global_record_id (JStr g)). by rewrite Hg. }
  pose proof (closed_run o pa pc Hname Hpa Hpc g _ p s2 eq_refl Hg Ha2 Hfa2 Hc2 Hfc2 Hp) as H3.
  set (c := fresh_closure o g _) in H3. set (s3 := mkDisk _ _ _ _) in H3.
  assert (Hn2 : files s2 !! p = None) by (cbn; by rewrite !lookup_insert_ne by done).
  specialize (H3 Hn2 (Hrd _)).
  pose proof (restart_run o pa pc Hname Hshort Hpa Hpc Ht g g2 (Some (JObj intent)) c p s3) as H4.
  eexists _, _, _, _, _, _. split; [exact H1|]. split; [exact H2|]. split; [exact H3|]. split; [apply H4|split; [done|]]; try done.
  - exists ["owner_sessions"; pa]. split; [done|]. apply lookup_delete_eq.
  - destruct Hc2 as (q&d&Hq&Hd&Hr). rewrite Hpc in Hq. injection Hq as <-. exists ["owner_sessions"; pc], d.
    split; [done|]. split; [|done]. cbn [files s3]. rewrite lookup_delete_ne, lookup_insert_ne by done. exact Hd.
  - intros d Hd. apply Hfc2. cbn [files s3] in Hd. by rewrite lookup_delete_ne, lookup_insert_ne in Hd by done.
  - exists p. split; [done|]. split; [|done]. cbn [files s3]. rewrite lookup_delete_ne by done. apply lookup_insert_eq.
  - apply Hrd.
  - cbn [files]. apply lookup_delete_eq.
Qed.

(** C30: when nothing stops the calls, a session with no generation starts one, quiesces it,
    closes it and starts a different one in its place; the records always fit the store's
    limits, whatever the identifiers, as long as times are printed in the usual length and
    the closure record fits its own file. *)
Theorem session_rotates o g g2 p policy s :
  budget s = None -> str_between 1 256 o = true -> short o ->
  safe_global_record_id (JStr g) = true -> safe_global_record_id (JStr g2) = true -> g2 <> g ->
  cancel_scheduler_jobs policy && negb (cancel_jobs policy) = false ->
  no_active (files s) o -> no_closing (files s) o ->
  _owner_session_closed_path o (Some g) = Ok p -> files s !! p = None ->
  (forall n, short (isoformat (clock n))) -> (forall t, fits p (DClosure (fresh_closure o g t))) ->
  exists s1 intent s2 c s3 s4,
    prepare_owner_session_start o None g s = (Ok g, s1) /\
    set_owner_session_closing o g None policy s1 = (Ok intent, s2) /\
    set_owner_session_closed o g None None s2 = (Ok c, s3) /\
    prepare_owner_session_start o (Some g) g2 s3 = (Ok g2, s4) /\
    reads_active (files s4) o g2 /\ no_closing (files s4) o /\ closed_clean (files s4) o g.
Proof.
  intros Hb Hlen Hshort Hg Hg2 Hne Hpol Ha Hc Hp Hn Ht Hfit.
  assert (Hname : str_nonempty o = true) by (by destruct o).
  destruct (session_files o Hname) as (pa&pc&Hpa&Hpc&_).
  destruct (rotation_states o pa pc g g2 p policy s) as (s1&d&s2&c&s3&s4&H1&H2&H3&H4&Hres&Hn4); try done.
  exists s1, d, s2, c, s3, s4. split_and!; [done..| | |].
  - pose proof (proj2 (wp_prepare_start o (Some g) g2 s3)) as Hw. rewrite H4 in Hw. by apply Hw.
  - by exists ["owner_sessions"; pc].
  - exists c. split; [|done]. eapply steps_keep_closure.
    + pose proof (proj1 (wp_prepare_start o (Some g) g2 s3)) as Hs. rewrite H4 in Hs. exact Hs.
    + pose proof (proj2 (wp_set_closed o g None None s2)) as Hw. rewrite H3 in Hw. by apply Hw.
Qed.

(** ** Where the code falls short *)
Lemma get_closed_none o g s :
  str_nonempty o = true -> safe_global_record_id (JStr g) = true ->
  (exists p, _owner_session_closed_path o (Some g) = Ok p /\ files s !! p = None) ->
  get_owner_session_closed o (Some g) s = (Ok None, s).
Proof.
  intros Ho Hg (p&Hp&Hn).
  unfold get_owner_session_closed, nonempty_owner, require_generation, ensure, raise_unless, lift, mbind, M_bind.
  rewrite Ho, (safe_require g _ Hg). cbn. by rewrite Hp, (closure_none p s Hn).
Qed.

(** C40: a session whose name begins with the reserved prefix [k2-], which is a valid
    identifier, escapes quiescence: intake looks for the closing record under the name
    itself, the closing call wrote it under the hashed label, and so a closing generation
    goes on taking work. *)
Theorem reserved_name_evades_closing o g meta owner q s :
  _owner_session_identity meta false = Ok (Some (owner, Some g)) -> admission_session owner meta = Ok o ->
  safe_global_record_id (JStr o) = true -> safe_global_record_id (JStr g) = true ->
  intake_closing_path o = Ok q -> files s !! q = None ->
  reads_closing (files s) o g -> reads_active (files s) o g ->
  (forall p, _owner_session_active_path o = Ok p -> fit_at s p) ->
  (exists p, _owner_session_closed_path o (Some g) = Ok p /\ files s !! p = None) ->
  starts_with FILESYSTEM_KEY_PREFIX o = true /\
  _assert_owner_session_intake_open_unlocked meta true s = (Ok tt, s).
Proof.
  intros Hid Hadm Ho Hg Hq Hn Hc Ha Hfa Hcl. split.
  - destruct (starts_with FILESYSTEM_KEY_PREFIX o) eqn:Hp; [done|].
    destruct (intake_path_is_closing o Ho Hp) as [Hcp Hip]. rewrite Hq in Hip. injection Hip as ->.
    destruct Hc as (q'&d&Hq'&Hd&_). rewrite Hcp in Hq'. injection Hq' as <-. congruence.
  - unfold _assert_owner_session_intake_open_unlocked, ensure, raise_unless, lift.
    rewrite (M_bind_run _ _ _ (Some (owner, Some g)) s) by (by rewrite Hid).
    rewrite (M_bind_run _ _ _ o s) by (by rewrite Hadm). rewrite (M_bind_run _ _ _ q s) by (by rewrite Hq).
    rewrite (M_bind_run _ _ _ _ _ (transition_none q s Hn)).
    rewrite (M_bind_run _ _ _ None s), (M_bind_run _ _ _ tt s) by done.
    rewrite (M_bind_run _ _ _ _ _ (active_gen_run o g s Ha Hfa)).
    rewrite (M_bind_run _ _ _ tt s) by done. rewrite (M_bind_run _ _ _ tt s) by (by rewrite (bool_decide_true (Some g = Some g)), orb_true_r).
    by rewrite (M_bind_run _ _ _ _ _ (get_closed_none o g s (safe_nonempty o Ho) Hg Hcl)).
Qed.
End rotates.
