(* ===== verification/OwnerSessionsExamples.v ===== *)
(** * Owner sessions on concrete stores: witnesses *)

From S2P Require Import Prelude Sha256 Json Identifiers Models Store OrderIndex.
From S2P Require Import LeaseRecords Decimal Recovery OwnerSessions OwnerSessionsProofs OwnerSessionsRuns.
From S2P Require Import OwnerSessionsClaims OwnerSessionsRotation OrderExamples LeaseLifecycleExamples.
From stdpp Require Import base list gmap strings relations.
From Stdlib Require Import ZArith Lia.
From Stdlib Require Ascii String.
Open Scope Z_scope.

(** The reference world at a standstill. *)
#[local] Instance frozen_world : World := {|
  clock _ := 0;
  uuid4_at := hex_of_nat 32;
  uuid4_shape := hex_of_nat_shape 32;
  scandir_order A l := l;
  scandir_perm A l := Permutation_refl l;
  model_size _ := 1024%nat;
|}.

(** ** A parser that reads what [isoformat] prints *)
Definition zoned (text : string) : Prop := exists t, text = t +:+ "+00:00".

Lemma zoned_app a b : zoned b -> zoned (a +:+ b).
Proof. intros [t ->]. exists (a +:+ t). by rewrite append_assoc_str. Qed.

Lemma isoformat_zoned t : zoned (isoformat t).
Proof. unfold isoformat. destruct (civil_of_days _) as [[y m] d]. cbv zeta. do 12 apply zoned_app. by exists "". Qed.

Lemma drop_app_str a b : drop_str (String.length a) (a +:+ b) = b.
Proof. induction a as [|c a IH]; [done|]. rewrite append_cons. exact IH. Qed.

Lemma zoned_ends text : zoned text -> ends_with "+00:00" text = true.
Proof.
  intros [t ->]. unfold ends_with. rewrite string_length_app.
  replace (String.length t + String.length "+00:00" - String.length "+00:00")%nat with (String.length t) by lia.
  rewrite drop_app_str, bool_decide_true by done. rewrite andb_true_r. apply Nat.leb_le. lia.
Qed.

Definition read_zoned (text : string) : option bool := if ends_with "+00:00" text then Some true else None.
Lemma read_zoned_isoformat t : read_zoned (isoformat t) = Some true.
Proof. unfold read_zoned. by rewrite (zoned_ends _ (isoformat_zoned t)). Qed.

#[local] Instance suffix_parser : IsoParser := {|
  fromisoformat := read_zoned;
  fromisoformat_isoformat := read_zoned_isoformat;
|}.

(** ** A generation of the session [alice] *)
Definition fresh_disk : disk := mkDisk ∅ None 0 0.
Definition alice_start : disk := (prepare_owner_session_start "alice" None "gen_1" fresh_disk).2.
Definition keep_work : cleanup_policy := mkPolicy true false false.
Definition alice_meta : list (string * json) :=
  [("owner_session_id", JStr "alice"); ("owner_session_generation_id", JStr "gen_1")].

Lemma alice_starts : (prepare_owner_session_start "alice" None "gen_1" fresh_disk).1 = Ok "gen_1".
Proof. vm_compute. reflexivity. Qed.

Lemma alice_closing : exists d, (set_owner_session_closing "alice" "gen_1" None keep_work alice_start).1 = Ok d.
Proof. eexists. vm_compute. reflexivity. Qed.

Lemma started_generation_accounted_witness :
  accounted (files (run_sessions [(OpClosing "alice" "gen_1" None keep_work, Some 0%nat);
    (OpClosing "alice" "gen_1" None keep_work, None); (OpClosed "alice" "gen_1" None None, Some 1%nat)] alice_start))
    "alice" "gen_1".
Proof. apply (started_generation_accounted "alice" None "gen_1" fresh_disk "gen_1"), alice_starts. Defined.

Lemma closing_generation_admits_nothing_witness :
  exists e, (_assert_owner_session_intake_open_unlocked alice_meta true
    (set_budget None (run_sessions [(OpClosed "alice" "gen_1" None None, Some 1%nat); (OpMirror "alice" "gen_1", None)]
      (set_owner_session_closing "alice" "gen_1" None keep_work alice_start).2))).1 = Err e.
Proof.
  destruct alice_closing as [d Hd].
  apply (closing_generation_admits_nothing "alice" "gen_1" None keep_work alice_start d _ alice_meta "alice");
    [exact Hd|reflexivity..].
Defined.

Lemma closing_intent_fixed_witness :
  exists d, (set_owner_session_closing "alice" "gen_1" None keep_work alice_start).1 = Ok d /\
    forall d', (set_owner_session_closing "alice" "gen_1" None keep_work
      (set_budget None (run_sessions [] (set_owner_session_closing "alice" "gen_1" None keep_work alice_start).2))).1 = Ok d' ->
    d' = d \/ closed_clean (files (set_owner_session_closing "alice" "gen_1" None keep_work
      (set_budget None (run_sessions [] (set_owner_session_closing "alice" "gen_1" None keep_work alice_start).2))).2) "alice" "gen_1".
Proof.
  destruct alice_closing as [d Hd]. exists d. split; [exact Hd|]. intros d' Hd'.
  exact (closing_intent_fixed "alice" "gen_1" None keep_work alice_start d [] None keep_work None d' Hd Hd').
Defined.

Lemma intake_agrees_with_status_witness :
  exists status, (owner_session_generation_status "alice" "gen_1" alice_start).1 = Ok status /\
    admitting true status.
Proof.
  apply (intake_agrees_with_status "alice" "gen_1" alice_meta "alice" true); [reflexivity..|].
  vm_compute. reflexivity.
Defined.

(** ** A full rotation, and a closure read back *)
Lemma frozen_times n : short (isoformat (clock n)).
Proof. unfold short. change (isoformat (clock n)) with "1970-01-01T00:00:00+00:00". cbn. lia. Qed.

Lemma closures_fit p c : fits p (DClosure c).
Proof. pose proof (record_limits_positive p). unfold fits. change (encoded_size (DClosure c)) with 1024%nat. lia. Qed.

Lemma fresh_idle o : str_nonempty o = true -> no_active (files fresh_disk) o /\ no_closing (files fresh_disk) o.
Proof.
  intros (a&c&Ha&Hc&_)%session_files. split; [exists ["owner_sessions"; a]|exists ["owner_sessions"; c]]; done.
Qed.

Lemma session_rotates_witness :
  exists s1 intent s2 c s3 s4,
    prepare_owner_session_start "alice" None "gen_1" fresh_disk = (Ok "gen_1", s1) /\
    set_owner_session_closing "alice" "gen_1" None keep_work s1 = (Ok intent, s2) /\
    set_owner_session_closed "alice" "gen_1" None None s2 = (Ok c, s3) /\
    prepare_owner_session_start "alice" (Some "gen_1") "gen_2" s3 = (Ok "gen_2", s4) /\
    reads_active (files s4) "alice" "gen_2" /\ no_closing (files s4) "alice" /\ closed_clean (files s4) "alice" "gen_1".
Proof.
  destruct (session_files "alice" eq_refl) as (a&c&_&_&Hall). destruct (Hall "gen_1") as [p Hp].
  apply (session_rotates "alice" "gen_1" "gen_2" p keep_work fresh_disk); try reflexivity;
    [unfold short; cbn; lia|done|apply fresh_idle; reflexivity..|exact Hp|exact frozen_times|intros t; apply closures_fit].
Defined.

Lemma closure_is_final_witness :
  exists s c, (set_owner_session_closed "alice" "gen_1" None None s).1 = Ok c /\
    (get_owner_session_closed "alice" (Some "gen_1") (set_budget None (run_sessions
      [(OpStart "alice" (Some "gen_1") "gen_2", Some 1%nat); (OpClosing "alice" "gen_2" None keep_work, None)]
      (set_owner_session_closed "alice" "gen_1" None None s).2))).1 = Ok (Some c).
Proof.
  assert (Hrun : exists s c, (set_owner_session_closed "alice" "gen_1" None None s).1 = Ok c).
  { destruct (session_files "alice" eq_refl) as (a&k&Ha&Hk&Hall). destruct (Hall "gen_1") as [p Hp].
    destruct (fresh_idle "alice" eq_refl) as [Hna Hnc].
    destruct (rotation_states "alice" a k "gen_1" "gen_2" p keep_work fresh_disk) as (s1&i&s2&c&s3&s4&_&_&H3&_);
      try reflexivity; try done; [unfold short; cbn; lia|exact frozen_times|intros t; apply closures_fit|].
    exists s2, c. by rewrite H3. }
  destruct Hrun as (s&c&Hc). exists s, c. split; [exact Hc|].
  exact (closure_is_final "alice" "gen_1" None None s c _ None Hc).
Defined.

(** ** A session with a reserved name *)
Definition reserved_meta : list (string * json) :=
  [("owner_session_id", JStr "k2-a"); ("owner_session_generation_id", JStr "gen_1")].

Lemma reserved_label : exists l, session_label "k2-a" = Ok (FILESYSTEM_KEY_PREFIX +:+ l) /\ String.length l = 64%nat.
Proof.
  exists (sha256_hex (filesystem_key_material "owner-session" "k2-a")). split; [reflexivity|apply sha256_hex_shape].
Qed.

Definition reserved_disk (a c : string) : disk :=
  mkDisk (<[["owner_sessions"; c] := DJson (closing_document "k2-a" "gen_1" [] 0)]>
    (<[["owner_sessions"; a] := DJson (active_document "k2-a" "gen_1" None false 0)]> ∅)) None 0 0.

Lemma reserved_name_evades_closing_witness :
  exists a c, _assert_owner_session_intake_open_unlocked reserved_meta true (reserved_disk a c) = (Ok tt, reserved_disk a c).
Proof.
  destruct reserved_label as (l&Hl&Hlen).
  set (a := (FILESYSTEM_KEY_PREFIX +:+ l) +:+ ".active.json"). set (c := (FILESYSTEM_KEY_PREFIX +:+ l) +:+ ".closing.json").
  assert (Ha : _owner_session_active_path "k2-a" = Ok ["owner_sessions"; a])
    by (unfold _owner_session_active_path; by rewrite Hl).
  assert (Hc : closing_path "k2-a" = Ok ["owner_sessions"; c]) by (unfold closing_path; by rewrite Hl).
  assert (Hla : String.length a = 79%nat) by (unfold a; rewrite !string_length_app, Hlen; reflexivity).
  assert (Hlc : String.length c = 80%nat) by (unfold c; rewrite !string_length_app, Hlen; reflexivity).
  clearbody a c. exists a, c.
  assert (Hac : ["owner_sessions"; a] <> ["owner_sessions"; c]) by (by eapply active_closing).
  assert (Hra : reads_active (<[["owner_sessions"; a] := DJson (active_document "k2-a" "gen_1" None false 0)]> ∅) "k2-a" "gen_1")
    by (by apply active_document_reads).
  destruct (reserved_name_evades_closing "k2-a" "gen_1" reserved_meta "k2-a" ["owner_sessions"; "k2-a.closing.json"]
    (reserved_disk a c)) as [_ Hrun]; try reflexivity; try exact Hrun.
  - cbn. rewrite !lookup_insert_ne; [done| |]; intros [= Heq]; subst; discriminate.
  - by apply closing_document_reads.
  - eapply active_kept; [exact Hra|]. intros p Hp. rewrite Ha in Hp. injection Hp as <-. by apply keeps_insert.
  - intros p Hp d Hd. rewrite Ha in Hp. injection Hp as <-. cbn in Hd. rewrite lookup_insert_ne, lookup_insert_eq in Hd by done.
    injection Hd as <-. apply active_fits; try exact (frozen_times 0); unfold short; cbn; lia.
  - destruct (session_files "k2-a" eq_refl) as (x&y&_&_&Hall). destruct (Hall "gen_1") as [p Hp]. exists p. split; [exact Hp|].
    cbn. rewrite !lookup_insert_ne; [done|by eapply active_closed|by eapply closing_closed].
Defined.
