(* ===== verification/Endpoints.v ===== *)
(** * Registered endpoints ([queue_endpoints.py])

    A worker registers once and then reports at intervals.  Its canonical record
    is [endpoints/<id>.json]; a second copy sits in the minute bucket of its last
    report, so that the fresh endpoints are found without reading the history, and
    a mapping record remembers which bucket that is. *)

From S2P Require Import Prelude Sha256 Json Decimal Identifiers Models Store OrderIndex LeaseCapacity.

From stdpp Require Import base list gmap strings.
From Stdlib Require Import ZArith Lia.
From Stdlib Require Ascii String.
Open Scope Z_scope.

Definition MAX_ENDPOINT_FRESH_SECONDS : Z := 3600.
Definition MAX_ENDPOINT_FRESH_CLUSTER_ROOTS : nat := Z.to_nat 1000.
Definition ENDPOINT_FRESH_BUCKET_SECONDS : Z := 60.

Definition endpoint_path (eid : string) : path := ["endpoints"; json_name eid].

(** [int(value.timestamp())] drops the fraction; a double holds it exactly enough
    up to the year 2500. *)
Definition _endpoint_fresh_bucket (value : Z) : Z :=
  Z.quot value 1000000 / ENDPOINT_FRESH_BUCKET_SECONDS.

(** [endpoint.cluster or "__desktop__"] *)
Definition cluster_identity (e : EndpointRegistration) : string :=
  match endpoint_cluster e with
  | Some c => if str_nonempty c then c else "__desktop__"
  | None => "__desktop__"
  end.

Definition fresh_mapping_path (eid : string) : path :=
  ["endpoints_fresh_by_id"; json_name (_single_value_ref_token eid)].
Definition fresh_path (token : string) (bucket : Z) (eid : string) : path :=
  ["endpoints_fresh"; token; pad20 bucket; json_name eid].

Definition fresh_mapping (e : EndpointRegistration) (token : string) (bucket : Z) : json :=
  JObj [("schema_version", JStr "clio-relay.endpoint-fresh-index.v1");
        ("endpoint_id", JStr (endpoint_id e)); ("cluster_token", JStr token);
        ("bucket", JInt bucket); ("last_seen_at", JStr (isoformat (last_seen_at e)))].

(** What a mapping record says, or why it is refused. *)
Definition decode_fresh_mapping (eid : string) (raw : option json) : result (option (string * Z)) :=
  match raw with
  | None | Some JNull => Ok None
  | Some (JObj previous) =>
      let bad := Err (QueueConflictError "fresh endpoint mapping identity mismatch: ") in
      if is_string "clio-relay.endpoint-fresh-index.v1" (dict_get "schema_version" previous)
         && is_string eid (dict_get "endpoint_id" previous)
      then match dict_get "cluster_token" previous, dict_get "bucket" previous with
           | Some (JStr token), Some (JInt bucket) => Ok (Some (token, bucket))
           | _, _ => bad
           end
      else bad
  | Some _ => Err (QueueConflictError "fresh endpoint mapping is invalid: ")
  end.

(** The tuple compared before a heartbeat is accepted. *)
Definition registration_identity (e : EndpointRegistration)
  : EndpointRole * option string * string * Z * Z :=
  (endpoint_role e, endpoint_cluster e, hostname e, pid e, registered_at e).

(** [existing.model_copy(update={"last_seen_at": now, "metadata": ...})] *)
Definition heartbeat (existing : EndpointRegistration) (now : Z) (meta : list (string * json))
  : EndpointRegistration :=
  mkEndpoint (endpoint_id existing) (endpoint_role existing) (endpoint_cluster existing)
    (hostname existing) (pid existing) (registered_at existing) now meta.

Section endpoints.
Context `{World}.

(** [read_optional(path, EndpointRegistration)] in the flat family [endpoints]. *)
Definition read_optional_endpoint (eid : string) : M disk (option EndpointRegistration) :=
  d ← read_doc (endpoint_path eid);
  match d with
  | None => mret None
  | Some (DEndpoint e) =>
      _ ← ensure (valid_endpoint e) (ValidationError "EndpointRegistration");
      _ ← ensure (bool_decide (endpoint_id e = eid))
            (QueueConflictError "canonical endpoint identity mismatch: ");
      mret (Some e)
  | Some _ => raise (ValidationError "EndpointRegistration")
  end.

Definition get_endpoint (eid : string) : M disk (option EndpointRegistration) :=
  eid ← lift (require_durable_record_id (JStr eid) "endpoint_id");
  read_optional_endpoint eid.

Definition _index_fresh_endpoint_unlocked (e : EndpointRegistration) : M disk unit :=
  let token := _single_value_ref_token (cluster_identity e) in
  let bucket := _endpoint_fresh_bucket (last_seen_at e) in
  let mapping_path := fresh_mapping_path (endpoint_id e) in
  raw ← read_json_document mapping_path;
  previous ← lift (decode_fresh_mapping (endpoint_id e) raw);
  let target := fresh_path token bucket (endpoint_id e) in
  _ ← match previous with
      | Some (t, b) =>
          if bool_decide (fresh_path t b (endpoint_id e) = target) then mret tt
          else unlink_durable_path (fresh_path t b (endpoint_id e))
      | None => mret tt
      end;
  _ ← write_doc target (DEndpoint e);
  write_doc mapping_path (DJson (fresh_mapping e token bucket)).

Definition register_endpoint (endpoint : EndpointRegistration) : M disk EndpointRegistration :=
  _ ← lift (require_durable_record_id (JStr (endpoint_id endpoint)) "endpoint_id");
  _ ← require_index_migration_complete;
  existing ← read_optional_endpoint (endpoint_id endpoint);
  endpoint ← match existing with
             | None => mret endpoint
             | Some existing =>
                 _ ← ensure (bool_decide (registration_identity existing = registration_identity endpoint))
                       (QueueConflictError "endpoint identity or registration generation changed before heartbeat: ");
                 now ← utc_now;
                 mret (heartbeat existing now (endpoint_metadata endpoint))
             end;
  _ ← ensure_global "endpoints" (endpoint_id endpoint);
  _ ← write_doc (endpoint_path (endpoint_id endpoint)) (DEndpoint endpoint);
  _ ← _index_fresh_endpoint_unlocked endpoint;
  mret endpoint.

(** ** Listings *)

(** [read_json_file] and the identity check of [_read_records]. *)
Definition read_endpoint_entry (entry : path * doc) : result EndpointRegistration :=
  match entry.2 with
  | DEndpoint e =>
      if negb (valid_endpoint e) then Err (ValidationError "EndpointRegistration")
      else if bool_decide (endpoint_id e = json_stem (default "" (last entry.1))) then Ok e
      else Err (QueueConflictError "canonical endpoint_id filename/content identity mismatch: ")
  | _ => Err (ValidationError "EndpointRegistration")
  end.

Definition registered_leb (a b : EndpointRegistration) : bool := registered_at a <=? registered_at b.
Definition in_cluster (cluster : option string) (e : EndpointRegistration) : bool :=
  opt_forall (fun c => bool_decide (endpoint_cluster e = Some c)) cluster.

Definition list_endpoints (cluster : option string) : M disk (list EndpointRegistration) :=
  scanned ← scan_many read_endpoint_entry ["endpoints"] (Z.to_nat MAX_BOUNDED_SCAN_RECORDS);
  _ ← ensure (negb scanned.2)
        (QueueConflictError "canonical record family exceeds the bounded read limit of ");
  mret (sort_by registered_leb (List.filter (in_cluster cluster) scanned.1)).

Definition list_endpoints_page (cursor limit : json) (cluster : option string)
  : M disk (list EndpointRegistration * option Z * Z) :=
  _read_global_order_page "endpoints" read_optional_endpoint endpoint_id (in_cluster cluster) cursor limit.

Definition scan_endpoints (limit : nat) (cluster : option string)
  : M disk (list EndpointRegistration * bool) :=
  scanned ← scan_many read_endpoint_entry ["endpoints"] limit;
  mret (sort_by registered_leb (List.filter (in_cluster cluster) scanned.1), scanned.2).

(** ** The fresh endpoints *)

(** [previous is None or previous.last_seen_at < endpoint.last_seen_at] *)
Definition keep_latest (e : EndpointRegistration) (by_id : list (string * EndpointRegistration))
  : list (string * EndpointRegistration) :=
  match dict_get (endpoint_id e) by_id with
  | Some previous => if last_seen_at previous <? last_seen_at e then dict_set (endpoint_id e) e by_id else by_id
  | None => dict_set (endpoint_id e) e by_id
  end.

(** The innermost loop: the copies of one bucket against the canonical records. *)
Fixpoint fresh_entries (cluster : option string) (observed_at cutoff : Z)
    (indexed : list EndpointRegistration) (by_id : list (string * EndpointRegistration))
  : M disk (list (string * EndpointRegistration)) :=
  match indexed with
  | [] => mret by_id
  | copy :: rest =>
      endpoint ← get_endpoint (endpoint_id copy);
      match endpoint with
      | None => fresh_entries cluster observed_at cutoff rest by_id
      | Some e =>
          if (last_seen_at e <? cutoff)
             || ((observed_at <? last_seen_at e) && (observed_at <? last_seen_at copy))
          then fresh_entries cluster observed_at cutoff rest by_id
          else
            _ ← ensure (in_cluster cluster e) (QueueConflictError "fresh endpoint cluster index mismatch: ");
            fresh_entries cluster observed_at cutoff rest (keep_latest e by_id)
      end
  end.

(** The loop over the buckets of one root, newest first; the flag is [overflow]. *)
Fixpoint fresh_buckets (limit : nat) (cluster : option string) (observed_at cutoff : Z) (root : path)
    (buckets : list Z) (by_id : list (string * EndpointRegistration)) (overflow : bool)
  : M disk (list (string * EndpointRegistration) * bool) :=
  match buckets with
  | [] => mret (by_id, overflow)
  | bucket :: rest =>
      if (limit <=? length by_id)%nat then mret (by_id, true)
      else
        scanned ← scan_many read_endpoint_entry (root ++ [pad20 bucket]) (limit - length by_id);
        by_id ← fresh_entries cluster observed_at cutoff scanned.1 by_id;
        fresh_buckets limit cluster observed_at cutoff root rest by_id (overflow || scanned.2)
  end.

Fixpoint fresh_roots (limit : nat) (cluster : option string) (observed_at cutoff : Z)
    (buckets : list Z) (roots : list path) (by_id : list (string * EndpointRegistration)) (overflow : bool)
  : M disk (list (string * EndpointRegistration) * bool) :=
  match roots with
  | [] => mret (by_id, overflow)
  | root :: rest =>
      found ← fresh_buckets limit cluster observed_at cutoff root buckets by_id overflow;
      if (limit <=? length found.1)%nat then mret found
      else fresh_roots limit cluster observed_at cutoff buckets rest found.1 found.2
  end.

(** [range(last, first - 1, -1)] *)
Definition buckets_between (first last : Z) : list Z :=
  (fun i => last - Z.of_nat i) <$> seq 0 (Z.to_nat (last - first + 1)).

(** [os.scandir] of [endpoints_fresh]: the name of each entry and whether it is a
    directory.  The store has no empty directories. *)
Definition fresh_root_entries : M disk (list (string * bool)) := fun s =>
  (Ok (scandir_order (remove_dups (omap (fun p =>
        match p with
        | ["endpoints_fresh"; name] => Some (name, false)
        | "endpoints_fresh" :: name :: _ => Some (name, true)
        | _ => None
        end) (map_to_list (files s)).*1))), s).

(** The loop that collects the roots of all clusters; the flag is [overflow]. *)
Fixpoint collect_roots (entries : list (string * bool)) (roots : list string)
  : result (list string * bool) :=
  match entries with
  | [] => Ok (roots, false)
  | (name, is_dir) :: rest =>
      if negb is_dir then Err (QueueConflictError "fresh endpoint index contains an unsafe root: ")
      else if (MAX_ENDPOINT_FRESH_CLUSTER_ROOTS <=? length roots)%nat then Ok (roots, true)
      else collect_roots rest (roots ++ [name])
  end.

Definition _scan_fresh_endpoint_index (limit fresh_seconds : Z) (cluster : option string)
    (now : option Z) : M disk (list EndpointRegistration * bool) :=
  _ ← ensure (negb ((limit <? 1) || (MAX_BOUNDED_SCAN_RECORDS <? limit)))
        (ValueError "endpoint scan limit must be between 1 and ");
  _ ← ensure (negb ((fresh_seconds <? 1) || (MAX_ENDPOINT_FRESH_SECONDS <? fresh_seconds)))
        (ValueError "fresh_seconds must be between 1 and ");
  observed_at ← match now with Some t => mret t | None => utc_now end;
  let cutoff := observed_at - fresh_seconds * 1000000 in
  let buckets := buckets_between (_endpoint_fresh_bucket cutoff) (_endpoint_fresh_bucket observed_at) in
  roots ← match cluster with
          | Some c => mret ([_single_value_ref_token c], false)
          | None =>
              entries ← fresh_root_entries;
              found ← lift (collect_roots entries []);
              mret (sort_by str_leb found.1, found.2)
          end;
  found ← fresh_roots (Z.to_nat limit) cluster observed_at cutoff buckets
            ((fun token => ["endpoints_fresh"; token]) <$> roots.1) [] roots.2;
  mret (sort_by registered_leb found.1.*2, found.2).

Definition scan_fresh_endpoints (limit fresh_seconds : Z) (cluster : option string) (now : option Z)
  : M disk (list EndpointRegistration * bool) :=
  _ ← require_index_migration_complete;
  _scan_fresh_endpoint_index limit fresh_seconds cluster now.
End endpoints.
