(* ===== verification/WorkerPolicy.v ===== *)
(** * What workers declare about their capacity ([worker_concurrency.py],
      [queue_worker_capacity.py])

    The metadata of a registered worker declares how many jobs it runs at once, its
    limit for each kind of job and its lane; of the process generations that are
    fresh during a restart, exactly one is selected. *)

From S2P Require Import Prelude Sha256 Json Identifiers Models Store Endpoints.
From stdpp Require Import base list gmap strings.
From Stdlib Require Import ZArith Lia.
From Stdlib Require Ascii String.
Open Scope Z_scope.

(** ** Limits per kind *)

(** The input is a [Mapping] from kinds or their values: [JobKind] is a [StrEnum],
    so a kind and its value are the same key. *)
Fixpoint normalize_limits (limits : list (string * json)) (normalized : list (JobKind * Z))
  : result (list (JobKind * Z)) :=
  match limits with
  | [] => Ok normalized
  | (raw_kind, limit) :: rest =>
      match JobKind_of_value raw_kind with
      | None => Err (ConfigurationError "unknown job kind for worker concurrency: ")
      | Some kind =>
          match limit with
          | JInt limit =>
              if limit <? 1 then Err (ConfigurationError "worker concurrency limit for ")
              else normalize_limits rest (dict_set kind limit normalized)
          | _ => Err (ConfigurationError "worker concurrency limit for ")
          end
      end
  end.

Definition normalize_kind_concurrency (limits : option (list (string * json)))
  : result (list (JobKind * Z)) :=
  normalize_limits (default [] limits) [].

Definition kinds_in_order {A} (d : list (JobKind * A)) : list (JobKind * A) :=
  omap (fun kind => pair kind <$> dict_get kind d) all_job_kinds.

(** The dump of a policy: kinds by value, in the order of the enumeration. *)
Definition policy_dict (policy : list (JobKind * Z)) : list (string * Z) :=
  (fun kv => (JobKind_value kv.1, kv.2)) <$> kinds_in_order policy.

Definition kind_concurrency_metadata (limits : option (list (string * json)))
  : result (list (string * Z)) :=
  normalized ← normalize_kind_concurrency limits;
  Ok (policy_dict normalized).

(** ** Slots and lanes *)

(** [True] is an [int] of value one. *)
Definition _endpoint_concurrency (meta : list (string * json)) : Z :=
  match dict_get "concurrency" meta with
  | Some (JInt z) => if 0 <? z then z else 1
  | _ => 1
  end.

Definition _worker_slot_index (meta : list (string * json)) : Z :=
  match dict_get "worker_slot" meta with
  | Some (JInt z) => if 0 <=? z then z else 2 ^ 63 - 1
  | _ => 2 ^ 63 - 1
  end.

Definition is_supervisor (e : EndpointRegistration) : bool :=
  is_true (dict_get "worker_supervisor" (endpoint_metadata e)).
Definition has_slot (e : EndpointRegistration) : bool :=
  bool_decide (is_Some (dict_get "worker_slot" (endpoint_metadata e))).

(** Membership of an unhashable value in a set raises. *)
Definition lane_class (value : json) : result (option McpAdmissionClass) :=
  match value with
  | JStr "workload" => Ok (Some WORKLOAD)
  | JStr "control_query" => Ok (Some CONTROL_QUERY)
  | JList _ | JObj _ => Err (TypeError "unhashable type")
  | _ => Ok None
  end.

Definition _endpoint_lane_configuration (meta : list (string * json)) : result (option (Z * Z)) :=
  match dict_get "workload_concurrency" meta, dict_get "control_query_concurrency" meta with
  | Some (JInt workload), Some (JInt control) =>
      if (workload <? 0) || (control <? 0) || negb (workload + control =? _endpoint_concurrency meta)
      then Ok None
      else match dict_get "mcp_admission_class" meta with
           | None | Some JNull => Ok (Some (workload, control))
           | Some raw =>
               class ← lane_class raw;
               Ok match class with
                  | None => None
                  | Some class =>
                      let expected := match class with WORKLOAD => (1, 0) | CONTROL_QUERY => (0, 1) end in
                      if bool_decide ((workload, control) = expected) then Some (workload, control) else None
                  end
           end
  | _, _ => Ok None
  end.

(** The distinct configurations, in order of appearance, and whether all are valid. *)
Fixpoint kind_configurations (endpoints : list EndpointRegistration)
    (configurations : list (list (string * Z))) (valid : bool) : list (list (string * Z)) * bool :=
  match endpoints with
  | [] => (configurations, valid)
  | e :: rest =>
      match default (JObj []) (dict_get "kind_concurrency" (endpoint_metadata e)) with
      | JObj raw =>
          match kind_concurrency_metadata (Some raw) with
          | Ok configuration =>
              kind_configurations rest
                (if bool_decide (configuration ∈ configurations) then configurations
                 else configurations ++ [configuration]) valid
          | Err _ => kind_configurations rest configurations false
          end
      | _ => kind_configurations rest configurations false
      end
  end.

Definition _kind_concurrency_configurations (endpoints : list EndpointRegistration)
  : list (list (string * Z)) * bool := kind_configurations endpoints [] true.

(** ** Generations *)

Definition _worker_generation_is_complete (parent : option EndpointRegistration)
    (slots : list EndpointRegistration) : bool :=
  match parent with
  | None => false
  | Some p =>
      let expected := _endpoint_concurrency (endpoint_metadata p) in
      is_supervisor p && negb (expected <? 2) && (Z.of_nat (length slots) =? expected)
      && bool_decide ((fun e => _worker_slot_index (endpoint_metadata e)) <$> slots
                      = Z.of_nat <$> seq 0 (Z.to_nat expected))
      && forallb (fun e => is_string (endpoint_id p) (dict_get "parent_endpoint_id" (endpoint_metadata e))
                           && (_endpoint_concurrency (endpoint_metadata e) =? 1)
                           && bool_decide (hostname e = hostname p) && (pid e =? pid p)
                           && (registered_at p <=? registered_at e)) slots
  end.

(** The loop that groups the slots by their parent. *)
Fixpoint group_slots (endpoints : list EndpointRegistration)
    (by_parent : list (string * list EndpointRegistration)) (unbound : list EndpointRegistration)
  : list (string * list EndpointRegistration) * list EndpointRegistration :=
  match endpoints with
  | [] => (by_parent, unbound)
  | e :: rest =>
      if has_slot e then
        match dict_get "parent_endpoint_id" (endpoint_metadata e) with
        | Some (JStr parent) =>
            if str_nonempty parent then
              group_slots rest (dict_set parent (default [] (dict_get parent by_parent) ++ [e]) by_parent) unbound
            else group_slots rest by_parent (unbound ++ [e])
        | _ => group_slots rest by_parent (unbound ++ [e])
        end
      else group_slots rest by_parent unbound
  end.

Record generation_candidate := mkCandidate {
  gc_observed_at : Z;
  gc_id : string;
  gc_parent : option EndpointRegistration;
  gc_slots : list EndpointRegistration;
}.

(** Python compares the key tuples [(observed_at, id)]. *)
Definition candidate_leb (a b : generation_candidate) : bool :=
  if gc_observed_at a =? gc_observed_at b then str_leb (gc_id a) (gc_id b)
  else gc_observed_at a <? gc_observed_at b.

(** [max(candidates, key=...)]: the first of the greatest. *)
Fixpoint max_candidate (best : generation_candidate) (rest : list generation_candidate)
  : generation_candidate :=
  match rest with
  | [] => best
  | c :: rest' => max_candidate (if candidate_leb c best then best else c) rest'
  end.

(** [max(l)] of a nonempty list. *)
Definition max_list (l : list Z) : Z :=
  match l with [] => 0 | x :: rest => foldl Z.max x rest end.

Definition slot_leb (a b : EndpointRegistration) : bool :=
  let i := _worker_slot_index (endpoint_metadata a) in
  let j := _worker_slot_index (endpoint_metadata b) in
  if i =? j then str_leb (endpoint_id a) (endpoint_id b) else i <? j.

Section generations.
Context `{World}.

(** The loop over [candidate_ids], a set that Python walks in any order; the
    greatest candidate is the same in each. *)
Fixpoint generation_candidates (supervisors : list (string * EndpointRegistration))
    (by_parent : list (string * list EndpointRegistration)) (ids : list string)
  : M disk (list generation_candidate) :=
  match ids with
  | [] => mret []
  | eid :: rest =>
      parent ← match dict_get eid supervisors with
               | Some p => mret (Some p)
               | None => get_endpoint eid
               end;
      let slots := default [] (dict_get eid by_parent) in
      let observed_at := match parent with
                         | Some p => registered_at p
                         | None => max_list (registered_at <$> slots)
                         end in
      candidates ← generation_candidates supervisors by_parent rest;
      mret (mkCandidate observed_at eid parent slots :: candidates)
  end.

(** The slots, the parent, its id, whether the generation is complete (unknown
    without workers), and how many generations are fresh. *)
Definition _select_active_worker_generation (endpoints : list EndpointRegistration)
  : M disk (list EndpointRegistration * list EndpointRegistration * option string * option bool * nat) :=
  let supervisors := foldl (fun d e => dict_set (endpoint_id e) e d) [] (List.filter is_supervisor endpoints) in
  let '(by_parent, unbound) := group_slots endpoints [] [] in
  let ids := remove_dups (dict_keys supervisors ++ dict_keys by_parent) in
  candidates ← generation_candidates supervisors by_parent ids;
  mret match candidates with
       | [] => if bool_decide (unbound = []) then ([], [], None, None, 0%nat)
               else (unbound, [], None, Some false, 0%nat)
       | c :: rest =>
           let selected := max_candidate c rest in
           let slots := sort_by slot_leb (gc_slots selected ++ unbound) in
           (slots, option_list (gc_parent selected), Some (gc_id selected),
            Some (_worker_generation_is_complete (gc_parent selected) slots), length ids)
       end.
End generations.
