(* ===== verification/LeaseAdmission.v ===== *)
(** * Choosing and leasing the next job ([queue_lease_admission.py],
      [queue_lease_recovery.py], [queue_leases.py], [queue_order_index.py])

    A worker that asks for work first has the journal replayed and the expired
    leases of its cluster recovered; it gets its own live lease back if it has one,
    and otherwise a lease on the first queued job, in submission order, that the
    limits of its kind and lane admit. *)

From S2P Require Import Prelude Sha256 Json Identifiers Models Store OrderIndex JobIndex Events.
From S2P Require Import LeaseRecords LeaseCapacity LeaseIndexes LeaseTransitions.
From S2P Require Import Endpoints WorkerPolicy Decimal.
From stdpp Require Import base list gmap strings.
From Stdlib Require Import ZArith Lia.
From Stdlib Require Ascii String.
Open Scope Z_scope.

Definition live_lease_bound : nat := Z.to_nat MAX_LIVE_LEASE_RECORDS.

(** [isinstance(job.spec, McpCallSpec)] and its admission class: a specification is
    stored as its dump, and of the four models only that one has a [server]. *)
Definition mcp_spec_class (spec : json) : option McpAdmissionClass :=
  match spec with
  | JObj d =>
      match dict_get "server" d with
      | Some _ =>
          Some (if is_string "control_query" (dict_get "admission_class" d) then CONTROL_QUERY else WORKLOAD)
      | None => None
      end
  | _ => None
  end.

Definition _job_matches_mcp_admission_class (j : RelayJob) (class : McpAdmissionClass) : bool :=
  match mcp_spec_class (job_spec j) with
  | Some c => if bool_decide (job_kind j = MCP_CALL) then bool_decide (c = class)
              else bool_decide (class = WORKLOAD)
  | None => bool_decide (class = WORKLOAD)
  end.

(** ** Whether a job still has execution cleanup to do

    Kept by the execution-cleanup part in files of its own, which the question
    only reads. *)
Class ExecutionCleanup `{JobDerived} := {
  _job_has_pending_execution_cleanup_unlocked : string -> string -> M disk bool;
  cleanup_read_only : forall cluster jid s,
    (_job_has_pending_execution_cleanup_unlocked cluster jid s).2 = s;
}.

Section records.
Context `{World}.

(** [read_json_file] and the identity check of [_read_records] for a job. *)
Definition read_job_entry (e : path * doc) : result RelayJob :=
  match e.2 with
  | DJob j =>
      if negb (valid_job j) then Err (ValidationError "RelayJob")
      else if bool_decide (job_id j = json_stem (default "" (last e.1))) then Ok j
      else Err (conflict "canonical job_id filename/content identity mismatch: ")
  | _ => Err (ValidationError "RelayJob")
  end.

(** [scan_many(directory, RelayJob, limit=limit)] *)
Definition scan_many_job : path -> nat -> M disk (list RelayJob * bool) := scan_many read_job_entry.

(** [_job_submission_order_key_unlocked]; a job without a sequence number gets one. *)
Definition _job_submission_order_key_unlocked (j : RelayJob) : M disk (Z * Z * string) :=
  sequence ← ensure_global "jobs" (job_id j);
  mret (sequence, job_created_at j, job_id j).

Definition order_key_leb (a b : Z * Z * string) : bool :=
  let '(s1, c1, i1) := a in let '(s2, c2, i2) := b in
  if negb (s1 =? s2) then s1 <? s2 else if negb (c1 =? c2) then c1 <? c2 else str_leb i1 i2.

(** [sorted(jobs, key=self._job_submission_order_key_unlocked)] *)
Fixpoint with_order_keys (jobs : list RelayJob) : M disk (list ((Z * Z * string) * RelayJob)) :=
  match jobs with
  | [] => mret []
  | j :: rest =>
      key ← _job_submission_order_key_unlocked j;
      keyed ← with_order_keys rest;
      mret ((key, j) :: keyed)
  end.

Definition in_submission_order (jobs : list RelayJob) : M disk (list RelayJob) :=
  keyed ← with_order_keys jobs;
  mret (sort_by (fun a b => order_key_leb a.1 b.1) keyed).*2.

(** [scan_expiry_refs] within the bound on live leases. *)
Definition all_expiry_refs (text : string) : M disk (list LeaseExpiryParts) :=
  scanned ← _scan_expiry_refs live_lease_bound;
  _ ← ensure (negb scanned.2) (conflict text);
  mret scanned.1.

(** The identity, endpoint, job and expiry a reference name was made from. *)
Definition names_identity (r : LeaseExpiryParts) (i : LeaseIndexIdentity) : bool :=
  bool_decide (lease_endpoint_token (ix_endpoint_id i) = ep_endpoint_token r) &&
  bool_decide (lease_job_token (ix_job_id i) = ep_job_token r) &&
  (lease_expiry_key (ix_expires_at i) =? ep_expires_key r).

(** [_active_mcp_admission_count_unlocked], its loop *)
Fixpoint mcp_count_loop (cluster : string) (class : McpAdmissionClass) (refs : list LeaseExpiryParts)
    (count : Z) : M disk Z :=
  match refs with
  | [] => mret count
  | r :: rest =>
      if negb (bool_decide (ep_cluster_token r = lease_cluster_token cluster)
               && bool_decide (ep_job_kind r = MCP_CALL))
      then mcp_count_loop cluster class rest count
      else
        identity ← _read_lease_index_identity_by_token (ep_lease_token r) (Some (ep_identity_token r));
        _ ← ensure (bool_decide (ix_cluster identity = cluster) && bool_decide (ix_job_kind identity = MCP_CALL)
                    && names_identity r identity) (conflict "lease expiry admission identity mismatch: ");
        lease ← read_optional_lease (ix_lease_id identity);
        match lease with
        | None => raise (conflict "lease expiry admission index is orphaned: ")
        | Some lease =>
            _ ← lift (_validate_lease_index_identity lease identity);
            job ← get_job (ix_job_id identity);
            _ ← ensure (bool_decide (job_cluster job = cluster) && bool_decide (job_kind job = MCP_CALL)
                        && bool_decide (leased_by job = Some (ix_endpoint_id identity)))
                  (conflict "active MCP admission lease changed job identity: ");
            mcp_count_loop cluster class rest
              (if _job_matches_mcp_admission_class job class then count + 1 else count)
        end
  end.

Definition _active_mcp_admission_count_unlocked (cluster : string) (class : McpAdmissionClass)
    (refs : option (list LeaseExpiryParts)) : M disk Z :=
  refs ← match refs with
         | Some refs => mret refs
         | None => all_expiry_refs "lease expiry index exceeded its safety bound"
         end;
  mcp_count_loop cluster class refs 0.

(** The loop of [_active_lease_for_endpoint]. *)
Fixpoint active_leases (endpoint : string) (refs : list (string * string)) (active : list Lease)
  : M disk (list Lease) :=
  match refs with
  | [] => mret active
  | (lease_token, identity_token) :: rest =>
      identity ← _read_lease_index_identity_by_token lease_token (Some identity_token);
      lease ← read_optional_lease (ix_lease_id identity);
      match lease with
      | None => raise (conflict "lease endpoint index is orphaned: ")
      | Some lease =>
          _ ← lift (_validate_lease_index_identity lease identity);
          _ ← ensure (bool_decide (ix_endpoint_id identity = endpoint))
                (conflict "lease endpoint index identity mismatch: ");
          _ ← _require_empty_lease_ref (_lease_identity_ref_path identity) "lease identity reference";
          _ ← _require_empty_lease_ref (_lease_cluster_kind_ref_path identity) "lease cluster-kind reference";
          _ ← _require_empty_lease_ref (_lease_expiry_ref_path identity) "lease expiry reference";
          now ← utc_now;
          active_leases endpoint rest (if is_expired lease now then active else active ++ [lease])
      end
  end.

Definition _active_lease_for_endpoint (endpoint : string) (refs : option (list LeaseExpiryParts))
  : M disk (option Lease) :=
  refs ← match refs with
         | Some refs => mret refs
         | None => all_expiry_refs "lease expiry index exceeded its safety bound"
         end;
  scanned ← _scan_lease_endpoint_refs endpoint live_lease_bound;
  _ ← ensure (negb scanned.2) (conflict "lease endpoint index exceeded its safety bound");
  let expected := (fun r => (ep_lease_token r, ep_identity_token r)) <$>
    List.filter (fun r => bool_decide (ep_endpoint_token r = lease_endpoint_token endpoint)) refs in
  _ ← ensure (bool_decide (NoDup expected)) (conflict "lease expiry index duplicates endpoint identity: ");
  _ ← ensure (same_elements scanned.1 expected) (conflict "lease endpoint and expiry indexes disagree: ");
  active ← active_leases endpoint scanned.1 [];
  _ ← ensure (length active <=? 1)%nat (conflict "endpoint has multiple active durable leases: ");
  mret (head active).

(** ** Expired leases *)

(** The loop of [_due_expired_leases_unlocked]. *)
Fixpoint due_leases (cluster : string) (now : Z) (refs : list LeaseExpiryParts) (due : list Lease)
  : M disk (list Lease) :=
  match refs with
  | [] => mret due
  | r :: rest =>
      if negb (bool_decide (ep_cluster_token r = lease_cluster_token cluster))
         || (lease_expiry_key now <? ep_expires_key r)
      then due_leases cluster now rest due
      else
        identity ← _read_lease_index_identity_by_token (ep_lease_token r) (Some (ep_identity_token r));
        lease ← read_optional_lease (ix_lease_id identity);
        match lease with
        | None => raise (conflict "lease expiry index is orphaned: ")
        | Some lease =>
            _ ← lift (_validate_lease_index_identity lease identity);
            _ ← ensure (bool_decide (ix_cluster identity = cluster)
                        && bool_decide (ix_job_kind identity = ep_job_kind r) && names_identity r identity)
                  (conflict "lease expiry index identity mismatch: ");
            _ ← _require_empty_lease_ref (_lease_identity_ref_path identity) "lease identity reference";
            _ ← _require_empty_lease_ref (_lease_endpoint_ref_path identity) "lease endpoint reference";
            _ ← _require_empty_lease_ref (_lease_endpoint_guard_path identity) "lease endpoint guard";
            _ ← _require_empty_lease_ref (_lease_cluster_kind_ref_path identity) "lease cluster-kind reference";
            due_leases cluster now rest (if is_expired lease now then due ++ [lease] else due)
        end
  end.

(** [key=lambda lease: (lease.expires_at, lease.lease_id)] *)
Definition expired_leb (a b : Lease) : bool :=
  if expires_at a =? expires_at b then str_leb (lease_id a) (lease_id b) else expires_at a <? expires_at b.

Definition _due_expired_leases_unlocked (cluster : string) (now : Z) (refs : option (list LeaseExpiryParts))
  : M disk (list Lease) :=
  refs ← match refs with
         | Some refs => mret refs
         | None => all_expiry_refs "lease recovery index exceeded its safety bound"
         end;
  due ← due_leases cluster now refs [];
  mret (sort_by expired_leb due).

(** [_job_has_scheduler_observation_unlocked] *)
Definition _job_has_scheduler_observation_unlocked (j : RelayJob) : M disk bool :=
  index ← read_job_index (job_id j);
  _ ← ensure (match index with
              | Some index => is_string RETENTION_INDEX_SCHEMA (dict_get "retention_schema_version" index)
              | None => false
              end) (conflict "scheduler observation index is unavailable for job: ");
  key ← lift (require_durable_record_id (JStr (job_id j)) "record_id");
  protections ← bounded_json_record_paths ["scheduler_protections_by_job"; key] (Z.to_nat MAX_BOUNDED_SCAN_RECORDS);
  if bool_decide (protections <> []) then mret true
  else
    refs ← bounded_json_record_paths ["scheduler_refs_by_job"; key] (Z.to_nat MAX_BOUNDED_SCAN_RECORDS);
    mret (bool_decide (refs <> [])).

(** One round of the check of the leases about to be taken away. *)
Definition check_expired_lease (j : RelayJob) (l : Lease) : M disk unit :=
  expected ← lift (_lease_index_identity l j);
  indexed ← _read_lease_index_identity (lease_id l);
  _ ← lift (_validate_lease_index_identity l indexed);
  _ ← ensure (bool_decide (indexed = expected)) (conflict "stale recovery lease index changed identity: ");
  _ ← _require_empty_lease_ref (_lease_identity_ref_path indexed) "lease identity reference";
  _ ← _require_empty_lease_ref (_lease_endpoint_ref_path indexed) "lease endpoint reference";
  _ ← _require_empty_lease_ref (_lease_endpoint_guard_path indexed) "lease endpoint guard";
  _ ← _require_empty_lease_ref (_lease_cluster_kind_ref_path indexed) "lease cluster-kind reference";
  _require_empty_lease_ref (_lease_expiry_ref_path indexed) "lease expiry reference".
End records.

Section recovery.
Context `{ExecutionCleanup}.

(** [_job_has_pending_execution_cleanup_after_migration_unlocked] *)
Definition _job_has_pending_execution_cleanup_after_migration_unlocked (cluster jid : string) : M disk bool :=
  _ ← _migrate_execution_cleanup_shard_unlocked cluster jid;
  _job_has_pending_execution_cleanup_unlocked cluster jid.

(** [_recover_expired_leases_unlocked] *)
Definition _recover_expired_leases_unlocked (j : RelayJob) (expired : list Lease) (max_attempts : Z)
  : M disk RelayJob :=
  _ ← ensure (bool_decide (expired <> [])) (ValueError "stale recovery requires at least one expired lease");
  _ ← ensure (bool_decide (job_state j ∈ [LEASED; RUNNING]))
        (conflict "job is not recoverable from a worker lease: ");
  now ← utc_now;
  let updated := recovered_copy j (if max_attempts <=? job_attempts j then FAILED else QUEUED) now in
  let lease_ids := lease_id <$> expired in
  _ ← ensure (bool_decide (NoDup lease_ids) && forallb (fun l => bool_decide (lease_job_id l = job_id j)) expired)
        (conflict "stale recovery lease identity mismatch: ");
  _ ← for_each (check_expired_lease j) expired;
  sequence ← _next_event_seq (job_id j);
  created ← utc_now;
  let event := mkEvent (job_id j) sequence (recovery_event_type (job_state updated))
                 (recovery_message (job_state updated)) INFO created
                 (recovery_payload (job_state j) (job_state updated) expired) in
  _ ← ensure (valid_event event) (ValidationError "RelayEvent");
  let transition_identity :=
    _stable_ref_token (job_id j :: isoformat (job_updated_at updated) :: sort_by str_leb lease_ids) in
  transition ← _prepare_lease_capacity_transition_unlocked
                 [((job_cluster j, job_kind j), - Z.of_nat (length expired))] false;
  p ← _write_transition_intent_unlocked transition_identity
        (StaleRecoveryIntent (job_id j) j updated expired event (Some transition));
  _apply_stale_lease_recovery_intent_unlocked p (job_id j) j updated expired event (Some transition).

(** [leases_by_job.setdefault(lease.job_id, []).append(lease)] *)
Definition group_by_job (leases : list Lease) : list (string * list Lease) :=
  foldl (fun d l => dict_set (lease_job_id l) (default [] (dict_get (lease_job_id l) d) ++ [l]) d) [] leases.

(** The loop of [_recover_stale_jobs_from_expiry_refs_unlocked]. *)
Fixpoint recover_groups (cluster : string) (max_attempts : Z) (groups : list (string * list Lease))
    (recovered : list RelayJob) (changed : bool) : M disk (list RelayJob * bool) :=
  match groups with
  | [] => mret (recovered, changed)
  | (jid, leases) :: rest =>
      job ← read_optional_job jid;
      match job with
      | None =>
          _ ← for_each (fun l => _delete_lease_unlocked l None None None true) leases;
          recover_groups cluster max_attempts rest recovered true
      | Some j =>
          _ ← ensure (bool_decide (job_cluster j = cluster)) (conflict "lease expiry cluster identity mismatch: ");
          if negb (bool_decide (job_state j ∈ [LEASED; RUNNING])) then
            _ ← for_each (fun l => _delete_lease_unlocked l (Some j) None None true) leases;
            recover_groups cluster max_attempts rest recovered true
          else
            pending ← _job_has_pending_execution_cleanup_after_migration_unlocked cluster (job_id j);
            if (pending : bool) then recover_groups cluster max_attempts rest recovered changed
            else
              observed ← _job_has_scheduler_observation_unlocked j;
              if (observed : bool) then recover_groups cluster max_attempts rest recovered changed
              else
                updated ← _recover_expired_leases_unlocked j leases max_attempts;
                recover_groups cluster max_attempts rest (recovered ++ [updated]) true
      end
  end.

(** [_recover_stale_jobs_from_expiry_refs_unlocked] *)
Definition _recover_stale_jobs_from_expiry_refs_unlocked (cluster : string) (max_attempts : Z)
    (refs : list LeaseExpiryParts) : M disk (list RelayJob * bool) :=
  now ← utc_now;
  due ← _due_expired_leases_unlocked cluster now (Some refs);
  recover_groups cluster max_attempts (group_by_job due) [] false.

(** [_recover_stale_jobs_for_admission_unlocked] *)
Definition _recover_stale_jobs_for_admission_unlocked (cluster : string) (max_attempts : Z)
  : M disk (option (list LeaseExpiryParts)) :=
  refs ← all_expiry_refs "lease recovery index exceeded its safety bound";
  outcome ← _recover_stale_jobs_from_expiry_refs_unlocked cluster max_attempts refs;
  mret (if (outcome.2 : bool) then None else Some refs).

Definition recover_stale_jobs (cluster : string) (max_attempts : Z) : M disk (list RelayJob) :=
  _ ← require_index_migration_complete;
  _ ← _recover_pending_transitions_unlocked;
  refs ← all_expiry_refs "lease recovery index exceeded its safety bound";
  outcome ← _recover_stale_jobs_from_expiry_refs_unlocked cluster max_attempts refs;
  mret outcome.1.

(** [scan_job_leases] *)
Definition scan_job_leases (jid : string) (limit : nat) : M disk (list Lease * bool) :=
  jid ← lift (require_durable_record_id (JStr jid) "job_id");
  _ ← _recover_pending_transitions_unlocked;
  key ← lift (require_durable_record_id (JStr jid) "record_id");
  indexed ← _job_index_exists jid;
  if (indexed : bool) then
    scanned ← scan_many_lease ["leases_by_job"; key] limit;
    mret (sort_by acquired_leb scanned.1, scanned.2)
  else
    scanned ← scan_many_lease ["leases"] limit;
    mret (List.filter (fun l => bool_decide (lease_job_id l = jid)) scanned.1, scanned.2).

(** The leases a loop of [lease.is_expired()] keeps; each test reads the clock. *)
Fixpoint expired_now (leases : list Lease) : M disk (list Lease) :=
  match leases with
  | [] => mret []
  | l :: rest => now ← utc_now; found ← expired_now rest; mret (if is_expired l now then l :: found else found)
  end.

Definition recover_stale_job (jid cluster : string) (max_attempts : Z) : M disk (option RelayJob) :=
  jid ← lift (require_durable_record_id (JStr jid) "job_id");
  _ ← ensure (1 <=? max_attempts) (ValueError "max_attempts must be at least 1");
  _ ← require_index_migration_complete;
  _ ← _recover_pending_transitions_unlocked;
  job ← get_job jid;
  _ ← ensure (bool_decide (job_cluster job = cluster)) (conflict "job ");
  scanned ← scan_job_leases jid (Z.to_nat DEFAULT_EXACT_RECORD_LIMIT);
  _ ← ensure (negb scanned.2) (conflict "job lease index exceeded its safety bound: ");
  expired ← expired_now scanned.1;
  if bool_decide (expired = []) then mret None
  else if negb (bool_decide (job_state job ∈ [LEASED; RUNNING])) then
    _ ← for_each (fun l => _delete_lease_unlocked l (Some job) None None true) expired; mret None
  else
    pending ← _job_has_pending_execution_cleanup_after_migration_unlocked cluster (job_id job);
    if (pending : bool) then mret None
    else
      observed ← _job_has_scheduler_observation_unlocked job;
      if (observed : bool) then mret None
      else updated ← _recover_expired_leases_unlocked job expired max_attempts; mret (Some updated).
End recovery.

(** ** Leasing *)
Section acquisition.
Context `{ExecutionCleanup}.

(** The checks of the lane arguments of [acquire_next_job]; the annotation of the
    class is checked by its type here. *)
Definition validate_lane (class : option McpAdmissionClass) (limit : option json) : result (option Z) :=
  match limit with
  | None | Some JNull => Ok None
  | Some raw =>
      _ ← raise_unless (bool_decide (class <> None))
            (ConfigurationError "worker MCP admission limit requires an admission class");
      match raw with
      | JInt z => _ ← raise_unless (1 <=? z) (ConfigurationError "worker MCP admission limit must be at least 1");
                  Ok (Some z)
      | _ => Err (ConfigurationError "worker MCP admission limit must be at least 1")
      end
  end.

(** What one call of [acquire_next_job] compares every candidate with. *)
Record lane := mkLane {
  ln_cluster : string;
  ln_class : option McpAdmissionClass;
  ln_at_limit : bool;
  ln_limits : list (JobKind * Z);
  ln_counts : list (JobKind * Z);
}.

Definition kind_count (k : JobKind) (counts : list (JobKind * Z)) : Z := default 0 (dict_get k counts).

(** The tests of the loop before the execution cleanup is looked at. *)
Definition lane_offers (ln : lane) (j : RelayJob) : bool :=
  bool_decide (job_cluster j = ln_cluster ln) && bool_decide (job_state j = QUEUED) &&
  negb (bool_decide (job_kind j = INPUT_INGEST)) &&
  opt_forall (_job_matches_mcp_admission_class j) (ln_class ln) &&
  negb (ln_at_limit ln && bool_decide (job_kind j = MCP_CALL)).

(** [kind_limit is not None and active_kind_count >= kind_limit] *)
Definition over_limit (limit : option Z) (count : Z) : bool :=
  match limit with Some limit => limit <=? count | None => false end.

(** Whether the limit of the job's kind is reached.  A control query has a lane of
    its own; workload calls of a lane are counted once. *)
Definition kind_full (ln : lane) (refs : option (list LeaseExpiryParts)) (workload : option Z) (j : RelayJob)
  : M disk (bool * option Z) :=
  let limit := dict_get (job_kind j) (ln_limits ln) in
  match (if bool_decide (job_kind j = MCP_CALL) then ln_class ln else None) with
  | None => mret (over_limit limit (kind_count (job_kind j) (ln_counts ln)), workload)
  | Some CONTROL_QUERY => mret (false, workload)
  | Some WORKLOAD =>
      active ← match workload with
               | Some n => mret n
               | None => _active_mcp_admission_count_unlocked (ln_cluster ln) WORKLOAD refs
               end;
      mret (over_limit limit active, Some active)
  end.

(** The loop of [acquire_next_job]: the first job the lane admits.  [workload] is
    the count of workload leases once it was needed. *)
Fixpoint select_job (ln : lane) (refs : option (list LeaseExpiryParts)) (workload : option Z)
    (jobs : list RelayJob) : M disk (option RelayJob) :=
  match jobs with
  | [] => mret None
  | j :: rest =>
      if negb (lane_offers ln j) then select_job ln refs workload rest
      else
        pending ← _job_has_pending_execution_cleanup_unlocked (job_cluster j) (job_id j);
        if (pending : bool) then select_job ln refs workload rest
        else
          decided ← kind_full ln refs workload j;
          if (decided.1 : bool) then select_job ln refs decided.2 rest else mret (Some j)
  end.

Definition acquire_next_job (endpoint cluster : string) (ttl_seconds max_attempts : Z)
    (kind_concurrency : option (list (string * json))) (class : option McpAdmissionClass)
    (mcp_limit : option json) : M disk (option Lease) :=
  endpoint ← lift (require_durable_record_id (JStr endpoint) "endpoint_id");
  limits ← lift (normalize_kind_concurrency kind_concurrency);
  mcp_limit ← lift (validate_lane class mcp_limit);
  _ ← _recover_pending_transitions_unlocked;
  _ ← require_index_migration_complete;
  refs ← _recover_stale_jobs_for_admission_unlocked cluster max_attempts;
  active ← _active_lease_for_endpoint endpoint refs;
  match active with
  | Some lease =>
      job ← get_job (lease_job_id lease);
      _ ← ensure (opt_forall (_job_matches_mcp_admission_class job) class)
            (conflict "endpoint active lease does not match its MCP admission lane: ");
      mret (Some lease)
  | None =>
      snapshot ← _lease_capacity_snapshot cluster;
      if MAX_LIVE_LEASE_RECORDS <=? snapshot.2 then mret None
      else
        at_limit ← match class, mcp_limit with
                   | Some class, Some limit =>
                       n ← _active_mcp_admission_count_unlocked cluster class refs; mret (limit <=? n)
                   | _, _ => mret false
                   end;
        queued ← scan_many_job ["jobs_queued"] (Z.to_nat MAX_ACTIVE_JOB_RECORDS);
        ordered ← in_submission_order queued.1;
        selected ← select_job (mkLane cluster class at_limit limits snapshot.1) refs None ordered;
        match selected with
        | None => mret None
        | Some j => lease ← _lease_job_unlocked j endpoint ttl_seconds (Some snapshot.2); mret (Some lease)
        end
  end.

Definition acquire_job (jid endpoint cluster : string) (ttl_seconds max_attempts : Z)
    (kind_concurrency : option (list (string * json))) : M disk (option Lease) :=
  jid ← lift (require_durable_record_id (JStr jid) "job_id");
  endpoint ← lift (require_durable_record_id (JStr endpoint) "endpoint_id");
  limits ← lift (normalize_kind_concurrency kind_concurrency);
  _ ← _recover_pending_transitions_unlocked;
  _ ← require_index_migration_complete;
  refs ← _recover_stale_jobs_for_admission_unlocked cluster max_attempts;
  active ← _active_lease_for_endpoint endpoint refs;
  match active with
  | Some lease => mret (if bool_decide (lease_job_id lease = jid) then Some lease else None)
  | None =>
      job ← get_job jid;
      if negb (bool_decide (job_cluster job = cluster) && bool_decide (job_state job = QUEUED)
               && negb (bool_decide (job_kind job = INPUT_INGEST))) then mret None
      else
        pending ← _job_has_pending_execution_cleanup_unlocked (job_cluster job) (job_id job);
        if (pending : bool) then mret None
        else
          snapshot ← _lease_capacity_snapshot cluster;
          if (MAX_LIVE_LEASE_RECORDS <=? snapshot.2)
             || over_limit (dict_get (job_kind job) limits) (kind_count (job_kind job) snapshot.1)
          then mret None
          else lease ← _lease_job_unlocked job endpoint ttl_seconds (Some snapshot.2); mret (Some lease)
  end.

(** [job_has_pending_execution_cleanup] *)
Definition job_has_pending_execution_cleanup (jid cluster : string) : M disk bool :=
  jid ← lift (require_durable_record_id (JStr jid) "job_id");
  _ ← require_index_migration_complete;
  _ ← _recover_pending_transitions_unlocked;
  job ← read_required_job jid;
  _ ← ensure (bool_decide (job_cluster job = cluster)) (conflict "job ");
  _job_has_pending_execution_cleanup_unlocked cluster jid.
End acquisition.
