(* ===== verification/AdmissionSnapshot.v ===== *)
(** * The capacity snapshot of queue diagnosis ([queue_admission_snapshot.py])

    The fresh workers and the leases of the store reduced to one record: the policy
    all workers agree on, the free slots, the live leases of a cluster by kind, and
    whether the lease files and the capacity pair tell the same story. *)

From S2P Require Import Prelude Sha256 Json Identifiers Models Store LeaseRecords LeaseCapacity.
From S2P Require Import LeaseTransitions Endpoints WorkerPolicy.
From stdpp Require Import base list gmap strings.
From Stdlib Require Import ZArith Lia.
From Stdlib Require Ascii String.
Open Scope Z_scope.

Record AdmissionSnapshot := mkSnapshot {
  analysis_complete : bool;
  incomplete_reasons : list string;
  configured_kind_concurrency : option (list (JobKind * Z));
  kind_concurrency_consistent : bool;
  healthy_worker_count : Z;
  configured_worker_slots : Z;
  free_worker_slots : option Z;
  active_lease_count : Z;
  active_leases_by_kind : list (JobKind * Z);
  global_lease_count : option Z;
  lease_index_validated : bool;
  lease_index_validation_error : option string;
  lease_index_validation_error_truncated : bool;
  endpoint_scan_truncated : bool;
  lease_scan_truncated : bool;
  unresolved_lease_job_ids : list string;
  expired_cluster_lease_job_ids : list string;
}.

(** ** Counters *)
Definition zero_counts : list (JobKind * Z) := (fun kind => (kind, 0)) <$> all_job_kinds.

Definition count_get {K} `{EqDecision K} (k : K) (d : list (K * Z)) : Z := default 0 (dict_get k d).

(** [d[k] = d.get(k, 0) + 1] *)
Definition count_add {K} `{EqDecision K} (k : K) (d : list (K * Z)) : list (K * Z) :=
  dict_set k (count_get k d + 1) d.

Definition sum_values {K} (d : list (K * Z)) : Z := foldr Z.add 0 d.*2.

(** ** The loop over the scanned leases *)
Record lease_tally := mkTally {
  tl_unresolved : list string;
  tl_expired : list string;
  tl_active : list (JobKind * Z);
  tl_by_endpoint : list (string * Z);
  tl_job_ids : list string;
  tl_duplicates : list string;
  tl_active_count : Z;
  tl_global : Z;
  tl_exact : bool;
  tl_recoverable : list (JobKind * Z);
}.

Definition empty_tally (truncated : bool) : lease_tally :=
  mkTally [] [] zero_counts [] [] [] 0 0 (negb truncated) zero_counts.

(** [state in ACTIVE_STATES] *)
Definition is_active (s : JobState) : bool := negb (is_terminal s).

(** One round: [job] is what [get_job] found. *)
Definition tally_lease (cluster : string) (now : Z) (l : Lease) (job : option RelayJob) (t : lease_tally)
  : lease_tally :=
  if is_expired l now then
    match job with
    | None => mkTally (tl_unresolved t ++ [lease_job_id l]) (tl_expired t) (tl_active t) (tl_by_endpoint t)
                (tl_job_ids t) (tl_duplicates t) (tl_active_count t) (tl_global t) false (tl_recoverable t)
    | Some j =>
        if negb (bool_decide (job_cluster j = cluster)) then
          mkTally (tl_unresolved t) (tl_expired t) (tl_active t) (tl_by_endpoint t) (tl_job_ids t)
            (tl_duplicates t) (tl_active_count t) (tl_global t + 1) (tl_exact t) (tl_recoverable t)
        else if is_active (job_state j) then
          mkTally (tl_unresolved t) (tl_expired t ++ [lease_job_id l]) (tl_active t) (tl_by_endpoint t)
            (tl_job_ids t) (tl_duplicates t) (tl_active_count t) (tl_global t) false (tl_recoverable t)
        else
          mkTally (tl_unresolved t) (tl_expired t) (tl_active t) (tl_by_endpoint t) (tl_job_ids t)
            (tl_duplicates t) (tl_active_count t) (tl_global t) (tl_exact t)
            (count_add (job_kind j) (tl_recoverable t))
    end
  else
    let by_endpoint := count_add (lease_endpoint_id l) (tl_by_endpoint t) in
    let duplicates := if bool_decide (lease_job_id l ∈ tl_job_ids t)
                      then tl_duplicates t ++ [lease_job_id l] else tl_duplicates t in
    let seen := lease_job_id l :: tl_job_ids t in
    match job with
    | None => mkTally (tl_unresolved t ++ [lease_job_id l]) (tl_expired t) (tl_active t) by_endpoint seen
                duplicates (tl_active_count t) (tl_global t + 1) (tl_exact t) (tl_recoverable t)
    | Some j =>
        if negb (bool_decide (job_cluster j = cluster)) then
          mkTally (tl_unresolved t) (tl_expired t) (tl_active t) by_endpoint seen duplicates
            (tl_active_count t) (tl_global t + 1) (tl_exact t) (tl_recoverable t)
        else
          mkTally (tl_unresolved t) (tl_expired t) (count_add (job_kind j) (tl_active t)) by_endpoint seen
            duplicates (tl_active_count t + 1) (tl_global t + 1) (tl_exact t) (tl_recoverable t)
    end.

(** ** Workers *)

(** The workers whose slots count, whether they are slots of a supervisor, and the
    workers whose policies count. *)
Definition capacity_endpoints (endpoints : list EndpointRegistration)
  : list EndpointRegistration * bool * list EndpointRegistration :=
  let workers := List.filter (fun e => bool_decide (endpoint_role e = WORKER)) endpoints in
  let slots := List.filter has_slot workers in
  let capacity := match slots with
                  | [] => List.filter (fun e => negb (is_supervisor e)) workers
                  | _ => slots
                  end in
  (capacity, bool_decide (slots <> []), List.filter is_supervisor workers ++ capacity).

(** The loop over the capacity endpoints: the free slots, and whether a worker
    holds more leases than it has slots. *)
Fixpoint free_slots (slotted : bool) (owned : list (string * Z)) (endpoints : list EndpointRegistration)
    (free : Z) (invalid : bool) : Z * bool :=
  match endpoints with
  | [] => (free, invalid)
  | e :: rest =>
      let declared := if slotted then 1 else _endpoint_concurrency (endpoint_metadata e) in
      let held := count_get (endpoint_id e) owned in
      if declared <? held then free_slots slotted owned rest free true
      else free_slots slotted owned rest (free + (declared - held)) invalid
  end.

(** [{JobKind(kind): limit for kind, limit in ...}] *)
Definition policy_of (configuration : list (string * Z)) : list (JobKind * Z) :=
  omap (fun kv => (fun kind => (kind, kv.2)) <$> JobKind_of_value kv.1) configuration.

Definition same_counts (a b : list (JobKind * Z)) : bool :=
  forallb (fun kind => count_get kind a =? count_get kind b) all_job_kinds.

(** The text of an error of this model is its message up to the first value. *)
Definition exn_text (e : exn) : string :=
  match e with
  | QueueConflictError m | NotFoundError m | ValueError m | TypeError m | ValidationError m
  | ConfigurationError m | OSError m | AssertionError m => m
  | Crashed => ""
  end.

(** The comparison with the capacity pair: [None] when it is not made. *)
Definition index_agrees (t : lease_tally) (indexed : option (list (JobKind * Z) * Z)) : option bool :=
  match indexed with
  | Some (counts, total) =>
      if tl_exact t then
        Some ((total - sum_values (tl_recoverable t) =? tl_global t)
              && forallb (fun kind => count_get kind counts - count_get kind (tl_recoverable t)
                                      =? count_get kind (tl_active t)) all_job_kinds)
      else None
  | None => None
  end.

(** The reduction of all observations, the reasons in the order of the source. *)
Definition reduce_snapshot (endpoints : list EndpointRegistration) (endpoint_truncated : bool)
    (indexed : result (list (JobKind * Z) * Z)) (t : lease_tally) (lease_truncated : bool)
  : AdmissionSnapshot :=
  let '(capacity, slotted, policy_endpoints) := capacity_endpoints endpoints in
  let '(configurations, valid) := _kind_concurrency_configurations policy_endpoints in
  let consistent := valid && (length configurations <=? 1)%nat in
  let '(free, ownership_invalid) := free_slots slotted (tl_by_endpoint t) capacity 0 false in
  let error := match indexed with Ok _ => None | Err e => Some (exn_text e) end in
  let agrees := index_agrees t (match indexed with Ok v => Some v | Err _ => None end) in
  let reasons :=
    (if endpoint_truncated then ["worker_endpoint_scan_truncated"] else [])
    ++ (if lease_truncated then ["lease_scan_truncated"] else [])
    ++ (if negb valid then ["invalid_worker_kind_policy"]
        else if negb consistent then ["inconsistent_worker_kind_policy"] else [])
    ++ (if bool_decide (tl_unresolved t = []) then [] else ["unresolved_lease_job"])
    ++ (if bool_decide (tl_expired t = []) then [] else ["lease_recovery_required"])
    ++ (if bool_decide (tl_duplicates t = []) then [] else ["duplicate_active_job_lease"])
    ++ (if ownership_invalid then ["worker_capacity_ownership_invalid"] else [])
    ++ (if bool_decide (error = None) then [] else ["lease_index_validation_failed"])
    ++ (if bool_decide (agrees = Some false) then ["lease_index_snapshot_mismatch"] else []) in
  mkSnapshot (bool_decide (reasons = [])) reasons
    (if consistent then Some (policy_of (default [] (head configurations))) else None)
    consistent (Z.of_nat (length capacity))
    (if slotted then Z.of_nat (length capacity)
     else foldr Z.add 0 ((fun e => _endpoint_concurrency (endpoint_metadata e)) <$> capacity))
    (if ownership_invalid then None else Some free)
    (tl_active_count t) (tl_active t) (if tl_exact t then Some (tl_global t) else None)
    (bool_decide (agrees = Some true)) ((fun m => take_str 1000 m) <$> error)
    (match error with Some m => (1000 <? String.length m)%nat | None => false end)
    endpoint_truncated lease_truncated (sorted_set (tl_unresolved t)) (sorted_set (tl_expired t)).

Section snapshot.
Context `{JobDerived}.

Fixpoint tally_leases (cluster : string) (now : Z) (leases : list Lease) (t : lease_tally)
  : M disk lease_tally :=
  match leases with
  | [] => mret t
  | l :: rest =>
      job ← catch_not_found (get_job (lease_job_id l));
      tally_leases cluster now rest (tally_lease cluster now l job t)
  end.

(** [try: ... except QueueConflictError] *)
Definition catch_conflict {A : Type} (m : M disk A) : M disk (result A) := fun s =>
  match m s with
  | (Ok a, s') => (Ok (Ok a), s')
  | (Err (QueueConflictError text), s') => (Ok (Err (QueueConflictError text)), s')
  | (Err e, s') => (Err e, s')
  end.

Definition _admission_snapshot (cluster : string) (endpoints : list EndpointRegistration)
    (endpoint_truncated : bool) (scan_limit : nat) (now : Z) : M disk AdmissionSnapshot :=
  indexed ← catch_conflict (lease_admission_capacity_snapshot cluster);
  scanned ← scan_leases scan_limit None;
  t ← tally_leases cluster now scanned.1 (empty_tally scanned.2);
  mret (reduce_snapshot endpoints endpoint_truncated indexed t scanned.2).
End snapshot.
