(* ===== verification/AdmissionSimulation.v ===== *)
(** * Would the queue lease this job now? ([queue_admission_simulation.py],
      [queue_listing.py])

    The simulation walks the queued jobs of a cluster in submission order and lets
    every job that would be leased take a slot, until it reaches the job asked
    about; the answer says whether that job would be leased and, if not, why and
    which jobs ahead of it are in the way. *)

From S2P Require Import Prelude Sha256 Json Identifiers Models Store LeaseRecords LeaseCapacity.
From S2P Require Import LeaseTransitions Endpoints WorkerPolicy LeaseAdmission AdmissionSnapshot Decimal.
From stdpp Require Import base list gmap strings.
From Stdlib Require Import ZArith Lia.
From Stdlib Require Ascii String.
Open Scope Z_scope.

(** ** Position in the submission order *)
Definition queued_in_cluster (cluster : string) (jobs : list RelayJob) : list RelayJob :=
  List.filter (fun j => bool_decide (job_cluster j = cluster) && bool_decide (job_state j = QUEUED)) jobs.

Definition target_index (jid : string) (ordered : list RelayJob) : option nat :=
  find_index (fun j => bool_decide (job_id j = jid)) ordered.

Definition JNat (n : nat) : json := JInt (Z.of_nat n).
Definition JOptZ (z : option Z) : json := match z with Some z => JInt z | None => JNull end.
Definition JStrs (l : list string) : json := JList (JStr <$> l).

(** A list of identifiers cut to twenty, and whether it was cut. *)
Definition first_twenty (l : list json) : json * json := (JList (take 20 l), JBool (20 <? length l)%nat).

Definition _raw_queue_evidence (job : RelayJob) (jobs : list RelayJob) (scan_truncated : bool)
  : list (string * json) :=
  let entry (ahead position : json) (preceding : json * json) (exact : bool) :=
    [("state", JStr (JobState_value (job_state job))); ("jobs_ahead", ahead); ("position", position);
     ("raw_preceding_job_ids", preceding.1); ("raw_preceding_job_ids_truncated", preceding.2);
     ("scan_truncated", JBool scan_truncated); ("position_exact", JBool exact)] in
  if negb (bool_decide (job_state job = QUEUED)) then entry JNull JNull (JList [], JBool false) true
  else
    let ordered := queued_in_cluster (job_cluster job) jobs in
    match target_index (job_id job) ordered with
    | None => entry JNull JNull (JList [], JBool false) false
    | Some i => entry (JNat i) (JNat (S i)) (first_twenty (JStr <$> (job_id <$> take i ordered)))
                  (negb scan_truncated)
    end.

Definition _raw_submission_payload (raw : list (string * json)) : list (string * json) :=
  let field k := default JNull (dict_get k raw) in
  [("jobs_ahead", field "jobs_ahead"); ("position", field "position");
   ("preceding_job_ids", field "raw_preceding_job_ids");
   ("preceding_job_ids_truncated", field "raw_preceding_job_ids_truncated");
   ("scan_truncated", field "scan_truncated"); ("position_exact", field "position_exact");
   ("semantics", JStr "raw_cluster_submission_order")].

(** ** The walk *)
Record simulation := mkSim {
  sim_counts : list (JobKind * Z);
  sim_admitted : list RelayJob;
  sim_skipped : list (string * string);
  sim_free : Z;
  sim_remaining : Z;
  sim_ineligibility : option string;
  sim_admissible : bool;
}.

Definition sim_skip (j : RelayJob) (why : string) (st : simulation) : simulation :=
  mkSim (sim_counts st) (sim_admitted st) (sim_skipped st ++ [(job_id j, why)]) (sim_free st)
    (sim_remaining st) (sim_ineligibility st) (sim_admissible st).
Definition sim_refuse (why : string) (st : simulation) : simulation :=
  mkSim (sim_counts st) (sim_admitted st) (sim_skipped st) (sim_free st) (sim_remaining st)
    (Some why) (sim_admissible st).
Definition sim_accept (st : simulation) : simulation :=
  mkSim (sim_counts st) (sim_admitted st) (sim_skipped st) (sim_free st) (sim_remaining st)
    (sim_ineligibility st) true.
Definition sim_admit (j : RelayJob) (st : simulation) : simulation :=
  mkSim (count_add (job_kind j) (sim_counts st)) (sim_admitted st ++ [j]) (sim_skipped st)
    (sim_free st - 1) (sim_remaining st - 1) (sim_ineligibility st) (sim_admissible st).

(** Why a candidate is passed over: the reason recorded for a predecessor, and the
    one reported for the target. *)
Definition passed_over (policy : list (JobKind * Z)) (pending : bool) (j : RelayJob) (st : simulation)
  : option (string * string) :=
  if pending then Some ("pending_execution_cleanup", "pending_execution_cleanup")
  else if over_limit (dict_get (job_kind j) policy) (count_get (job_kind j) (sim_counts st)) then
    Some ("kind_capacity_saturated", "kind_capacity_saturated")
  else if sim_remaining st <? 1 then
    Some ("global_lease_capacity_exhausted",
          if bool_decide (sim_admitted st <> []) then "admissible_predecessors_consumed_global_lease_capacity"
          else "global_lease_capacity_exhausted")
  else if sim_free st <? 1 then
    Some ("no_worker_slot_available",
          if bool_decide (sim_admitted st <> []) then "admissible_predecessors_consumed_capacity"
          else "no_worker_capacity")
  else None.

Section simulation.
Context `{ExecutionCleanup}.

(** The loop of [_queued_admission_evidence]; it stops at the target. *)
Fixpoint simulate (policy : list (JobKind * Z)) (target : string) (candidates : list RelayJob)
    (st : simulation) : M disk simulation :=
  match candidates with
  | [] => mret st
  | j :: rest =>
      let is_target := bool_decide (job_id j = target) in
      if bool_decide (job_kind j = INPUT_INGEST) then
        if is_target then mret (sim_refuse "internal_input_ingest" st)
        else simulate policy target rest (sim_skip j "internal_input_ingest" st)
      else
        pending ← job_has_pending_execution_cleanup (job_id j) (job_cluster j);
        match passed_over policy pending j st with
        | Some (skip, refuse) =>
            if is_target then mret (sim_refuse refuse st)
            else simulate policy target rest (sim_skip j skip st)
        | None =>
            if is_target then mret (sim_accept st)
            else simulate policy target rest (sim_admit j st)
        end
  end.

(** The jobs reported to be in the way. *)
Definition effective_blockers (policy : list (JobKind * Z)) (job : RelayJob) (initial : list (JobKind * Z))
    (st : simulation) : list string :=
  match sim_ineligibility st with
  | Some why =>
      if bool_decide (why ∈ ["admissible_predecessors_consumed_capacity";
                             "admissible_predecessors_consumed_global_lease_capacity"])
      then job_id <$> sim_admitted st
      else if bool_decide (why = "kind_capacity_saturated") then
        match dict_get (job_kind job) policy with
        | Some limit =>
            if count_get (job_kind job) initial <? limit then
              job_id <$> List.filter (fun j => bool_decide (job_kind j = job_kind job)) (sim_admitted st)
            else []
        | None => []
        end
      else []
  | None => []
  end.

(** ** The report *)
Definition counts_json (counts : list (JobKind * Z)) : json :=
  JObj ((fun kind => (JobKind_value kind, JInt (count_get kind counts))) <$> all_job_kinds).

Definition remaining_capacity (count : Z) : Z := Z.max 0 (MAX_LIVE_LEASE_RECORDS - count).

(** The dictionary [common] as first built. *)
Definition common_evidence (snap : AdmissionSnapshot) (scan_truncated complete : bool)
    (reasons : list string) : list (string * json) :=
  [("applicable", JBool true); ("analysis_complete", JBool complete);
   ("incomplete_reasons", JStrs reasons);
   ("semantics", JStr "effective_next-job-admission-under-fresh-worker-policy");
   ("policy_source", JStr "fresh_worker_endpoint_registrations");
   ("kind_concurrency_consistent", JBool (kind_concurrency_consistent snap));
   ("configured_kind_concurrency",
    match configured_kind_concurrency snap with
    | None => JNull
    | Some policy => JObj ((fun kv => (kv.1, JInt kv.2)) <$> policy_dict policy)
    end);
   ("healthy_worker_count", JInt (healthy_worker_count snap));
   ("configured_worker_slots", JInt (configured_worker_slots snap));
   ("free_worker_slots", JOptZ (free_worker_slots snap));
   ("active_lease_count", JInt (active_lease_count snap));
   ("active_leases_by_kind", counts_json (active_leases_by_kind snap));
   ("global_lease_count", JOptZ (global_lease_count snap));
   ("global_lease_count_semantics", JStr "durable_lease_records_after_requested_cluster_expiry_recovery");
   ("lease_index_validated", JBool (lease_index_validated snap));
   ("lease_index_validation_error", match lease_index_validation_error snap with
                                    | Some m => JStr m | None => JNull end);
   ("lease_index_validation_error_truncated", JBool (lease_index_validation_error_truncated snap));
   ("global_lease_limit", JInt MAX_LIVE_LEASE_RECORDS);
   ("global_lease_capacity_remaining", JOptZ (remaining_capacity <$> global_lease_count snap));
   ("active_job_scan_truncated", JBool scan_truncated);
   ("endpoint_scan_truncated", JBool (endpoint_scan_truncated snap));
   ("lease_scan_truncated", JBool (lease_scan_truncated snap));
   ("unresolved_lease_job_ids", JStrs (unresolved_lease_job_ids snap));
   ("expired_cluster_lease_job_ids", JStrs (expired_cluster_lease_job_ids snap));
   ("target_admissible_now", JNull);
   ("target_ineligibility", if complete then JNull else JStr "analysis_incomplete");
   ("effective_blocking_job_ids", JList []); ("effective_blocking_job_ids_truncated", JBool false);
   ("simulated_predecessor_admissions", JList []);
   ("simulated_predecessor_admissions_truncated", JBool false);
   ("skipped_predecessors", JList []); ("skipped_predecessors_truncated", JBool false);
   ("remaining_global_lease_capacity_at_target", JNull);
   ("simulated_global_lease_count_at_target", JNull)].

Definition report (common updates : list (string * json)) : list (string * json) :=
  foldl (fun d kv => dict_set kv.1 kv.2 d) common updates.

(** [common.update({...})] after the walk. *)
Definition walk_evidence (policy : list (JobKind * Z)) (job : RelayJob) (initial : list (JobKind * Z))
    (global : Z) (st : simulation) : list (string * json) :=
  let blockers := first_twenty (JStr <$> effective_blockers policy job initial st) in
  let admitted := first_twenty (JStr <$> (job_id <$> sim_admitted st)) in
  let skipped := first_twenty ((fun s => JObj [("job_id", JStr s.1); ("reason", JStr s.2)]) <$> sim_skipped st) in
  [("target_admissible_now", JBool (sim_admissible st));
   ("target_ineligibility", match sim_ineligibility st with Some why => JStr why | None => JNull end);
   ("effective_blocking_job_ids", blockers.1); ("effective_blocking_job_ids_truncated", blockers.2);
   ("simulated_predecessor_admissions", admitted.1);
   ("simulated_predecessor_admissions_truncated", admitted.2);
   ("skipped_predecessors", skipped.1); ("skipped_predecessors_truncated", skipped.2);
   ("remaining_worker_slots_at_target", JInt (sim_free st));
   ("remaining_global_lease_capacity_at_target", JInt (sim_remaining st));
   ("simulated_global_lease_count_at_target", JInt (global + Z.of_nat (length (sim_admitted st))));
   ("simulated_active_leases_by_kind_at_target", counts_json (sim_counts st))].

Definition _queued_admission_evidence (job : RelayJob) (jobs : list RelayJob) (scan_truncated : bool)
    (snap : AdmissionSnapshot) : M disk (list (string * json)) :=
  let ordered := queued_in_cluster (job_cluster job) jobs in
  let index := target_index (job_id job) ordered in
  let reasons := incomplete_reasons snap ++ (if scan_truncated then ["active_job_scan_truncated"] else [])
    ++ (if bool_decide (index = None) then ["target_outside_active_job_snapshot"] else []) in
  let complete := analysis_complete snap && bool_decide (reasons = []) in
  let common := common_evidence snap scan_truncated complete reasons in
  let incomplete reason := report common
    [("analysis_complete", JBool false); ("incomplete_reasons", JStrs (reasons ++ [reason]));
     ("target_ineligibility", JStr "analysis_incomplete")] in
  match index with
  | None => mret common
  | Some index =>
      if negb complete then mret common
      else
        match configured_kind_concurrency snap, free_worker_slots snap with
        | Some policy, Some free =>
            match global_lease_count snap with
            | None => mret (incomplete "global_lease_capacity_unavailable")
            | Some global =>
                let remaining := remaining_capacity global in
                if remaining <? 1 then
                  mret (report common
                    [("target_admissible_now", JBool false);
                     ("target_ineligibility", JStr "global_lease_capacity_exhausted");
                     ("remaining_global_lease_capacity_at_target", JInt 0);
                     ("simulated_global_lease_count_at_target", JInt global)])
                else
                  st ← simulate policy (job_id job) (take (S index) ordered)
                         (mkSim (active_leases_by_kind snap) [] [] free remaining None false);
                  mret (report common (walk_evidence policy job (active_leases_by_kind snap) global st))
            end
        | _, _ => mret (incomplete "capacity_policy_unavailable")
        end
  end.

(** [_queue_evidence] *)
Definition _queue_evidence (job : RelayJob) (jobs : list RelayJob) (scan_truncated : bool)
    (snap : AdmissionSnapshot) : M disk (list (string * json)) :=
  let raw := _raw_queue_evidence job jobs scan_truncated in
  let extended blocking truncated admission := report raw
    [("raw_submission_order", JObj (_raw_submission_payload raw)); ("blocking_job_ids", blocking);
     ("blocking_job_ids_truncated", truncated); ("admission", JObj admission)] in
  let not_applicable admissible why := mret (extended (JList []) (JBool false)
    [("analysis_complete", JBool true); ("applicable", JBool false); ("target_admissible_now", admissible);
     ("target_ineligibility", JStr why); ("effective_blocking_job_ids", JList []);
     ("effective_blocking_job_ids_truncated", JBool false)]) in
  if bool_decide (job_kind job = INPUT_INGEST) && bool_decide (job_state job = QUEUED) then
    not_applicable (JBool false) "internal_input_ingest"
  else if negb (bool_decide (job_state job = QUEUED)) then not_applicable JNull "job_not_queued"
  else
    admission ← _queued_admission_evidence job jobs scan_truncated snap;
    mret (extended (default JNull (dict_get "effective_blocking_job_ids" admission))
                   (default JNull (dict_get "effective_blocking_job_ids_truncated" admission)) admission).
End simulation.
