(* ===== verification/AdmissionProofs.v ===== *)
(** * The admission simulation agrees with the queue

    The reference is the queue's own choice: as many workload workers as there are free
    slots ask [acquire_next_job]'s loop for work in the lane [run_once] gives them, one
    after the other, each lease counted before the next question.  The simulation, which
    passes over the queue once and does not look at lanes, calls the target admissible
    exactly if one of them would be given it, as long as no control query is live or
    queued up to the target. *)

From S2P Require Import Prelude Sha256 Json Identifiers Models Store OrderIndex JobIndex Events LeaseRecords.
From S2P Require Import LeaseCapacity LeaseIndexes LeaseTransitions Recovery JournalStages LeaseReplay LeaseRelease.
From S2P Require Import Endpoints WorkerPolicy LeaseAdmission AdmissionSnapshot AdmissionSimulation Decimal.
From stdpp Require Import base list gmap strings.
From Stdlib Require Import ZArith Lia.
From Stdlib Require Ascii String.
Open Scope Z_scope.

Section reference.
Context `{ExecutionCleanup}.
Variables (cluster : string) (policy : list (JobKind * Z)) (s : disk).

(** What the loop of [acquire_next_job] picks for a worker of the workload lane, which has
    no limit of its own, when [counts] leases are live, [mcp] of them for workload MCP calls. *)
Definition workload_lane (counts : list (JobKind * Z)) : lane := mkLane cluster (Some WORKLOAD) false policy counts.
Definition next_selected (counts : list (JobKind * Z)) (mcp : Z) (queue : list RelayJob) : option RelayJob :=
  match (select_job (workload_lane counts) None (Some mcp) queue s).1 with
  | Ok selected => selected
  | Err _ => None
  end.

Definition without (jid : string) (queue : list RelayJob) : list RelayJob :=
  List.filter (fun j => negb (bool_decide (job_id j = jid))) queue.

(** The queue reads [mcp] off the leases when it first needs it. *)
Lemma select_job_counted counts refs mcp queue :
  _active_mcp_admission_count_unlocked cluster WORKLOAD refs s = (Ok mcp, s) ->
  (select_job (workload_lane counts) refs None queue s).1 = (select_job (workload_lane counts) refs (Some mcp) queue s).1.
Proof.
  intros Hmcp. induction queue as [|j queue IH]; [done|]. cbn [select_job].
  destruct (negb _); [exact IH|]. unfold mbind, M_bind.
  pose proof (cleanup_read_only (job_cluster j) (job_id j) s) as Hs.
  destruct (_job_has_pending_execution_cleanup_unlocked (job_cluster j) (job_id j) s) as [[[]|e] s']; cbn in Hs |- *; subst s';
    [exact IH| |done].
  unfold kind_full. cbn [workload_lane ln_class ln_cluster ln_limits ln_counts].
  destruct (bool_decide (job_kind j = MCP_CALL)).
  - rewrite (M_bind_run _ _ _ _ _ Hmcp). rewrite (M_bind_run _ _ _ mcp s) by done. cbn.
    by destruct (over_limit _ _).
  - cbn. destruct (over_limit _ _); [exact IH|done].
Qed.

Definition is_mcp (j : RelayJob) : bool := bool_decide (job_kind j = MCP_CALL).

(** The jobs [workers] requests in a row are given, [total] leases being live. *)
Fixpoint successive_leases (workers : nat) (counts : list (JobKind * Z)) (mcp total : Z) (queue : list RelayJob)
  : list RelayJob :=
  match workers with
  | O => []
  | S workers' =>
      if MAX_LIVE_LEASE_RECORDS <=? total then []
      else match next_selected counts mcp queue with
           | Some j => j :: successive_leases workers' (count_add (job_kind j) counts)
                              (mcp + (if is_mcp j then 1 else 0)) (total + 1) (without (job_id j) queue)
           | None => []
           end
  end.

(** ** The choice as a search *)
Variable pending : string -> bool.

Definition eligible (counts : list (JobKind * Z)) (j : RelayJob) : bool :=
  negb (bool_decide (job_kind j = INPUT_INGEST)) && _job_matches_mcp_admission_class j WORKLOAD &&
  negb (pending (job_id j)) &&
  negb (over_limit (dict_get (job_kind j) policy) (count_get (job_kind j) counts)).

(** The queue holds queued jobs of the cluster with identifiers of their own, and
    the question about cleanup is answered. *)
Record queue_ready (queue : list RelayJob) : Prop := {
  qr_queued : Forall (fun j => job_cluster j = cluster /\ job_state j = QUEUED) queue;
  qr_ids : NoDup (job_id <$> queue);
  qr_pending : Forall (fun j => _job_has_pending_execution_cleanup_unlocked cluster (job_id j) s
                                = (Ok (pending (job_id j)), s)) queue;
}.

Lemma queue_ready_without jid queue : queue_ready queue -> queue_ready (without jid queue).
Proof.
  intros [Hq Hn Hp]. unfold without. induction queue as [|j queue IH]; [by split|].
  inversion Hq as [|?? Hj Hq']; inversion Hp as [|?? Hpj Hp']; subst. cbn in Hn. apply NoDup_cons in Hn as [Hin Hn].
  destruct (IH Hq' Hn Hp') as [Gq Gn Gp]. cbn. destruct (negb _); [|by split].
  split; [by constructor| |by constructor]. cbn. apply NoDup_cons. split; [|done].
  intros (x&Hx&Hmem)%list_elem_of_fmap. apply Hin. apply list_elem_of_fmap. exists x. split; [done|].
  apply list_elem_of_In in Hmem. apply filter_In in Hmem as [Hmem _]. by apply list_elem_of_In.
Qed.

Lemma next_selected_find counts mcp queue :
  queue_ready queue -> mcp = count_get MCP_CALL counts ->
  next_selected counts mcp queue = List.find (eligible counts) queue.
Proof.
  intros [Hq _ Hp] ->. unfold next_selected. induction queue as [|j queue IH]; [done|].
  inversion Hq as [|?? [Hc Hs] Hq']; inversion Hp as [|?? Hpj Hp']; subst. specialize (IH Hq' Hp').
  cbn [select_job List.find]. unfold lane_offers, eligible at 1. cbn [workload_lane ln_cluster ln_class ln_at_limit opt_forall].
  rewrite (bool_decide_true (job_cluster j = _)), (bool_decide_true (job_state j = _)) by done. cbn [andb negb].
  destruct (bool_decide (job_kind j = INPUT_INGEST)) eqn:Hk; cbn [negb andb]; [exact IH|].
  destruct (_job_matches_mcp_admission_class j WORKLOAD); cbn [negb andb]; [|exact IH].
  rewrite Hc, (M_bind_run _ _ _ _ _ Hpj). destruct (pending (job_id j)); cbn [negb andb]; [exact IH|].
  unfold kind_full. cbn [workload_lane ln_class ln_cluster ln_limits ln_counts].
  rewrite (M_bind_run _ _ _ (over_limit (dict_get (job_kind j) policy) (count_get (job_kind j) counts),
                             Some (count_get MCP_CALL counts)) s).
  2:{ destruct (bool_decide (job_kind j = MCP_CALL)) eqn:Hm; [apply bool_decide_eq_true in Hm; rewrite Hm|]; reflexivity. }
  cbn [fst snd]. destruct (over_limit _ _); cbn [negb]; [exact IH|done].
Qed.

(** Counts only grow, so a job that is passed over is passed over for good. *)
Lemma count_get_add (k k' : JobKind) counts :
  count_get k (count_add k' counts) = count_get k counts + (if bool_decide (k = k') then 1 else 0).
Proof.
  unfold count_add, count_get. case_bool_decide as Hk.
  - subst. by rewrite dict_get_set_eq.
  - rewrite dict_get_set_ne by done. lia.
Qed.

Lemma mcp_add j counts :
  count_get MCP_CALL counts + (if is_mcp j then 1 else 0) = count_get MCP_CALL (count_add (job_kind j) counts).
Proof. rewrite count_get_add. unfold is_mcp. f_equal. do 2 case_bool_decide; congruence. Qed.

Lemma over_limit_mono limit a b : a <= b -> over_limit limit a = true -> over_limit limit b = true.
Proof. destruct limit as [l|]; cbn; [|done]. intros ? ?%Z.leb_le. apply Z.leb_le. lia. Qed.

Lemma eligible_add k counts j : eligible (count_add k counts) j = true -> eligible counts j = true.
Proof.
  unfold eligible. rewrite count_get_add. intros [[[-> ->]%andb_true_iff ->]%andb_true_iff Hl]%andb_true_iff. cbn.
  destruct (over_limit _ (count_get _ counts)) eqn:Ho; [|done].
  apply negb_true_iff in Hl. eapply over_limit_mono in Ho; [rewrite Ho in Hl; done|]. case_bool_decide; lia.
Qed.

Lemma successive_from n counts mcp total queue j :
  queue_ready queue -> mcp = count_get MCP_CALL counts ->
  j ∈ successive_leases n counts mcp total queue -> j ∈ queue /\ eligible counts j = true.
Proof.
  revert counts mcp total queue. induction n as [|n IH]; intros counts mcp total queue Hr Hmcp; cbn.
  { intros []%not_elem_of_nil. }
  destruct (MAX_LIVE_LEASE_RECORDS <=? total); [intros []%not_elem_of_nil|].
  rewrite next_selected_find by done. destruct (List.find _ _) as [x|] eqn:Hf; [|intros []%not_elem_of_nil].
  apply find_some in Hf as [Hx He]. intros [->|Hj]%elem_of_cons.
  - split; [by apply list_elem_of_In|done].
  - apply IH in Hj as [Hj Hej]; [|by apply queue_ready_without|by rewrite Hmcp, mcp_add]. split; [|by eapply eligible_add].
    apply list_elem_of_In in Hj. unfold without in Hj. apply filter_In in Hj as [Hj _]. by apply list_elem_of_In.
Qed.

Lemma find_skip (f : RelayJob -> bool) passed rest :
  Forall (fun j => f j = false) passed -> List.find f (passed ++ rest) = List.find f rest.
Proof. induction 1 as [|j passed Hj _ IH]; cbn; [done|]. by rewrite Hj. Qed.

Lemma without_unique pre j post :
  NoDup (job_id <$> pre ++ j :: post) -> without (job_id j) (pre ++ j :: post) = pre ++ post.
Proof.
  rewrite fmap_app, fmap_cons. intros (Hpre&Hdis&Hpost)%NoDup_app. apply NoDup_cons in Hpost as [Hj Hpost].
  assert (Hkeep : forall l, job_id j ∉ (job_id <$> l) -> without (job_id j) l = l).
  { induction l as [|x l IH]; cbn; [done|]. intros [Hx Hl]%not_elem_of_cons.
    rewrite bool_decide_false by congruence. cbn. f_equal. by apply IH. }
  unfold without in *. rewrite List.filter_app. cbn. rewrite bool_decide_true by done. cbn.
  rewrite Hkeep, Hkeep; [done|done|]. intros Hin. by apply (Hdis _ Hin), list_elem_of_here.
Qed.

Lemma successive_step n counts mcp total passed j rest :
  queue_ready (passed ++ j :: rest) -> Forall (fun x => eligible counts x = false) passed ->
  eligible counts j = true -> total < MAX_LIVE_LEASE_RECORDS -> mcp = count_get MCP_CALL counts ->
  successive_leases (S n) counts mcp total (passed ++ j :: rest)
  = j :: successive_leases n (count_add (job_kind j) counts) (mcp + (if is_mcp j then 1 else 0)) (total + 1) (passed ++ rest).
Proof.
  intros Hr Hp Hj Ht Hmcp. cbn [successive_leases]. rewrite (proj2 (Z.leb_gt _ _)) by done.
  rewrite next_selected_find, find_skip by done. cbn [List.find]. rewrite Hj.
  by rewrite without_unique by apply Hr.
Qed.

Lemma successive_exhausted n counts mcp total queue :
  n = O \/ MAX_LIVE_LEASE_RECORDS <= total -> successive_leases n counts mcp total queue = [].
Proof.
  destruct n as [|n]; [done|]. intros [?|Ht]; [done|]. cbn. by rewrite (proj2 (Z.leb_le _ _)).
Qed.

Lemma successive_ineligible n counts mcp total passed t post :
  queue_ready (passed ++ t :: post) -> mcp = count_get MCP_CALL counts -> eligible counts t = false ->
  job_id t ∉ (job_id <$> successive_leases n counts mcp total (passed ++ t :: post)).
Proof.
  intros Hr Hmcp Ht (x&Hx&Hin)%list_elem_of_fmap. apply successive_from in Hin as [Hin He]; [|done..].
  assert (x = t) as ->; [|congruence].
  pose proof (qr_ids _ Hr) as Hnd. apply list_elem_of_lookup in Hin as [i Hi].
  assert (Hti : (passed ++ t :: post) !! length passed = Some t) by (by rewrite list_lookup_middle).
  assert (i = length passed) as ->; [|congruence].
  apply (NoDup_lookup (job_id <$> passed ++ t :: post) _ _ (job_id t)); [exact Hnd| |];
    rewrite list_lookup_fmap; [rewrite Hi|rewrite Hti]; cbn; congruence.
Qed.

(** ** The walk *)

(** Every job of the queue has its canonical record, and no change is pending. *)
Record store_ready (queue : list RelayJob) : Prop := {
  sr_journal : no_intents (files s);
  sr_migrated : require_index_migration_complete s = (Ok tt, s);
  sr_jobs : Forall (fun j => exists j', read_required_job (job_id j) s = (Ok j', s) /\ job_cluster j' = cluster) queue;
}.

Lemma pending_answer queue j :
  store_ready queue -> queue_ready queue -> j ∈ queue ->
  job_has_pending_execution_cleanup (job_id j) (job_cluster j) s = (Ok (pending (job_id j)), s).
Proof.
  intros [Hno Hm Hj] [Hq _ Hp] Hin. rewrite Forall_forall in Hj, Hq, Hp.
  destruct (Hj j Hin) as (j'&Hread&Hc). destruct (Hq j Hin) as [Hcj _]. rewrite Hcj.
  unfold job_has_pending_execution_cleanup.
  assert (Hid : require_durable_record_id (JStr (job_id j)) "job_id" = Ok (job_id j)).
  { unfold read_required_job in Hread. apply M_bind_ok in Hread as (x&s1&Hx&_). unfold lift in Hx.
    injection Hx as Hx _. rewrite Hx. f_equal. unfold require_durable_record_id in Hx.
    destruct (validate_durable_record_id _) as [y|[]] eqn:Hv; try done. injection Hx as ->.
    apply validate_ok_inv in Hv as ([= ->]&_). done. }
  rewrite (M_bind_run _ _ _ (job_id j) s) by (unfold lift; by rewrite Hid).
  rewrite (M_bind_run _ _ _ tt s) by done.
  rewrite (M_bind_run _ _ _ tt s) by (by apply reconcile_none).
  rewrite (M_bind_run _ _ _ j' s) by done.
  rewrite Hc, bool_decide_true by done. rewrite (M_bind_run _ _ _ tt s) by done. by apply Hp.
Qed.

(** The code's three tests of a candidate of the lane are those of the reference. *)
#[local] Abbreviation workload j := (_job_matches_mcp_admission_class j WORKLOAD = true).
Lemma passed_over_eligible j st :
  bool_decide (job_kind j = INPUT_INGEST) = false -> workload j ->
  match passed_over policy (pending (job_id j)) j st with
  | Some _ => eligible (sim_counts st) j = false \/ sim_remaining st < 1 \/ sim_free st < 1
  | None => eligible (sim_counts st) j = true /\ 1 <= sim_remaining st /\ 1 <= sim_free st
  end.
Proof.
  intros Hk Hw. unfold passed_over, eligible. rewrite Hk, Hw. cbn [negb andb].
  destruct (pending (job_id j)); cbn [negb andb]; [by left|].
  destruct (over_limit _ _); cbn [negb]; [by left|].
  destruct (sim_remaining st <? 1) eqn:Hr; [right; left; by apply Z.ltb_lt|].
  destruct (sim_free st <? 1) eqn:Hf; [right; right; by apply Z.ltb_lt|].
  apply Z.ltb_ge in Hr, Hf. done.
Qed.

Definition exhausted (st : simulation) : Prop := sim_remaining st < 1 \/ sim_free st < 1.

(** Once no slot is left, the walk admits nobody any more. *)
Lemma simulate_exhausted target queue cands st :
  store_ready queue -> queue_ready queue -> (forall j, j ∈ cands -> j ∈ queue /\ workload j) ->
  exhausted st -> sim_admissible st = false ->
  exists st', simulate policy target cands st s = (Ok st', s) /\
    sim_admitted st' = sim_admitted st /\ sim_admissible st' = false.
Proof.
  intros Hs Hq. revert st. induction cands as [|j cands IH]; intros st Hin Hx Ha; cbn [simulate].
  { by exists st. }
  assert (Hin' : forall x, x ∈ cands -> x ∈ queue /\ workload x) by (intros; apply Hin; by right).
  destruct (Hin j (list_elem_of_here _ _)) as [Hjq Hjw].
  destruct (bool_decide (job_kind j = INPUT_INGEST)) eqn:Hk.
  { destruct (bool_decide (job_id j = target)); [by eexists; split_and!|exact (IH (sim_skip j _ st) Hin' Hx Ha)]. }
  rewrite (M_bind_run _ _ _ _ _ (pending_answer queue j Hs Hq Hjq)).
  pose proof (passed_over_eligible j st Hk Hjw) as Hp. destruct (passed_over _ _ _ _) as [[skip refuse]|].
  - destruct (bool_decide (job_id j = target)); [by eexists; split_and!|exact (IH (sim_skip j _ st) Hin' Hx Ha)].
  - unfold exhausted in Hx. destruct Hp as (_&?&?). lia.
Qed.

Lemma simulate_agrees pre t post passed st mcp total n :
  store_ready (passed ++ pre ++ t :: post) -> queue_ready (passed ++ pre ++ t :: post) ->
  Forall (fun x => eligible (sim_counts st) x = false) passed ->
  Forall (fun x => workload x) (pre ++ [t]) -> mcp = count_get MCP_CALL (sim_counts st) ->
  sim_remaining st = MAX_LIVE_LEASE_RECORDS - total -> n = Z.to_nat (sim_free st) ->
  sim_admissible st = false ->
  let reference := successive_leases n (sim_counts st) mcp total (passed ++ pre ++ t :: post) in
  exists st' more, simulate policy (job_id t) (pre ++ [t]) st s = (Ok st', s) /\
    sim_admitted st' = sim_admitted st ++ more /\ more `prefix_of` reference /\
    (sim_admissible st' = true <-> job_id t ∈ (job_id <$> reference)).
Proof.
  revert passed st mcp total n. induction pre as [|j pre IH]; intros passed st mcp total n Hs Hq Hp Hw Hmcp Hrem Hn Ha reference.
  - cbn [app] in *. apply Forall_inv in Hw. cbn [simulate]. rewrite (bool_decide_true (job_id t = job_id t)) by done.
    assert (Hno : forall why, job_id t ∉ (job_id <$> reference) -> exists st' more,
      ((Ok (sim_refuse why st), s) : result simulation * disk) = (Ok st', s) /\ sim_admitted st' = sim_admitted st ++ more /\
      more `prefix_of` reference /\ (sim_admissible st' = true <-> job_id t ∈ (job_id <$> reference))).
    { intros why Hnot. exists (sim_refuse why st), []. cbn. rewrite app_nil_r, Ha.
      split_and!; [done|done|apply prefix_nil|]. split; [done|intros Hin; by destruct (Hnot Hin)]. }
    destruct (bool_decide (job_kind t = INPUT_INGEST)) eqn:Hk.
    { apply Hno, successive_ineligible; [done..|]. unfold eligible. by rewrite Hk. }
    rewrite (M_bind_run _ _ _ _ _ (pending_answer _ t Hs Hq (proj2 (elem_of_app _ _ _) (or_intror (list_elem_of_here _ _))))).
    pose proof (passed_over_eligible t st Hk Hw) as Ht. destruct (passed_over _ _ _ _) as [[skip refuse]|].
    + apply Hno. destruct Ht as [Ht|Hx]; [by apply successive_ineligible|].
      unfold reference. rewrite successive_exhausted by lia. apply not_elem_of_nil.
    + destruct Ht as (Ht&Hr&Hf). exists (sim_accept st), []. cbn. rewrite app_nil_r.
      split_and!; [done|done|apply prefix_nil|]. split; [|done]. intros _.
      unfold reference. destruct n as [|n]; [lia|]. rewrite successive_step by (done || lia). by left.
  - pose proof Hw as [Hwj Hwpre]%Forall_cons.
    assert (Hj : j ∈ passed ++ (j :: pre) ++ t :: post).
    { apply elem_of_app. right. by left. }
    assert (Hne : job_id j <> job_id t).
    { intros He. pose proof (qr_ids _ Hq) as Hnd. rewrite fmap_app in Hnd. apply NoDup_app in Hnd as (_&_&Hnd).
      cbn in Hnd. apply NoDup_cons in Hnd as [Hnd _]. apply Hnd. rewrite He, fmap_app.
      apply elem_of_app. right. by left. }
    assert (Hmove : (passed ++ [j]) ++ pre ++ t :: post = passed ++ (j :: pre) ++ t :: post) by by rewrite <- app_assoc.
    assert (Hskip : forall why, eligible (sim_counts st) j = false ->
      exists st' more, simulate policy (job_id t) (pre ++ [t]) (sim_skip j why st) s = (Ok st', s) /\
        sim_admitted st' = sim_admitted st ++ more /\ more `prefix_of` reference /\
        (sim_admissible st' = true <-> job_id t ∈ (job_id <$> reference))).
    { intros why Hel. unfold reference. rewrite <- Hmove.
      apply (IH (passed ++ [j]) (sim_skip j why st)); rewrite ?Hmove; try done.
      apply Forall_app. split; [done|by constructor]. }
    cbn [app simulate]. rewrite (bool_decide_false (job_id j = job_id t)) by done.
    destruct (bool_decide (job_kind j = INPUT_INGEST)) eqn:Hk.
    { apply Hskip. unfold eligible. by rewrite Hk. }
    rewrite (M_bind_run _ _ _ _ _ (pending_answer _ j Hs Hq Hj)).
    pose proof (passed_over_eligible j st Hk Hwj) as Ht. destruct (passed_over _ _ _ _) as [[skip refuse]|].
    + destruct (eligible (sim_counts st) j) eqn:Hel; [|by apply Hskip].
      destruct Ht as [?|Hx]; [done|].
      destruct (simulate_exhausted (job_id t) _ (pre ++ [t]) (sim_skip j skip st) Hs Hq) as (st'&Hrun&Hadm&Hno).
      * intros x Hx'. split; [|rewrite Forall_forall in Hwpre; by apply Hwpre].
        apply elem_of_app in Hx' as [Hx'|Hx']; apply elem_of_app; right; cbn.
        -- right. apply elem_of_app. by left.
        -- right. apply list_elem_of_singleton in Hx' as ->. apply elem_of_app. right. by left.
      * exact Hx.
      * done.
      * exists st', []. rewrite Hrun, Hadm, Hno, app_nil_r. split_and!; [done|done|apply prefix_nil|].
        unfold reference. rewrite successive_exhausted by lia. split; [done|intros []%not_elem_of_nil].
    + destruct Ht as (Hel&Hr&Hf). destruct n as [|n]; [lia|].
      pose proof (queue_ready_without (job_id j) _ Hq) as Hq'. cbn [app] in Hq', Hq.
      rewrite without_unique in Hq' by apply Hq.
      destruct (IH passed (sim_admit j st) (mcp + (if is_mcp j then 1 else 0)) (total + 1) n) as (st'&more&Hrun&Hadm&Hpre&Hiff);
        [|done| |done|by rewrite Hmcp, mcp_add|..|exact Ha|]; cbn [sim_admit sim_remaining sim_free sim_counts]; try lia.
      * destruct Hs as [? ? Hjobs]. split; [done|done|].
        apply Forall_app in Hjobs as [Hpa Hjobs]. apply Forall_cons in Hjobs as [_ Hjobs]. by apply Forall_app.
      * eapply Forall_impl; [exact Hp|]. cbn. intros x Hx. apply not_true_iff_false. intros Hx'.
        apply eligible_add in Hx'. congruence.
      * exists st', (j :: more). rewrite Hrun, Hadm. cbn [sim_admit sim_admitted]. rewrite <- app_assoc.
        unfold reference. cbn [app]. rewrite successive_step by (done || lia).
        split_and!; [done|done|by apply prefix_cons|]. rewrite Hiff, fmap_cons, elem_of_cons. cbn [sim_admit sim_counts].
        split; [by right|]. intros [?|?]; [congruence|done].
Qed.
End reference.

(** The fields of the report the theorem reads. *)
Ltac report_field :=
  unfold report; cbn [foldl fst snd]; repeat (rewrite dict_get_set_ne by done);
  rewrite ?dict_get_set_eq; try reflexivity.

(** The target and the jobs ahead of it. *)
Definition up_to (jid : string) (queue : list RelayJob) : list RelayJob :=
  match target_index jid queue with Some i => take (S i) queue | None => [] end.

(** C24: the admission report agrees with the queue, as far as workload lanes go.  When
    queue diagnosis says its analysis is complete, it calls the target admissible exactly
    if the target is among the jobs the queue's own selection would lease to as many
    workers of the workload lane as it counts free slots, asked one after the other within
    the limit on live leases; and the predecessors it lists are the first of those jobs.
    This needs that neither the target nor a job ahead of it is a control query and that
    every live lease of an MCP call is a workload call: the report does not look at lanes,
    and [control_query_misreported] shows it wrong when a control query is ahead. *)
Theorem admission_report_agrees `{ExecutionCleanup} (job : RelayJob) jobs truncated snap s pending mcp :
  let queue := queued_in_cluster (job_cluster job) jobs in
  store_ready (job_cluster job) s queue -> queue_ready (job_cluster job) s pending queue ->
  Forall (fun j => _job_matches_mcp_admission_class j WORKLOAD = true) (up_to (job_id job) queue) ->
  mcp = count_get MCP_CALL (active_leases_by_kind snap) ->
  exists e, _queued_admission_evidence job jobs truncated snap s = (Ok e, s) /\
    (dict_get "analysis_complete" e = Some (JBool true) ->
     exists policy free total b before,
       configured_kind_concurrency snap = Some policy /\ free_worker_slots snap = Some free /\
       global_lease_count snap = Some total /\
       dict_get "target_admissible_now" e = Some (JBool b) /\
       dict_get "simulated_predecessor_admissions" e = Some (JList (take 20 (JStr <$> (job_id <$> before)))) /\
       let given := successive_leases (job_cluster job) policy s (Z.to_nat free) (active_leases_by_kind snap)
                      mcp total queue in
       before `prefix_of` given /\ (b = true <-> job_id job ∈ (job_id <$> given))).
Proof.
  intros queue Hs Hq Hup Hmcp. unfold up_to in Hup. unfold _queued_admission_evidence. fold queue.
  set (reasons := incomplete_reasons snap ++ _). set (complete := analysis_complete snap && _).
  destruct (target_index (job_id job) queue) as [i|] eqn:Hi.
  2:{ eexists. split; [done|]. assert (complete = false) as ->; [|done].
      unfold complete, reasons. rewrite (bool_decide_true (None = None)) by done. rewrite bool_decide_false; [by rewrite andb_false_r|].
      intros [_ Hx]%app_eq_nil. by apply app_eq_nil in Hx as [_ Hx]. }
  destruct complete eqn:Hc; cbn [negb]; [|by eexists].
  assert (Hinc : forall reason, dict_get "analysis_complete" (report (common_evidence snap truncated true reasons)
      [("analysis_complete", JBool false); ("incomplete_reasons", JStrs (reasons ++ [reason]));
       ("target_ineligibility", JStr "analysis_incomplete")]) = Some (JBool false)).
  { intros reason. report_field. }
  destruct (configured_kind_concurrency snap) as [policy|] eqn:Hpol.
  2:{ eexists. split; [done|]. rewrite Hinc. congruence. }
  destruct (free_worker_slots snap) as [free|] eqn:Hfree.
  2:{ eexists. split; [done|]. rewrite Hinc. congruence. }
  destruct (global_lease_count snap) as [total|] eqn:Htot.
  2:{ eexists. split; [done|]. rewrite Hinc. congruence. }
  destruct (remaining_capacity total <? 1) eqn:Hrem.
  - eexists. split; [done|]. intros _. exists policy, free, total, false, [].
    split_and!; try done; [report_field..|apply prefix_nil|].
    rewrite successive_exhausted; [split; [done|intros []%not_elem_of_nil]|].
    right. apply Z.ltb_lt in Hrem. unfold remaining_capacity in Hrem. lia.
  - apply Z.ltb_ge in Hrem. apply find_index_Some in Hi as (t&Ht&Hid&_). apply bool_decide_eq_true in Hid.
    rewrite (take_S_r _ _ _ Ht) in Hup |- *.
    destruct (simulate_agrees (job_cluster job) policy s pending (take i queue) t (drop (S i) queue) []
      (mkSim (active_leases_by_kind snap) [] [] free (remaining_capacity total) None false) mcp total (Z.to_nat free))
      as (st&more&Hrun&Hadm&Hpre&Hiff); cbn [app sim_remaining sim_free sim_admissible];
      rewrite ?take_drop_middle by done; try done.
    { unfold remaining_capacity in *. lia. }
    cbn [app sim_counts sim_admitted] in *. rewrite take_drop_middle in Hpre, Hiff by done. rewrite Hid in Hrun, Hiff.
    rewrite (M_bind_run _ _ _ _ _ Hrun). eexists. split; [done|]. intros _.
    exists policy, free, total, (sim_admissible st), more. unfold walk_evidence.
    split_and!; try done; report_field. by rewrite Hadm.
Qed.
