(* ===== verification/AdmissionSnapshotProofs.v ===== *)
(** * A complete capacity snapshot is what the store says *)

From S2P Require Import Prelude Sha256 Json Identifiers Models Store OrderIndex JobIndex Events LeaseRecords.
From S2P Require Import LeaseCapacity LeaseIndexes LeaseTransitions Recovery JournalStages LeaseReplay LeaseRelease.
From S2P Require Import Endpoints WorkerPolicy AdmissionSnapshot LeaseAdmission AdmissionSimulation AdmissionProofs Decimal.
From stdpp Require Import base list gmap strings.
From Stdlib Require Import ZArith Lia.
From Stdlib Require Ascii String.
Open Scope Z_scope.

(** ** Scans of the lease records *)
Lemma drop_take_str n s : take_str n s +:+ drop_str n s = s.
Proof. revert s. induction n as [|n IH]; intros [|c s]; cbn; try done. rewrite append_cons. by rewrite IH. Qed.

Lemma json_name_stem name : ends_with ".json" name = true -> json_name (json_stem name) = name.
Proof.
  unfold ends_with, json_name, json_stem. intros Hb. bool_prop. cbn [String.length] in *.
  match goal with Hd : drop_str _ _ = _ |- _ => rewrite <- Hd end. apply drop_take_str.
Qed.

Definition json_named (e : path * doc) : Prop := ends_with ".json" (default "" (last e.1)) = true.

Lemma scan_entries_named limit es acc l tr :
  scan_entries limit es acc = Ok (l, tr) -> Forall json_named acc -> Forall json_named l.
Proof.
  revert acc. induction es as [|e es IH]; intros acc; cbn [scan_entries]; [by intros [= <- <-]|].
  destruct (ends_with _ _) eqn:He; cbn [negb]; [|done]. destruct (limit <=? length acc)%nat; [by intros [= <- <-]|].
  intros Hs Ha. apply IH in Hs; [done|]. apply Forall_app. split; [done|by constructor].
Qed.

Section lease_scan.
Context `{World}.

Lemma read_lease_entry_ok name d l :
  ends_with ".json" name = true -> read_lease_entry (["leases"; name], d) = Ok l ->
  d = DLease l /\ valid_lease l = true /\ name = json_name (lease_id l).
Proof.
  intros Hn. unfold read_lease_entry. cbn [snd fst]. destruct d as [| |l'| | | | | | | | | | | | | |]; try done.
  destruct (valid_lease l') eqn:Hv; cbn [negb]; [|done]. case_bool_decide as Hid; [|done]. intros [= ->].
  split_and!; [done|done|]. rewrite Hid. symmetry. by apply json_name_stem.
Qed.

(** A scan that is not cut returns every lease record once. *)
Lemma scan_leases_exact limit s ls tr s' :
  scan_many_lease ["leases"] limit s = (Ok (ls, tr), s') ->
  s' = s /\ NoDup (lease_id <$> ls) /\
  (forall l, l ∈ ls -> files s !! lease_path (lease_id l) = Some (DLease l)) /\
  (tr = false -> forall l, files s !! lease_path (lease_id l) = Some (DLease l) -> l ∈ ls).
Proof.
  intros Hscan. pose proof Hscan as Hspec. apply scan_many_spec in Hspec as (->&_&Hcompl); [|done].
  unfold scan_many_lease, scan_many in Hscan. apply M_bind_ok in Hscan as (u&s0&Hu&Hscan). injection Hu as _ <-.
  apply M_bind_ok in Hscan as (es&s1&[= <- <-]&Hscan).
  apply M_bind_ok in Hscan as ([l0 tr']&s2&Hsc&Hscan). injection Hsc as Hsc <-.
  apply M_bind_ok in Hscan as (rs'&s3&Hmap&Hscan). injection Hmap as Hmap <-.
  injection Hscan as <- <-. cbn [fst snd] in *.
  pose proof (scan_entries_named _ _ _ _ _ Hsc (Forall_nil_2 _)) as Hnamed.
  apply scan_entries_spec in Hsc as [-> _]; [|cbn; lia]. cbn [app length] in *. rewrite Nat.sub_0_r in *.
  apply mapM_result_ok in Hmap.
  set (listed := scandir_order _) in *.
  assert (Hentry : forall i l, rs' !! i = Some l -> exists e, take limit listed !! i = Some e /\
            e = (lease_path (lease_id l), DLease l) /\ files s !! lease_path (lease_id l) = Some (DLease l)).
  { intros i l Hi. destruct (Forall2_lookup_r _ _ _ _ _ Hmap Hi) as ([p d]&Hp&Hr). exists (p, d). split; [done|].
    pose proof (Forall_lookup_1 _ _ _ _ Hnamed Hp) as Hn. unfold json_named in Hn. cbn [fst] in Hn.
    apply lookup_take_Some in Hp as [Hp _]. apply list_elem_of_lookup_2, scandir_elem in Hp as [Hf [name ->]]; [|done].
    cbn [app last default] in Hn. apply read_lease_entry_ok in Hr as (->&_&->); [|done]. by split. }
  split_and!; [done| | |].
  - apply NoDup_alt. intros i j x. rewrite !list_lookup_fmap.
    destruct (rs' !! i) as [a|] eqn:Ha; [|done]. destruct (rs' !! j) as [b|] eqn:Hb; [|done].
    cbn. intros [= <-] [= Hid]. apply Hentry in Ha as (ea&Hea&->&_). apply Hentry in Hb as (eb&Heb&->&_).
    apply lookup_take_Some in Hea as [Hea _]. apply lookup_take_Some in Heb as [Heb _].
    apply (NoDup_lookup listed.*1 i j (lease_path (lease_id a))); [apply scandir_nodup| |];
      rewrite list_lookup_fmap; [by rewrite Hea|]. rewrite Heb. cbn. by rewrite Hid.
  - intros l [i Hi]%list_elem_of_lookup. by apply Hentry in Hi as (_&_&_&?).
  - intros -> l Hl. destruct (Hcompl eq_refl _ _ Hl) as (r&Hr&Hrd). unfold read_lease_entry in Hrd. cbn [snd] in Hrd.
    destruct (valid_lease l); cbn [negb] in Hrd; [|done]. case_bool_decide; [|done]. by injection Hrd as ->.
Qed.
End lease_scan.

(** ** Counting *)
Definition number {A} (p : A -> bool) (l : list A) : Z := Z.of_nat (length (List.filter p l)).

Lemma number_cons {A} (p : A -> bool) x l : number p (x :: l) = Z.b2z (p x) + number p l.
Proof. unfold number. cbn. destruct (p x); cbn [length Z.b2z]; lia. Qed.

(** A fold that adds one to a counter for each element with a property counts them. *)
Lemma fold_number {A B} (step : B -> A -> B) (p : A -> bool) (f : B -> Z) l t :
  (forall t x, f (step t x) = f t + Z.b2z (p x)) -> f (foldl step t l) = f t + number p l.
Proof.
  intros Hstep. revert t. induction l as [|x l IH]; intros t; [unfold number; cbn; lia|].
  cbn [foldl]. rewrite IH, Hstep, number_cons. lia.
Qed.

(** A list that collects the elements with a property is empty if there are none. *)
Lemma fold_collects {A B} (step : B -> A -> B) (p : A -> bool) (f : B -> list string) l t :
  (forall t x, f (step t x) = [] -> f t = [] /\ p x = false) -> f (foldl step t l) = [] ->
  f t = [] /\ Forall (fun x => p x = false) l.
Proof.
  intros Hstep. revert t. induction l as [|x l IH]; intros t Hf; [done|].
  apply IH in Hf as [Hf Hl]. apply Hstep in Hf as [Hf Hx]. by repeat constructor.
Qed.

Lemma sum_values_add (k : JobKind) d : sum_values (count_add k d) = sum_values d + 1.
Proof.
  unfold sum_values, count_add, count_get. induction d as [|[k' v] d IH]; [done|]. cbn [dict_get dict_set].
  destruct (bool_decide (k = k')); cbn; cbn in IH; lia.
Qed.

Lemma count_get_one {K} `{EqDecision K} (k k' : K) counts :
  count_get k (count_add k' counts) = count_get k counts + Z.b2z (bool_decide (k = k')).
Proof.
  unfold count_add, count_get. case_bool_decide as Hk; cbn [Z.b2z].
  - subst. by rewrite dict_get_set_eq.
  - rewrite dict_get_set_ne by done. lia.
Qed.

(** ** The leases of a snapshot *)
Definition job_at (m : gmap path doc) (jid : string) : option RelayJob :=
  match m !! job_path jid with Some (DJob j) => Some j | _ => None end.

Section tally.
Variables (m : gmap path doc) (cluster : string) (now : Z).

Definition live (l : Lease) : bool := negb (is_expired l now).
Definition own_job (test : RelayJob -> bool) (l : Lease) : bool :=
  match job_at m (lease_job_id l) with
  | Some j => bool_decide (job_cluster j = cluster) && test j
  | None => false
  end.
Definition live_of_kind (k : JobKind) (l : Lease) : bool := live l && own_job (fun j => bool_decide (k = job_kind j)) l.
Definition held_by (eid : string) (l : Lease) : bool := live l && bool_decide (eid = lease_endpoint_id l).

(** An expired lease the queue has not recovered yet counts while it is another
    cluster's; one of a finished job of this cluster is dropped by the recovery. *)
Definition foreign (l : Lease) : bool :=
  match job_at m (lease_job_id l) with
  | Some j => negb (bool_decide (job_cluster j = cluster))
  | None => false
  end.
Definition counted (l : Lease) : bool := live l || foreign l.
Definition finished_of_kind (k : JobKind) (l : Lease) : bool :=
  negb (live l) && own_job (fun j => is_terminal (job_state j) && bool_decide (k = job_kind j)) l.
Definition finished (l : Lease) : bool := negb (live l) && own_job (fun j => is_terminal (job_state j)) l.
Definition unresolved (l : Lease) : bool := bool_decide (job_at m (lease_job_id l) = None).
Definition overdue (l : Lease) : bool := negb (live l) && own_job (fun j => is_active (job_state j)) l.

Definition tally_step (t : lease_tally) (l : Lease) : lease_tally :=
  tally_lease cluster now l (job_at m (lease_job_id l)) t.

Ltac tally_cases :=
  intros t l; unfold tally_step, tally_lease, live_of_kind, held_by, counted, finished_of_kind, finished,
    unresolved, overdue, own_job, foreign, live, is_active;
  destruct (is_expired l now); cbn [negb andb orb];
  destruct (job_at m (lease_job_id l)) as [j|] eqn:Hjob; cbn [negb andb orb];
  try (destruct (bool_decide (job_cluster j = cluster)); cbn [negb andb orb];
       try (destruct (is_terminal (job_state j)); cbn [negb andb orb])).

Lemma tally_active_kind k t l : count_get k (tl_active (tally_step t l)) = count_get k (tl_active t) + Z.b2z (live_of_kind k l).
Proof. revert t l. tally_cases; cbn [tl_active]; rewrite ?count_get_one; cbn [Z.b2z]; lia. Qed.

Lemma tally_held eid t l :
  count_get eid (tl_by_endpoint (tally_step t l)) = count_get eid (tl_by_endpoint t) + Z.b2z (held_by eid l).
Proof. revert t l. tally_cases; cbn [tl_by_endpoint]; rewrite ?count_get_one; cbn [Z.b2z]; lia. Qed.

Lemma tally_global t l : tl_global (tally_step t l) = tl_global t + Z.b2z (counted l).
Proof. revert t l. tally_cases; cbn [tl_global Z.b2z]; lia. Qed.

Lemma tally_finished_kind k t l :
  count_get k (tl_recoverable (tally_step t l)) = count_get k (tl_recoverable t) + Z.b2z (finished_of_kind k l).
Proof. revert t l. tally_cases; cbn [tl_recoverable]; rewrite ?count_get_one; cbn [Z.b2z]; lia. Qed.

Lemma tally_finished t l :
  sum_values (tl_recoverable (tally_step t l)) = sum_values (tl_recoverable t) + Z.b2z (finished l).
Proof. revert t l. tally_cases; cbn [tl_recoverable]; rewrite ?sum_values_add; cbn [Z.b2z]; lia. Qed.

Lemma tally_unresolved t l : tl_unresolved (tally_step t l) = [] -> tl_unresolved t = [] /\ unresolved l = false.
Proof. revert t l. tally_cases; cbn [tl_unresolved]; intros Ht; try done; by apply app_eq_nil in Ht as [_ ?]. Qed.

Lemma tally_overdue t l : tl_expired (tally_step t l) = [] -> tl_expired t = [] /\ overdue l = false.
Proof. revert t l. tally_cases; cbn [tl_expired]; intros Ht; try done; by apply app_eq_nil in Ht as [_ ?]. Qed.

(** Without duplicates the live leases are of distinct jobs. *)
Lemma tally_distinct ls t :
  tl_duplicates (foldl tally_step t ls) = [] ->
  tl_duplicates t = [] /\
  (NoDup (tl_job_ids t) -> NoDup ((lease_job_id <$> List.filter live ls) ++ tl_job_ids t)).
Proof.
  revert t. induction ls as [|l ls IH]; intros t Hd; [done|]. cbn [foldl] in Hd. apply IH in Hd as [Hd Hn].
  assert (Hstep : tl_duplicates t = [] /\
    if live l then tl_job_ids (tally_step t l) = lease_job_id l :: tl_job_ids t /\ lease_job_id l ∉ tl_job_ids t
    else tl_job_ids (tally_step t l) = tl_job_ids t).
  { revert Hd. clear. revert t l. tally_cases; cbn [tl_duplicates tl_job_ids]; try done;
      case_bool_decide; try done; intros Hx; by apply app_eq_nil in Hx as [_ ?]. }
  destruct Hstep as [Ht Hids]. split; [done|]. intros Hnd. cbn [List.filter]. destruct (live l).
  - destruct Hids as [Hids Hnot]. rewrite Hids in Hn. cbn. rewrite <- Permutation_middle in Hn.
    apply Hn. by constructor.
  - rewrite Hids in Hn. by apply Hn.
Qed.
End tally.

(** ** Free slots *)
Definition declared (slotted : bool) (e : EndpointRegistration) : Z :=
  if slotted then 1 else _endpoint_concurrency (endpoint_metadata e).

Lemma free_slots_sum slotted owned endpoints free invalid f :
  free_slots slotted owned endpoints free invalid = (f, false) ->
  invalid = false /\ Forall (fun e => count_get (endpoint_id e) owned <= declared slotted e) endpoints /\
  f = free + foldr Z.add 0 ((fun e => declared slotted e - count_get (endpoint_id e) owned) <$> endpoints).
Proof.
  revert free invalid. induction endpoints as [|e endpoints IH]; intros free invalid; cbn [free_slots].
  { intros [= <- <-]. cbn. split_and!; [done|constructor|lia]. }
  fold (declared slotted e). destruct (declared slotted e <? _) eqn:Hd.
  - intros Hf. by apply IH in Hf as [? _].
  - apply Z.ltb_ge in Hd. intros Hf. apply IH in Hf as (->&Hall&->). split_and!; [done|by constructor|]. cbn. lia.
Qed.

Section snapshot.
Context `{JobDerived}.

Lemma read_job_at jid s o s' :
  catch_not_found (get_job jid) s = (Ok o, s') -> s' = s /\ o = job_at (files s) jid.
Proof.
  unfold catch_not_found, get_job, read_required_job, require_durable_record_id, job_at, job_path, mbind, M_bind, lift.
  destruct (validate_durable_record_id (JStr jid)) as [x|e] eqn:Hx; [|destruct e; try done; exfalso; revert Hx; unfold validate_durable_record_id, raise_unless, mbind, result_bind; repeat case_match; done].
  apply validate_ok_inv in Hx as ([= ->]&_). unfold read_doc.
  destruct (files s !! ["jobs"; json_name x]) as [d|]; [|by intros [= <- <-]].
  destruct (_ <? _); [done|]. destruct d as [|j| | | | | | | | | | | | | | |]; try done.
  unfold ensure, lift, raise_unless. destruct (valid_job j); [|done]. destruct (bool_decide _); [|done].
  by intros [= <- <-].
Qed.

Lemma tally_leases_fold cluster now ls t s t' s' :
  tally_leases cluster now ls t s = (Ok t', s') ->
  s' = s /\ t' = foldl (tally_step (files s) cluster now) t ls.
Proof.
  revert t. induction ls as [|l ls IH]; intros t; cbn [tally_leases]; [by intros [= <- <-]|].
  intros Hrun. apply M_bind_ok in Hrun as (o&s1&Ho&Hrun). apply read_job_at in Ho as [-> ->].
  by apply IH in Hrun.
Qed.

(** ** Reading the reduced record *)

(** The reasons of a complete snapshot are none, one by one. *)
Lemma complete_reasons endpoints cut indexed t lease_cut :
  let snap := reduce_snapshot endpoints cut indexed t lease_cut in
  analysis_complete snap = true ->
  lease_cut = false /\ tl_unresolved t = [] /\ tl_expired t = [] /\ tl_duplicates t = [] /\
  (exists policy, configured_kind_concurrency snap = Some policy) /\
  let '(capacity, slotted, _) := capacity_endpoints endpoints in
  (exists free, free_slots slotted (tl_by_endpoint t) capacity 0 false = (free, false) /\
                free_worker_slots snap = Some free) /\
  (exists counts total, indexed = Ok (counts, total) /\
     (tl_exact t = true -> index_agrees t (Some (counts, total)) = Some true)).
Proof.
  unfold reduce_snapshot. destruct (capacity_endpoints endpoints) as [[capacity slotted] policies].
  destruct (_kind_concurrency_configurations policies) as [configurations valid].
  destruct (free_slots slotted (tl_by_endpoint t) capacity 0 false) as [free invalid] eqn:Hfree.
  cbn [analysis_complete configured_kind_concurrency free_worker_slots]. intros Hc. apply bool_decide_eq_true in Hc.
  repeat match type of Hc with _ ++ _ = [] => apply app_eq_nil in Hc as [? Hc] end.
  destruct lease_cut; [done|]. destruct valid; [|done]. cbn [negb andb] in *.
  destruct (length configurations <=? 1)%nat; [|done]. destruct invalid; [done|].
  repeat case_bool_decide; try done. destruct indexed as [[counts total]|e]; [|done].
  split_and!; try done; [by eexists|by eexists|]. exists counts, total. split; [done|]. intros He.
  destruct (index_agrees t (Some (counts, total))) as [[]|] eqn:Ha; [done|done|].
  unfold index_agrees in Ha. by rewrite He in Ha.
Qed.

(** The tally is exact when nothing was cut, unresolved or overdue. *)
Lemma tally_exact m cluster now ls t :
  Forall (fun l => unresolved m l = false) ls -> Forall (fun l => overdue m cluster now l = false) ls ->
  tl_exact (foldl (tally_step m cluster now) t ls) = tl_exact t.
Proof.
  intros Hu Ho. revert t. induction ls as [|l ls IH]; intros t; [done|].
  apply Forall_cons in Hu as [Hul Hu]. apply Forall_cons in Ho as [Hol Ho]. cbn [foldl]. rewrite IH by done.
  revert Hul Hol. clear. unfold tally_step, tally_lease, unresolved, overdue, own_job, live, is_active.
  destruct (is_expired l now); cbn [negb andb]; [|repeat case_match; done].
  destruct (job_at m (lease_job_id l)) as [j|]; [|by rewrite bool_decide_true].
  destruct (bool_decide (job_cluster j = cluster)); cbn [negb andb]; [|done]. by intros _ ->.
Qed.

Lemma require_migration_state s r s' : require_index_migration_complete s = (r, s') -> s' = s.
Proof.
  unfold require_index_migration_complete, mbind, M_bind, read_doc.
  destruct (files s !! _) as [d|]; [|by intros [= _ <-]].
  destruct (_ <? _)%Z; [by intros [= _ <-]|]. destruct d as [[]| | | | | | | | | | | | | | | |]; try by intros [= _ <-].
  unfold ensure, lift. destruct (raise_unless _ _); by intros [= _ <-].
Qed.

(** What the capacity question returns, from a store without intents. *)
Lemma capacity_question_run cluster s v s' :
  no_intents (files s) -> lease_admission_capacity_snapshot cluster s = (Ok v, s') ->
  _lease_capacity_snapshot cluster s = (Ok v, s') /\ files s' = files s.
Proof.
  intros Hno Hrun. unfold lease_admission_capacity_snapshot in Hrun.
  apply M_bind_ok in Hrun as ([]&s1&Hm&Hrun). apply require_migration_state in Hm as ->.
  unfold _recover_pending_transitions_unlocked in Hrun.
  rewrite (M_bind_run _ _ _ tt s) in Hrun by (by apply reconcile_none). split; [done|].
  pose proof (readonly_files (_lease_capacity_snapshot cluster) s) as Hf. rewrite Hrun in Hf. apply Hf.
  unfold readonly, _lease_capacity_snapshot, _read_lease_capacity_aggregate_unlocked.
  repeat first [apply readonly_capacity_read | step_touches].
Qed.

Lemma scan_leases_run limit s ls cut s' :
  no_intents (files s) -> scan_leases limit None s = (Ok (ls, cut), s') ->
  s' = s /\ exists found, ls ≡ₚ found /\ scan_many_lease ["leases"] limit s = (Ok (found, cut), s).
Proof.
  intros Hno Hrun. unfold scan_leases, _recover_pending_transitions_unlocked in Hrun.
  rewrite (M_bind_run _ _ _ tt s) in Hrun by (by apply reconcile_none).
  apply M_bind_ok in Hrun as ([found tr]&s2&Hscan&Hrun). pose proof Hscan as Hspec.
  apply scan_many_spec in Hspec as (->&_); [|done].
  rewrite (M_bind_run _ _ _ found s) in Hrun by done. injection Hrun as <- <- <-.
  split; [done|]. exists found. split; [apply sort_by_perm|done].
Qed.

(** What the loop over the leases has counted. *)
Lemma tally_sums m cluster now ls cut t :
  t = foldl (tally_step m cluster now) (empty_tally cut) ls ->
  (forall k, count_get k (tl_active t) = number (live_of_kind m cluster now k) ls) /\
  (forall k, count_get k (tl_recoverable t) = number (finished_of_kind m cluster now k) ls) /\
  tl_global t = number (counted m cluster now) ls /\
  sum_values (tl_recoverable t) = number (finished m cluster now) ls /\
  (forall eid, count_get eid (tl_by_endpoint t) = number (held_by now eid) ls).
Proof.
  intros ->. assert (Hzero : forall k, count_get k zero_counts = 0) by (by intros []).
  split_and!; [intros k|intros k| | |intros eid].
  - rewrite (fold_number _ (live_of_kind m cluster now k) (fun t => count_get k (tl_active t)))
      by (intros; apply tally_active_kind). cbn [tl_active empty_tally]. rewrite Hzero. lia.
  - rewrite (fold_number _ (finished_of_kind m cluster now k) (fun t => count_get k (tl_recoverable t)))
      by (intros; apply tally_finished_kind). cbn [tl_recoverable empty_tally]. rewrite Hzero. lia.
  - by rewrite (fold_number _ (counted m cluster now) tl_global) by apply tally_global.
  - by rewrite (fold_number _ (finished m cluster now) (fun t => sum_values (tl_recoverable t)))
      by (intros; apply tally_finished).
  - by rewrite (fold_number _ (held_by now eid) (fun t => count_get eid (tl_by_endpoint t)))
      by (intros; apply tally_held).
Qed.

(** The leases of a store, each once. *)
Definition lists_leases (leases : list Lease) (m : gmap path doc) : Prop :=
  NoDup (lease_id <$> leases) /\ (forall l, l ∈ leases <-> m !! lease_path (lease_id l) = Some (DLease l)).

Definition free_capacity (m : gmap path doc) (now : Z) (leases : list Lease) (endpoints : list EndpointRegistration) : Z :=
  let '(capacity, slotted, _) := capacity_endpoints endpoints in
  foldr Z.add 0 ((fun e => declared slotted e - number (held_by now (endpoint_id e)) leases) <$> capacity).

(** C25: a complete capacity snapshot is what the store says.  With [leases] the
    leases of the store, its counts by kind are the live leases of the cluster,
    which are the capacity pair's counts less the expired leases of finished jobs;
    its global count is the leases that are live or another cluster's, which is the
    pair's total less those; its free slots are the declared ones less the live
    leases their workers hold; and no two live leases are of one job. *)
Theorem complete_snapshot_exact cluster endpoints cut limit now s snap s' :
  no_intents (files s) ->
  _admission_snapshot cluster endpoints cut limit now s = (Ok snap, s') ->
  analysis_complete snap = true ->
  exists leases counts total,
    lists_leases leases (files s) /\ (_lease_capacity_snapshot cluster s).1 = Ok (counts, total) /\
    (forall k, count_get k (active_leases_by_kind snap) = number (live_of_kind (files s) cluster now k) leases /\
               count_get k (active_leases_by_kind snap)
               = count_get k counts - number (finished_of_kind (files s) cluster now k) leases) /\
    global_lease_count snap = Some (number (counted (files s) cluster now) leases) /\
    number (counted (files s) cluster now) leases = total - number (finished (files s) cluster now) leases /\
    free_worker_slots snap = Some (free_capacity (files s) now leases endpoints) /\
    NoDup (lease_job_id <$> List.filter (live now) leases).
Proof.
  intros Hno Hrun Hcomplete. unfold _admission_snapshot in Hrun.
  apply M_bind_ok in Hrun as (indexed&s1&Hix&Hrun). apply M_bind_ok in Hrun as ([ls lcut]&s2&Hscan&Hrun).
  apply M_bind_ok in Hrun as (t&s3&Htally&Hrun). injection Hrun as <- <-. cbn [fst snd] in *.
  pose proof (complete_reasons _ _ _ _ _ Hcomplete) as (->&Hun&Hov&Hdup&_&Hrest).
  unfold free_capacity. unfold reduce_snapshot. destruct (capacity_endpoints endpoints) as [[capacity slotted] policies].
  destruct Hrest as ((free&Hfree&_)&counts&total&->&Hagree).
  assert (Hcap : _lease_capacity_snapshot cluster s = (Ok (counts, total), s1) /\ files s1 = files s).
  { unfold catch_conflict in Hix. destruct (lease_admission_capacity_snapshot cluster s) as [[v|[]] s1'] eqn:Hq; try done.
    injection Hix as -> ->. by apply capacity_question_run. }
  destruct Hcap as [Hcap Hs1]. apply scan_leases_run in Hscan as (->&found&Hperm&Hfound); [|by rewrite Hs1].
  apply scan_leases_exact in Hfound as (_&Hnd&Hin&Hall). rewrite Hs1 in Hin, Hall.
  apply tally_leases_fold in Htally as [-> Htally]. rewrite Hs1 in Htally.
  set (step := tally_step (files s) cluster now) in *.
  rewrite Htally in Hun, Hov, Hdup.
  apply (fold_collects step (unresolved (files s)) tl_unresolved) in Hun as [_ Hun]; [|apply tally_unresolved].
  apply (fold_collects step (overdue (files s) cluster now) tl_expired) in Hov as [_ Hov]; [|apply tally_overdue].
  apply tally_distinct in Hdup as [_ Hdup].
  assert (Hexact : tl_exact t = true) by (rewrite Htally; unfold step; by rewrite tally_exact).
  specialize (Hagree Hexact). unfold index_agrees in Hagree. rewrite Hexact in Hagree.
  apply (inj Some), andb_true_iff in Hagree as [Htot Hkinds]. apply Z.eqb_eq in Htot.
  destruct (tally_sums _ _ _ _ _ _ Htally) as (Hactive&Hfin&Hglobal&Hsum&Hheld).
  exists ls, counts, total.
  destruct (_kind_concurrency_configurations policies) as [configurations valid].
  rewrite Hfree. cbn [active_leases_by_kind global_lease_count free_worker_slots]. rewrite Hexact.
  split_and!.
  - split; [by rewrite Hperm|]. intros l. rewrite Hperm. split; [apply Hin|by apply Hall].
  - by rewrite Hcap.
  - intros k. rewrite <- Hfin. split; [apply Hactive|]. rewrite forallb_forall in Hkinds.
    symmetry. apply Z.eqb_eq, Hkinds. destruct k; cbn; tauto.
  - by rewrite Hglobal.
  - rewrite <- Hglobal, <- Hsum. lia.
  - f_equal. apply free_slots_sum in Hfree as (_&_&->). rewrite Z.add_0_l. f_equal.
    apply list_fmap_ext. intros i e _. by rewrite Hheld.
  - specialize (Hdup (NoDup_nil_2)). by rewrite app_nil_r in Hdup.
Qed.
End snapshot.
