(* ===== verification/AdmissionExamples.v ===== *)
(** * Admission on concrete stores: witnesses *)

From S2P Require Import Prelude Sha256 Json Identifiers Models Store OrderIndex JobIndex Events LeaseRecords LeaseRecordsProofs.
From S2P Require Import LeaseDocuments LeaseCapacity LeaseCapacityProofs LeaseExamples LeaseIndexes LeaseTransitions.
From S2P Require Import Recovery JournalStages LeaseReplay LeaseRelease Endpoints WorkerPolicy LeaseAdmission Decimal.
From S2P Require Import LeaseRenew LeaseLifecycleExamples AdmissionSnapshot AdmissionSimulation AdmissionProofs AdmissionSnapshotProofs.
From stdpp Require Import base list gmap strings.
From Stdlib Require Import ZArith Lia.
From Stdlib Require Ascii String.
Open Scope Z_scope.

#[local] Existing Instance reference_world.

(** The other components, with nothing of their own to update. *)
#[local] Program Instance quiet_derived : JobDerived := {|
  _migrate_execution_cleanup_shard_unlocked _ _ := mret tt;
  _sync_owner_session_job_membership_unlocked _ := mret tt;
  _sync_scheduler_source_unlocked _ _ _ := mret tt;
  _sync_gateway_session_derived_unlocked _ := mret tt;
  derived_families := [];
|}.
Next Obligation. repeat constructor; apply not_elem_of_nil. Qed.
Next Obligation. done. Qed.
Next Obligation. done. Qed.
Next Obligation. done. Qed.
Next Obligation. done. Qed.

(** No job waits for the cleanup of an execution, except [job_c]. *)
#[local] Program Instance demo_cleanup : ExecutionCleanup := {|
  _job_has_pending_execution_cleanup_unlocked _ jid := mret (bool_decide (jid = "job_c"));
|}.
Next Obligation. done. Qed.

Definition migrated_doc : doc :=
  DJson (JObj [("schema_version", JStr "clio-relay.index-migration.v1"); ("complete", JBool true)]).

(** ** The report *)
Definition waiting (id : string) (kind : JobKind) : RelayJob :=
  mkJob id "ares" kind QUEUED JNull "key" None None [] None 0 0 None 0 None None [].
Definition waiting_jobs : list RelayJob :=
  [waiting "job_a" JARVIS; waiting "job_b" JARVIS; waiting "job_c" MCP_CALL; waiting "job_d" MCP_CALL;
   waiting "job_e" MCP_CALL].
Definition waiting_disk : disk :=
  mkDisk (list_to_map ((["migrations"; "index-v1.json"], migrated_doc) ::
            ((fun j => (job_path (job_id j), DJob j)) <$> waiting_jobs))) None 0 0.
Definition two_free : AdmissionSnapshot :=
  mkSnapshot true [] (Some [(JARVIS, 1)]) true 1 3 (Some 2) 1 [(MCP_CALL, 1)] (Some 1) true None false false false [] [].

Lemma no_intents_dom (m : gmap path doc) :
  Forall (fun kv => default "" (head kv.1) <> "transition_intents") (map_to_list m) -> no_intents m.
Proof.
  intros Hall name. destruct (m !! _) as [d|] eqn:Hd; [|done]. apply elem_of_map_to_list in Hd.
  rewrite Forall_forall in Hall. by apply Hall in Hd.
Qed.

Lemma admission_report_agrees_witness :
  exists e, _queued_admission_evidence (waiting "job_d" MCP_CALL) waiting_jobs false two_free waiting_disk = (Ok e, waiting_disk) /\
    dict_get "target_admissible_now" e = Some (JBool true) /\
    job_id (waiting "job_d" MCP_CALL) ∈
      (job_id <$> successive_leases "ares" [(JARVIS, 1)] waiting_disk 2 [(MCP_CALL, 1)] 1 1 (queued_in_cluster "ares" waiting_jobs)).
Proof.
  destruct (admission_report_agrees (waiting "job_d" MCP_CALL) waiting_jobs false two_free waiting_disk
    (fun jid => bool_decide (jid = "job_c")) 1) as (e&Hrun&Hiff).
  - split; [apply no_intents_dom; vm_compute; repeat constructor; done|reflexivity|].
    repeat constructor; eexists; split; reflexivity.
  - split; [repeat constructor|apply (bool_decide_unpack _); by vm_compute|repeat constructor].
  - apply (bool_decide_unpack _). by vm_compute.
  - reflexivity.
  - exists e. split; [exact Hrun|].
    assert (He : exists e', (_queued_admission_evidence (waiting "job_d" MCP_CALL) waiting_jobs false two_free waiting_disk).1 = Ok e'
      /\ dict_get "analysis_complete" e' = Some (JBool true) /\ dict_get "target_admissible_now" e' = Some (JBool true))
      by (eexists; split_and!; vm_compute; reflexivity).
    destruct He as (e'&He&Hc&Ht). rewrite Hrun in He. injection He as <-. split; [exact Ht|].
    destruct (Hiff Hc) as (p&f&t&b&before&[= <-]&[= <-]&[= <-]&Hb&_&_&Hin). rewrite Ht in Hb. injection Hb as <-.
    by apply Hin.
Defined.

(** *** A control query ahead of the target

    The report does not look at lanes.  With one free slot and a control query first in the
    queue, it lets the query take the slot and calls the job behind it inadmissible; a
    worker of the workload lane passes the query over and is given that job.  The other
    way round, it calls the query itself admissible when no workload worker would take it. *)
Definition control_query : RelayJob :=
  mkJob "job_q" "ares" MCP_CALL QUEUED
    (JObj [("server", JStr "relay"); ("admission_class", JStr "control_query")]) "key" None None [] None 0 0 None 0 None None [].
Definition query_jobs : list RelayJob := [control_query; waiting "job_a" JARVIS].
Definition query_disk : disk :=
  mkDisk (list_to_map ((["migrations"; "index-v1.json"], migrated_doc) ::
            ((fun j => (job_path (job_id j), DJob j)) <$> query_jobs))) None 0 0.
Definition one_free : AdmissionSnapshot :=
  mkSnapshot true [] (Some [(JARVIS, 1)]) true 1 1 (Some 1) 0 [] (Some 0) true None false false false [] [].

Lemma control_query_misreported :
  (exists e, _queued_admission_evidence (waiting "job_a" JARVIS) query_jobs false one_free query_disk = (Ok e, query_disk) /\
     dict_get "analysis_complete" e = Some (JBool true) /\ dict_get "target_admissible_now" e = Some (JBool false)) /\
  (exists e, _queued_admission_evidence control_query query_jobs false one_free query_disk = (Ok e, query_disk) /\
     dict_get "target_admissible_now" e = Some (JBool true)) /\
  job_id <$> successive_leases "ares" [(JARVIS, 1)] query_disk 1 [] 0 0 (queued_in_cluster "ares" query_jobs) = ["job_a"].
Proof.
  split_and!; [eexists; split_and!; vm_compute; reflexivity..|vm_compute; reflexivity].
Qed.

(** ** The snapshot *)

(** One live lease of a worker with two slots. *)
Definition busy_files : gmap path doc := <[["migrations"; "index-v1.json"] := migrated_doc]> lease_files_disk.
Definition busy_disk : disk := mkDisk busy_files None 0 0.
Definition busy_worker : EndpointRegistration :=
  mkEndpoint "ep_1" WORKER (Some "ares") "node" 7 0 0
    [("concurrency", JInt 2); ("kind_concurrency", JObj [("jarvis", JInt 1)])].

(** The store, with the two records of the capacity pair left open. *)
Definition busy_shape (aggregate checkpoint : doc) : disk :=
  mkDisk (<[["migrations"; "index-v1.json"] := migrated_doc]>
    (<[_lease_index_path "lease_1" := DLeaseIndex rebuilt_identity]>
    (<[["leases_by_job"; "job_1"; "lease_1.json"] := DLease demo_lease]>
    (<[lease_path "lease_1" := DLease demo_lease]>
    (<[job_path "job_1" := DJob demo_job]>
    (<[checkpoint_path := checkpoint]> (<[aggregate_path := aggregate]> ∅))))))) None 0 0.

Lemma busy_disk_shape : exists a c, busy_disk = busy_shape a c.
Proof.
  unfold busy_disk, busy_shape, busy_files, lease_files_disk, pair_disk. cbn [files]. eexists _, _. reflexivity.
Qed.

Lemma busy_scan a c :
  scan_leases 10 None (busy_shape a c) = (Ok ([demo_lease], false), busy_shape a c).
Proof. vm_compute. reflexivity. Qed.

Definition busy_tally : lease_tally :=
  tally_lease "ares" 1 demo_lease (Some demo_job) (empty_tally false).

Lemma busy_tallied a c :
  tally_leases "ares" 1 [demo_lease] (empty_tally false) (busy_shape a c) = (Ok busy_tally, busy_shape a c).
Proof. vm_compute. reflexivity. Qed.

Lemma busy_migrated a c : require_index_migration_complete (busy_shape a c) = (Ok tt, busy_shape a c).
Proof. vm_compute. reflexivity. Qed.

Lemma busy_quiet : no_intents busy_files.
Proof. intros name. unfold busy_files. rewrite lookup_insert_ne by (intros [=]). apply lease_disk_quiet. Qed.

Lemma busy_counts : _lease_capacity_snapshot "ares" busy_disk = (Ok ([(JARVIS, 1)], 1), busy_disk).
Proof.
  assert (Hh : holds_pair lease_pair (files busy_disk)).
  { unfold busy_disk, busy_files. cbn [files]. unfold holds_pair.
    eapply holds_frame; [by apply same_capacity_insert|]. apply lease_disk_holds. }
  unfold _lease_capacity_snapshot.
  rewrite (M_bind_run _ _ _ _ _ (read_aggregate_run _ _ Hh (proj2 (proj2 lease_pair_ok)))).
  cbn [pair_aggregate canonical_aggregate ag_cluster_kind_counts ag_global_live_leases].
  assert (Hp : ag_cluster_kind_counts (pair_aggregate lease_pair) = ares_counts /\
               ag_global_live_leases (pair_aggregate lease_pair) = 1).
  { unfold lease_pair, pair_of, new_lease_capacity_pair.
    by rewrite (normalize_ok ares_counts ares_counts_ok ares_counts_bounded). }
  destruct Hp as [-> ->]. unfold ares_counts. generalize (lease_cluster_token "ares"). intros token.
  unfold mret, M_ret. cbn. by rewrite bool_decide_true by done.
Qed.

Definition busy_snapshot : AdmissionSnapshot :=
  reduce_snapshot [busy_worker] false (Ok ([(JARVIS, 1)], 1)) busy_tally false.

Lemma shape_snapshot_run s a c :
  s = busy_shape a c -> no_intents (files s) -> _lease_capacity_snapshot "ares" s = (Ok ([(JARVIS, 1)], 1), s) ->
  _admission_snapshot "ares" [busy_worker] false 10 1 s = (Ok busy_snapshot, s).
Proof.
  intros Hshape Hno Hcounts. unfold _admission_snapshot, busy_snapshot.
  rewrite (M_bind_run _ _ _ (Ok ([(JARVIS, 1)], 1)) s).
  2:{ unfold catch_conflict, lease_admission_capacity_snapshot.
      rewrite (M_bind_run _ _ _ tt s) by (rewrite Hshape; apply busy_migrated).
      unfold _recover_pending_transitions_unlocked.
      rewrite (M_bind_run _ _ _ tt s) by (by apply reconcile_none).
      by rewrite Hcounts. }
  rewrite (M_bind_run _ _ _ ([demo_lease], false) s) by (rewrite Hshape; apply busy_scan). cbn [fst snd].
  by rewrite (M_bind_run _ _ _ busy_tally s) by (rewrite Hshape; apply busy_tallied).
Qed.

Lemma busy_snapshot_run : _admission_snapshot "ares" [busy_worker] false 10 1 busy_disk = (Ok busy_snapshot, busy_disk).
Proof.
  destruct busy_disk_shape as (a&c&Hshape). apply (shape_snapshot_run busy_disk a c Hshape); [apply busy_quiet|apply busy_counts].
Qed.

Lemma complete_snapshot_exact_witness :
  _admission_snapshot "ares" [busy_worker] false 10 1 busy_disk = (Ok busy_snapshot, busy_disk) /\
  exists leases,
    lists_leases leases (files busy_disk) /\
    1 = number (counted (files busy_disk) "ares" 1) leases /\
    free_capacity (files busy_disk) 1 leases [busy_worker] = 1.
Proof.
  split; [apply busy_snapshot_run|].
  destruct (complete_snapshot_exact "ares" [busy_worker] false 10 1 busy_disk busy_snapshot busy_disk)
    as (leases&counts&total&Hl&_&_&Hg&_&Hf&_).
  - apply busy_quiet.
  - apply busy_snapshot_run.
  - by vm_compute.
  - exists leases. split; [exact Hl|]. split.
    + assert (He : global_lease_count busy_snapshot = Some 1) by (by vm_compute). rewrite He in Hg. congruence.
    + assert (He : free_worker_slots busy_snapshot = Some 1) by (by vm_compute). rewrite He in Hf. congruence.
Defined.
