(* ===== verification/StorageTypes.v ===== *)
(** * Storage admission: the shared types ([storage_policy_types.py])

    The outcome vocabulary, the limits, reservations, tree usage, volume health,
    status reports and decisions, and the error monad of the storage modules: an
    operation finishes, fails with a [StoragePolicyError], or raises another
    exception, and a failure keeps the state reached when it was raised. *)

From S2P Require Import Prelude Sha256 Json.
From stdpp Require Import base list strings.
From Stdlib Require Import ZArith QArith Lia.
From Stdlib Require Ascii String.
Open Scope Z_scope.

Inductive StorageReason :=
  | HEALTHY | RESERVED | RESERVATION_IDEMPOTENT | RESERVATION_RELEASED | RESERVATION_ABSENT
  | RECONCILED | JOB_RESERVATION_EXCEEDED | INVALID_REQUEST | RESERVATION_CONFLICT | PER_JOB_LIMIT
  | CORE_HIGH_WATER | SPOOL_HIGH_WATER | TOTAL_HIGH_WATER | FILESYSTEM_FREE_RESERVE
  | LEDGER_MALFORMED | LEDGER_OVERSIZED | LEDGER_UNSAFE | LEDGER_CAPACITY | LOCK_TIMEOUT
  | PERSISTENCE_FAILURE | SCAN_ROOT_INVALID | SCAN_UNSAFE_ENTRY | SCAN_CHANGED | SCAN_IO_ERROR
  | SCAN_ENTRY_LIMIT | SCAN_DEPTH_LIMIT | SCAN_BYTE_LIMIT | FILESYSTEM_QUERY_FAILED.

#[export] Instance StorageReason_eq_dec : EqDecision StorageReason.
Proof. solve_decision. Defined.

(** The report an error or a decision carries. *)
Abbreviation details := (list (string * json)).

Record StoragePolicyError := mkError {
  err_reason : StorageReason;
  err_message : string;
  err_details : details;
}.

(** ** Computations that may fail *)
Inductive outcome (A : Type) :=
  | Done (a : A)
  | Failed (e : StoragePolicyError)
  | Raised (e : exn).
Arguments Done {A} a.
Arguments Failed {A} e.
Arguments Raised {A} e.

#[export] Instance outcome_ret : MRet outcome := fun A a => Done a.
#[export] Instance outcome_bind : MBind outcome := fun A B k r =>
  match r with Done a => k a | Failed e => Failed e | Raised e => Raised e end.

Definition fail {A} (reason : StorageReason) (message : string) (d : details) : outcome A :=
  Failed (mkError reason message d).
Definition require (b : bool) (reason : StorageReason) (message : string) (d : details) : outcome unit :=
  if b then Done tt else fail reason message d.

Definition SM (S A : Type) : Type := S -> outcome A * S.

#[export] Instance SM_ret {S} : MRet (SM S) := fun A a s => (Done a, s).
#[export] Instance SM_bind {S} : MBind (SM S) := fun A B k m s =>
  match m s with
  | (Done a, s') => k a s'
  | (Failed e, s') => (Failed e, s')
  | (Raised e, s') => (Raised e, s')
  end.
Definition slift {S A} (r : outcome A) : SM S A := fun s => (r, s).

Lemma outcome_bind_done {A B} (r : outcome A) (k : A -> outcome B) b :
  (r ≫= k) = Done b <-> exists a, r = Done a /\ k a = Done b.
Proof. destruct r; cbn; naive_solver. Qed.

Lemma outcome_bind_raised {A B} (r : outcome A) (k : A -> outcome B) e :
  (r ≫= k) = Raised e <-> r = Raised e \/ exists a, r = Done a /\ k a = Raised e.
Proof. destruct r; cbn; naive_solver. Qed.

Lemma require_done b r m d u : require b r m d = Done u <-> b = true.
Proof. destruct b, u; unfold require, fail; naive_solver. Qed.

Lemma SM_bind_run {S A B} (m : SM S A) (k : A -> SM S B) s a s' :
  m s = (Done a, s') -> (m ≫= k) s = k a s'.
Proof. unfold mbind, SM_bind. by intros ->. Qed.

Lemma SM_bind_done {S A B} (m : SM S A) (k : A -> SM S B) s b s' :
  (m ≫= k) s = (Done b, s') -> exists a s1, m s = (Done a, s1) /\ k a s1 = (Done b, s').
Proof. unfold mbind, SM_bind. destruct (m s) as [[a|e|e] s1] eqn:Hm; intros Hk; [eauto|done|done]. Qed.

(** ** Limits *)
Record StorageLimits := mkLimits {
  core_high_water_bytes : Z;
  spool_high_water_bytes : Z;
  total_high_water_bytes : Z;
  minimum_free_bytes : Z;
  max_job_reservation_bytes : Z;
  max_scan_entries : Z;
  max_scan_depth : Z;
  max_scan_accounted_bytes : Z;
  max_ledger_bytes : Z;
  max_reservations : Z;
  lock_timeout_seconds : Q;
}.

Definition MIB : Z := 1024 ^ 2.
Definition GIB : Z := 1024 ^ 3.
Definition TIB : Z := 1024 ^ 4.

Definition default_limits : StorageLimits :=
  mkLimits (10 * GIB) (100 * GIB) (110 * GIB) GIB (10 * GIB) 1000000 64 (2 * TIB) (8 * MIB) 50000 5.

(** The checks of [StorageLimits.__post_init__] on integers and a number. *)
Definition valid_limits (l : StorageLimits) : bool :=
  forallb (fun v => 0 <=? v)
    [core_high_water_bytes l; spool_high_water_bytes l; total_high_water_bytes l;
     minimum_free_bytes l; max_job_reservation_bytes l; max_scan_entries l; max_scan_depth l;
     max_scan_accounted_bytes l; max_ledger_bytes l; max_reservations l] &&
  forallb (fun v => negb (v =? 0))
    [core_high_water_bytes l; spool_high_water_bytes l; total_high_water_bytes l;
     max_job_reservation_bytes l; max_scan_entries l; max_scan_depth l;
     max_scan_accounted_bytes l; max_ledger_bytes l; max_reservations l] &&
  negb (Qle_bool (lock_timeout_seconds l) 0) && Qle_bool (lock_timeout_seconds l) 300 &&
  (Z.max (core_high_water_bytes l) (spool_high_water_bytes l) <=? total_high_water_bytes l) &&
  (max_job_reservation_bytes l <=? max_scan_accounted_bytes l).

(** ** Reservations and reports *)
Record ReservationRecord := mkReservation {
  res_job_id : string;
  core_bytes : Z;
  spool_bytes : Z;
  res_created_at : string;
}.

#[export] Instance ReservationRecord_eq_dec : EqDecision ReservationRecord.
Proof. solve_decision. Defined.

(** [ReservationRecord.to_dict] *)
Definition reservation_dict (r : ReservationRecord) : json :=
  JObj [("job_id", JStr (res_job_id r)); ("core_bytes", JInt (core_bytes r));
        ("spool_bytes", JInt (spool_bytes r)); ("created_at", JStr (res_created_at r))].

Record TreeUsage := mkUsage {
  root : string;
  bytes : Z;
  files : Z;
  links : Z;
  directories : Z;
  entries : Z;
}.

(** [TreeUsage.to_dict] *)
Definition usage_dict (u : TreeUsage) : json :=
  JObj [("root", JStr (root u)); ("bytes", JInt (bytes u)); ("files", JInt (files u));
        ("links", JInt (links u)); ("directories", JInt (directories u));
        ("entries", JInt (entries u)); ("complete", JBool true)].

Record StorageTreeSnapshot := mkSnapshot { snap_core : TreeUsage; snap_spool : TreeUsage }.

Record VolumeStatus := mkVolume {
  volume_id : string;
  storage_families : list string;
  free_bytes : Z;
  reserved_bytes : Z;
  available_after_reservations_bytes : Z;
  vol_minimum_free_bytes : Z;
}.

(** [VolumeStatus.healthy] *)
Definition volume_healthy (v : VolumeStatus) : bool :=
  vol_minimum_free_bytes v <=? available_after_reservations_bytes v.

Record StorageStatus := mkStatus {
  healthy : bool;
  reason : StorageReason;
  core : TreeUsage;
  spool : TreeUsage;
  reserved_core_bytes : Z;
  reserved_spool_bytes : Z;
  reservation_count : Z;
  ledger_generation : Z;
  volumes : list VolumeStatus;
  limits_of : StorageLimits;
}.

Record StorageDecision := mkDecision {
  allowed : bool;
  dec_reason : StorageReason;
  message : string;
  status_of : option StorageStatus;
  details_of : details;
}.

Record LedgerState := mkLedger {
  generation : Z;
  reservations : list ReservationRecord;
}.

(** [_error_decision] *)
Definition _error_decision (e : StoragePolicyError) : StorageDecision :=
  mkDecision false (err_reason e) (err_message e) None (err_details e).

(** The [except StoragePolicyError] around an operation: another exception
    leaves it. *)
Definition decide_errors {S : Type} (m : SM S StorageDecision) : M S StorageDecision := fun s =>
  match m s with
  | (Done d, s') => (Ok d, s')
  | (Failed e, s') => (Ok (_error_decision e), s')
  | (Raised e, s') => (Err e, s')
  end.

Example default_limits_valid : valid_limits default_limits = true.
Proof. vm_compute. reflexivity. Qed.
