(* ===== verification/StorageLedger.v ===== *)
(** * The reservation ledger's content rules ([storage_ledger_codec.py])

    A ledger is a list of reservations in the order of their job ids with a
    generation number, stored as a JSON envelope whose checksum is the SHA-256 of
    its canonical form.  [StorageClock] stands for the two functions of the
    [datetime] library the codec calls. *)

From S2P Require Import Prelude Sha256 Json Identifiers StorageTypes.
From stdpp Require Import base list strings.
From Stdlib Require Import ZArith Lia.
From Stdlib Require Ascii String.
Open Scope Z_scope.

(** [now n] is [value.astimezone(UTC).isoformat()] of the [n]-th reading of the
    clock, without its [+00:00] suffix, and [fromisoformat_utc s] says whether
    [datetime.fromisoformat(s + '+00:00')] succeeds; it then is a UTC time.
    Reading back what [isoformat] wrote succeeds. *)
Class StorageClock := {
  now : nat -> string;
  fromisoformat_utc : string -> bool;
  isoformat_readable : forall n, fromisoformat_utc (now n) = true;
}.

Definition _LEDGER_SCHEMA : string := "clio-relay.storage-reservations.v1".

(** [value.endswith("Z")] with [value.removesuffix("Z")]. *)
Definition remove_Z (s : string) : option string :=
  let n := (String.length s - 1)%nat in
  if bool_decide (String.substring n 1 s = "Z") then Some (String.substring 0 n s) else None.

(** ** [json.dumps(value, indent=2, sort_keys=True)] *)
Definition newline : string := char 10.

Fixpoint spaces (n : nat) : string :=
  match n with O => EmptyString | S n' => "  " +:+ spaces n' end.

Definition json_block (level : nat) (open_ close : string) (items : list string) : string :=
  match items with
  | [] => open_ +:+ close
  | _ => open_ +:+ newline +:+ spaces (S level)
         +:+ str_join ("," +:+ newline +:+ spaces (S level)) items
         +:+ newline +:+ spaces level +:+ close
  end.

Fixpoint dumps_indent (level : nat) (v : json) : string :=
  match v with
  | JList l => json_block level "[" "]" (dumps_indent (S level) <$> l)
  | JObj fields =>
      json_block level "{" "}"
        ((fun kv => dumps_str kv.1 +:+ ": " +:+ kv.2) <$>
           sort_by key_leb ((fun kv => (kv.1, dumps_indent (S level) kv.2)) <$> fields))
  | _ => dumps v
  end.

Section codec.
Context `{StorageClock} (limits : StorageLimits).

(** [_validate_job_id] *)
Definition _validate_job_id (job_id : json) : outcome unit :=
  match validate_durable_record_id job_id with
  | Ok _ => Done tt
  | Err _ => fail INVALID_REQUEST "job_id must be a lowercase portable durable record ID" []
  end.

(** [_validate_reservation_bytes] on integers. *)
Definition _validate_reservation_bytes (core_bytes spool_bytes : Z) : outcome unit :=
  _ ← require (0 <=? core_bytes) INVALID_REQUEST "core_bytes must be a non-negative integer" [];
  _ ← require (0 <=? spool_bytes) INVALID_REQUEST "spool_bytes must be a non-negative integer" [];
  let total := core_bytes + spool_bytes in
  _ ← require (negb (total =? 0)) INVALID_REQUEST
        "a storage reservation must request at least one byte" [];
  require (total <=? max_job_reservation_bytes limits) PER_JOB_LIMIT
    "job storage reservation exceeds the configured per-job limit"
    [("requested_bytes", JInt total);
     ("max_job_reservation_bytes", JInt (max_job_reservation_bytes limits))].

(** [_format_timestamp] of a timezone-aware clock. *)
Definition _format_timestamp (n : nat) : string := now n +:+ "Z".

(** [_parse_timestamp] *)
Definition _parse_timestamp (value : option json) : outcome string :=
  match value with
  | Some (JStr s) =>
      match remove_Z s with
      | None => fail LEDGER_MALFORMED "reservation created_at must be an RFC 3339 UTC timestamp" []
      | Some body =>
          _ ← require (fromisoformat_utc body) LEDGER_MALFORMED "reservation created_at is invalid" [];
          Done s
      end
  | _ => fail LEDGER_MALFORMED "reservation created_at must be an RFC 3339 UTC timestamp" []
  end.

(** ** Encoding *)

(** A ledger file: the value its text parses to, if it is UTF-8 JSON, and the
    number of bytes of the text. *)
Record ledger_file := mkFile { lf_value : option json; lf_size : Z }.

Definition ledger_payload (generation : Z) (records : list json) : list (string * json) :=
  [("schema", JStr _LEDGER_SCHEMA); ("generation", JInt generation);
   ("reservations", JList records)].

Definition ledger_checksum (payload : list (string * json)) : string :=
  "sha256:" +:+ canonical_sha256 (JObj payload).

(** [_encode_ledger] *)
Definition _encode_ledger (ledger : LedgerState) : ledger_file :=
  let payload := ledger_payload (generation ledger) (reservation_dict <$> reservations ledger) in
  let envelope := JObj (payload ++ [("checksum", JStr (ledger_checksum payload))]) in
  mkFile (Some envelope) (Z.of_nat (String.length (dumps_indent 0 envelope)) + 1).

(** ** Decoding *)

Definition is_ascii (c : Ascii.ascii) : bool := (code c <? 128)%N.

(** [hmac.compare_digest] of two strings: it refuses strings with characters
    that are not ASCII. *)
Definition compare_digest (a b : string) : outcome bool :=
  if str_forall is_ascii a && str_forall is_ascii b then Done (bool_decide (a = b))
  else Raised (TypeError "comparing strings with non-ASCII characters is not supported").

(** [type(value) is int and value >= 0] *)
Definition natural_int (v : option json) : option Z :=
  match v with
  | Some (JInt z) => if 0 <=? z then Some z else None
  | _ => None
  end.

(** One round of the loop over the stored records. *)
Definition decode_reservation (raw : json) (seen : list string) : outcome ReservationRecord :=
  match raw with
  | JObj fields =>
      if negb (keys_are ["job_id"; "core_bytes"; "spool_bytes"; "created_at"] fields) then
        fail LEDGER_MALFORMED "storage reservation ledger contains an invalid record" []
      else match dict_get "job_id" fields with
      | Some (JStr job_id) =>
          match _validate_job_id (JStr job_id) with
          | Failed _ => fail LEDGER_MALFORMED "storage reservation ledger contains an invalid job id" []
          | Raised e => Raised e
          | Done _ =>
              if bool_decide (job_id ∈ seen) then
                fail LEDGER_MALFORMED "storage reservation ledger contains duplicate job ids" []
              else match natural_int (dict_get "core_bytes" fields) with
              | None => fail LEDGER_MALFORMED "storage reservation core_bytes is invalid" []
              | Some c =>
                  match natural_int (dict_get "spool_bytes" fields) with
                  | None => fail LEDGER_MALFORMED "storage reservation spool_bytes is invalid" []
                  | Some p =>
                      if c + p =? 0 then
                        fail LEDGER_MALFORMED "storage reservation cannot be empty" []
                      else if max_job_reservation_bytes limits <? c + p then
                        fail LEDGER_MALFORMED
                          "stored reservation exceeds the configured per-job limit" []
                      else
                        created_at ← _parse_timestamp (dict_get "created_at" fields);
                        Done (mkReservation job_id c p created_at)
                  end
              end
          end
      | _ => fail LEDGER_MALFORMED "storage reservation ledger contains an invalid job id" []
      end
  | _ => fail LEDGER_MALFORMED "storage reservation ledger contains an invalid record" []
  end.

Fixpoint decode_reservations (raw : list json) (seen : list string) : outcome (list ReservationRecord) :=
  match raw with
  | [] => Done []
  | r :: rest =>
      record ← decode_reservation r seen;
      records ← decode_reservations rest (seen ++ [res_job_id record]);
      Done (record :: records)
  end.

Definition job_ids (records : list ReservationRecord) : list string := res_job_id <$> records.

(** [_decode_ledger] *)
Definition _decode_ledger (value : json) : outcome LedgerState :=
  match value with
  | JObj envelope =>
      if negb (keys_are ["schema"; "generation"; "reservations"; "checksum"] envelope) then
        fail LEDGER_MALFORMED "storage reservation ledger has an invalid envelope" []
      else
        _ ← require (match dict_get "schema" envelope with
                     | Some (JStr s) => bool_decide (s = _LEDGER_SCHEMA)
                     | _ => false
                     end)
              LEDGER_MALFORMED "storage reservation ledger has an unsupported schema" [];
        match natural_int (dict_get "generation" envelope) with
        | None => fail LEDGER_MALFORMED "storage reservation ledger generation is invalid" []
        | Some gen =>
            match dict_get "reservations" envelope with
            | Some (JList raw) =>
                _ ← require (Z.of_nat (length raw) <=? max_reservations limits) LEDGER_CAPACITY
                      "storage reservation ledger exceeds its configured record limit"
                      [("max_reservations", JInt (max_reservations limits))];
                matches ← match dict_get "checksum" envelope with
                          | Some (JStr checksum) =>
                              compare_digest checksum (ledger_checksum (ledger_payload gen raw))
                          | _ => Done false
                          end;
                _ ← require matches LEDGER_MALFORMED
                      "storage reservation ledger checksum does not match its content" [];
                records ← decode_reservations raw [];
                _ ← require (bool_decide (job_ids records = sort_by str_leb (job_ids records)))
                      LEDGER_MALFORMED
                      "storage reservation ledger records are not in canonical order" [];
                Done (mkLedger gen records)
            | _ => fail LEDGER_MALFORMED "storage reservation ledger records must be a list" []
            end
        end
  | _ => fail LEDGER_MALFORMED "storage reservation ledger has an invalid envelope" []
  end.
End codec.
