(* ===== verification/StorageScan.v ===== *)
(** * Accounting a storage tree ([scan_tree] and [_scandir_verified] of [storage_policy.py])

    The scan is an iterative depth-first walk with explicit bounds.  What it sees
    of the file system is a tree of observations: for every directory entry the
    result of its [stat], for every directory the result of opening it.  The
    POSIX branches of the source are the modelled ones. *)

From S2P Require Import Prelude Sha256 Json StorageTypes.
From stdpp Require Import base list strings.
From Stdlib Require Import ZArith Lia.
From Stdlib Require Ascii String.
Open Scope Z_scope.

(** ** Observations *)

(** Why [_scandir_verified] did not open a directory; [path] is the directory. *)
Inductive open_failure :=
  | OpenUninspectable (path error : string)  (* [os.lstat] failed *)
  | OpenBecameLink (path : string)           (* it is a link now *)
  | OpenIdentityChanged                      (* another directory, or none, before opening *)
  | OpenRefused                              (* [os.open] failed *)
  | OpenedIdentityChanged.                   (* another directory after opening *)

(** How listing an open directory stopped before its end. *)
Inductive list_fault :=
  | ListGone                                 (* [FileNotFoundError] *)
  | ListError (error : string).              (* another [OSError] *)

Inductive entry :=
  | EGone                               (* [stat] raised [FileNotFoundError] *)
  | EUnreadable (error : string)        (* [stat] raised another [OSError] *)
  | ELink (size : Z)
  | EDir (view : dir_view)
  | EFile (size : Z)
  | ESpecial
with dir_view :=
  | Opened (content : list entry) (fault : option list_fault)
  | OpenFailed (f : open_failure).

(** What [os.lstat] says of the root of a scan. *)
Inductive root_view :=
  | RootUninspectable (error : string)
  | RootLink
  | RootNotDirectory
  | RootDirectory (view : dir_view).

Inductive link_policy := Reject | Count.

#[export] Instance link_policy_eq_dec : EqDecision link_policy.
Proof. solve_decision. Defined.

(** ** The walk *)
Section scan.
Context (logical_root : string) (max_entries max_depth max_accounted_bytes : Z) (policy : link_policy).

Definition root_detail : string * json := ("root", JStr logical_root).

Definition open_error (f : open_failure) : StoragePolicyError :=
  match f with
  | OpenUninspectable p e =>
      mkError SCAN_CHANGED "storage path could not be inspected" [("root", JStr p); ("error", JStr e)]
  | OpenBecameLink p =>
      mkError SCAN_UNSAFE_ENTRY "storage path is a link or reparse point" [("root", JStr p)]
  | OpenIdentityChanged => mkError SCAN_CHANGED "storage directory identity changed during accounting" []
  | OpenRefused =>
      mkError SCAN_CHANGED "storage directory could not be opened without following links" []
  | OpenedIdentityChanged => mkError SCAN_CHANGED "storage directory identity changed while opening" []
  end.

Definition list_error (f : list_fault) : StoragePolicyError :=
  match f with
  | ListGone =>
      mkError SCAN_CHANGED "storage tree changed while it was being accounted" [root_detail]
  | ListError e =>
      mkError SCAN_IO_ERROR "storage directory could not be scanned" [root_detail; ("error", JStr e)]
  end.

Record counters := mkCounters {
  total_bytes : Z;
  file_count : Z;
  link_count : Z;
  directory_count : Z;
  entry_count : Z;
}.

(** [total_bytes += size] with the check that follows it. *)
Definition account (size : Z) (c : counters) : outcome counters :=
  let total := total_bytes c + size in
  _ ← require (total <=? max_accounted_bytes) SCAN_BYTE_LIMIT
        "storage tree exceeds the configured accounting byte limit"
        [root_detail; ("max_accounted_bytes", JInt max_accounted_bytes)];
  Done (mkCounters total (file_count c) (link_count c) (directory_count c) (entry_count c)).

(** The body of [for entry in entries]: the counters and the directories pushed
    on the stack, the last one on top. *)
Definition scan_entry (depth : Z) (e : entry) (c : counters) (stack : list (dir_view * Z))
  : outcome (counters * list (dir_view * Z)) :=
  let c := mkCounters (total_bytes c) (file_count c) (link_count c) (directory_count c)
             (entry_count c + 1) in
  _ ← require (entry_count c <=? max_entries) SCAN_ENTRY_LIMIT
        "storage tree exceeds the configured entry scan limit"
        [root_detail; ("max_entries", JInt max_entries)];
  match e with
  | EGone =>
      fail SCAN_CHANGED "storage tree changed while it was being accounted" [root_detail]
  | EUnreadable err =>
      fail SCAN_IO_ERROR "storage entry could not be inspected" [root_detail; ("error", JStr err)]
  | ELink size =>
      _ ← require (bool_decide (policy = Count)) SCAN_UNSAFE_ENTRY
            "storage tree contains a link or reparse point" [root_detail];
      c ← account (Z.max 0 size)
            (mkCounters (total_bytes c) (file_count c) (link_count c + 1) (directory_count c)
               (entry_count c));
      Done (c, stack)
  | EDir view =>
      let child_depth := depth + 1 in
      _ ← require (child_depth <=? max_depth) SCAN_DEPTH_LIMIT
            "storage tree exceeds the configured depth limit"
            [root_detail; ("max_depth", JInt max_depth)];
      Done (mkCounters (total_bytes c) (file_count c) (link_count c) (directory_count c + 1)
              (entry_count c),
            (view, child_depth) :: stack)
  | EFile size =>
      _ ← require (0 <=? size) SCAN_UNSAFE_ENTRY "storage entry reported a negative size" [root_detail];
      c ← account size
            (mkCounters (total_bytes c) (file_count c + 1) (link_count c) (directory_count c)
               (entry_count c));
      Done (c, stack)
  | ESpecial =>
      fail SCAN_UNSAFE_ENTRY "storage tree contains a non-regular entry" [root_detail]
  end.

Fixpoint scan_entries_of (depth : Z) (content : list entry) (c : counters) (stack : list (dir_view * Z))
  : outcome (counters * list (dir_view * Z)) :=
  match content with
  | [] => Done (c, stack)
  | e :: rest =>
      next ← scan_entry depth e c stack;
      scan_entries_of depth rest next.1 next.2
  end.

(** [while stack]; every round pops one directory. *)
Fixpoint scan_stack (fuel : nat) (stack : list (dir_view * Z)) (c : counters) : outcome counters :=
  match stack with
  | [] => Done c
  | (view, depth) :: rest =>
      match fuel with
      | O => Raised Crashed
      | S fuel' =>
          match view with
          | OpenFailed f => Failed (open_error f)
          | Opened content fault =>
              next ← scan_entries_of depth content c rest;
              match fault with
              | Some f => Failed (list_error f)
              | None => scan_stack fuel' next.2 next.1
              end
          end
      end
  end.

(** The directories below and at a view, a bound on the rounds of the walk. *)
Fixpoint entry_dirs (e : entry) : nat :=
  match e with EDir view => view_dirs view | _ => O end
with view_dirs (v : dir_view) : nat :=
  match v with
  | Opened content _ => S (foldr Nat.add O (map entry_dirs content))
  | OpenFailed _ => 1%nat
  end.

Definition positive_bound (name : string) (value : Z) : outcome unit :=
  if 0 <? value then Done tt else Raised (ValueError (name +:+ " must be a positive integer")).

(** [scan_tree] *)
Definition scan_tree (observed : root_view) : outcome TreeUsage :=
  _ ← positive_bound "max_entries" max_entries;
  _ ← positive_bound "max_depth" max_depth;
  _ ← positive_bound "max_accounted_bytes" max_accounted_bytes;
  match observed with
  | RootUninspectable e =>
      fail SCAN_ROOT_INVALID "storage path could not be inspected" [root_detail; ("error", JStr e)]
  | RootLink => fail SCAN_ROOT_INVALID "storage path is a link or reparse point" [root_detail]
  | RootNotDirectory => fail SCAN_ROOT_INVALID "storage root is not a directory" [root_detail]
  | RootDirectory view =>
      c ← scan_stack (view_dirs view) [(view, 0)] (mkCounters 0 0 0 1 0);
      Done (mkUsage logical_root (total_bytes c) (file_count c) (link_count c) (directory_count c)
              (entry_count c))
  end.
End scan.
