(* ===== verification/StoragePolicy.v ===== *)
(** * The storage policy ([storage_snapshot.py], [storage_reservation_ledger.py],
      [StoragePolicy] of [storage_policy.py])

    Admission compares the bytes of two scanned trees plus all durable
    reservations with the configured limits, and records a reservation in a
    ledger file that every change replaces as a whole under a file lock.

    The state is the ledger file.  [StorageWorld] stands for what the operating
    system answers: what a scan sees, which device a root is on, the free space of
    a volume, whether the lock could be taken, and the faults of a read and of a
    write.  Each answer depends on the number of questions asked before. *)

From S2P Require Import Prelude Sha256 Json Identifiers StorageTypes StorageLedger StorageScan.
From stdpp Require Import base list strings.
From Stdlib Require Import ZArith QArith Lia.
From Stdlib Require Ascii String.
Open Scope Z_scope.

(** ** The operating system *)

(** [_safe_lstat(root, root=True)] *)
Inductive device_view := DeviceUninspectable (error : string) | DeviceLink | Device (dev : Z).

(** [_prepare_lock_file], the acquisition of the [FileLock] and the second check. *)
Inductive lock_view :=
  | LockHeld
  | LockUncreatable (error : string)
  | LockUninspectable (error : string)
  | LockNotRegular
  | LockNotPrivate
  | LockTimedOut.

(** The faults of [_bounded_read_regular_file], in the order of its checks; the
    first three come before the size is looked at.  [ReadRaises] is an [OSError]
    of [os.read] or [os.fstat]. *)
Inductive read_fault :=
  | FileUninspectable (error : string)
  | FileNotRegular
  | FileNotPrivate
  | FileUnopenable (error : string)
  | FileIdentityChanged
  | FileChangedWhileReading
  | ReadRaises (error : string).

(** What [_read_ledger] meets: [os.lstat] fails, or the read does. *)
Inductive ledger_fault := LedgerUninspectable (error : string) | LedgerUnreadable (f : read_fault).

(** The faults of [_write_ledger]: up to the replacement, in the read-back, which may
    also return other bytes than were put in place, and in the synchronization of the
    directory. *)
Inductive write_fault :=
  | BeforeReplace (error : string)
  | ReadBack (f : read_fault)
  | ReadBackDiffers
  | SyncFailed (error : string).

Class StorageWorld := {
  sw_clock :: StorageClock;
  tree_at : string -> nat -> root_view;
  device_at : string -> nat -> device_view;
  free_at : string -> nat -> string + Z;
  lock_at : nat -> lock_view;
  read_at : nat -> option ledger_fault;
  write_at : nat -> option write_fault;
  float_repr : Q -> string;
}.

Record policy_state := mkPolicy { ledger_of : option ledger_file; tick : nat }.

Definition observe {A : Type} (f : nat -> A) : SM policy_state A := fun s =>
  (Done (f (tick s)), mkPolicy (ledger_of s) (S (tick s))).

Definition replace_ledger (f : ledger_file) : SM policy_state unit := fun s =>
  (Done tt, mkPolicy (Some f) (tick s)).

Definition current_ledger : SM policy_state (option ledger_file) := fun s => (Done (ledger_of s), s).

Fixpoint smapM {S A B : Type} (f : A -> SM S B) (l : list A) : SM S (list B) :=
  match l with
  | [] => mret []
  | x :: rest => y ← f x; ys ← smapM f rest; mret (y :: ys)
  end.

Section policy.
Context `{StorageWorld} (limits : StorageLimits) (core_root spool_root : string).

(** ** Reading and writing the ledger *)

(** [_bounded_read_regular_file] *)
Definition _bounded_read_regular_file (fault : option read_fault) (file : ledger_file) (max_bytes : Z)
  : outcome ledger_file :=
  match fault with
  | Some (FileUninspectable e) =>
      fail LEDGER_UNSAFE "storage policy state file could not be inspected" [("error", JStr e)]
  | Some FileNotRegular => fail LEDGER_UNSAFE "storage policy state file is not a private regular file" []
  | Some FileNotPrivate => fail LEDGER_UNSAFE "storage policy state file is not owner-private" []
  | _ =>
      _ ← require (negb (lf_size file =? 0)) LEDGER_MALFORMED "storage reservation ledger is empty" [];
      _ ← require (lf_size file <=? max_bytes) LEDGER_OVERSIZED
            "storage reservation ledger exceeds its configured byte limit"
            [("max_ledger_bytes", JInt max_bytes)];
      match fault with
      | Some (FileUnopenable e) =>
          fail LEDGER_UNSAFE "storage reservation ledger could not be opened safely" [("error", JStr e)]
      | Some FileIdentityChanged =>
          fail LEDGER_UNSAFE "storage reservation ledger identity changed while opening" []
      | Some FileChangedWhileReading =>
          fail LEDGER_UNSAFE "storage reservation ledger changed while reading" []
      | Some (ReadRaises e) => Raised (OSError e)
      | _ => Done file
      end
  end.

(** [_read_ledger] *)
Definition _read_ledger : SM policy_state LedgerState :=
  fault ← observe read_at;
  file ← current_ledger;
  slift match fault, file with
        | Some (LedgerUninspectable e), _ =>
            fail LEDGER_UNSAFE "storage reservation ledger could not be inspected" [("error", JStr e)]
        | _, None => Done (mkLedger 0 [])
        | fault, Some f =>
            raw ← _bounded_read_regular_file
                    (match fault with Some (LedgerUnreadable r) => Some r | _ => None end)
                    f (max_ledger_bytes limits);
            match lf_value raw with
            | None => fail LEDGER_MALFORMED "storage reservation ledger is not valid UTF-8 JSON" []
            | Some v => _decode_ledger limits v
            end
        end.

Definition persistence_failure (e : string) : outcome unit :=
  fail PERSISTENCE_FAILURE "storage reservation ledger could not be persisted atomically"
    [("error", JStr e)].

(** [_write_ledger].  Without a fault the read-back returns the file that was just put in
    place. *)
Definition _write_ledger (l : LedgerState) : SM policy_state unit :=
  let encoded := _encode_ledger l in
  _ ← slift (require (lf_size encoded <=? max_ledger_bytes limits) LEDGER_OVERSIZED
               "encoded storage reservation ledger exceeds its configured byte limit"
               [("max_ledger_bytes", JInt (max_ledger_bytes limits))]);
  fault ← observe write_at;
  match fault with
  | Some (BeforeReplace e) => slift (persistence_failure e)
  | _ =>
      _ ← replace_ledger encoded;
      slift match _bounded_read_regular_file
                    (match fault with Some (ReadBack r) => Some r | _ => None end)
                    encoded (max_ledger_bytes limits) with
            | Done _ =>
                match fault with
                | Some ReadBackDiffers =>
                    fail PERSISTENCE_FAILURE "persisted storage reservation ledger differs from the committed bytes" []
                | Some (SyncFailed e) => persistence_failure e
                | _ => Done tt
                end
            | Failed e => Failed e
            | Raised (OSError e) => persistence_failure e
            | Raised e => Raised e
            end
  end.

(** [_ledger_lock] *)
Definition _ledger_lock : SM policy_state unit :=
  view ← observe lock_at;
  slift match view with
        | LockHeld => Done tt
        | LockUncreatable e =>
            fail LEDGER_UNSAFE "storage reservation lock file could not be created safely"
              [("error", JStr e)]
        | LockUninspectable e =>
            fail LEDGER_UNSAFE "storage policy state file could not be inspected" [("error", JStr e)]
        | LockNotRegular =>
            fail LEDGER_UNSAFE "storage policy state file is not a private regular file" []
        | LockNotPrivate => fail LEDGER_UNSAFE "storage policy state file is not owner-private" []
        | LockTimedOut =>
            fail LOCK_TIMEOUT "storage reservation ledger lock timed out"
              [("timeout_seconds", JFloat (float_repr (lock_timeout_seconds limits)))]
        end.

(** ** Scanning *)
Definition STORAGE_SNAPSHOT_SCAN_ATTEMPTS : nat := 25.

Definition scan_root (path : string) (policy : link_policy) (max_bytes : Z)
  : SM policy_state TreeUsage :=
  view ← observe (tree_at path);
  slift (scan_tree path (max_scan_entries limits) (max_scan_depth limits) max_bytes policy view).

(** One round of the loop of [_stable_tree_snapshot]. *)
Definition scan_both : SM policy_state (TreeUsage * TreeUsage) :=
  core ← scan_root core_root Reject (max_scan_accounted_bytes limits);
  spool ← scan_root spool_root Count (max_scan_accounted_bytes limits);
  mret (core, spool).

Fixpoint stable_scan (attempts : nat) : SM policy_state (TreeUsage * TreeUsage) := fun s =>
  match attempts with
  | O => (Raised (AssertionError "bounded storage snapshot loop did not return or raise"), s)
  | S rest =>
      match scan_both s with
      | (Failed e, s') =>
          let final_attempt := bool_decide (rest = O) in
          if negb (bool_decide (err_reason e = SCAN_CHANGED)) || final_attempt then (Failed e, s')
          else stable_scan rest s'
      | r => r
      end
  end.

(** [_stable_tree_snapshot] *)
Definition _stable_tree_snapshot : SM policy_state (TreeUsage * TreeUsage) :=
  stable_scan STORAGE_SNAPSHOT_SCAN_ATTEMPTS.

(** [capture_admission_snapshot] *)
Definition capture_admission_snapshot : SM policy_state StorageTreeSnapshot :=
  both ← _stable_tree_snapshot;
  mret (mkSnapshot both.1 both.2).

(** ** Volumes *)

(** [_safe_lstat(root, root=True)] and [_volume_id]. *)
Definition volume_of (path : string) : SM policy_state string :=
  view ← observe (device_at path);
  slift match view with
        | DeviceUninspectable e =>
            fail SCAN_ROOT_INVALID "storage path could not be inspected"
              [("root", JStr path); ("error", JStr e)]
        | DeviceLink =>
            fail SCAN_ROOT_INVALID "storage path is a link or reparse point" [("root", JStr path)]
        | Device dev => Done ("device:" +:+ string_of_Z dev)
        end.

(** [int(shutil.disk_usage(path).free)] *)
Definition disk_free (path volume : string) : SM policy_state Z :=
  view ← observe (free_at path);
  slift match view with
        | inl e =>
            fail FILESYSTEM_QUERY_FAILED "filesystem free space could not be queried"
              [("volume_id", JStr volume); ("error", JStr e)]
        | inr free => Done free
        end.

Definition sum_of (l : list Z) : Z := foldr Z.add 0 l.

(** One volume of the result of [_volume_status]: its members share a device. *)
Definition volume_report (group : string * list (string * string * Z)) : SM policy_state VolumeStatus :=
  let '(volume, members) := group in
  free ← disk_free (match members with m :: _ => m.1.2 | [] => EmptyString end) volume;
  let reserved := sum_of (snd <$> members) in
  mret (mkVolume volume (sort_by str_leb ((fun m => m.1.1) <$> members)) free reserved
          (free - reserved) (minimum_free_bytes limits)).

(** [grouped.setdefault(volume, []).append(member)] *)
Definition group_add {A : Type} (volume : string) (member : A) (grouped : list (string * list A))
  : list (string * list A) :=
  dict_set volume (default [] (dict_get volume grouped) ++ [member]) grouped.

Fixpoint group_roots (roots : list (string * string * Z))
    (grouped : list (string * list (string * string * Z)))
  : SM policy_state (list (string * list (string * string * Z))) :=
  match roots with
  | [] => mret grouped
  | m :: rest =>
      volume ← volume_of m.1.2;
      group_roots rest (group_add volume m grouped)
  end.

(** [_volume_status] *)
Definition _volume_status (reserved_core reserved_spool : Z) : SM policy_state (list VolumeStatus) :=
  grouped ← group_roots [("core", core_root, reserved_core); ("spool", spool_root, reserved_spool)] [];
  smapM volume_report (sort_by key_leb grouped).

(** The loop of [_runtime_volume_status]. *)
Fixpoint runtime_volumes (roots : list (string * string)) (volume_free : list (string * Z))
    (volume_families : list (string * list string))
  : SM policy_state (list (string * Z) * list (string * list string)) :=
  match roots with
  | [] => mret (volume_free, volume_families)
  | (family, path) :: rest =>
      volume ← volume_of path;
      let families := group_add volume family volume_families in
      match dict_get volume volume_free with
      | Some _ => runtime_volumes rest volume_free families
      | None =>
          free ← disk_free path volume;
          runtime_volumes rest (dict_set volume free volume_free) families
      end
  end.

Record RuntimeVolume := mkRuntimeVolume {
  rv_volume_id : string;
  rv_families : list string;
  rv_free_bytes : Z;
  rv_healthy : bool;
}.

Definition runtime_volume_dict (v : RuntimeVolume) : json :=
  JObj [("volume_id", JStr (rv_volume_id v)); ("storage_families", JList (JStr <$> rv_families v));
        ("free_bytes", JInt (rv_free_bytes v)); ("minimum_free_bytes", JInt (minimum_free_bytes limits));
        ("healthy", JBool (rv_healthy v))].

(** [_runtime_volume_status] *)
Definition _runtime_volume_status : SM policy_state (list RuntimeVolume) :=
  found ← runtime_volumes [("core", core_root); ("spool", spool_root)] [] [];
  mret ((fun vf => mkRuntimeVolume vf.1 (sort_by str_leb (default [] (dict_get vf.1 found.2))) vf.2
                     (minimum_free_bytes limits <=? vf.2))
        <$> sort_by key_leb found.1).

(** ** The health of a proposed ledger *)
Definition pressure (core_used spool_used reserved_core reserved_spool : Z) (vs : list VolumeStatus)
  : StorageReason :=
  if core_high_water_bytes limits <? core_used + reserved_core then CORE_HIGH_WATER
  else if spool_high_water_bytes limits <? spool_used + reserved_spool then SPOOL_HIGH_WATER
  else if total_high_water_bytes limits <? core_used + spool_used + reserved_core + reserved_spool
  then TOTAL_HIGH_WATER
  else if existsb (fun v => negb (volume_healthy v)) vs then FILESYSTEM_FREE_RESERVE
  else HEALTHY.

(** [_snapshot] *)
Definition _snapshot (records : list ReservationRecord) (gen : Z)
    (tree_snapshot : option StorageTreeSnapshot) : SM policy_state StorageStatus :=
  both ← match tree_snapshot with
         | None => _stable_tree_snapshot
         | Some t =>
             slift (_ ← require (bool_decide (root (snap_core t) = core_root)
                                 && bool_decide (root (snap_spool t) = spool_root))
                          INVALID_REQUEST
                          "storage tree snapshot belongs to different configured roots" [];
                    Done (snap_core t, snap_spool t))
         end;
  let reserved_core := sum_of (core_bytes <$> records) in
  let reserved_spool := sum_of (spool_bytes <$> records) in
  vs ← _volume_status reserved_core reserved_spool;
  let why := pressure (bytes both.1) (bytes both.2) reserved_core reserved_spool vs in
  mret (mkStatus (bool_decide (why = HEALTHY)) why both.1 both.2 reserved_core reserved_spool
          (Z.of_nat (length records)) gen vs limits).
End policy.
