(* ===== verification/StorageReservations.v ===== *)
(** * The operations of the storage policy

    [reserve], [release], [verify_reservation], [reconcile] and
    [reconcile_reservations] of [storage_reservation_ledger.py], [status] and
    [check_runtime_free_space] of [storage_snapshot.py], and [check_runtime_job] of
    [storage_policy.py].  Each returns a decision: a [StoragePolicyError] is caught
    and reported, another exception leaves the operation. *)

From S2P Require Import Prelude Sha256 Json Identifiers StorageTypes StorageLedger StorageScan.
From S2P Require Import StoragePolicy.
From stdpp Require Import base list strings.
From Stdlib Require Import ZArith QArith Lia.
From Stdlib Require Ascii String.
Open Scope Z_scope.

(** [next((r for r in records if r.job_id == job_id), None)] *)
Definition find_reservation (job_id : string) (records : list ReservationRecord) : option ReservationRecord :=
  head (filter (fun r => res_job_id r = job_id) records).

(** [{record.job_id: record for record in records}] *)
Definition by_job (records : list ReservationRecord) : list (string * ReservationRecord) :=
  foldl (fun d r => dict_set (res_job_id r) r d) [] records.

Definition record_leb (a b : ReservationRecord) : bool := str_leb (res_job_id a) (res_job_id b).

(** The bytes of a reservation differ from the requested ones. *)
Definition amounts_differ (r : ReservationRecord) (c p : Z) : bool :=
  negb (core_bytes r =? c) || negb (spool_bytes r =? p).

Definition str_list (l : list string) : json := JList (JStr <$> l).

(** A value of [active_reservations]. *)
Inductive amounts := Amounts (c p : Z) | NotTwoIntegers.

Section operations.
Context `{StorageWorld} (limits : StorageLimits) (core_root spool_root : string).

Abbreviation read := (_read_ledger limits).
Abbreviation write := (_write_ledger limits).
Abbreviation lock := (_ledger_lock limits).
Abbreviation snapshot := (_snapshot limits core_root spool_root).
Abbreviation capture := (capture_admission_snapshot limits core_root spool_root).

(** The body of [reserve] under the lock. *)
Definition reserve_locked (job_id : string) (c p : Z) (tree : StorageTreeSnapshot)
  : SM policy_state StorageDecision :=
  ledger ← read;
  match dict_get job_id (by_job (reservations ledger)) with
  | Some existing =>
      if amounts_differ existing c p then
        mret (mkDecision false RESERVATION_CONFLICT
                "job already has a different durable storage reservation" None
                [("reservation", reservation_dict existing)])
      else
        snap ← snapshot (reservations ledger) (generation ledger) (Some tree);
        if negb (healthy snap) then
          mret (mkDecision false (reason snap)
                  "existing reservation is idempotent, but current storage pressure denies admission"
                  (Some snap) [("reservation", reservation_dict existing); ("idempotent", JBool true)])
        else
          mret (mkDecision true RESERVATION_IDEMPOTENT
                  "the requested storage reservation already exists" (Some snap)
                  [("reservation", reservation_dict existing)])
  | None =>
      if max_reservations limits <=? Z.of_nat (length (reservations ledger)) then
        mret (mkDecision false LEDGER_CAPACITY
                "reservation ledger reached its configured record limit" None
                [("max_reservations", JInt (max_reservations limits))])
      else
        created_at ← observe _format_timestamp;
        let record := mkReservation job_id c p created_at in
        let proposed := sort_by record_leb (reservations ledger ++ [record]) in
        snap ← snapshot proposed (generation ledger + 1) (Some tree);
        if negb (healthy snap) then
          mret (mkDecision false (reason snap)
                  "storage reservation would violate a configured safety threshold" (Some snap)
                  [("reservation", reservation_dict record)])
        else
          _ ← write (mkLedger (generation ledger + 1) proposed);
          mret (mkDecision true RESERVED "storage was reserved for the job" (Some snap)
                  [("reservation", reservation_dict record)])
  end.

(** [reserve] *)
Definition reserve (job_id : string) (c p : Z) (tree_snapshot : option StorageTreeSnapshot)
  : M policy_state StorageDecision :=
  decide_errors
    (_ ← slift (_validate_job_id (JStr job_id));
     _ ← slift (_validate_reservation_bytes limits c p);
     tree ← match tree_snapshot with Some t => mret t | None => capture end;
     _ ← lock;
     reserve_locked job_id c p tree).

(** [release] *)
Definition release (job_id : string) : M policy_state StorageDecision :=
  decide_errors
    (_ ← slift (_validate_job_id (JStr job_id));
     _ ← lock;
     ledger ← read;
     match find_reservation job_id (reservations ledger) with
     | None =>
         mret (mkDecision true RESERVATION_ABSENT "job has no storage reservation" None
                 [("job_id", JStr job_id); ("ledger_generation", JInt (generation ledger))])
     | Some existing =>
         let retained := filter (fun r => res_job_id r <> job_id) (reservations ledger) in
         let gen := generation ledger + 1 in
         _ ← write (mkLedger gen retained);
         mret (mkDecision true RESERVATION_RELEASED "job storage reservation was released" None
                 [("reservation", reservation_dict existing); ("ledger_generation", JInt gen)])
     end).

(** [verify_reservation] *)
Definition verify_reservation (job_id : string) (c p : Z) : M policy_state StorageDecision :=
  decide_errors
    (_ ← slift (_validate_job_id (JStr job_id));
     _ ← slift (_validate_reservation_bytes limits c p);
     _ ← lock;
     ledger ← read;
     match find_reservation job_id (reservations ledger) with
     | None =>
         mret (mkDecision false RESERVATION_ABSENT "active job has no durable storage reservation" None
                 [("job_id", JStr job_id)])
     | Some existing =>
         if amounts_differ existing c p then
           mret (mkDecision false RESERVATION_CONFLICT
                   "active job disagrees with its durable storage reservation" None
                   [("reservation", reservation_dict existing);
                    ("requested", JObj [("core_bytes", JInt c); ("spool_bytes", JInt p)])])
         else
           mret (mkDecision true RESERVATION_IDEMPOTENT "active job storage reservation is present" None
                   [("reservation", reservation_dict existing);
                    ("ledger_generation", JInt (generation ledger))])
     end).

Fixpoint validate_job_ids (ids : list string) : outcome unit :=
  match ids with
  | [] => Done tt
  | i :: rest => _ ← _validate_job_id (JStr i); validate_job_ids rest
  end.

(** [reconcile] *)
Definition reconcile (active_job_ids : list string) : M policy_state StorageDecision :=
  decide_errors
    (let active := remove_dups active_job_ids in
     _ ← slift (require (Z.of_nat (length active) <=? max_reservations limits) INVALID_REQUEST
                  "active job set exceeds the configured reservation bound"
                  [("max_reservations", JInt (max_reservations limits))]);
     _ ← slift (validate_job_ids active);
     _ ← lock;
     ledger ← read;
     let released :=
       sort_by str_leb (job_ids (filter (fun r => res_job_id r ∉ active) (reservations ledger))) in
     match released with
     | [] =>
         mret (mkDecision true RECONCILED "reservation ledger already matches the active job set" None
                 [("released_job_ids", JList []); ("ledger_generation", JInt (generation ledger))])
     | _ =>
         let retained := filter (fun r => res_job_id r ∈ active) (reservations ledger) in
         let gen := generation ledger + 1 in
         _ ← write (mkLedger gen retained);
         mret (mkDecision true RECONCILED "stale storage reservations were released" None
                 [("released_job_ids", str_list released); ("ledger_generation", JInt gen)])
     end).

(** The loop that builds [normalized]. *)
Fixpoint normalize_active (items : list (string * amounts)) (normalized : list (string * (Z * Z)))
  : outcome (list (string * (Z * Z))) :=
  match items with
  | [] => Done normalized
  | (job_id, a) :: rest =>
      _ ← _validate_job_id (JStr job_id);
      match a with
      | NotTwoIntegers =>
          fail INVALID_REQUEST "active reservation amounts must be a two-integer tuple"
            [("job_id", JStr job_id)]
      | Amounts c p =>
          _ ← _validate_reservation_bytes limits c p;
          normalize_active rest (dict_set job_id (c, p) normalized)
      end
  end.

(** The conflicts of the active jobs with the ledger. *)
Definition conflicts_of (items : list (string * (Z * Z))) (existing : list (string * ReservationRecord))
  : list json :=
  omap (fun item =>
    match dict_get item.1 existing with
    | Some r =>
        if amounts_differ r item.2.1 item.2.2 then
          Some (JObj [("job_id", JStr item.1); ("existing", reservation_dict r);
                      ("requested", JObj [("core_bytes", JInt item.2.1); ("spool_bytes", JInt item.2.2)])])
        else None
    | None => None
    end) items.

Definition proposed_record (existing : list (string * ReservationRecord)) (now : string)
    (item : string * (Z * Z)) : ReservationRecord :=
  default (mkReservation item.1 item.2.1 item.2.2 now) (dict_get item.1 existing).

(** [reconcile_reservations] *)
Definition reconcile_reservations (active_reservations : list (string * amounts))
  : M policy_state StorageDecision :=
  decide_errors
    (_ ← slift (require (Z.of_nat (length active_reservations) <=? max_reservations limits) INVALID_REQUEST
                  "active reservation set exceeds the configured reservation bound"
                  [("max_reservations", JInt (max_reservations limits))]);
     normalized ← slift (normalize_active active_reservations []);
     _ ← lock;
     ledger ← read;
     let existing := by_job (reservations ledger) in
     let items := sort_by key_leb normalized in
     match conflicts_of items existing with
     | _ :: _ as conflicts =>
         mret (mkDecision false RESERVATION_CONFLICT
                 "active jobs disagree with durable storage reservations" None
                 [("conflicts", JList conflicts)])
     | [] =>
         now ← observe _format_timestamp;
         let proposed := proposed_record existing now <$> items in
         let adopted := (filter (fun item => dict_get item.1 existing = None) items).*1 in
         let released := sort_by str_leb (filter (fun k => k ∉ normalized.*1) existing.*1) in
         let changed := negb (bool_decide (adopted = []) && bool_decide (released = [])) in
         let gen := generation ledger + (if changed then 1 else 0) in
         snap ← snapshot proposed gen None;
         if negb (healthy snap) then
           _ ← (if changed then write (mkLedger gen proposed) else mret tt);
           mret (mkDecision false (reason snap)
                   "active storage reservations violate a configured safety threshold" (Some snap)
                   [("adopted_job_ids", str_list adopted); ("released_job_ids", str_list released);
                    ("persisted", JBool changed)])
         else
           _ ← (if changed then write (mkLedger gen proposed) else mret tt);
           mret (mkDecision true RECONCILED
                   (if changed then "active jobs and storage reservations were reconciled"
                    else "reservation ledger already matches active jobs")
                   (Some snap)
                   [("adopted_job_ids", str_list adopted); ("released_job_ids", str_list released);
                    ("ledger_generation", JInt gen); ("persisted", JBool changed)])
     end).

(** [status] *)
Definition status : M policy_state StorageDecision :=
  decide_errors
    (tree ← capture;
     _ ← lock;
     ledger ← read;
     snap ← snapshot (reservations ledger) (generation ledger) (Some tree);
     mret (mkDecision (healthy snap) (reason snap)
             (if healthy snap then "storage policy is healthy"
              else "storage policy is over a configured safety threshold")
             (Some snap) [])).

Definition unhealthy_volumes (vs : list RuntimeVolume) : list RuntimeVolume :=
  List.filter (fun v => negb (rv_healthy v)) vs.

Definition volumes_detail (vs : list RuntimeVolume) : string * json :=
  ("volumes", JList (runtime_volume_dict limits <$> vs)).

(** [check_runtime_free_space] *)
Definition check_runtime_free_space : M policy_state StorageDecision :=
  decide_errors
    (vs ← _runtime_volume_status limits core_root spool_root;
     match unhealthy_volumes vs with
     | _ :: _ as unsafe =>
         mret (mkDecision false FILESYSTEM_FREE_RESERVE
                 "filesystem free space crossed the runtime safety reserve" None [volumes_detail unsafe])
     | [] =>
         mret (mkDecision true HEALTHY "runtime filesystem free-space guard is healthy" None
                 [volumes_detail vs])
     end).

(** The scan of [check_runtime_job] with its handler: [None] when the job's spool
    is over its reservation. *)
Definition scan_job_spool (path : string) (reserved : Z) : SM policy_state (option TreeUsage) := fun s =>
  let reservation_scan_bound := reserved + 1 in
  let scan_bound := Z.min (max_scan_accounted_bytes limits) (Z.max 1 reservation_scan_bound) in
  match scan_root limits path Count scan_bound s with
  | (Done usage, s') => (Done (Some usage), s')
  | (Failed e, s') =>
      if bool_decide (err_reason e = SCAN_BYTE_LIMIT)
         && (reservation_scan_bound <=? max_scan_accounted_bytes limits)
      then (Done None, s') else (Failed e, s')
  | (Raised e, s') => (Raised e, s')
  end.

(** [check_runtime_job]; [spool_path] is the absolute path of the argument. *)
Definition check_runtime_job (job_id : string) (spool_path : string) : M policy_state StorageDecision :=
  decide_errors
    (_ ← slift (_validate_job_id (JStr job_id));
     let expected_path := spool_root +:+ "/" +:+ job_id in
     _ ← slift (require (bool_decide (spool_path = expected_path)) INVALID_REQUEST
                  "runtime spool path does not match the reserved job identity"
                  [("job_id", JStr job_id)]);
     _ ← lock;
     ledger ← read;
     match find_reservation job_id (reservations ledger) with
     | None =>
         mret (mkDecision false RESERVATION_ABSENT "active job has no durable storage reservation" None
                 [("job_id", JStr job_id)])
     | Some reservation =>
         scanned ← scan_job_spool expected_path (spool_bytes reservation);
         match scanned with
         | None =>
             mret (mkDecision false JOB_RESERVATION_EXCEEDED
                     "job spool exceeded its durable storage reservation" None
                     [("job_id", JStr job_id);
                      ("reserved_spool_bytes", JInt (spool_bytes reservation))])
         | Some usage =>
             if spool_bytes reservation <? bytes usage then
               mret (mkDecision false JOB_RESERVATION_EXCEEDED
                       "job spool exceeded its durable storage reservation" None
                       [("job_id", JStr job_id); ("spool_usage", usage_dict usage);
                        ("reserved_spool_bytes", JInt (spool_bytes reservation))])
             else
               vs ← _runtime_volume_status limits core_root spool_root;
               match unhealthy_volumes vs with
               | _ :: _ as unsafe =>
                   mret (mkDecision false FILESYSTEM_FREE_RESERVE
                           "filesystem free space crossed the runtime safety reserve" None
                           [("job_id", JStr job_id); volumes_detail unsafe])
               | [] =>
                   mret (mkDecision true HEALTHY "runtime storage guard is healthy" None
                           [("job_id", JStr job_id); ("reservation", reservation_dict reservation);
                            ("spool_usage", usage_dict usage); volumes_detail vs])
               end
         end
     end).
End operations.
