(* ===== verification/StorageLedgerProofs.v ===== *)
(** * The ledger codec is exact

    Well-formed ledgers survive encoding and decoding, and only well-formed
    ledgers are decoded. *)

From S2P Require Import Prelude Sha256 Json JsonSize Identifiers StorageTypes StorageLedger.
From stdpp Require Import base list strings sorting.
From Stdlib Require Import ZArith Lia Sorted.
From Stdlib Require Ascii String.
Open Scope Z_scope.

(** ** Strings *)
Lemma substring_app_l x y : String.substring 0 (String.length x) (x +:+ y) = x.
Proof.
  induction x as [|c x IH].
  - by destruct y.
  - rewrite append_cons. cbn. by rewrite IH.
Qed.

Lemma substring_app_r x y : String.substring (String.length x) (String.length y) (x +:+ y) = y.
Proof.
  induction x as [|c x IH]; [|by rewrite append_cons].
  cbn [String.length]. change (EmptyString +:+ y) with y.
  induction y as [|c y IH]; [done|]. cbn. by rewrite IH.
Qed.

Lemma remove_Z_app x : remove_Z (x +:+ "Z") = Some x.
Proof.
  unfold remove_Z. rewrite string_length_app. cbn [String.length].
  replace (String.length x + 1 - 1)%nat with (String.length x) by lia.
  rewrite bool_decide_true by apply (substring_app_r x "Z"). by rewrite substring_app_l.
Qed.

Section codec.
Context `{StorageClock} (limits : StorageLimits).

(** ** Well-formed ledgers *)
Record record_ok (r : ReservationRecord) : Prop := {
  ro_id : is_ok (validate_durable_record_id (JStr (res_job_id r))) = true;
  ro_core : 0 <= core_bytes r;
  ro_spool : 0 <= spool_bytes r;
  ro_total : 0 < core_bytes r + spool_bytes r <= max_job_reservation_bytes limits;
  ro_created : exists body, remove_Z (res_created_at r) = Some body /\ fromisoformat_utc body = true;
}.

Record ledger_ok (l : LedgerState) : Prop := {
  lo_generation : 0 <= generation l;
  lo_count : Z.of_nat (length (reservations l)) <= max_reservations limits;
  lo_records : Forall record_ok (reservations l);
  lo_distinct : NoDup (job_ids (reservations l));
  lo_sorted : StronglySorted (fun a b => str_leb a b = true) (job_ids (reservations l));
}.

Lemma sort_by_id (l : list string) :
  StronglySorted (fun a b => str_leb a b = true) l -> sort_by str_leb l = l.
Proof.
  induction 1 as [|x l Hl IH Hx]; [done|]. cbn. change (foldr (insert_by str_leb) [] l) with (sort_by str_leb l).
  rewrite IH. destruct Hx as [|y l Hy Hall]; [done|]. cbn. by rewrite Hy.
Qed.

Lemma sorted_str l : StronglySorted (fun a b => str_leb a b = true) (sort_by str_leb l).
Proof. apply sort_by_sorted; [apply str_leb_total|apply str_leb_trans]. Qed.

(** ** Encoding then decoding *)
Lemma validate_id_done r :
  is_ok (validate_durable_record_id (JStr (res_job_id r))) = true ->
  _validate_job_id (JStr (res_job_id r)) = Done tt.
Proof. unfold _validate_job_id. by destruct (validate_durable_record_id _). Qed.

Lemma decode_encoded_record r seen :
  record_ok r -> res_job_id r ∉ seen ->
  decode_reservation limits (reservation_dict r) seen = Done r.
Proof.
  intros [Hid Hc Hp [Hlo Hhi] (body&Hb&Hiso)] Hseen. unfold decode_reservation, reservation_dict.
  change (keys_are _ _) with true. cbn [negb].
  change (dict_get "job_id" _) with (Some (JStr (res_job_id r))). cbv iota.
  rewrite (validate_id_done r Hid), (bool_decide_false _ Hseen).
  change (natural_int (dict_get "core_bytes" _)) with (natural_int (Some (JInt (core_bytes r)))).
  change (natural_int (dict_get "spool_bytes" _)) with (natural_int (Some (JInt (spool_bytes r)))).
  change (dict_get "created_at" _) with (Some (JStr (res_created_at r))).
  unfold natural_int. rewrite (proj2 (Z.leb_le _ _) Hc), (proj2 (Z.leb_le _ _) Hp).
  rewrite (proj2 (Z.eqb_neq _ _)) by lia. rewrite (proj2 (Z.ltb_ge _ _)) by lia.
  unfold _parse_timestamp. rewrite Hb, Hiso. by destruct r.
Qed.

Lemma decode_encoded_records rs seen :
  Forall record_ok rs -> NoDup (seen ++ job_ids rs) ->
  decode_reservations limits (reservation_dict <$> rs) seen = Done rs.
Proof.
  revert seen. induction rs as [|r rs IH]; intros seen Hok Hnd; [done|].
  apply Forall_cons in Hok as [Hr Hrs]. cbn [fmap list_fmap decode_reservations].
  rewrite decode_encoded_record; [|done|].
  - cbn [mbind outcome_bind]. by rewrite IH; [|done|by rewrite <- app_assoc].
  - apply NoDup_app in Hnd as (_&Hd&_). intros Hin. apply (Hd _ Hin). left.
Qed.

Lemma hex_ascii s : str_forall is_lower_hex s = true -> str_forall is_ascii s = true.
Proof.
  apply str_forall_impl. intros c. unfold is_lower_hex, is_digit, in_range, is_ascii.
  intros Hc. apply N.ltb_lt. apply orb_true_iff in Hc as [Hc|Hc]; apply andb_true_iff in Hc as [_ Hc];
    apply N.leb_le in Hc; lia.
Qed.

Lemma checksum_ascii p : str_forall is_ascii (ledger_checksum p) = true.
Proof.
  unfold ledger_checksum. rewrite str_forall_app. apply andb_true_iff. split; [reflexivity|].
  apply hex_ascii. unfold canonical_sha256. apply sha256_hex_shape.
Qed.

Definition envelope_of (l : LedgerState) : json :=
  let payload := ledger_payload (generation l) (reservation_dict <$> reservations l) in
  JObj (payload ++ [("checksum", JStr (ledger_checksum payload))]).

Lemma encode_value l : lf_value (_encode_ledger l) = Some (envelope_of l).
Proof. reflexivity. Qed.

Lemma decode_encoded l : ledger_ok l -> _decode_ledger limits (envelope_of l) = Done l.
Proof.
  intros [Hg Hn Hr Hd Hs]. unfold _decode_ledger, envelope_of. set (p := ledger_payload _ _).
  change (keys_are _ (p ++ _)) with true. cbn [negb].
  change (dict_get "schema" (p ++ _)) with (Some (JStr _LEDGER_SCHEMA)).
  change (dict_get "generation" (p ++ _)) with (Some (JInt (generation l))).
  change (dict_get "reservations" (p ++ _)) with (Some (JList (reservation_dict <$> reservations l))).
  change (dict_get "checksum" (p ++ _)) with (Some (JStr (ledger_checksum p))).
  cbv iota beta. rewrite bool_decide_true by done. cbn [require mbind outcome_bind natural_int].
  rewrite (proj2 (Z.leb_le _ _) Hg). cbv iota. rewrite length_fmap, (proj2 (Z.leb_le _ _) Hn).
  cbn [require mbind outcome_bind]. unfold compare_digest. fold p. rewrite checksum_ascii. cbn [andb].
  cbn [mbind outcome_bind]. rewrite bool_decide_true by done. cbn [require mbind outcome_bind].
  rewrite decode_encoded_records by done. cbn [mbind outcome_bind].
  rewrite bool_decide_true by (symmetry; by apply sort_by_id). by destruct l.
Qed.

(** ** Decoding is sound *)
Lemma natural_int_nonneg v z : natural_int v = Some z -> 0 <= z.
Proof. unfold natural_int. repeat case_match; intros; simplify_eq; bool_prop; lia. Qed.

Lemma decode_record_ok raw seen r :
  decode_reservation limits raw seen = Done r -> record_ok r /\ res_job_id r ∉ seen.
Proof.
  unfold decode_reservation. intros Hr.
  destruct raw as [| | | | | |fields]; try discriminate. destruct (negb _); [discriminate|].
  destruct (dict_get "job_id" fields) as [[| | | |j| |]|]; try discriminate.
  destruct (_validate_job_id (JStr j)) eqn:Hj; try discriminate. case_bool_decide as Hs; [discriminate|].
  destruct (natural_int (dict_get "core_bytes" fields)) as [c|] eqn:Hc; [|discriminate].
  destruct (natural_int (dict_get "spool_bytes" fields)) as [p|] eqn:Hp; [|discriminate].
  apply natural_int_nonneg in Hc, Hp.
  destruct (c + p =? 0) eqn:H0; [discriminate|]. destruct (_ <? c + p) eqn:Hm; [discriminate|]. bool_prop.
  apply outcome_bind_done in Hr as (t&Ht&[= <-]). split; [|done]. split; cbn [res_job_id core_bytes spool_bytes res_created_at].
  - unfold _validate_job_id in Hj. by destruct (validate_durable_record_id (JStr j)).
  - done.
  - done.
  - lia.
  - unfold _parse_timestamp in Ht. destruct (dict_get "created_at" fields) as [[| | | |s| |]|]; try discriminate.
    destruct (remove_Z s) as [b|] eqn:Hb; [|discriminate].
    apply outcome_bind_done in Ht as ([]&Hq&[= <-]). apply require_done in Hq. by exists b.
Qed.

Lemma decode_records_ok raw seen rs :
  decode_reservations limits raw seen = Done rs ->
  Forall record_ok rs /\ length rs = length raw /\ (NoDup seen -> NoDup (seen ++ job_ids rs)).
Proof.
  revert seen rs. induction raw as [|x raw IH]; intros seen rs; cbn [decode_reservations].
  { intros [= <-]. split_and!; [constructor|done|]. cbn. by rewrite app_nil_r. }
  intros (r&Hr&(rs'&Hrs&[= <-])%outcome_bind_done)%outcome_bind_done.
  apply decode_record_ok in Hr as [Hok Hs]. apply IH in Hrs as (Hall&Hlen&Hnd).
  split_and!; [by constructor|cbn; lia|]. intros Hseen. cbn [job_ids fmap list_fmap].
  rewrite <- app_assoc in Hnd. apply Hnd. apply NoDup_app. split_and!; [done| |apply NoDup_singleton].
  intros y Hy ->%list_elem_of_singleton. done.
Qed.

Lemma decode_ledger_ok v l : _decode_ledger limits v = Done l -> ledger_ok l.
Proof.
  unfold _decode_ledger. intros Hl. destruct v as [| | | | | |env]; try discriminate.
  destruct (negb _); [discriminate|]. apply outcome_bind_done in Hl as ([]&_&Hl).
  destruct (natural_int (dict_get "generation" env)) as [g|] eqn:Hg; [|discriminate].
  apply natural_int_nonneg in Hg.
  destruct (dict_get "reservations" env) as [[| | | | |raw|]|]; try discriminate.
  apply outcome_bind_done in Hl as ([]&Hn%require_done&Hl).
  apply outcome_bind_done in Hl as (m&_&Hl). apply outcome_bind_done in Hl as ([]&_&Hl).
  apply outcome_bind_done in Hl as (rs&Hrs&Hl). apply outcome_bind_done in Hl as ([]&Hs%require_done&[= <-]).
  apply decode_records_ok in Hrs as (Hall&Hlen&Hnd). bool_prop. split; cbn [generation reservations].
  - done.
  - by rewrite Hlen.
  - done.
  - apply (Hnd (NoDup_nil_2)).
  - rewrite Hs. apply sorted_str.
Qed.

(** C34: The ledger codec round-trips: every well-formed ledger is read back exactly as
    it was written. *)
Theorem ledger_roundtrip l :
  ledger_ok l ->
  exists v, lf_value (_encode_ledger l) = Some v /\ _decode_ledger limits v = Done l.
Proof. intros Hl. exists (envelope_of l). split; [done|]. by apply decode_encoded. Qed.

(** C35: Only well-formed ledgers are decoded: positive reservations within the per-job
    limit, distinct valid job ids in order, no more than the configured number, and
    writing the ledger again gives a file that decodes to it. *)
Theorem decoded_ledger_ok v l :
  _decode_ledger limits v = Done l ->
  ledger_ok l /\ exists w, lf_value (_encode_ledger l) = Some w /\ _decode_ledger limits w = Done l.
Proof.
  intros Hl%decode_ledger_ok. split; [done|]. exists (envelope_of l). split; [done|]. by apply decode_encoded.
Qed.

(** ** Exceptions other than [StoragePolicyError] *)
Lemma require_not_raised b r m d e : require b r m d <> Raised e.
Proof. by destruct b. Qed.

Lemma validate_id_not_raised j e : _validate_job_id j <> Raised e.
Proof. unfold _validate_job_id. by destruct (validate_durable_record_id j). Qed.

Lemma parse_timestamp_not_raised v e : _parse_timestamp v <> Raised e.
Proof.
  unfold _parse_timestamp. intros Hr. destruct v as [[| | | |s| |]|]; try discriminate.
  destruct (remove_Z s); [|discriminate].
  apply outcome_bind_raised in Hr as [Hr|(?&_&[=])]. by eapply require_not_raised.
Qed.

Lemma decode_record_not_raised raw seen e : decode_reservation limits raw seen <> Raised e.
Proof.
  unfold decode_reservation. intros Hr.
  repeat case_match; try discriminate; try (by eapply validate_id_not_raised).
  apply outcome_bind_raised in Hr as [Hr|(?&_&[=])]. by eapply parse_timestamp_not_raised.
Qed.

Lemma decode_records_not_raised raw seen e : decode_reservations limits raw seen <> Raised e.
Proof.
  revert seen. induction raw as [|x raw IH]; intros seen Hr; [discriminate|].
  apply outcome_bind_raised in Hr as [Hr|(r&_&Hr)]; [by eapply decode_record_not_raised|].
  apply outcome_bind_raised in Hr as [Hr|(?&_&[=])]. by eapply IH.
Qed.

(** Only the comparison of a checksum with characters that are not ASCII raises
    another exception. *)
Lemma decode_raises v e :
  _decode_ledger limits v = Raised e ->
  exists env checksum, v = JObj env /\ dict_get "checksum" env = Some (JStr checksum) /\
    str_forall is_ascii checksum = false.
Proof.
  unfold _decode_ledger. intros Hr. destruct v as [| | | | | |env]; try discriminate. exists env.
  destruct (negb _); [discriminate|].
  apply outcome_bind_raised in Hr as [Hr|(u&_&Hr)]; [by eapply require_not_raised in Hr|].
  destruct (natural_int _); [|discriminate].
  destruct (dict_get "reservations" env) as [[| | | | |raw|]|]; try discriminate.
  apply outcome_bind_raised in Hr as [Hr|(u1&_&Hr)]; [by eapply require_not_raised in Hr|].
  apply outcome_bind_raised in Hr as [Hr|(u2&_&Hr)].
  - destruct (dict_get "checksum" env) as [[| | | |c| |]|]; try discriminate. exists c.
    split_and!; [done|done|]. unfold compare_digest in Hr. rewrite checksum_ascii, andb_true_r in Hr.
    by destruct (str_forall is_ascii c).
  - apply outcome_bind_raised in Hr as [Hr|(u3&_&Hr)]; [by eapply require_not_raised in Hr|].
    apply outcome_bind_raised in Hr as [Hr|(rs&_&Hr)]; [by eapply decode_records_not_raised in Hr|].
    apply outcome_bind_raised in Hr as [Hr|(?&_&[=])]; by eapply require_not_raised in Hr.
Qed.
End codec.

(** ** The size of a ledger file grows linearly with its records *)

Close Scope Z_scope.

(** ** The length of an indented rendering *)
Definition is_leaf (v : json) : bool := match v with JList _ | JObj _ => false | _ => true end.

Lemma length_dumps_leaf v : is_leaf v = true -> (String.length (dumps v) <= size_bound v)%nat.
Proof.
  Transparent dumps. unfold dumps. Opaque dumps.
  destruct v as [|[]|z|r|s|l|d]; cbn [dumps_with size_bound is_leaf]; intros; try done; cbn; try lia.
  - apply length_string_of_Z.
  - apply length_dumps_str.
Qed.

Lemma length_spaces n : String.length (spaces n) = (2 * n)%nat.
Proof. induction n as [|n IH]; cbn [spaces]; [done|]. rewrite string_length_app, IH. cbn [String.length]. lia. Qed.

Lemma length_block level open_ close items :
  (String.length (json_block level open_ close items) <=
   String.length open_ + String.length close + 4 + 4 * level
   + sum_nat ((fun x => String.length x + 4 + 2 * level) <$> items))%nat.
Proof.
  unfold json_block. destruct items as [|x items].
  { rewrite string_length_app. cbn. lia. }
  pose proof (length_str_join ("," +:+ newline +:+ spaces (S level)) (x :: items)) as Hj.
  set (l := x :: items) in *. rewrite !string_length_app, !length_spaces in *.
  change (String.length newline) with 1%nat in *. change (String.length ",") with 1%nat in *.
  assert (Hs : (sum_nat ((fun x => String.length x + (1 + (1 + 2 * S level))) <$> l)
                = sum_nat ((fun x => String.length x + 4 + 2 * level) <$> l))%nat).
  { f_equal. apply list_fmap_ext. intros i y _. lia. }
  lia.
Qed.

Fixpoint indent_bound (level : nat) (v : json) : nat :=
  match v with
  | JList l => 6 + 4 * level + sum_nat ((fun x => indent_bound (S level) x + 4 + 2 * level) <$> l)
  | JObj d => 6 + 4 * level
      + sum_nat ((fun kv => 12 * String.length kv.1 + 4 + indent_bound (S level) kv.2 + 4 + 2 * level) <$> d)
  | _ => size_bound v
  end.

Lemma length_dumps_indent v : forall level, (String.length (dumps_indent level v) <= indent_bound level v)%nat.
Proof.
  induction v as [|b|z|r|s|l IH|d IH] using json_strong_ind; intros level;
    try (apply length_dumps_leaf; reflexivity).
  - cbn [dumps_indent indent_bound]. pose proof (length_block level "[" "]" (dumps_indent (S level) <$> l)) as Hb.
    rewrite <- list_fmap_compose in Hb. change (String.length "[") with 1%nat in Hb. change (String.length "]") with 1%nat in Hb.
    assert (Hs : (sum_nat ((fun x => String.length (dumps_indent (S level) x) + 4 + 2 * level) <$> l)
                  <= sum_nat ((fun x => indent_bound (S level) x + 4 + 2 * level) <$> l))%nat).
    { apply sum_nat_le. eapply Forall_impl; [exact IH|]. intros x Hx. specialize (Hx (S level)). cbn in *. lia. }
    unfold compose in Hb. lia.
  - cbn [dumps_indent indent_bound].
    set (f := fun kv : string * json => (kv.1, dumps_indent (S level) kv.2)).
    etransitivity; [apply length_block|]. change (String.length "{") with 1%nat. change (String.length "}") with 1%nat.
    rewrite <- list_fmap_compose, sort_by_perm, <- list_fmap_compose.
    match goal with |- (_ + sum_nat (?g <$> d) <= _)%nat => assert (Hs : (sum_nat (g <$> d)
      <= sum_nat ((fun kv => 12 * String.length kv.1 + 4 + indent_bound (S level) kv.2 + 4 + 2 * level) <$> d))%nat); [|lia] end.
    apply sum_nat_le. eapply Forall_impl; [exact IH|]. intros [k x] Hx. specialize (Hx (S level)).
    unfold compose, f. cbn [fst snd] in *. rewrite !string_length_app. change (String.length ": ") with 2%nat.
    pose proof (length_dumps_str k). lia.
Qed.

(** ** The ledger *)
Open Scope Z_scope.

Lemma valid_id_length j :
  is_ok (validate_durable_record_id (JStr j)) = true -> (String.length j <= 128)%nat.
Proof.
  unfold validate_durable_record_id. destruct (_ <? _)%nat eqn:Hn; [done|]. intros _.
  apply Nat.ltb_ge in Hn. exact Hn.
Qed.

Lemma reservation_size r :
  (indent_bound 2 (reservation_dict r) <=
   550 + 12 * String.length (res_job_id r) + 12 * String.length (res_created_at r)
   + bits (core_bytes r) + bits (spool_bytes r))%nat.
Proof.
  unfold reservation_dict. cbn [indent_bound fmap list_fmap fst snd size_bound String.length].
  unfold sum_nat. cbn [foldr]. lia.
Qed.

Section ledger.
Context `{StorageClock} (limits : StorageLimits).

Lemma envelope_size l :
  (indent_bound 0 (envelope_of l) <=
   2000 + bits (generation l)
   + sum_nat ((fun r => indent_bound 2 (reservation_dict r) + 6) <$> reservations l))%nat.
Proof.
  unfold envelope_of, ledger_payload. set (p := ledger_checksum _).
  assert (Hp : (String.length p = 71)%nat).
  { subst p. unfold ledger_checksum, canonical_sha256. rewrite string_length_app.
    rewrite (proj2 (sha256_hex_shape _)). reflexivity. }
  cbn [app indent_bound fmap list_fmap fst snd size_bound]. unfold _LEDGER_SCHEMA. cbn [String.length].
  rewrite Hp. change (list_fmap json nat ?f ?l) with (f <$> l). rewrite <- list_fmap_compose.
  unfold sum_nat at 1. cbn [foldr]. unfold compose.
  assert (Hs : sum_nat ((fun r => indent_bound 2 (reservation_dict r) + 4 + 2 * 1) <$> reservations l)%nat
             = sum_nat ((fun r => indent_bound 2 (reservation_dict r) + 6) <$> reservations l)%nat)
    by (f_equal; apply list_fmap_ext; intros; lia).
  rewrite Hs. lia.
Qed.

Lemma ledger_fits l :
  ledger_ok limits l -> generation l < 2 ^ 64 -> max_job_reservation_bytes limits < 2 ^ 62 ->
  Forall (fun r => (String.length (res_created_at r) <= 32)%nat) (reservations l) ->
  lf_size (_encode_ledger l) <= 4096 + 2640 * Z.of_nat (length (reservations l)).
Proof.
  intros Hok Hg Hm Ht. unfold _encode_ledger. fold (envelope_of l). cbn [lf_size].
  pose proof (length_dumps_indent (envelope_of l) 0) as Hl. pose proof (envelope_size l) as He.
  assert (Hb : (bits (generation l) <= 65)%nat).
  { apply (bits_bound _ 64). pose proof (lo_generation _ _ Hok). lia. }
  assert (Hs : (sum_nat ((fun r => indent_bound 2 (reservation_dict r) + 6) <$> reservations l)
                <= 2640 * length (reservations l))%nat); [|fold (envelope_of l) in *; lia].
  apply sum_nat_bound. pose proof (lo_records _ _ Hok) as Hall. rewrite Forall_forall in Hall, Ht |- *.
  intros r Hr. destruct (Hall r Hr) as [Hid Hc Hp Htot _]. apply valid_id_length in Hid. specialize (Ht r Hr).
  assert (bits (core_bytes r) <= 63)%nat by (apply (bits_bound _ 62); lia).
  assert (bits (spool_bytes r) <= 63)%nat by (apply (bits_bound _ 62); lia).
  pose proof (reservation_size r). cbn beta in *. lia.
Qed.

(** C36: The ledger file grows linearly: with byte amounts below [2^62], generations below
    [2^64] and timestamps of at most 32 bytes (the clock writes 27), a ledger of [n]
    reservations takes at most [4096 + 2640 n] bytes, so a larger byte limit never
    refuses a write. *)
Theorem ledger_size_linear l :
  ledger_ok limits l -> generation l < 2 ^ 64 -> max_job_reservation_bytes limits < 2 ^ 62 ->
  Forall (fun r => (String.length (res_created_at r) <= 32)%nat) (reservations l) ->
  lf_size (_encode_ledger l) <= 4096 + 2640 * Z.of_nat (length (reservations l)).
Proof. apply ledger_fits. Qed.
End ledger.
