(* ===== verification/StorageScanProofs.v ===== *)
(** * The iterative scan equals a recursive accounting

    [scan_tree] returns a usage exactly when the tree is clean and within the
    three bounds, and the usage is then the recursive total of the tree. *)

From S2P Require Import Prelude Sha256 Json StorageTypes StorageScan.
From stdpp Require Import base list strings.
From Stdlib Require Import ZArith Lia.
Open Scope Z_scope.

(** ** The reference accounting *)
Definition addc (a b : counters) : counters :=
  mkCounters (total_bytes a + total_bytes b) (file_count a + file_count b) (link_count a + link_count b)
    (directory_count a + directory_count b) (entry_count a + entry_count b).
Definition zeroc : counters := mkCounters 0 0 0 0 0.
Definition sumc (l : list counters) : counters := foldr addc zeroc l.

(** An entry by itself. *)
Definition flat (e : entry) : counters :=
  match e with
  | EFile size => mkCounters (Z.max 0 size) 1 0 0 1
  | ELink size => mkCounters (Z.max 0 size) 0 1 0 1
  | EDir _ => mkCounters 0 0 0 1 1
  | _ => zeroc
  end.

(** Everything below an entry, and below a directory. *)
Fixpoint below (e : entry) : counters :=
  match e with EDir view => tree_counters view | _ => zeroc end
with tree_counters (v : dir_view) : counters :=
  match v with
  | Opened content _ => sumc (map (fun e => addc (flat e) (below e)) content)
  | OpenFailed _ => zeroc
  end.

Definition flat_clean (policy : link_policy) (e : entry) : bool :=
  match e with
  | EFile size => 0 <=? size
  | ELink _ => bool_decide (policy = Count)
  | EDir _ => true
  | _ => false
  end.

(** Every directory could be listed, and holds only files, directories and, where
    the policy counts them, links. *)
Fixpoint clean_below (policy : link_policy) (e : entry) : bool :=
  match e with EDir view => clean_view policy view | _ => true end
with clean_view (policy : link_policy) (v : dir_view) : bool :=
  match v with
  | Opened content None => forallb (fun e => flat_clean policy e && clean_below policy e) content
  | _ => false
  end.

(** The deepest directory below a directory. *)
Fixpoint entry_depth (e : entry) : Z :=
  match e with EDir view => 1 + view_depth view | _ => 0 end
with view_depth (v : dir_view) : Z :=
  match v with
  | Opened content _ => foldr Z.max 0 (map entry_depth content)
  | OpenFailed _ => 0
  end.

(** ** Counters form a commutative monoid *)
Lemma addc_assoc a b c : addc a (addc b c) = addc (addc a b) c.
Proof. unfold addc. cbn. f_equal; lia. Qed.
Lemma addc_comm a b : addc a b = addc b a.
Proof. unfold addc. f_equal; lia. Qed.
Lemma addc_zero_r a : addc a zeroc = a.
Proof. destruct a. unfold addc, zeroc. cbn. f_equal; lia. Qed.
Lemma addc_zero_l a : addc zeroc a = a.
Proof. rewrite addc_comm. apply addc_zero_r. Qed.

Lemma sumc_app l k : sumc (l ++ k) = addc (sumc l) (sumc k).
Proof. induction l as [|x l IH]; cbn; [by rewrite addc_zero_l|]. unfold sumc in *. cbn. rewrite IH. apply addc_assoc. Qed.

Lemma sumc_split {A} (f g : A -> counters) l :
  sumc (map (fun x => addc (f x) (g x)) l) = addc (sumc (map f l)) (sumc (map g l)).
Proof.
  induction l as [|x l IH]; [done|]. cbn. unfold sumc in *. rewrite IH. rewrite !addc_assoc. f_equal.
  rewrite <- !addc_assoc. f_equal. apply addc_comm.
Qed.

Definition nonneg (c : counters) : Prop := 0 <= total_bytes c /\ 0 <= entry_count c.

Lemma nonneg_add a b : nonneg a -> nonneg b -> nonneg (addc a b).
Proof. unfold nonneg, addc. cbn. lia. Qed.
Lemma nonneg_sum l : Forall nonneg l -> nonneg (sumc l).
Proof. induction 1; cbn; [unfold nonneg, zeroc; cbn; lia|]. by apply nonneg_add. Qed.
Lemma nonneg_flat e : nonneg (flat e).
Proof. destruct e; unfold nonneg; cbn; lia. Qed.

(** ** Induction on observed trees *)
Section tree_induction.
Context (P : entry -> Prop) (Q : dir_view -> Prop).
Context (Hgone : P EGone) (Hunreadable : forall e, P (EUnreadable e)) (Hlink : forall n, P (ELink n))
        (Hdir : forall v, Q v -> P (EDir v)) (Hfile : forall n, P (EFile n)) (Hspecial : P ESpecial)
        (Hopened : forall content fault, Forall P content -> Q (Opened content fault))
        (Hfailed : forall f, Q (OpenFailed f)).

Fixpoint entry_tree_ind (e : entry) : P e :=
  match e with
  | EGone => Hgone
  | EUnreadable err => Hunreadable err
  | ELink n => Hlink n
  | EDir v => Hdir v (view_tree_ind v)
  | EFile n => Hfile n
  | ESpecial => Hspecial
  end
with view_tree_ind (v : dir_view) : Q v :=
  match v with
  | Opened content fault =>
      Hopened content fault
        ((fix go (l : list entry) : Forall P l :=
            match l with
            | [] => Forall_nil_2 P
            | x :: l' => Forall_cons_2 P x l' (entry_tree_ind x) (go l')
            end) content)
  | OpenFailed f => Hfailed f
  end.
End tree_induction.

Lemma nonneg_tree v : nonneg (tree_counters v).
Proof.
  apply (view_tree_ind (fun e => nonneg (below e)) (fun v => nonneg (tree_counters v)));
    try (intros; unfold nonneg; cbn; lia); [done|].
  intros content fault Hall. cbn. apply nonneg_sum, Forall_map.
  eapply Forall_impl; [exact Hall|]. intros e He. cbn. apply nonneg_add; [apply nonneg_flat|done].
Qed.

Lemma view_depth_nonneg v : 0 <= view_depth v.
Proof. destruct v as [content|f]; cbn; [|lia]. induction content as [|e content IH]; cbn; lia. Qed.

(** ** The loop over one directory *)
Section scan.
Context (logical_root : string) (max_entries max_depth max_bytes : Z) (policy : link_policy).
Abbreviation entry_step := (scan_entry logical_root max_entries max_depth max_bytes policy).
Abbreviation entries_loop := (scan_entries_of logical_root max_entries max_depth max_bytes policy).
Abbreviation stack_loop := (scan_stack logical_root max_entries max_depth max_bytes policy).

(** The counters so far are within the bounds. *)
Definition within (c : counters) : Prop := entry_count c <= max_entries /\ total_bytes c <= max_bytes.

Definition pushed (depth : Z) (e : entry) : list (dir_view * Z) :=
  match e with EDir v => [(v, depth + 1)] | _ => [] end.

Definition depth_fits (depth : Z) (e : entry) : Prop :=
  match e with EDir _ => depth + 1 <= max_depth | _ => True end.

Lemma account_done size c c' :
  account logical_root max_bytes size c = Done c' <->
  total_bytes c + size <= max_bytes /\
  c' = mkCounters (total_bytes c + size) (file_count c) (link_count c) (directory_count c) (entry_count c).
Proof.
  unfold account. rewrite outcome_bind_done. setoid_rewrite require_done. setoid_rewrite Z.leb_le.
  split; [intros (_&Hm&[= <-]); done|]. intros [Hm ->]. by exists tt.
Qed.

Lemma entry_step_done depth e c stack c' stack' :
  within c ->
  entry_step depth e c stack = Done (c', stack') <->
  flat_clean policy e = true /\ depth_fits depth e /\ within (addc c (flat e)) /\
  c' = addc c (flat e) /\ stack' = pushed depth e ++ stack.
Proof.
  intros [He Hb]. unfold scan_entry. rewrite outcome_bind_done. setoid_rewrite require_done.
  setoid_rewrite Z.leb_le. cbn [entry_count]. unfold within, addc.
  destruct e as [|err|size|v|size|]; cbn [flat flat_clean depth_fits pushed app total_bytes file_count link_count directory_count entry_count zeroc].
  - split; [by intros (_&_&[=])|naive_solver].
  - split; [by intros (_&_&[=])|naive_solver].
  - setoid_rewrite outcome_bind_done. setoid_rewrite require_done. setoid_rewrite outcome_bind_done.
    setoid_rewrite account_done. cbn [total_bytes file_count link_count directory_count entry_count].
    split.
    + intros (_&Hn&_&Hp&x&[Hm ->]&[= <- <-]). split_and!; try done; try lia. f_equal; lia.
    + intros (Hp&_&[Hn Hm]&->&->). exists tt. split; [done|]. exists tt. split; [done|].
      eexists. split; [split; [lia|reflexivity]|]. f_equal. f_equal. f_equal; lia.
  - setoid_rewrite outcome_bind_done. setoid_rewrite require_done. setoid_rewrite Z.leb_le. split.
    + intros (_&Hn&_&Hd&[= <- <-]). split_and!; try done; try lia. f_equal; lia.
    + intros (_&Hd&[Hn Hm]&->&->). exists tt. split; [done|]. exists tt. split; [done|].
      f_equal. f_equal. f_equal; lia.
  - setoid_rewrite outcome_bind_done. setoid_rewrite require_done. setoid_rewrite outcome_bind_done.
    setoid_rewrite account_done. cbn [total_bytes file_count link_count directory_count entry_count].
    rewrite Z.leb_le. split.
    + intros (_&Hn&_&Hp&x&[Hm ->]&[= <- <-]). bool_prop. split_and!; try done; try lia. f_equal; lia.
    + intros (Hp&_&[Hn Hm]&->&->). exists tt. split; [done|]. exists tt. split; [by apply Z.leb_le|].
      eexists. split; [split; [lia|reflexivity]|]. f_equal. f_equal. f_equal; lia.
  - split; [by intros (_&_&[=])|naive_solver].
Qed.

Fixpoint pushes (depth : Z) (content : list entry) (stack : list (dir_view * Z)) : list (dir_view * Z) :=
  match content with
  | [] => stack
  | e :: rest => pushes depth rest (pushed depth e ++ stack)
  end.

Lemma within_add a b : nonneg b -> within (addc a b) -> within a.
Proof. unfold within, nonneg, addc. cbn. lia. Qed.

Lemma entries_loop_done depth content c stack c' stack' :
  within c ->
  entries_loop depth content c stack = Done (c', stack') <->
  Forall (fun e => flat_clean policy e = true /\ depth_fits depth e) content /\
  within (addc c (sumc (map flat content))) /\
  c' = addc c (sumc (map flat content)) /\ stack' = pushes depth content stack.
Proof.
  revert c stack. induction content as [|e content IH]; intros c stack Hc; cbn [scan_entries_of pushes map].
  { cbn. rewrite addc_zero_r. split; [by intros [= <- <-]|]. by intros (_&_&->&->). }
  change (sumc (flat e :: ?l)) with (addc (flat e) (sumc l)). rewrite addc_assoc, Forall_cons, outcome_bind_done.
  assert (Hns : nonneg (sumc (map flat content)))
    by (apply nonneg_sum, Forall_map, Forall_true; intros x; apply nonneg_flat).
  split.
  - intros ([c1 st1]&Hs&Hl). apply entry_step_done in Hs as (Hcl&Hd&Hw&->&->); [|done].
    cbn [fst snd] in Hl. apply IH in Hl as (Hall&Hw'&->&->); done.
  - intros ([[Hcl Hd] Hall]&Hw&->&->). exists (addc c (flat e), pushed depth e ++ stack).
    pose proof (within_add _ _ Hns Hw) as Hw1. split; [by apply entry_step_done|]. by apply IH.
Qed.

(** ** The loop over the stack *)
Lemma forallb_Forall {A} (f : A -> bool) l : forallb f l = true <-> Forall (fun x => f x = true) l.
Proof. induction l as [|x l IH]; cbn; [done|]. rewrite andb_true_iff, IH, Forall_cons. done. Qed.

Definition stack_total (stack : list (dir_view * Z)) : counters :=
  sumc (map (fun vd => tree_counters vd.1) stack).
Definition view_fits (vd : dir_view * Z) : Prop :=
  clean_view policy vd.1 = true /\ vd.2 + view_depth vd.1 <= max_depth.

Lemma pushed_total depth e : stack_total (pushed depth e) = below e.
Proof. destruct e; try done. cbn. apply addc_zero_r. Qed.

Lemma pushes_total depth content stack :
  stack_total (pushes depth content stack) = addc (sumc (map below content)) (stack_total stack).
Proof.
  revert stack. induction content as [|e content IH]; intros stack; cbn [pushes map].
  { by rewrite addc_zero_l. }
  rewrite IH. unfold stack_total at 1. rewrite map_app, sumc_app. fold (stack_total (pushed depth e)).
  fold (stack_total stack). rewrite pushed_total. change (sumc (below e :: ?l)) with (addc (below e) (sumc l)).
  rewrite !addc_assoc. f_equal. apply addc_comm.
Qed.

Lemma pushes_fits depth content stack :
  Forall view_fits (pushes depth content stack) <->
  Forall (fun e => Forall view_fits (pushed depth e)) content /\ Forall view_fits stack.
Proof.
  revert stack. induction content as [|e content IH]; intros stack; cbn [pushes].
  { naive_solver. }
  rewrite IH, Forall_app, Forall_cons. naive_solver.
Qed.

Lemma depth_max content d :
  (foldr Z.max 0 (map entry_depth content) <= d) <-> Forall (fun e => entry_depth e <= d) content /\ 0 <= d.
Proof.
  induction content as [|e content IH]; cbn; [naive_solver|]. rewrite Forall_cons, Z.max_lub_iff, IH. naive_solver.
Qed.

(** A directory fits exactly when its own entries do and what it pushes does. *)
Lemma view_fits_opened content depth :
  depth <= max_depth ->
  view_fits (Opened content None, depth) <->
  Forall (fun e => flat_clean policy e = true /\ depth_fits depth e) content /\
  Forall (fun e => Forall view_fits (pushed depth e)) content.
Proof.
  intros Hd. unfold view_fits at 1. cbn [fst snd clean_view view_depth]. rewrite forallb_Forall.
  assert (Hmax : depth + foldr Z.max 0 (map entry_depth content) <= max_depth <->
                 Forall (fun e => entry_depth e <= max_depth - depth) content).
  { pose proof (depth_max content (max_depth - depth)). split; intros; [apply H; lia|].
    enough (foldr Z.max 0 (map entry_depth content) <= max_depth - depth) by lia. apply H. split; [done|lia]. }
  rewrite Hmax, <- !Forall_and. apply Forall_iff. intros e. rewrite andb_true_iff.
  destruct e as [|err|size|v|size|]; cbn; rewrite ?Forall_cons, ?Forall_nil; unfold view_fits; cbn;
    try (naive_solver lia).
  pose proof (view_depth_nonneg v). naive_solver lia.
Qed.

Definition stack_dirs (stack : list (dir_view * Z)) : nat :=
  foldr Nat.add O (map (fun vd => view_dirs vd.1) stack).

Lemma pushes_dirs depth content stack :
  stack_dirs (pushes depth content stack) =
  (foldr Nat.add O (map entry_dirs content) + stack_dirs stack)%nat.
Proof.
  revert stack. induction content as [|e content IH]; intros stack; cbn [pushes map foldr]; [done|].
  rewrite IH. destruct e; cbn [pushed app]; unfold stack_dirs; cbn; lia.
Qed.

Lemma pushes_depth depth content stack :
  Forall (fun e => flat_clean policy e = true /\ depth_fits depth e) content ->
  Forall (fun vd => vd.2 <= max_depth) stack ->
  Forall (fun vd => vd.2 <= max_depth) (pushes depth content stack).
Proof.
  intros Hc. revert stack. induction Hc as [|e content [_ He] _ IH]; intros stack Hs; cbn [pushes]; [done|].
  apply IH. destruct e; cbn; try done. by constructor.
Qed.

Lemma stack_total_cons content depth rest :
  stack_total ((Opened content None, depth) :: rest) =
  addc (sumc (map flat content)) (stack_total (pushes depth content rest)).
Proof.
  rewrite pushes_total. unfold stack_total at 1. cbn [map fst]. change (sumc (?x :: ?l)) with (addc x (sumc l)).
  cbn [tree_counters]. by rewrite sumc_split, addc_assoc.
Qed.

Lemma nonneg_stack stack : nonneg (stack_total stack).
Proof. apply nonneg_sum, Forall_map, Forall_true. intros x. apply nonneg_tree. Qed.

Lemma view_dirs_pos v : (1 <= view_dirs v)%nat.
Proof. destruct v; cbn; lia. Qed.

Lemma scan_stack_done fuel stack c c' :
  (stack_dirs stack <= fuel)%nat -> within c -> Forall (fun vd => vd.2 <= max_depth) stack ->
  stack_loop fuel stack c = Done c' <->
  Forall view_fits stack /\ within (addc c (stack_total stack)) /\ c' = addc c (stack_total stack).
Proof.
  revert stack c. induction fuel as [|fuel IH]; intros [|[view depth] rest] c Hfuel Hc Hdep.
  1,3: cbn; rewrite addc_zero_r; split; [by intros [= <-]|by intros (_&_&->)].
  { pose proof (view_dirs_pos view). unfold stack_dirs in Hfuel. cbn in Hfuel. lia. }
  apply Forall_cons in Hdep as [Hd Hdep]. cbn in Hd. cbn [scan_stack].
  destruct view as [content [f|]|f].
  - rewrite outcome_bind_done. rewrite Forall_cons. split; [by intros (x&_&[=])|].
    intros ([[[=] _] _]&_).
  - rewrite outcome_bind_done, Forall_cons, view_fits_opened by done. rewrite stack_total_cons, addc_assoc.
    assert (Hf : (stack_dirs (pushes depth content rest) <= fuel)%nat).
    { rewrite pushes_dirs. unfold stack_dirs in *. cbn in Hfuel. lia. }
    split.
    + intros ([c1 st]&Hl&Hs). apply entries_loop_done in Hl as (Hall&Hw&->&->); [|done]. cbn [fst snd] in Hs.
      apply IH in Hs as (Hfit&Hw'&->); [|done|done|by apply pushes_depth].
      apply pushes_fits in Hfit as [Hp Hr]. done.
    + intros ([[Hall Hp] Hr]&Hw&->). pose proof (within_add _ _ (nonneg_stack _) Hw) as Hw1.
      eexists (_, _). split; [by apply entries_loop_done|]. cbn [fst snd].
      apply IH; [done|done|by apply pushes_depth|]. split; [by apply pushes_fits|done].
  - rewrite Forall_cons. split; [done|]. intros ([[[=] _] _]&_).
Qed.

(** ** The walk ends *)
Lemma entry_step_shape depth e c stack :
  (exists c', entry_step depth e c stack = Done (c', pushed depth e ++ stack)) \/
  (exists err, entry_step depth e c stack = Failed err).
Proof.
  unfold scan_entry, account, require.
  destruct e; cbn [pushed app]; repeat case_match; cbn; eauto.
Qed.

Lemma entries_loop_shape depth content c stack :
  (exists c', entries_loop depth content c stack = Done (c', pushes depth content stack)) \/
  (exists err, entries_loop depth content c stack = Failed err).
Proof.
  revert c stack. induction content as [|e content IH]; intros c stack; cbn [scan_entries_of pushes]; [eauto|].
  destruct (entry_step_shape depth e c stack) as [[c' ->]|[err ->]]; cbn; eauto.
Qed.

Lemma scan_stack_ends fuel stack c e : (stack_dirs stack <= fuel)%nat -> stack_loop fuel stack c <> Raised e.
Proof.
  revert stack c. induction fuel as [|fuel IH]; intros [|[view depth] rest] c Hf; try done.
  { pose proof (view_dirs_pos view). unfold stack_dirs in Hf. cbn in Hf. lia. }
  cbn [scan_stack]. destruct view as [content fault|f]; [|done].
  destruct (entries_loop_shape depth content c rest) as [[c' ->]|[err ->]]; cbn [mbind outcome_bind snd fst]; [|done].
  destruct fault; [done|]. apply IH. rewrite pushes_dirs. unfold stack_dirs in *. cbn in Hf. lia.
Qed.

Definition usage_of (v : dir_view) : TreeUsage :=
  mkUsage logical_root (total_bytes (tree_counters v)) (file_count (tree_counters v))
    (link_count (tree_counters v)) (directory_count (tree_counters v) + 1) (entry_count (tree_counters v)).

Abbreviation scan := (scan_tree logical_root max_entries max_depth max_bytes policy).

Lemma positive_bound_done name v u : positive_bound name v = Done u <-> 0 < v.
Proof. unfold positive_bound. destruct (0 <? v) eqn:Hv, u; bool_prop; naive_solver lia. Qed.

(** C21: The iterative scan is exact: it returns a usage exactly when the root is a
    directory whose tree is clean and within the entry, depth and byte bounds, and
    the usage is then the recursive total of the tree. *)
Theorem scan_tree_exact observed u :
  0 < max_entries -> 0 < max_depth -> 0 < max_bytes ->
  scan observed = Done u <->
  exists v, observed = RootDirectory v /\ clean_view policy v = true /\ view_depth v <= max_depth /\
    entry_count (tree_counters v) <= max_entries /\ total_bytes (tree_counters v) <= max_bytes /\
    u = usage_of v.
Proof.
  intros He Hd Hb. unfold scan_tree.
  rewrite (proj2 (positive_bound_done _ _ tt) He), (proj2 (positive_bound_done _ _ tt) Hd),
    (proj2 (positive_bound_done _ _ tt) Hb). cbn [mbind outcome_bind].
  destruct observed as [e| | |v]; try (split; [done|by intros (?&[=]&_)]).
  rewrite outcome_bind_done. set (c0 := mkCounters 0 0 0 1 0).
  assert (Hw : within c0) by (unfold within; cbn; lia).
  assert (Hf : (stack_dirs [(v, 0%Z)] <= view_dirs v)%nat) by (unfold stack_dirs; cbn; lia).
  assert (Hs : stack_total [(v, 0)] = tree_counters v) by apply addc_zero_r.
  assert (Hz : Forall (fun vd : dir_view * Z => vd.2 <= max_depth) [(v, 0)]) by (repeat constructor; cbn; lia).
  setoid_rewrite (fun c' => scan_stack_done (view_dirs v) [(v, 0)] c0 c' Hf Hw Hz). rewrite Hs.
  unfold view_fits, within, usage_of. split.
  - intros (c'&([[Hc Hdep] _]%Forall_cons&[Hn Hm]&->)&[= <-]). exists v. cbn in *. split_and!; try done; try lia.
    f_equal; lia.
  - intros (v'&[= <-]&Hc&Hdep&Hn&Hm&->). eexists. split; [split_and!; [|cbn; lia|cbn; lia|reflexivity]|].
    + repeat constructor; cbn; [done|lia].
    + cbn. f_equal. f_equal; lia.
Qed.

(** With positive bounds the scan of any observed tree ends with a usage or a
    [StoragePolicyError]: no other exception, and the fuel is enough. *)
Theorem scan_tree_total observed :
  0 < max_entries -> 0 < max_depth -> 0 < max_bytes ->
  (exists u, scan observed = Done u) \/ (exists e, scan observed = Failed e).
Proof.
  intros He Hd Hb. unfold scan_tree.
  rewrite (proj2 (positive_bound_done _ _ tt) He), (proj2 (positive_bound_done _ _ tt) Hd),
    (proj2 (positive_bound_done _ _ tt) Hb). cbn [mbind outcome_bind].
  destruct observed as [e| | |v]; [by right; eexists..|].
  assert (Hf : (stack_dirs [(v, 0%Z)] <= view_dirs v)%nat) by (unfold stack_dirs; cbn; lia).
  destruct (stack_loop (view_dirs v) [(v, 0)] (mkCounters 0 0 0 1 0)) as [c|e|e] eqn:Hs; cbn; eauto.
  by apply scan_stack_ends in Hs.
Qed.
End scan.
