(* ===== verification/StoragePolicyProofs.v ===== *)
(** * The ledger refines a map of reservations

    Whatever the operating system answers, every operation of the storage policy
    leaves either the ledger it found or the one its abstract effect prescribes, and
    reports success only in the second case. *)

From S2P Require Import Prelude Sha256 Json Identifiers StorageTypes StorageLedger StorageScan.
From S2P Require Import StoragePolicy StorageReservations StorageLedgerProofs.
From stdpp Require Import base list gmap strings sorting.
From Stdlib Require Import ZArith QArith Lia Sorted.
From Stdlib Require Ascii String.
Open Scope Z_scope.

(** ** Computations that leave the ledger alone *)
Definition keeps {A : Type} (m : SM policy_state A) : Prop :=
  forall s r s', m s = (r, s') -> ledger_of s' = ledger_of s.

Create HintDb keeps.

Lemma keeps_ret {A : Type} (a : A) : keeps (mret a).
Proof. by intros s r s' [= _ <-]. Qed.

Lemma keeps_slift {A : Type} (r : outcome A) : keeps (slift r).
Proof. by intros s r' s' [= _ <-]. Qed.

Lemma keeps_observe {A : Type} (f : nat -> A) : keeps (observe f).
Proof. by intros s r' s' [= _ <-]. Qed.

Lemma keeps_current : keeps current_ledger.
Proof. by intros s r' s' [= _ <-]. Qed.

Lemma keeps_bind {A B : Type} (m : SM policy_state A) (k : A -> SM policy_state B) :
  keeps m -> (forall a, keeps (k a)) -> keeps (m ≫= k).
Proof.
  intros Hm Hk s r s'. unfold mbind, SM_bind. destruct (m s) as [[a|e|e] s1] eqn:Hrun; intros Hr.
  - rewrite (Hk _ _ _ _ Hr). by eapply Hm.
  - injection Hr as _ <-. by eapply Hm.
  - injection Hr as _ <-. by eapply Hm.
Qed.

#[export] Hint Resolve keeps_ret keeps_slift keeps_observe keeps_current : keeps.

Ltac keeps :=
  repeat first
    [ solve [auto with keeps nocore] | apply keeps_bind; [|intros ?] | case_match ].

Section policy.
Context `{StorageWorld} (limits : StorageLimits) (core_root spool_root : string).

Lemma keeps_read : keeps (_read_ledger limits).
Proof. unfold _read_ledger. keeps. Qed.
Lemma keeps_lock : keeps (_ledger_lock limits).
Proof. unfold _ledger_lock. keeps. Qed.
Lemma keeps_scan_root path p n : keeps (scan_root limits path p n).
Proof. unfold scan_root. keeps. Qed.
#[local] Hint Resolve keeps_read keeps_lock keeps_scan_root : keeps.

Lemma keeps_scan_both : keeps (scan_both limits core_root spool_root).
Proof. unfold scan_both. keeps. Qed.

Lemma keeps_stable n : keeps (stable_scan limits core_root spool_root n).
Proof.
  induction n as [|n IH]; intros s r s'; cbn [stable_scan].
  { by intros [= _ <-]. }
  destruct (scan_both _ _ _ s) as [[a|e|e] s1] eqn:Hs; apply keeps_scan_both in Hs.
  - by intros [= _ <-].
  - destruct (_ || _); [by intros [= _ <-]|]. intros Hr. rewrite <- Hs. by eapply IH.
  - by intros [= _ <-].
Qed.

Lemma keeps_capture : keeps (capture_admission_snapshot limits core_root spool_root).
Proof. unfold capture_admission_snapshot, _stable_tree_snapshot. pose proof keeps_stable. keeps. Qed.

Lemma keeps_volume path : keeps (volume_of path).
Proof. unfold volume_of. keeps. Qed.
Lemma keeps_free path v : keeps (disk_free path v).
Proof. unfold disk_free. keeps. Qed.
#[local] Hint Resolve keeps_volume keeps_free : keeps.

Lemma keeps_group roots g : keeps (group_roots roots g).
Proof. revert g. induction roots as [|m roots IH]; intros g; cbn [group_roots]; keeps. Qed.

Lemma keeps_smapM {A B : Type} (f : A -> SM policy_state B) l : (forall a, keeps (f a)) -> keeps (smapM f l).
Proof. intros Hf. induction l as [|x l IH]; cbn [smapM]; keeps. Qed.

Lemma keeps_volume_status c p : keeps (_volume_status limits core_root spool_root c p).
Proof.
  unfold _volume_status. apply keeps_bind; [apply keeps_group|]. intros g. apply keeps_smapM.
  intros [v ms]. unfold volume_report. keeps.
Qed.

Lemma keeps_snapshot rs g t : keeps (_snapshot limits core_root spool_root rs g t).
Proof.
  unfold _snapshot, _stable_tree_snapshot. pose proof keeps_stable. pose proof keeps_volume_status.
  apply keeps_bind; [destruct t; keeps|intros both]. keeps.
Qed.

Lemma keeps_runtime_volumes roots f g : keeps (runtime_volumes roots f g).
Proof. revert f g. induction roots as [|[a b] roots IH]; intros f g; cbn [runtime_volumes]; keeps. Qed.

Lemma keeps_runtime_status : keeps (_runtime_volume_status limits core_root spool_root).
Proof. unfold _runtime_volume_status. pose proof keeps_runtime_volumes. keeps. Qed.
#[local] Hint Resolve keeps_capture keeps_snapshot keeps_runtime_status : keeps.

Lemma keeps_job_spool path n : keeps (scan_job_spool limits path n).
Proof.
  intros s r s'. unfold scan_job_spool. destruct (scan_root _ _ _ _ s) as [[u|e|e] s1] eqn:Hs;
    apply keeps_scan_root in Hs; [by intros [= _ <-]| |by intros [= _ <-]].
  destruct (_ && _); by intros [= _ <-].
Qed.

(** ** What the ledger file holds *)
Definition disk_holds (s : policy_state) (l : LedgerState) : Prop :=
  (ledger_of s = None /\ l = mkLedger 0 []) \/
  (ledger_of s = Some (_encode_ledger l) /\ ledger_ok limits l /\
   lf_size (_encode_ledger l) <= max_ledger_bytes limits).

Lemma disk_holds_keep s s' l : ledger_of s' = ledger_of s -> disk_holds s l -> disk_holds s' l.
Proof. unfold disk_holds. by intros ->. Qed.

Lemma encoded_size_pos l : 0 < lf_size (_encode_ledger l).
Proof. unfold _encode_ledger. cbn [lf_size]. lia. Qed.

Lemma bounded_read_done fault f n g :
  _bounded_read_regular_file fault f n = Done g -> g = f.
Proof.
  unfold _bounded_read_regular_file. intros Hr.
  destruct fault as [[]|]; try discriminate;
    apply outcome_bind_done in Hr as ([]&_&Hr); apply outcome_bind_done in Hr as ([]&_&Hr); by simplify_eq.
Qed.

Lemma read_done s l l' s' :
  disk_holds s l -> _read_ledger limits s = (Done l', s') -> l' = l /\ disk_holds s' l.
Proof.
  intros Hd Hr. pose proof (keeps_read _ _ _ Hr) as Hk. split; [|by eapply disk_holds_keep].
  unfold _read_ledger in Hr. apply SM_bind_done in Hr as (fault&s1&[= <- <-]&Hr).
  apply SM_bind_done in Hr as (file&s2&[= <- <-]&Hr). cbn [ledger_of] in Hr. injection Hr as Hr _.
  destruct Hd as [[Hn ->]|(Hf&Hok&Hsz)].
  - rewrite Hn in Hr. destruct (read_at _) as [[]|]; simplify_eq; done.
  - rewrite Hf in Hr. destruct (read_at (tick s)) as [[e|rf]|]; [done| |].
    all: apply outcome_bind_done in Hr as (raw&Hraw%bounded_read_done&Hr); subst raw.
    all: rewrite encode_value, (decode_encoded limits l Hok) in Hr; by simplify_eq.
Qed.

(** A healthy read returns what is held. *)
Lemma read_runs s l :
  disk_holds s l -> read_at (tick s) = None ->
  _read_ledger limits s = (Done l, mkPolicy (ledger_of s) (S (tick s))).
Proof.
  intros Hd Hf. unfold _read_ledger, observe, current_ledger, mbind, SM_bind. cbn. rewrite Hf.
  destruct Hd as [[Hn ->]|(Hl&Hok&Hsz)]; [by rewrite Hn|]. rewrite Hl. unfold slift. f_equal.
  unfold _bounded_read_regular_file. pose proof (encoded_size_pos l).
  rewrite (proj2 (Z.eqb_neq _ _)) by lia. rewrite (proj2 (Z.leb_le _ _)) by done.
  cbn [require negb mbind outcome_bind]. rewrite encode_value. by apply decode_encoded.
Qed.

(** A write leaves the ledger it found or the new one, and succeeds only with the
    new one in place. *)
Lemma write_cases l s r s' :
  _write_ledger limits l s = (r, s') ->
  (ledger_of s' = ledger_of s /\ r <> Done tt) \/
  (ledger_of s' = Some (_encode_ledger l) /\ lf_size (_encode_ledger l) <= max_ledger_bytes limits).
Proof.
  unfold _write_ledger, slift, observe, replace_ledger, mbind, SM_bind. cbv zeta.
  destruct (_ <=? _) eqn:Hsz; cbn [require fail]; [|intros [= <- <-]; by left].
  destruct (write_at (tick s)) as [[e|rf| |e]|]; cbn; intros [= <- <-]; bool_prop;
    [left; by split|right; by split..].
Qed.

Lemma write_runs l s :
  lf_size (_encode_ledger l) <= max_ledger_bytes limits -> write_at (tick s) = None ->
  _write_ledger limits l s = (Done tt, mkPolicy (Some (_encode_ledger l)) (S (tick s))).
Proof.
  intros Hsz Hf. unfold _write_ledger, slift, observe, replace_ledger, mbind, SM_bind. cbv zeta.
  rewrite (proj2 (Z.leb_le _ _)) by done. cbn. rewrite Hf. cbn. unfold _bounded_read_regular_file.
  pose proof (encoded_size_pos l). rewrite (proj2 (Z.eqb_neq _ _)) by lia.
  by rewrite (proj2 (Z.leb_le _ _)).
Qed.
End policy.

(** ** The abstract ledger: the bytes reserved for every job *)
Abbreviation amounts_map := (gmap string (Z * Z)).

Definition entry_of (r : ReservationRecord) : string * (Z * Z) :=
  (res_job_id r, (core_bytes r, spool_bytes r)).

Definition amts (rs : list ReservationRecord) : amounts_map := list_to_map (entry_of <$> rs).

Lemma entry_keys rs : (entry_of <$> rs).*1 = job_ids rs.
Proof. unfold job_ids. by rewrite <- list_fmap_compose. Qed.

Lemma amts_lookup rs k a :
  NoDup (job_ids rs) -> amts rs !! k = Some a <-> exists r, r ∈ rs /\ entry_of r = (k, a).
Proof.
  intros Hnd. unfold amts. rewrite <- elem_of_list_to_map by (by rewrite entry_keys).
  rewrite list_elem_of_fmap. naive_solver.
Qed.

Lemma amts_perm rs rs' : NoDup (job_ids rs) -> rs ≡ₚ rs' -> amts rs = amts rs'.
Proof.
  intros Hnd Hp. unfold amts. apply list_to_map_proper; [by rewrite entry_keys|]. by rewrite Hp.
Qed.

Lemma list_to_map_dict_set {V} k (v : V) (d : list (string * V)) :
  (list_to_map (dict_set k v d) : gmap string V) = <[k := v]> (list_to_map d).
Proof.
  induction d as [|[k' v'] d IH]; cbn; [done|]. case_bool_decide as Hk; cbn.
  - subst. by rewrite insert_insert_eq.
  - rewrite IH. by rewrite insert_insert_ne.
Qed.

Lemma by_job_acc rs d :
  NoDup (d.*1 ++ job_ids rs) ->
  foldl (fun d r => dict_set (res_job_id r) r d) d rs = d ++ ((fun r => (res_job_id r, r)) <$> rs).
Proof.
  revert d. induction rs as [|r rs IH]; intros d Hnd; cbn; [by rewrite app_nil_r|].
  rewrite dict_set_fresh.
  - rewrite IH; [by rewrite <- app_assoc|]. by rewrite fmap_app, <- app_assoc.
  - apply NoDup_app in Hnd as (_&Hd&_). intros Hin. apply (Hd _ Hin). left.
Qed.

Lemma by_job_eq rs : NoDup (job_ids rs) -> by_job rs = (fun r => (res_job_id r, r)) <$> rs.
Proof. intros Hnd. unfold by_job. by rewrite by_job_acc. Qed.

Lemma by_job_get rs k r :
  NoDup (job_ids rs) -> dict_get k (by_job rs) = Some r <-> r ∈ rs /\ res_job_id r = k.
Proof.
  intros Hnd. rewrite by_job_eq by done. rewrite dict_get_elem.
  - rewrite list_elem_of_fmap. naive_solver.
  - by rewrite <- list_fmap_compose.
Qed.

Lemma by_job_none rs k : NoDup (job_ids rs) -> dict_get k (by_job rs) = None <-> k ∉ job_ids rs.
Proof. intros Hnd. rewrite by_job_eq by done. rewrite dict_get_None, <- list_fmap_compose. done. Qed.

Lemma find_reservation_some rs k r :
  find_reservation k rs = Some r -> r ∈ rs /\ res_job_id r = k.
Proof.
  unfold find_reservation. intros Hh. apply head_Some_elem_of in Hh.
  apply list_elem_of_filter in Hh as [Hk Hin]. done.
Qed.

Lemma find_reservation_none rs k : find_reservation k rs = None -> k ∉ job_ids rs.
Proof.
  unfold find_reservation. intros Hh%head_None (r&->&Hr)%list_elem_of_fmap.
  assert (Hin : r ∈ filter (fun r' => res_job_id r' = res_job_id r) rs) by (by apply list_elem_of_filter).
  rewrite Hh in Hin. inversion Hin.
Qed.

(** ** Effects on lists of reservations *)
Lemma amts_app_fresh rs r :
  NoDup (job_ids rs) -> res_job_id r ∉ job_ids rs ->
  amts (sort_by record_leb (rs ++ [r])) = <[res_job_id r := (core_bytes r, spool_bytes r)]> (amts rs).
Proof.
  intros Hnd Hfresh.
  assert (Hnd' : NoDup (job_ids (r :: rs))) by (by constructor).
  rewrite (amts_perm _ (r :: rs)).
  - reflexivity.
  - unfold job_ids. rewrite sort_by_perm, Permutation_app_comm. exact Hnd'.
  - by rewrite sort_by_perm, Permutation_app_comm.
Qed.

Lemma job_ids_sublist (P : ReservationRecord -> Prop) `{!forall r, Decision (P r)} rs :
  job_ids (filter P rs) `sublist_of` job_ids rs.
Proof. apply fmap_sublist, sublist_filter. Qed.

Lemma amts_filter (P : string -> Prop) `{!forall kv : string * (Z * Z), Decision (P kv.1)}
    `{!forall r, Decision (P (res_job_id r))} rs :
  NoDup (job_ids rs) ->
  amts (filter (fun r => P (res_job_id r)) rs) = filter (fun kv => P kv.1) (amts rs).
Proof.
  intros Hnd. assert (Hnd' : NoDup (job_ids (filter (fun r => P (res_job_id r)) rs)))
    by (eapply sublist_NoDup; [exact Hnd|apply job_ids_sublist]).
  apply map_eq. intros k. apply option_eq. intros a. rewrite map_lookup_filter_Some.
  rewrite !amts_lookup by done. split.
  - intros (r&[HP Hr]%list_elem_of_filter&He). injection He as <- <-. split; [by exists r|done].
  - intros [(r&Hr&He) HP]. exists r. split; [|done]. apply list_elem_of_filter. split; [|done].
    by injection He as <- <-.
Qed.

Lemma amts_delete rs k :
  NoDup (job_ids rs) -> amts (filter (fun r => res_job_id r <> k) rs) = delete k (amts rs).
Proof.
  intros Hnd. etransitivity; [exact (amts_filter (fun j => j <> k) rs Hnd)|].
  apply map_eq. intros j. rewrite map_lookup_filter. destruct (decide (j = k)) as [->|Hne].
  - rewrite lookup_delete_eq. destruct (amts rs !! k); [|done]. cbn. by rewrite option_guard_False by tauto.
  - rewrite lookup_delete_ne by done. destruct (amts rs !! j); [|done]. cbn. by rewrite option_guard_True.
Qed.
