(* ===== verification/StorageRefinement.v ===== *)
(** * Every storage operation settles on a prescribed ledger

    An operation has an abstract effect on the map of reserved bytes.  Whatever the
    operating system answers, it leaves the ledger it found or the next generation
    with exactly that effect, and a success means the effect is in place. *)

From S2P Require Import Prelude Sha256 Json Identifiers StorageTypes StorageLedger StorageScan.
From S2P Require Import StoragePolicy StorageReservations StorageLedgerProofs StoragePolicyProofs.
From stdpp Require Import base list gmap strings sorting.
From Stdlib Require Import ZArith QArith Lia Sorted.
From Stdlib Require Ascii String.
Open Scope Z_scope.

(** ** The operations and their effects *)
Inductive storage_op :=
  | OReserve (job_id : string) (c p : Z) (tree : option StorageTreeSnapshot)
  | ORelease (job_id : string)
  | OVerify (job_id : string) (c p : Z)
  | OReconcile (active : list string)
  | OReconcileAll (active : list (string * amounts))
  | OStatus
  | OFreeSpace
  | ORuntimeJob (job_id spool_path : string).

(** The reservations a mapping of active jobs asks for. *)
Definition active_map (active : list (string * amounts)) (m : amounts_map) : amounts_map :=
  foldl (fun m item => match item.2 with
                       | Amounts c p => <[item.1 := (c, p)]> m
                       | NotTwoIntegers => m
                       end) m active.

Definition effect (op : storage_op) (m : amounts_map) : amounts_map :=
  match op with
  | OReserve job_id c p _ => <[job_id := (c, p)]> m
  | ORelease job_id => delete job_id m
  | OReconcile active => filter (fun kv => kv.1 ∈ active) m
  | OReconcileAll active => active_map active ∅
  | OVerify _ _ _ | OStatus | OFreeSpace | ORuntimeJob _ _ => m
  end.

(** The decisions after which the effect is in place: the allowed ones and, for a
    reconciliation, also the one that reports pressure. *)
Definition lands (op : storage_op) (d : StorageDecision) : bool :=
  allowed d || match op, status_of d with OReconcileAll _, Some _ => true | _, _ => false end.

Section refinement.
Context `{StorageWorld} (limits : StorageLimits) (core_root spool_root : string).

Definition run_op (op : storage_op) : M policy_state StorageDecision :=
  match op with
  | OReserve job_id c p tree => reserve limits core_root spool_root job_id c p tree
  | ORelease job_id => release limits job_id
  | OVerify job_id c p => verify_reservation limits job_id c p
  | OReconcile active => reconcile limits active
  | OReconcileAll active => reconcile_reservations limits core_root spool_root active
  | OStatus => status limits core_root spool_root
  | OFreeSpace => check_runtime_free_space limits core_root spool_root
  | ORuntimeJob job_id path => check_runtime_job limits core_root spool_root job_id path
  end.

(** ** Rules *)
Section rules.
Context (good : StorageDecision -> bool) (l : LedgerState) (eff : amounts_map).

Definition settles (r : outcome StorageDecision) (s' : policy_state) : Prop :=
  exists l', disk_holds limits s' l' /\
    (l' = l \/ (generation l' = generation l + 1 /\ amts (reservations l') = eff)) /\
    (forall d, r = Done d -> good d = true -> amts (reservations l') = eff).

Definition runs_to (m : SM policy_state StorageDecision) (s : policy_state) : Prop :=
  forall r s', m s = (r, s') -> settles r s'.

Lemma settles_failed r s : disk_holds limits s l -> (forall d, r <> Done d) -> settles r s.
Proof. intros Hd Hr. exists l. split_and!; [done|by left|]. intros d ->. by destruct (Hr d). Qed.

Lemma runs_keep {A : Type} (m : SM policy_state A) k s :
  keeps m -> disk_holds limits s l ->
  (forall a s1, m s = (Done a, s1) -> disk_holds limits s1 l -> runs_to (k a) s1) -> runs_to (m ≫= k) s.
Proof.
  intros Hm Hd Hk r s'. unfold mbind, SM_bind. destruct (m s) as [[a|e|e] s1] eqn:Hrun; intros Hr.
  - eapply Hk; [done| |done]. eapply disk_holds_keep; [by eapply Hm|done].
  - injection Hr as <- <-. apply settles_failed; [|done]. eapply disk_holds_keep; [by eapply Hm|done].
  - injection Hr as <- <-. apply settles_failed; [|done]. eapply disk_holds_keep; [by eapply Hm|done].
Qed.

Lemma runs_read k s :
  disk_holds limits s l -> (forall s1, disk_holds limits s1 l -> runs_to (k l) s1) ->
  runs_to (_read_ledger limits ≫= k) s.
Proof.
  intros Hd Hk. apply runs_keep; [apply keeps_read|done|]. intros l' s1 Hr Hd1.
  apply (read_done limits s l) in Hr as [-> _]; [by apply Hk|done].
Qed.

(** An answer that leaves the ledger: it is refused, or the effect was there. *)
Lemma runs_answer d s :
  disk_holds limits s l -> (good d = true -> amts (reservations l) = eff) -> runs_to (mret d) s.
Proof.
  intros Hd Hg r s' [= <- <-]. exists l. split_and!; [done|by left|]. intros d' [= <-]. done.
Qed.

Lemma runs_write_ledger l' d s :
  disk_holds limits s l -> ledger_ok limits l' -> generation l' = generation l + 1 ->
  amts (reservations l') = eff -> runs_to (_ ← _write_ledger limits l'; mret d) s.
Proof.
  intros Hd Hok Hg He r s'. unfold mbind, SM_bind.
  destruct (_write_ledger limits l' s) as [[u|e|e] s1] eqn:Hw;
    apply write_cases in Hw as [[Hl Hr]|[Hl Hsz]]; intros [= <- <-].
  - by destruct u.
  - exists l'. split_and!; [right; by split_and!|by right|done].
  - apply settles_failed; [by eapply disk_holds_keep|done].
  - exists l'. split_and!; [right; by split_and!|by right|done].
  - apply settles_failed; [by eapply disk_holds_keep|done].
  - exists l'. split_and!; [right; by split_and!|by right|done].
Qed.
End rules.

Lemma held_ok s l : disk_holds limits s l -> 0 <= max_reservations limits -> ledger_ok limits l.
Proof.
  intros [[_ ->]|(_&Hok&_)] Hm; [|done]. split; cbn; [lia|done|constructor|constructor|constructor].
Qed.

(** ** Well-formedness of the proposed ledgers *)
Lemma StronglySorted_sublist {A} (R : A -> A -> Prop) l k :
  l `sublist_of` k -> StronglySorted R k -> StronglySorted R l.
Proof.
  induction 1 as [|x l k Hs IH|x l k Hs IH]; intros Hk; [constructor| |].
  - apply StronglySorted_inv in Hk as [Hk Hall]. constructor; [by apply IH|].
    rewrite Forall_forall in Hall |- *. intros y Hy. apply Hall. by eapply elem_of_sublist.
  - apply StronglySorted_inv in Hk as [Hk _]. by apply IH.
Qed.

Lemma ledger_ok_filter (P : ReservationRecord -> Prop) `{!forall r, Decision (P r)} l gen :
  ledger_ok limits l -> 0 <= gen -> ledger_ok limits (mkLedger gen (filter P (reservations l))).
Proof.
  intros [Hg Hn Hr Hd Hs] Hg'. pose proof (job_ids_sublist P (reservations l)) as Hsub.
  split; cbn [generation reservations].
  - done.
  - etransitivity; [|exact Hn]. apply inj_le. apply sublist_length, sublist_filter.
  - rewrite Forall_forall in Hr |- *. intros r [_ Hin]%list_elem_of_filter. by apply Hr.
  - by eapply sublist_NoDup.
  - by eapply StronglySorted_sublist.
Qed.

Lemma sorted_ids rs : job_ids (sort_by record_leb rs) = sort_by str_leb (job_ids rs).
Proof. unfold job_ids. symmetry. apply (sort_by_fmap res_job_id str_leb). Qed.

Lemma format_timestamp_ok n :
  exists body, remove_Z (_format_timestamp n) = Some body /\ fromisoformat_utc body = true.
Proof. exists (now n). unfold _format_timestamp. split; [apply remove_Z_app|apply isoformat_readable]. Qed.

Lemma requested_bytes c p u :
  _validate_reservation_bytes limits c p = Done u ->
  0 <= c /\ 0 <= p /\ 0 < c + p <= max_job_reservation_bytes limits.
Proof.
  unfold _validate_reservation_bytes.
  intros (?&H1%require_done&(?&H2%require_done&(?&H3%require_done&H4%require_done)%outcome_bind_done)%outcome_bind_done)%outcome_bind_done.
  bool_prop. lia.
Qed.

Lemma valid_job_id j u : _validate_job_id (JStr j) = Done u -> is_ok (validate_durable_record_id (JStr j)) = true.
Proof. unfold _validate_job_id. by destruct (validate_durable_record_id (JStr j)). Qed.

Lemma new_record_ok j c p n u v :
  _validate_job_id (JStr j) = Done u -> _validate_reservation_bytes limits c p = Done v ->
  record_ok limits (mkReservation j c p (_format_timestamp n)).
Proof.
  intros Hj%valid_job_id Hb%requested_bytes. split; cbn; [done|lia|lia|lia|apply format_timestamp_ok].
Qed.

Lemma ledger_ok_add l r gen :
  ledger_ok limits l -> 0 <= gen -> record_ok limits r -> res_job_id r ∉ job_ids (reservations l) ->
  Z.of_nat (length (reservations l)) < max_reservations limits ->
  ledger_ok limits (mkLedger gen (sort_by record_leb (reservations l ++ [r]))).
Proof.
  intros [Hg Hn Hr Hd Hs] Hg' Hrec Hfresh Hcap. split; cbn [generation reservations].
  - done.
  - rewrite length_sort_by, length_app. cbn. lia.
  - rewrite sort_by_perm. apply Forall_app. split; [done|]. by constructor.
  - rewrite sorted_ids, sort_by_perm. unfold job_ids. rewrite fmap_app. apply NoDup_app.
    split_and!; [done| |apply NoDup_singleton]. intros y Hy ->%list_elem_of_singleton. done.
  - rewrite sorted_ids. apply sorted_str.
Qed.

(** ** From an operation's body to its decision *)
Definition settled (op : storage_op) (l : LedgerState) (r : result StorageDecision) (s' : policy_state) : Prop :=
  exists l', disk_holds limits s' l' /\
    (l' = l \/ (generation l' = generation l + 1 /\
                amts (reservations l') = effect op (amts (reservations l)))) /\
    (forall d, r = Ok d -> lands op d = true ->
       amts (reservations l') = effect op (amts (reservations l))).

Abbreviation runs op l := (runs_to (lands op) l (effect op (amts (reservations l)))).

Lemma decided op l body s r s' :
  runs op l body s -> decide_errors body s = (r, s') -> settled op l r s'.
Proof.
  unfold decide_errors. intros Hb. destruct (body s) as [[d|e|e] s1] eqn:Hs; intros [= <- <-];
    destruct (Hb _ _ Hs) as (l'&Hd&Hl&Hg); exists l'; split_and!; try done.
  - intros d' [= <-]. by apply Hg.
  - intros d' [= <-] Hlands. exfalso. by destruct op.
Qed.

(** Discharge the steps that leave the ledger alone. *)
Ltac keep_step :=
  apply runs_keep; [by (first [apply keeps_slift|apply keeps_observe|apply keeps_lock|apply keeps_snapshot
                              |apply keeps_capture|apply keeps_runtime_status|apply keeps_job_spool
                              |apply keeps_ret])|done|];
  let a := fresh "a" in let s1 := fresh "s" in let Hr := fresh "Hr" in let Hd := fresh "Hd" in
  intros a s1 Hr Hd; match goal with Hold : disk_holds _ _ _ |- _ => tryif constr_eq Hold Hd then fail else clear Hold end.

(** The abstract effect of a reservation that is already there. *)
Lemma existing_insert l job c p r :
  NoDup (job_ids (reservations l)) -> dict_get job (by_job (reservations l)) = Some r ->
  amounts_differ r c p = false ->
  amts (reservations l) = <[job := (c, p)]> (amts (reservations l)).
Proof.
  intros Hnd Hget Ham. apply by_job_get in Hget as [Hin <-]; [|done].
  unfold amounts_differ in Ham. bool_prop. symmetry. apply insert_id.
  apply amts_lookup; [done|]. exists r. split; [done|]. unfold entry_of. by subst.
Qed.

Lemma reserve_settles job c p tree s l :
  0 <= max_reservations limits -> disk_holds limits s l ->
  forall r s', run_op (OReserve job c p tree) s = (r, s') -> settled (OReserve job c p tree) l r s'.
Proof.
  intros Hm Hd0 r s'. apply decided. keep_step. injection Hr as Hj _. keep_step. injection Hr as Hb _.
  apply runs_keep; [destruct tree; [apply keeps_ret|apply keeps_capture]|done|].
  intros t s2 _ Hd2. apply runs_keep; [apply keeps_lock|done|]. intros [] s3 _ Hd3.
  unfold reserve_locked. apply runs_read; [done|]. intros s4 Hd4.
  pose proof (held_ok _ _ Hd4 Hm) as Hok. destruct (dict_get job _) as [r0|] eqn:Hget.
  - destruct (amounts_differ r0 c p) eqn:Ham; [by apply runs_answer|]. keep_step.
    destruct (negb _); apply runs_answer; try done. intros _. by eapply existing_insert, Ham; [apply Hok|].
  - destruct (_ <=? _) eqn:Hcap; [by apply runs_answer|]. bool_prop. keep_step. injection Hr as <- _.
    keep_step. destruct (negb _); [by apply runs_answer|].
    apply by_job_none in Hget; [|apply Hok]. apply runs_write_ledger; cbn [generation reservations]; [done| |done|].
    + apply ledger_ok_add; [done|pose proof (lo_generation _ _ Hok); lia| |done|done]. by eapply new_record_ok.
    + rewrite amts_app_fresh; [done|apply Hok|done].
Qed.

Lemma release_settles job s l :
  0 <= max_reservations limits -> disk_holds limits s l ->
  forall r s', run_op (ORelease job) s = (r, s') -> settled (ORelease job) l r s'.
Proof.
  intros Hm Hd0 r s'. apply decided. keep_step. keep_step. apply runs_read; [done|]. intros s4 Hd4.
  pose proof (held_ok _ _ Hd4 Hm) as Hok. destruct (find_reservation job _) as [r0|] eqn:Hf.
  - apply runs_write_ledger; cbn [generation reservations]; [done| |done|].
    + apply (ledger_ok_filter (fun r => res_job_id r <> job)); [done|pose proof (lo_generation _ _ Hok); lia].
    + apply amts_delete, Hok.
  - apply runs_answer; [done|]. intros _. symmetry. apply delete_id.
    destruct (amts (reservations l) !! job) as [am|] eqn:Ha; [|done].
    apply amts_lookup in Ha as (r0&Hin&[= Hk _]); [|apply Hok].
    apply find_reservation_none in Hf. destruct Hf. rewrite <- Hk. by apply (list_elem_of_fmap_2 res_job_id).
Qed.

Lemma verify_settles job c p s l :
  disk_holds limits s l ->
  forall r s', run_op (OVerify job c p) s = (r, s') -> settled (OVerify job c p) l r s'.
Proof.
  intros Hd0 r s'. apply decided. do 3 keep_step. apply runs_read; [done|]. intros s4 Hd4.
  destruct (find_reservation job _) as [r0|]; [|by apply runs_answer].
  destruct (amounts_differ r0 c p); by apply runs_answer.
Qed.

Lemma filter_all (P : string -> Prop) `{!forall kv : string * (Z * Z), Decision (P kv.1)}
    `{!forall r, Decision (~ P (res_job_id r))} rs :
  NoDup (job_ids rs) -> filter (fun r => ~ P (res_job_id r)) rs = [] ->
  amts rs = filter (fun kv => P kv.1) (amts rs).
Proof.
  intros Hnd Hnil. symmetry. apply map_filter_id. intros k a (r&Hr&[= <- _])%amts_lookup; [|done].
  cbn. destruct (decide (P (res_job_id r, (0, 0)).1)) as [|Hn]; [done|]. cbn in Hn.
  assert (Hin : r ∈ filter (fun r => ~ P (res_job_id r)) rs) by (by apply list_elem_of_filter).
  rewrite Hnil in Hin. inversion Hin.
Qed.

Lemma reconcile_settles active s l :
  0 <= max_reservations limits -> disk_holds limits s l ->
  forall r s', run_op (OReconcile active) s = (r, s') -> settled (OReconcile active) l r s'.
Proof.
  intros Hm Hd0 r s'. apply decided. do 3 keep_step. apply runs_read; [done|]. intros s4 Hd4.
  pose proof (held_ok _ _ Hd4 Hm) as Hok.
  assert (Heq : forall m : amounts_map, filter (fun kv => kv.1 ∈ remove_dups active) m = filter (fun kv => kv.1 ∈ active) m).
  { intros m. apply map_filter_ext. intros k v _. cbn. apply elem_of_remove_dups. }
  destruct (sort_by _ _) as [|x xs] eqn:Hrel.
  - apply runs_answer; [done|]. intros _. cbn [effect]. rewrite <- Heq.
    apply (filter_all (fun k => k ∈ remove_dups active)); [apply Hok|].
    apply (fmap_nil_inv res_job_id). apply Permutation_nil_r.
    change (res_job_id <$> ?x) with (job_ids x). rewrite <- (sort_by_perm str_leb), Hrel. done.
  - apply runs_write_ledger; cbn [generation reservations]; [done| |done|].
    + apply (ledger_ok_filter (fun r => res_job_id r ∈ remove_dups active)); [done|].
      pose proof (lo_generation _ _ Hok). lia.
    + cbn [effect]. rewrite <- Heq. apply (amts_filter (fun k => k ∈ remove_dups active)), Hok.
Qed.

Lemma reads_settle op s l :
  (op = OStatus \/ op = OFreeSpace \/ exists j path, op = ORuntimeJob j path) ->
  disk_holds limits s l -> forall r s', run_op op s = (r, s') -> settled op l r s'.
Proof.
  intros Hop Hd0 r s'. destruct Hop as [->|[->|(j&path&->)]]; apply decided.
  - do 2 keep_step. apply runs_read; [done|]. intros s4 Hd4. keep_step. by apply runs_answer.
  - keep_step. destruct (unhealthy_volumes _); by apply runs_answer.
  - do 3 keep_step. apply runs_read; [done|]. intros s4 Hd4.
    destruct (find_reservation j _); [|by apply runs_answer]. keep_step.
    destruct a2 as [u|]; [|by apply runs_answer]. destruct (_ <? _); [by apply runs_answer|]. keep_step.
    destruct (unhealthy_volumes _); by apply runs_answer.
Qed.

(** ** Reconciling with the active jobs *)
Definition item_ok (item : string * (Z * Z)) : Prop :=
  is_ok (validate_durable_record_id (JStr item.1)) = true /\
  0 <= item.2.1 /\ 0 <= item.2.2 /\ 0 < item.2.1 + item.2.2 <= max_job_reservation_bytes limits.

Lemma Forall_dict_set (P : string * (Z * Z) -> Prop) k v d :
  Forall P d -> P (k, v) -> Forall P (dict_set k v d).
Proof.
  intros Hd Hv. induction Hd as [|[k0 v0] d Hx Hrest IH]; cbn; [by constructor|].
  case_bool_decide; by constructor.
Qed.

Lemma length_dict_set {V} k (v : V) (d : list (string * V)) :
  (length (dict_set k v d) <= S (length d))%nat.
Proof. induction d as [|[k' v'] d IH]; cbn; [lia|]. case_bool_decide; cbn; lia. Qed.

Lemma normalize_spec active acc n :
  NoDup acc.*1 -> Forall item_ok acc -> normalize_active limits active acc = Done n ->
  NoDup n.*1 /\ Forall item_ok n /\ (length n <= length acc + length active)%nat /\
  (list_to_map n : amounts_map) = active_map active (list_to_map acc).
Proof.
  revert acc. induction active as [|[j a] active IH]; intros acc Hnd Hok; cbn [normalize_active].
  { intros [= <-]. split_and!; [done|done|cbn; lia|done]. }
  intros (u&Hj&Hn)%outcome_bind_done. destruct a as [c p|]; [|done].
  apply outcome_bind_done in Hn as (v&Hb&Hn). apply IH in Hn as (Hnd'&Hok'&Hlen&Hm).
  - split_and!; [done|done| |].
    + pose proof (length_dict_set j (c, p) acc). cbn [length]. lia.
    + rewrite Hm, list_to_map_dict_set. done.
  - by apply NoDup_dict_set.
  - apply Forall_dict_set; [done|]. apply requested_bytes in Hb. split; [by eapply valid_job_id|done].
Qed.

Section proposed.
Context (l : LedgerState) (n : list (string * (Z * Z))) (t : string).
Context (Hl : ledger_ok limits l) (Hnd : NoDup n.*1) (Hn : Forall item_ok n).
Context (Hcap : Z.of_nat (length n) <= max_reservations limits).
Context (Ht : exists body, remove_Z t = Some body /\ fromisoformat_utc body = true).

Let existing := by_job (reservations l).
Let items := sort_by key_leb n.
Let proposed := proposed_record existing t <$> items.

Hypothesis no_conflict : conflicts_of items existing = [].

Lemma no_conflict_elem item r :
  item ∈ items -> dict_get item.1 existing = Some r -> amounts_differ r item.2.1 item.2.2 = false.
Proof.
  intros Hi Hr. destruct (amounts_differ _ _ _) eqn:Ham; [|done].
  assert (Hc : forall c, c ∉ conflicts_of items existing) by (rewrite no_conflict; intros c Hc; inversion Hc).
  edestruct Hc. unfold conflicts_of. apply list_elem_of_omap. exists item. split; [exact Hi|].
  rewrite Hr, Ham. reflexivity.
Qed.

Lemma proposed_entry item : item ∈ items -> entry_of (proposed_record existing t item) = item.
Proof.
  intros Hi. unfold proposed_record. destruct item as [j [c p]]. cbn [fst snd].
  destruct (dict_get j existing) as [r|] eqn:Hr; cbn; [|done].
  pose proof (no_conflict_elem (j, (c, p)) r Hi Hr) as Ham. unfold amounts_differ in Ham. cbn in Ham. bool_prop.
  apply by_job_get in Hr as [_ Hj]; [|apply Hl]. unfold entry_of. by subst.
Qed.

Lemma proposed_entries : entry_of <$> proposed = items.
Proof.
  unfold proposed. rewrite <- list_fmap_compose.
  rewrite (list_fmap_ext _ id items); [apply list_fmap_id|].
  intros i x Hx. apply proposed_entry. by eapply list_elem_of_lookup_2.
Qed.

Lemma proposed_ids : job_ids proposed = items.*1.
Proof. rewrite <- entry_keys. by rewrite proposed_entries. Qed.

Lemma proposed_amts : amts proposed = list_to_map n.
Proof.
  unfold amts. rewrite proposed_entries. apply list_to_map_proper; [|apply sort_by_perm].
  unfold items. by rewrite sort_by_perm.
Qed.

Lemma proposed_record_ok item : item ∈ items -> record_ok limits (proposed_record existing t item).
Proof.
  intros Hi. unfold proposed_record. destruct (dict_get item.1 existing) as [r|] eqn:Hr; cbn [default].
  - apply by_job_get in Hr as [Hin _]; [|apply Hl]. pose proof (lo_records _ _ Hl) as Hall.
    rewrite Forall_forall in Hall. by apply Hall.
  - unfold items in Hi. rewrite sort_by_perm in Hi. rewrite Forall_forall in Hn.
    destruct (Hn item Hi) as (Hid&Hc&Hp&Htot). by split.
Qed.

Lemma proposed_ok gen : 0 <= gen -> ledger_ok limits (mkLedger gen proposed).
Proof.
  intros Hg. split; cbn [generation reservations].
  - done.
  - unfold proposed, items. by rewrite length_fmap, length_sort_by.
  - unfold proposed. apply Forall_fmap, Forall_forall. intros item Hi. by apply proposed_record_ok.
  - rewrite proposed_ids. unfold items. by rewrite sort_by_perm.
  - rewrite proposed_ids. unfold items. change (sort_by key_leb n).*1 with (fst <$> sort_by (fun a b => str_leb a.1 b.1) n).
    rewrite <- (sort_by_fmap fst str_leb n). apply sorted_str.
Qed.

(** Nothing adopted and nothing released: the ledger already is the active set. *)
Lemma unchanged_amts :
  (filter (fun item => dict_get item.1 existing = None) items).*1 = [] ->
  sort_by str_leb (filter (fun k => k ∉ n.*1) existing.*1) = [] ->
  amts (reservations l) = list_to_map n.
Proof.
  intros Ha%fmap_nil_inv Hr.
  assert (Hr' : filter (fun k => k ∉ n.*1) existing.*1 = []).
  { apply Permutation_nil_r. rewrite <- (sort_by_perm str_leb), Hr. done. }
  rewrite <- proposed_amts. apply map_eq. intros k. apply option_eq. intros am.
  rewrite !amts_lookup by (first [apply Hl|rewrite proposed_ids; unfold items; by rewrite sort_by_perm]).
  assert (Hent : forall r, r ∈ proposed <-> r ∈ reservations l); [|by setoid_rewrite Hent].
  intros r. unfold proposed. rewrite list_elem_of_fmap. split.
  - intros (item&->&Hi). unfold proposed_record. destruct (dict_get item.1 existing) as [r'|] eqn:Hg; cbn [default].
    + by apply by_job_get in Hg as [Hin _]; [|apply Hl].
    + assert (Hin : item ∈ filter (fun item => dict_get item.1 existing = None) items)
        by (by apply list_elem_of_filter). rewrite Ha in Hin. inversion Hin.
  - intros Hin. assert (Hk : res_job_id r ∈ n.*1).
    { destruct (decide (res_job_id r ∈ n.*1)) as [|Hno]; [done|].
      assert (Hx : res_job_id r ∈ filter (fun k => k ∉ n.*1) existing.*1).
      { apply list_elem_of_filter. split; [done|]. unfold existing. rewrite by_job_eq by apply Hl.
        rewrite <- list_fmap_compose. by apply (list_elem_of_fmap_2 res_job_id). }
      rewrite Hr' in Hx. inversion Hx. }
    apply list_elem_of_fmap in Hk as (item&Hid&Hi). exists item. unfold items, proposed_record.
    rewrite sort_by_perm. split; [|done].
    assert (Hg : dict_get item.1 existing = Some r) by (apply by_job_get; [apply Hl|done]).
    by rewrite Hg.
Qed.
End proposed.

Lemma reconcile_all_settles active s l :
  0 <= max_reservations limits -> disk_holds limits s l ->
  forall r s', run_op (OReconcileAll active) s = (r, s') -> settled (OReconcileAll active) l r s'.
Proof.
  intros Hm Hd0 r s'. apply decided. keep_step. injection Hr as Hcap%require_done _. bool_prop.
  keep_step. rename a0 into n. injection Hr as Hn _.
  apply normalize_spec in Hn as (Hnd&Hok&Hlen&Hmap); [|constructor|constructor].
  keep_step. apply runs_read; [done|]. intros s4 Hd4. pose proof (held_ok _ _ Hd4 Hm) as Hl.
  cbv zeta. destruct (conflicts_of _ _) eqn:Hconf; [|by apply runs_answer].
  keep_step. injection Hr0 as <- _. cbv zeta.
  assert (Hcap' : Z.of_nat (length n) <= max_reservations limits) by (cbn in Hlen; lia).
  pose proof (format_timestamp_ok (tick s4)) as Ht. pose proof (lo_generation _ _ Hl) as Hg.
  keep_step. change (effect _ _) with (active_map active (list_to_map [])). rewrite <- Hmap.
  match goal with |- context [negb (bool_decide (?x = []) && bool_decide (?y = []))] =>
    destruct (bool_decide (x = []) && bool_decide (y = [])) eqn:Hch end; cbn [negb].
  - bool_prop. destruct (healthy _); cbn [negb]; keep_step; (apply runs_answer; [done|]; intros _);
      by eapply unchanged_amts.
  - destruct (healthy _); cbn [negb]; apply runs_write_ledger; cbn [generation reservations]; try done;
      first [by apply proposed_ok; [..|lia] | by apply proposed_amts].
Qed.

Lemma op_settles op s l r s' :
  0 <= max_reservations limits -> disk_holds limits s l -> run_op op s = (r, s') -> settled op l r s'.
Proof.
  intros Hm Hd. destruct op.
  - by apply reserve_settles.
  - by apply release_settles.
  - by apply verify_settles.
  - by apply reconcile_settles.
  - by apply reconcile_all_settles.
  - apply reads_settle; eauto.
  - apply reads_settle; eauto.
  - apply reads_settle; eauto 10.
Qed.

(** C4: Every storage operation refines its abstract effect on the map of reserved
    bytes: whatever the operating system answers, an operation that starts from a
    well-formed ledger leaves the ledger it found or a well-formed ledger of the next
    generation with exactly its effect, and a decision that allows means the effect
    is in place; an operation that does not allow may have been interrupted after
    the replacement, never in between. *)
Theorem storage_refines op s l r s' :
  valid_limits limits = true -> disk_holds limits s l -> run_op op s = (r, s') ->
  exists l', disk_holds limits s' l' /\ ledger_ok limits l' /\
    (l' = l \/ (generation l' = generation l + 1 /\
                amts (reservations l') = effect op (amts (reservations l)))) /\
    (forall d, r = Ok d -> allowed d = true ->
       amts (reservations l') = effect op (amts (reservations l))).
Proof.
  intros Hlim Hd Hr. assert (Hm : 0 <= max_reservations limits).
  { unfold valid_limits in Hlim. cbn [forallb] in Hlim. bool_prop. lia. }
  destruct (op_settles op s l r s' Hm Hd Hr) as (l'&Hd'&Hl'&Hg).
  exists l'. split_and!; [done|by eapply held_ok|done|]. intros d Hd1 Ha. apply (Hg d Hd1).
  unfold lands. by rewrite Ha.
Qed.

(** Reconciliation records reality: when it gets as far as measuring the storage, the
    ledger is exactly the reservations of the active jobs, also when the decision
    reports pressure and is not allowed. *)
Theorem reconcile_records_active active s l d s' st :
  valid_limits limits = true -> disk_holds limits s l ->
  reconcile_reservations limits core_root spool_root active s = (Ok d, s') -> status_of d = Some st ->
  exists l', disk_holds limits s' l' /\ amts (reservations l') = active_map active ∅.
Proof.
  intros Hlim Hd Hr Hst. assert (Hm : 0 <= max_reservations limits).
  { unfold valid_limits in Hlim. cbn [forallb] in Hlim. bool_prop. lia. }
  destruct (op_settles (OReconcileAll active) s l (Ok d) s' Hm Hd Hr) as (l'&Hd'&_&Hg).
  exists l'. split; [done|]. apply (Hg d eq_refl). unfold lands. rewrite Hst. apply orb_true_r.
Qed.
End refinement.
