(* ===== verification/StorageAdmission.v ===== *)
(** * What an admission decision guarantees

    An allowed reservation respects every configured limit together with all the
    reservations before it; verification and the runtime guard answer exactly what
    the ledger and the file system say. *)

From S2P Require Import Prelude Sha256 Json Identifiers StorageTypes StorageLedger StorageScan.
From S2P Require Import StoragePolicy StorageReservations StorageLedgerProofs StorageScanProofs.
From S2P Require Import StoragePolicyProofs StorageRefinement.
From stdpp Require Import base list gmap strings sorting.
From Stdlib Require Import ZArith QArith Lia Sorted.
From Stdlib Require Ascii String.
Open Scope Z_scope.

Section admission.
Context `{StorageWorld} (limits : StorageLimits) (core_root spool_root : string).

(** ** Volumes *)
#[local] Instance sum_of_perm : Proper ((≡ₚ) ==> (=)) sum_of.
Proof. induction 1; cbn in *; unfold sum_of in *; lia. Qed.

Lemma smapM_done {A B : Type} (f : A -> SM policy_state B) l s ys s' :
  smapM f l s = (Done ys, s') -> Forall2 (fun x y => exists s1 s2, f x s1 = (Done y, s2)) l ys.
Proof.
  revert s ys. induction l as [|x l IH]; intros s ys; cbn [smapM].
  { intros [= <- _]. constructor. }
  intros (y&s1&Hy&Hl)%SM_bind_done. apply SM_bind_done in Hl as (zs&s2&Hzs&[= <- <-]). constructor; [by exists s, s1|by eapply IH].
Qed.

Definition group_reserved (g : string * list (string * string * Z)) : Z := sum_of (snd <$> g.2).

Lemma report_done g s v s' :
  volume_report limits g s = (Done v, s') ->
  reserved_bytes v = group_reserved g /\
  available_after_reservations_bytes v = free_bytes v - reserved_bytes v /\
  vol_minimum_free_bytes v = minimum_free_bytes limits.
Proof.
  destruct g as [vol ms]. unfold volume_report.
  intros (free&s1&_&[= <- _])%SM_bind_done. done.
Qed.

Lemma group_two c p s g s' :
  group_roots [("core", core_root, c); ("spool", spool_root, p)] [] s = (Done g, s') ->
  sum_of (group_reserved <$> g) = c + p.
Proof.
  cbn [group_roots]. intros (v1&s1&_&Hg)%SM_bind_done. apply SM_bind_done in Hg as (v2&s2&_&[= <- _]).
  unfold group_add. cbn. unfold group_reserved, sum_of. case_bool_decide; cbn; lia.
Qed.

Lemma volume_status_done c p s vs s' :
  _volume_status limits core_root spool_root c p s = (Done vs, s') ->
  sum_of (reserved_bytes <$> vs) = c + p /\
  Forall (fun v => available_after_reservations_bytes v = free_bytes v - reserved_bytes v /\
                   vol_minimum_free_bytes v = minimum_free_bytes limits) vs.
Proof.
  unfold _volume_status. intros (g&s1&Hg&Hm)%SM_bind_done. apply group_two in Hg. apply smapM_done in Hm.
  rewrite <- Hg, <- (sort_by_perm key_leb g). clear Hg. induction Hm as [|x v xs vs (?&?&Hx) _ [IH1 IH2]]; [done|].
  apply report_done in Hx as (Hr&Ha&Hmin). split; [|by constructor].
  cbn. unfold sum_of in *. lia.
Qed.

(** ** Health of a proposed ledger *)
Definition sum_core (l : list ReservationRecord) : Z := sum_of (core_bytes <$> l).
Definition sum_spool (l : list ReservationRecord) : Z := sum_of (spool_bytes <$> l).

(** The usage and reservations of a status are within every limit. *)
Record within_limits (rs : list ReservationRecord) (st : StorageStatus) : Prop := {
  wl_core : bytes (core st) + sum_core rs <= core_high_water_bytes limits;
  wl_spool : bytes (spool st) + sum_spool rs <= spool_high_water_bytes limits;
  wl_total : bytes (core st) + bytes (spool st) + sum_core rs + sum_spool rs <= total_high_water_bytes limits;
  wl_reserved : sum_of (reserved_bytes <$> volumes st) = sum_core rs + sum_spool rs;
  wl_volumes : Forall (fun v => minimum_free_bytes limits <= free_bytes v - reserved_bytes v) (volumes st);
}.

Lemma snapshot_done rs gen t s st s' :
  _snapshot limits core_root spool_root rs gen t s = (Done st, s') ->
  (forall tr, t = Some tr -> core st = snap_core tr /\ spool st = snap_spool tr) /\
  (healthy st = true -> within_limits rs st).
Proof.
  unfold _snapshot. intros (both&s1&Hb&Hs)%SM_bind_done. apply SM_bind_done in Hs as (vs&s2&Hv&[= <- _]).
  apply volume_status_done in Hv as [Hsum Hall]. cbn [core spool healthy]. split.
  - intros tr ->. injection Hb as Hb _. apply outcome_bind_done in Hb as (?&_&[= <-]). done.
  - intros Hh%bool_decide_eq_true. unfold pressure in Hh.
    destruct (_ <? bytes both.1 + _) eqn:H1; [done|]. destruct (_ <? bytes both.2 + _) eqn:H2; [done|].
    destruct (_ <? bytes both.1 + bytes both.2 + _ + _) eqn:H3; [done|]. destruct (existsb _ vs) eqn:H4; [done|].
    bool_prop. split; cbn [core spool volumes]; try done.
    apply Forall_forall. intros v Hv. rewrite Forall_forall in Hall. destruct (Hall v Hv) as [Ha Hmin].
    assert (Hvh : volume_healthy v = true).
    { destruct (volume_healthy v) eqn:Hvh; [done|]. assert (existsb (fun v => negb (volume_healthy v)) vs = true).
      { apply existsb_exists. exists v. split; [by apply list_elem_of_In|]. by rewrite Hvh. } congruence. }
    unfold volume_healthy in Hvh. bool_prop. lia.
Qed.

(** ** Allowed reservations *)
Lemma allowed_body (m : SM policy_state StorageDecision) s d s' :
  decide_errors m s = (Ok d, s') -> allowed d = true -> m s = (Done d, s').
Proof.
  unfold decide_errors. destruct (m s) as [[d'|e|e] s1]; intros [= <- <-]; [done|]. by cbn.
Qed.

(** What holds after an allowed reservation: the ledger [l'] on disk with the status
    the decision reports. *)
Definition admitted (job : string) (c p : Z) (tree : option StorageTreeSnapshot)
    (d : StorageDecision) (s' : policy_state) : Prop :=
  exists l' st, disk_holds limits s' l' /\ amts (reservations l') !! job = Some (c, p) /\
    status_of d = Some st /\ within_limits (reservations l') st /\
    (forall t, tree = Some t -> core st = snap_core t /\ spool st = snap_spool t).

Lemma reserve_locked_admits job c p t s l d s' :
  ledger_ok limits l -> disk_holds limits s l ->
  (exists u v, _validate_job_id (JStr job) = Done u /\ _validate_reservation_bytes limits c p = Done v) ->
  reserve_locked limits core_root spool_root job c p t s = (Done d, s') -> allowed d = true ->
  admitted job c p (Some t) d s'.
Proof.
  intros Hok Hd (u&v&Hj&Hb) Hr Hal. unfold reserve_locked in Hr.
  apply SM_bind_done in Hr as (l1&s1&Hread&Hr). apply (read_done limits s l) in Hread as [-> Hd1]; [|done].
  destruct (dict_get job _) as [r0|] eqn:Hget.
  - destruct (amounts_differ r0 c p) eqn:Ham; [by injection Hr as <- _|].
    apply SM_bind_done in Hr as (st&s2&Hs&Hr). pose proof (keeps_snapshot _ _ _ _ _ _ _ _ _ Hs) as Hk.
    apply snapshot_done in Hs as [Htree Hw].
    destruct (healthy st) eqn:Hh; cbn [negb] in Hr; injection Hr as <- <-; [|done].
    exists l, st. split_and!; [by eapply disk_holds_keep| |done|by apply Hw|naive_solver].
    rewrite (existing_insert l job c p r0); [by rewrite lookup_insert_eq|apply Hok|done|done].
  - destruct (_ <=? _) eqn:Hcap; [by injection Hr as <- _|]. bool_prop.
    apply SM_bind_done in Hr as (now_&s2&[= <- <-]&Hr). cbv zeta in Hr.
    apply SM_bind_done in Hr as (st&s3&Hs&Hr). pose proof (keeps_snapshot _ _ _ _ _ _ _ _ _ Hs) as Hk.
    apply snapshot_done in Hs as [Htree Hw].
    destruct (healthy st) eqn:Hh; cbn [negb] in Hr; [|by injection Hr as <- _].
    apply SM_bind_done in Hr as ([]&s4&Hwr&[= <- <-]). apply by_job_none in Hget; [|apply Hok].
    apply write_cases in Hwr as [[_ []]|[Hl Hsz]]; [done|].
    eexists _, st. split_and!; [right; split_and!; [exact Hl| |exact Hsz]| |done|by apply Hw|naive_solver].
    + apply ledger_ok_add; [done|pose proof (lo_generation _ _ Hok); lia| |done|done]. by eapply new_record_ok.
    + cbn [reservations]. rewrite amts_app_fresh; [by rewrite lookup_insert_eq|apply Hok|done].
Qed.

Lemma valid_limits_reservations : valid_limits limits = true -> 0 <= max_reservations limits.
Proof. intros Hlim. unfold valid_limits in Hlim. cbn [forallb] in Hlim. bool_prop. lia. Qed.

(** C7: An allowed reservation is safe: it is durably in the ledger, and the measured
    usage together with every reservation of the ledger is within the core, spool and
    total high-water marks and leaves every volume its free reserve; the volumes
    account for every reserved byte, and a caller's tree snapshot is the usage that
    was checked. *)
Theorem reserve_within_limits job c p tree s l d s' :
  valid_limits limits = true -> disk_holds limits s l ->
  reserve limits core_root spool_root job c p tree s = (Ok d, s') -> allowed d = true ->
  admitted job c p tree d s'.
Proof.
  intros Hlim Hd Hr Hal. pose proof (held_ok limits s l Hd (valid_limits_reservations Hlim)) as Hok.
  apply allowed_body in Hr; [|done].
  apply SM_bind_done in Hr as (u&s1&[= Hj <-]&Hr). apply SM_bind_done in Hr as (v&s2&[= Hb <-]&Hr).
  apply SM_bind_done in Hr as (t&s3&Ht&Hr). apply SM_bind_done in Hr as (w&s4&Hlk&Hr).
  pose proof (keeps_lock _ _ _ _ Hlk) as Hk4.
  assert (Hk3 : ledger_of s3 = ledger_of s).
  { destruct tree; [by injection Ht as _ <-|]. by eapply keeps_capture. }
  assert (Hd4 : disk_holds limits s4 l) by (eapply disk_holds_keep; [|exact Hd]; congruence).
  destruct (reserve_locked_admits job c p t s4 l d s' Hok Hd4) as (l'&st&Hl'&Hm&Hst&Hw&Htr); [by eauto|done|done|].
  exists l', st. split_and!; try done. intros t' ->. injection Ht as <- _. by apply Htr.
Qed.

(** ** Verification *)
Lemma find_reservation_amts rs job :
  NoDup (job_ids rs) ->
  amts rs !! job = (fun r => (core_bytes r, spool_bytes r)) <$> find_reservation job rs.
Proof.
  intros Hnd. destruct (find_reservation job rs) as [r|] eqn:Hf; cbn.
  - apply find_reservation_some in Hf as [Hin <-]. apply amts_lookup; [done|]. by exists r.
  - destruct (amts rs !! job) as [a|] eqn:Ha; [|done]. apply amts_lookup in Ha as (r&Hin&[= Hk _]); [|done].
    apply find_reservation_none in Hf. destruct Hf. rewrite <- Hk. by apply (list_elem_of_fmap_2 res_job_id).
Qed.

(** Verification is exact: for a valid request, when the lock is granted and the
    ledger can be read, it allows exactly the jobs whose reservation is in the ledger
    with these bytes, without measuring storage, and leaves the ledger alone. *)
Theorem verify_exact job c p s l :
  valid_limits limits = true -> disk_holds limits s l ->
  _validate_job_id (JStr job) = Done tt -> _validate_reservation_bytes limits c p = Done tt ->
  lock_at (tick s) = LockHeld -> read_at (S (tick s)) = None ->
  exists d s', verify_reservation limits job c p s = (Ok d, s') /\ ledger_of s' = ledger_of s /\
    (allowed d = true <-> amts (reservations l) !! job = Some (c, p)).
Proof.
  intros Hlim Hd Hj Hb Hlk Hrd. pose proof (held_ok limits s l Hd (valid_limits_reservations Hlim)) as Hok.
  unfold verify_reservation, decide_errors. unfold slift at 1 2. rewrite Hj, Hb.
  cbn [mbind SM_bind]. unfold _ledger_lock at 1, observe, mbind, SM_bind, slift. cbn [tick]. rewrite Hlk.
  rewrite (read_runs limits (mkPolicy (ledger_of s) (S (tick s))) l); [|by eapply disk_holds_keep|done].
  rewrite find_reservation_amts by apply Hok.
  destruct (find_reservation job (reservations l)) as [r|]; cbn.
  - unfold amounts_differ. destruct (core_bytes r =? c) eqn:H1, (spool_bytes r =? p) eqn:H2; cbn; bool_prop;
      (eexists _, _; split; [reflexivity|]; split; [done|]; cbn; naive_solver).
  - eexists _, _. split; [reflexivity|]. split; [done|]. cbn. naive_solver.
Qed.
End admission.
