(* ===== verification/StorageRuntime.v ===== *)
(** * The runtime guard, the retry bound and an exception that escapes *)

From S2P Require Import Prelude Sha256 Json Identifiers StorageTypes StorageLedger StorageScan.
From S2P Require Import StoragePolicy StorageReservations StorageLedgerProofs StorageScanProofs.
From S2P Require Import StoragePolicyProofs StorageRefinement StorageAdmission.
From stdpp Require Import base list gmap strings sorting.
From Stdlib Require Import ZArith QArith Lia Sorted.
From Stdlib Require Ascii String.
Open Scope Z_scope.

Section runtime.
Context `{StorageWorld} (limits : StorageLimits) (core_root spool_root : string).

(** ** Free space *)
Lemma runtime_volumes_cover s vs s' :
  _runtime_volume_status limits core_root spool_root s = (Done vs, s') ->
  Forall (fun v => rv_healthy v = (minimum_free_bytes limits <=? rv_free_bytes v)) vs /\
  forall family, family ∈ ["core"; "spool"] -> exists v, v ∈ vs /\ family ∈ rv_families v.
Proof.
  unfold _runtime_volume_status. intros (found&s1&Hf&[= <- _])%SM_bind_done. split.
  { apply Forall_fmap, Forall_true. done. }
  cbn [runtime_volumes] in Hf. apply SM_bind_done in Hf as (v1&s2&_&Hf). cbn [dict_get] in Hf.
  apply SM_bind_done in Hf as (f1&s3&_&Hf). cbv zeta in Hf.
  apply SM_bind_done in Hf as (v2&s4&_&Hf). unfold group_add in Hf. cbn [dict_get dict_set default app] in Hf.
  intros family Hfam. destruct (decide (v2 = v1)) as [->|Hne].
  - rewrite !bool_decide_true in Hf by done. injection Hf as <- _. cbn [fst snd].
    eexists. split; [cbn; left|]. cbn [rv_families]. rewrite bool_decide_true by done. cbn [default].
    change (foldr (insert_by str_leb) []) with (sort_by str_leb). by rewrite sort_by_perm.
  - rewrite !bool_decide_false in Hf by done. apply SM_bind_done in Hf as (f2&s5&_&[= <- _]). cbn [fst snd].
    setoid_rewrite list_elem_of_fmap. setoid_rewrite (sort_by_perm key_leb). cbn [dict_set].
    apply elem_of_cons in Hfam as [->|Hfam]; [|apply list_elem_of_singleton in Hfam as ->].
    + eexists. split; [exists (v1, f1); split; [reflexivity|left]|]. cbn [rv_families fst dict_get].
      rewrite bool_decide_true by done. left.
    + eexists. split; [exists (v2, f2); split; [reflexivity|right; left]|]. cbn [rv_families fst dict_get].
      rewrite (bool_decide_false (v2 = v1)) by done. rewrite bool_decide_true by done. left.
Qed.

Lemma no_unhealthy vs :
  unhealthy_volumes vs = [] -> Forall (fun v => rv_healthy v = true) vs.
Proof.
  unfold unhealthy_volumes. induction vs as [|v vs IH]; cbn; [constructor|].
  destruct (rv_healthy v) eqn:Hv; cbn; [|done]. intros Hn. constructor; [done|by apply IH].
Qed.

Definition every_root_has_room (vs : list RuntimeVolume) : Prop :=
  Forall (fun v => minimum_free_bytes limits <= rv_free_bytes v) vs /\
  forall family, family ∈ ["core"; "spool"] -> exists v, v ∈ vs /\ family ∈ rv_families v.

Lemma guard_room s vs s' :
  _runtime_volume_status limits core_root spool_root s = (Done vs, s') -> unhealthy_volumes vs = [] ->
  every_root_has_room vs.
Proof.
  intros [Hh Hc]%runtime_volumes_cover Hn%no_unhealthy. split; [|done].
  rewrite Forall_forall in *. intros v Hv. specialize (Hh v Hv). specialize (Hn v Hv). rewrite Hh in Hn.
  by bool_prop.
Qed.

(** ** The guard of a running job *)
Lemma lock_tick s r s' : _ledger_lock limits s = (r, s') -> tick s' = S (tick s).
Proof.
  unfold _ledger_lock, observe, slift, mbind, SM_bind. by intros [= _ <-].
Qed.

Lemma read_tick s r s' : _read_ledger limits s = (r, s') -> tick s' = S (tick s).
Proof. unfold _read_ledger, observe, current_ledger, slift, mbind, SM_bind. by intros [= _ <-]. Qed.

Lemma job_spool_done path reserved s u s' :
  scan_job_spool limits path reserved s = (Done (Some u), s') ->
  0 < max_scan_entries limits -> 0 < max_scan_depth limits -> 0 < max_scan_accounted_bytes limits ->
  exists v, tree_at path (tick s) = RootDirectory v /\ clean_view Count v = true /\
    bytes u = total_bytes (tree_counters v).
Proof.
  unfold scan_job_spool. intros Hs He Hd Hb.
  destruct (scan_root limits path Count _ s) as [[u'|e|e] s1] eqn:Hr.
  - injection Hs as -> <-. unfold scan_root in Hr. apply SM_bind_done in Hr as (view&s2&[= <- <-]&Hr).
    injection Hr as Hr _. apply scan_tree_exact in Hr as (v&Hv&Hc&_&_&_&->); [|done|done|lia].
    by exists v.
  - destruct (_ && _); discriminate.
  - discriminate.
Qed.

(** The runtime guard is sound: when it allows a job to go on, the job has a durable
    reservation, the tree the guard saw in the job's spool is clean and takes no more
    bytes than reserved, and both roots are on volumes that keep the free reserve. *)
Theorem runtime_guard_sound job path s l d s' :
  valid_limits limits = true -> disk_holds limits s l ->
  check_runtime_job limits core_root spool_root job path s = (Ok d, s') -> allowed d = true ->
  exists c p v vs, amts (reservations l) !! job = Some (c, p) /\
    tree_at (spool_root +:+ "/" +:+ job) (S (S (tick s))) = RootDirectory v /\
    clean_view Count v = true /\ total_bytes (tree_counters v) <= p /\ every_root_has_room vs.
Proof.
  intros Hlim Hd Hr Hal. pose proof (held_ok limits s l Hd (valid_limits_reservations limits Hlim)) as Hok.
  assert (Hpos : 0 < max_scan_entries limits /\ 0 < max_scan_depth limits /\ 0 < max_scan_accounted_bytes limits).
  { unfold valid_limits in Hlim. cbn [forallb] in Hlim. bool_prop. lia. }
  destruct Hpos as (He&Hdp&Hb).
  apply allowed_body in Hr; [|done].
  apply SM_bind_done in Hr as (u&s1&[= Hj <-]&Hr). cbv zeta in Hr. apply SM_bind_done in Hr as (w&s2&[= Hp <-]&Hr).
  apply SM_bind_done in Hr as (x&s3&Hlk&Hr). pose proof (keeps_lock _ _ _ _ Hlk) as Hk. apply lock_tick in Hlk.
  apply SM_bind_done in Hr as (l1&s4&Hrd&Hr). pose proof (read_tick _ _ _ Hrd) as Ht.
  apply (read_done limits s3 l) in Hrd as [-> Hd4]; [|by eapply disk_holds_keep].
  destruct (find_reservation job (reservations l)) as [r|] eqn:Hf; [|by injection Hr as <- _].
  apply SM_bind_done in Hr as (scanned&s5&Hs&Hr). destruct scanned as [us|]; [|by injection Hr as <- _].
  destruct (_ <? bytes us) eqn:Hle; [by injection Hr as <- _|]. bool_prop.
  apply SM_bind_done in Hr as (vs&s6&Hv&Hr).
  destruct (unhealthy_volumes vs) eqn:Hun; [|by injection Hr as <- _].
  apply job_spool_done in Hs as (v&Htree&Hcl&Hbytes); [|done..].
  exists (core_bytes r), (spool_bytes r), v, vs. split_and!.
  - rewrite find_reservation_amts by apply Hok. by rewrite Hf.
  - by rewrite <- Hlk, <- Ht.
  - done.
  - lia.
  - by eapply guard_room.
Qed.

(** ** The retry of the tree snapshot *)
Lemma scan_root_tick path pol n s r s' : scan_root limits path pol n s = (r, s') -> tick s' = S (tick s).
Proof. unfold scan_root, observe, slift, mbind, SM_bind. by intros [= _ <-]. Qed.

Lemma scan_both_tick s r s' :
  scan_both limits core_root spool_root s = (r, s') -> (tick s < tick s' <= tick s + 2)%nat.
Proof.
  unfold scan_both, mbind, SM_bind. destruct (scan_root limits core_root _ _ s) as [[a|e|e] s1] eqn:H1;
    apply scan_root_tick in H1; [|by intros [= _ <-]; lia..].
  destruct (scan_root limits spool_root _ _ s1) as [[b|e|e] s2] eqn:H2; apply scan_root_tick in H2;
    intros [= _ <-]; lia.
Qed.

Lemma scan_both_not_raised s e s' :
  valid_limits limits = true -> scan_both limits core_root spool_root s <> (Raised e, s').
Proof.
  intros Hlim. assert (Hpos : 0 < max_scan_entries limits /\ 0 < max_scan_depth limits /\ 0 < max_scan_accounted_bytes limits).
  { unfold valid_limits in Hlim. cbn [forallb] in Hlim. bool_prop. lia. }
  destruct Hpos as (He&Hdp&Hb). unfold scan_both, scan_root, observe, slift, mbind, SM_bind.
  match goal with |- context [scan_tree ?a ?b ?c ?d ?p ?o] =>
    destruct (scan_tree_total a b c d p o He Hdp Hb) as [[x ->]|[x ->]] end; [|done].
  cbn. match goal with |- context [scan_tree ?a ?b ?c ?d ?p ?o] =>
    destruct (scan_tree_total a b c d p o He Hdp Hb) as [[y ->]|[y ->]] end; done.
Qed.

Lemma stable_scan_bounds n s r s' :
  valid_limits limits = true -> stable_scan limits core_root spool_root (S n) s = (r, s') ->
  (tick s' <= tick s + 2 * S n)%nat /\ (forall e, r <> Raised e) /\
  (forall e, r = Failed e -> err_reason e = SCAN_CHANGED -> (tick s + S n <= tick s')%nat).
Proof.
  intros Hlim. revert s. induction n as [|n IH]; intros s; cbn [stable_scan].
  all: destruct (scan_both _ _ _ s) as [[a|e|e] s1] eqn:Hs; pose proof (scan_both_tick _ _ _ Hs) as Ht;
    [intros [= <- <-]; split_and!; [lia|done|done]| |by apply scan_both_not_raised in Hs].
  - rewrite orb_true_r. intros [= <- <-]. split_and!; [lia|done|]. intros; lia.
  - rewrite (bool_decide_false (S n = O)) by lia. rewrite orb_false_r. case_bool_decide as Hreason; cbn [negb].
    + intros (H1&H2&H3)%IH. split_and!; [lia|done|]. intros e' -> He'. specialize (H3 e' eq_refl He'). lia.
    + intros [= <- <-]. split_and!; [lia|done|]. intros e' [= <-]. done.
Qed.

(** The tree snapshot is bounded and ends: at most 25 attempts of two scans each, no
    exception but a [StoragePolicyError], and it gives up on a changing tree only
    after 25 attempts. *)
Theorem snapshot_attempts_bounded s r s' :
  valid_limits limits = true -> _stable_tree_snapshot limits core_root spool_root s = (r, s') ->
  (tick s' <= tick s + 50)%nat /\ (forall e, r <> Raised e) /\
  (forall e, r = Failed e -> err_reason e = SCAN_CHANGED -> (tick s + 25 <= tick s')%nat).
Proof. intros Hlim. apply (stable_scan_bounds 24 s r s' Hlim). Qed.

(** ** A corrupted checksum *)
(** C37: A damaged ledger is meant to fail closed with a decision.  When the checksum of an
    otherwise well-shaped ledger has a character that is not ASCII, the comparison
    raises [TypeError], which is no [StoragePolicyError]: the operation raises it
    instead of returning a decision. *)
Theorem nonascii_checksum_escapes job s f env gen raw checksum :
  ledger_of s = Some f -> 0 < lf_size f <= max_ledger_bytes limits -> lf_value f = Some (JObj env) ->
  keys_are ["schema"; "generation"; "reservations"; "checksum"] env = true ->
  dict_get "schema" env = Some (JStr _LEDGER_SCHEMA) -> dict_get "generation" env = Some (JInt gen) -> 0 <= gen ->
  dict_get "reservations" env = Some (JList raw) -> Z.of_nat (length raw) <= max_reservations limits ->
  dict_get "checksum" env = Some (JStr checksum) -> str_forall is_ascii checksum = false ->
  _validate_job_id (JStr job) = Done tt -> lock_at (tick s) = LockHeld -> read_at (S (tick s)) = None ->
  exists e s', release limits job s = (Err (TypeError e), s') /\ ledger_of s' = ledger_of s.
Proof.
  intros Hf Hsz Hv Hk Hsch Hgen Hg Hres Hlen Hc Hna Hj Hlk Hrd.
  assert (Hdec : exists m, _decode_ledger limits (JObj env) = Raised (TypeError m)).
  { unfold _decode_ledger. rewrite Hk, Hsch, Hgen, Hres, Hc. cbn [negb natural_int].
    rewrite bool_decide_true by done. cbn [require mbind outcome_bind].
    rewrite (proj2 (Z.leb_le _ _) Hg), (proj2 (Z.leb_le _ _) Hlen). cbn [require mbind outcome_bind].
    unfold compare_digest. rewrite Hna. cbn. by eexists. }
  destruct Hdec as [m Hm]. exists m, (mkPolicy (ledger_of s) (S (S (tick s)))). split; [|done].
  unfold release, decide_errors. unfold slift at 1. rewrite Hj. cbn [mbind SM_bind].
  unfold _ledger_lock at 1, observe, mbind, SM_bind, slift. cbn [tick]. rewrite Hlk.
  unfold _read_ledger, observe, current_ledger, mbind, SM_bind, slift. cbn [tick ledger_of]. rewrite Hrd, Hf.
  unfold _bounded_read_regular_file. rewrite (proj2 (Z.eqb_neq _ _)) by lia.
  rewrite (proj2 (Z.leb_le _ _)) by lia. cbn [require negb mbind outcome_bind]. by rewrite Hv, Hm.
Qed.
End runtime.
