(* ===== verification/StorageExamples.v ===== *)
(** * The storage policy on a concrete system: witnesses *)

From S2P Require Import Prelude Sha256 Json JsonSize Identifiers StorageTypes StorageLedger StorageScan.
From S2P Require Import StoragePolicy StorageReservations StorageLedgerProofs.
From S2P Require Import StorageScanProofs StoragePolicyProofs StorageRefinement StorageAdmission StorageRuntime.
From stdpp Require Import base list gmap strings sorting.
From Stdlib Require Import ZArith QArith Lia Sorted.
From Stdlib Require Ascii String.
Open Scope Z_scope.

(** A machine with one device, a terabyte free, one file of a hundred bytes in every
    tree, and no fault. *)
Definition demo_time : string := "2026-01-01T00:00:00".

#[local] Instance demo_clock : StorageClock := {|
  now _ := demo_time;
  fromisoformat_utc s := bool_decide (s = demo_time);
  isoformat_readable _ := eq_refl;
|}.

Definition demo_tree : dir_view := Opened [EFile 100] None.

#[local] Instance demo_world : StorageWorld := {|
  sw_clock := demo_clock;
  tree_at _ _ := RootDirectory demo_tree;
  device_at _ _ := Device 1;
  free_at _ _ := inr TIB;
  lock_at _ := LockHeld;
  read_at _ := None;
  write_at _ := None;
  float_repr _ := "5.0";
|}.

Definition empty_disk : policy_state := mkPolicy None 0.
Definition demo_record : ReservationRecord := mkReservation "job_1" 1000 2000 (demo_time +:+ "Z").
Definition demo_ledger : LedgerState := mkLedger 1 [demo_record].
Definition demo_disk : policy_state := mkPolicy (Some (_encode_ledger demo_ledger)) 0.

Lemma demo_record_ok : record_ok default_limits demo_record.
Proof.
  split; [by vm_compute|done|done|by vm_compute|]. exists demo_time. split; [apply remove_Z_app|reflexivity].
Qed.

Lemma demo_ledger_ok : ledger_ok default_limits demo_ledger.
Proof.
  split; cbn [generation reservations demo_ledger]; [done|by vm_compute| | |].
  - repeat constructor; apply demo_record_ok.
  - apply NoDup_singleton.
  - repeat constructor.
Qed.

Lemma demo_ledger_small : lf_size (_encode_ledger demo_ledger) <= max_ledger_bytes default_limits.
Proof.
  transitivity (4096 + 2640 * 1); [|by vm_compute].
  apply (ledger_fits default_limits demo_ledger); [apply demo_ledger_ok|done|by vm_compute|].
  repeat constructor.
Qed.

Lemma empty_disk_holds : disk_holds default_limits empty_disk (mkLedger 0 []).
Proof. by left. Qed.
Lemma demo_disk_holds : disk_holds default_limits demo_disk demo_ledger.
Proof. right. split_and!; [done|apply demo_ledger_ok|apply demo_ledger_small]. Qed.

(** ** The codec *)
Lemma ledger_roundtrip_witness :
  exists v, lf_value (_encode_ledger demo_ledger) = Some v /\ _decode_ledger default_limits v = Done demo_ledger.
Proof. apply (ledger_roundtrip default_limits), demo_ledger_ok. Defined.

Lemma decoded_ledger_ok_witness :
  _decode_ledger default_limits (envelope_of demo_ledger) = Done demo_ledger /\
  ledger_ok default_limits demo_ledger.
Proof.
  assert (Hd : _decode_ledger default_limits (envelope_of demo_ledger) = Done demo_ledger)
    by apply decode_encoded, demo_ledger_ok.
  split; [exact Hd|]. apply (decoded_ledger_ok default_limits _ _ Hd).
Defined.

Lemma ledger_size_linear_witness : lf_size (_encode_ledger demo_ledger) <= 4096 + 2640 * 1.
Proof.
  apply (ledger_size_linear default_limits demo_ledger); [apply demo_ledger_ok|done|by vm_compute|].
  repeat constructor.
Defined.

(** ** The scan *)
Lemma scan_tree_exact_witness :
  scan_tree "/core" 10 4 1000 Reject (RootDirectory demo_tree) = Done (mkUsage "/core" 100 1 0 1 1) /\
  view_depth demo_tree <= 4.
Proof.
  assert (Hs : scan_tree "/core" 10 4 1000 Reject (RootDirectory demo_tree) = Done (mkUsage "/core" 100 1 0 1 1))
    by reflexivity.
  split; [exact Hs|]. apply (scan_tree_exact "/core" 10 4 1000 Reject) in Hs; [|lia|lia|lia].
  destruct Hs as (v&[= <-]&_&Hd&_). exact Hd.
Defined.

Lemma scan_tree_total_witness :
  (exists u, scan_tree "/core" 1 1 1 Reject (RootDirectory demo_tree) = Done u) \/
  (exists e, scan_tree "/core" 1 1 1 Reject (RootDirectory demo_tree) = Failed e).
Proof. apply (scan_tree_total "/core" 1 1 1 Reject); lia. Defined.

Lemma snapshot_attempts_bounded_witness :
  (tick (_stable_tree_snapshot default_limits "/core" "/spool" empty_disk).2 <= 50)%nat.
Proof.
  pose proof (snapshot_attempts_bounded default_limits "/core" "/spool" empty_disk _ _ default_limits_valid
    (surjective_pairing (_stable_tree_snapshot default_limits "/core" "/spool" empty_disk))) as (Ht&_).
  exact Ht.
Defined.

(** ** Operations *)
Lemma SM_step {S A B} (m : SM S A) (k : A -> SM S B) s a s1 r :
  m s = (Done a, s1) -> k a s1 = r -> (m ≫= k) s = r.
Proof. unfold mbind, SM_bind. by intros ->. Qed.

Lemma decide_runs {S} (m : SM S StorageDecision) s d s' : m s = (Done d, s') -> decide_errors m s = (Ok d, s').
Proof. unfold decide_errors. by intros ->. Qed.

Lemma storage_refines_witness :
  exists l', disk_holds default_limits
    (run_op default_limits "/core" "/spool" (ORelease "job_1") demo_disk).2 l' /\ ledger_ok default_limits l'.
Proof.
  pose proof (storage_refines default_limits "/core" "/spool" (ORelease "job_1") demo_disk demo_ledger _ _
    default_limits_valid demo_disk_holds
    (surjective_pairing (run_op default_limits "/core" "/spool" (ORelease "job_1") demo_disk)))
    as (l'&Hd&Hok&_).
  exists l'. split; [exact Hd|exact Hok].
Defined.

Definition demo_snapshot : StorageTreeSnapshot :=
  mkSnapshot (mkUsage "/core" 100 1 0 1 1) (mkUsage "/spool" 100 1 0 1 1).

Definition demo_status : StorageStatus :=
  mkStatus true HEALTHY (snap_core demo_snapshot) (snap_spool demo_snapshot) 1000 2000 1 1
    [mkVolume "device:1" ["core"; "spool"] TIB 3000 (TIB - 3000) GIB] default_limits.

Definition reserved_decision : StorageDecision :=
  mkDecision true RESERVED "storage was reserved for the job" (Some demo_status)
    [("reservation", reservation_dict demo_record)].
Definition reserved_disk : policy_state := mkPolicy (Some (_encode_ledger demo_ledger)) 7.

Lemma demo_reserve_runs :
  reserve default_limits "/core" "/spool" "job_1" 1000 2000 (Some demo_snapshot) empty_disk
    = (Ok reserved_decision, reserved_disk).
Proof.
  apply decide_runs.
  apply (SM_step _ _ _ tt empty_disk); [vm_compute; reflexivity|].
  apply (SM_step _ _ _ tt empty_disk); [vm_compute; reflexivity|].
  apply (SM_step _ _ _ demo_snapshot empty_disk); [reflexivity|].
  apply (SM_step _ _ _ tt (mkPolicy None 1)); [reflexivity|].
  apply (SM_step _ _ _ (mkLedger 0 []) (mkPolicy None 2)); [reflexivity|].
  change (dict_get "job_1" _) with (None : option ReservationRecord).
  change (_ <=? _) with false. cbv iota.
  apply (SM_step _ _ _ (demo_time +:+ "Z") (mkPolicy None 3)); [reflexivity|]. cbv zeta.
  change (sort_by record_leb _) with [demo_record].
  apply (SM_step _ _ _ demo_status (mkPolicy None 6)); [vm_compute; reflexivity|]. cbn [healthy demo_status negb].
  eapply SM_step; [exact (@write_runs demo_world default_limits demo_ledger (mkPolicy None 6) demo_ledger_small eq_refl)|].
  reflexivity.
Qed.

Lemma reserve_within_limits_witness :
  exists d s', reserve default_limits "/core" "/spool" "job_1" 1000 2000 (Some demo_snapshot) empty_disk = (Ok d, s') /\
    admitted default_limits "job_1" 1000 2000 (Some demo_snapshot) d s'.
Proof.
  exists reserved_decision, reserved_disk. split; [exact demo_reserve_runs|].
  exact (reserve_within_limits default_limits "/core" "/spool" "job_1" 1000 2000 (Some demo_snapshot) empty_disk
    (mkLedger 0 []) _ _ default_limits_valid empty_disk_holds demo_reserve_runs eq_refl).
Defined.

Lemma verify_exact_witness :
  exists d s', verify_reservation default_limits "job_1" 1000 2000 demo_disk = (Ok d, s') /\
    (allowed d = true <-> amts (reservations demo_ledger) !! "job_1" = Some (1000, 2000)).
Proof.
  assert (Hj : _validate_job_id (JStr "job_1") = Done tt) by (vm_compute; reflexivity).
  destruct (verify_exact default_limits "job_1" 1000 2000 demo_disk demo_ledger default_limits_valid demo_disk_holds
    Hj eq_refl eq_refl eq_refl) as (d&s'&Hr&_&Hiff).
  exists d, s'. split; [exact Hr|exact Hiff].
Defined.

(** The active job is already in the ledger, so reconciling measures storage and
    writes nothing. *)
Definition active_status : StorageStatus :=
  mkStatus true HEALTHY (snap_core demo_snapshot) (snap_spool demo_snapshot) 1000 2000 1 1
    [mkVolume "device:1" ["core"; "spool"] TIB 3000 (TIB - 3000) GIB] default_limits.

Lemma demo_read_runs n : _read_ledger default_limits (mkPolicy (ledger_of demo_disk) n)
  = (Done demo_ledger, mkPolicy (ledger_of demo_disk) (S n)).
Proof. apply read_runs; [exact (disk_holds_keep _ demo_disk _ _ eq_refl demo_disk_holds)|reflexivity]. Qed.

Definition reconciled_decision : StorageDecision :=
  mkDecision true RECONCILED "reservation ledger already matches active jobs" (Some active_status)
    [("adopted_job_ids", JList []); ("released_job_ids", JList []); ("ledger_generation", JInt 1);
     ("persisted", JBool false)].

Lemma demo_reconcile_runs :
  reconcile_reservations default_limits "/core" "/spool" [("job_1", Amounts 1000 2000)] demo_disk
    = (Ok reconciled_decision, mkPolicy (ledger_of demo_disk) 8).
Proof.
  apply decide_runs. unfold demo_disk at 1.
  generalize demo_read_runs. cbn [ledger_of demo_disk]. generalize (Some (_encode_ledger demo_ledger)).
  intros file Hread.
  apply (SM_step _ _ _ tt (mkPolicy file 0)); [reflexivity|].
  apply (SM_step _ _ _ [("job_1", (1000, 2000))] (mkPolicy file 0)); [vm_compute; reflexivity|].
  apply (SM_step _ _ _ tt (mkPolicy file 1)); [reflexivity|].
  eapply SM_step; [apply Hread|].
  cbv zeta. change (conflicts_of _ _) with (@nil json). cbv iota.
  apply (SM_step _ _ _ (demo_time +:+ "Z") (mkPolicy file 3)); [reflexivity|].
  change (proposed_record _ _ <$> _) with [demo_record].
  match goal with |- context [negb (bool_decide (?x = []) && ?y)] =>
    replace (negb (bool_decide (x = []) && y)) with false by (vm_compute; reflexivity) end. cbv iota.
  apply (SM_step _ _ _ active_status (mkPolicy file 8)); [vm_compute; reflexivity|].
  reflexivity.
Qed.

Lemma reconcile_records_active_witness :
  exists l', disk_holds default_limits
    (reconcile_reservations default_limits "/core" "/spool" [("job_1", Amounts 1000 2000)] demo_disk).2 l' /\
    amts (reservations l') = active_map [("job_1", Amounts 1000 2000)] ∅.
Proof.
  rewrite demo_reconcile_runs. cbn [snd].
  exact (reconcile_records_active default_limits "/core" "/spool" _ demo_disk demo_ledger _ _ active_status
    default_limits_valid demo_disk_holds demo_reconcile_runs eq_refl).
Defined.

Definition guard_decision : StorageDecision :=
  let v := mkRuntimeVolume "device:1" ["core"; "spool"] TIB true in
  mkDecision true HEALTHY "runtime storage guard is healthy" None
    [("job_id", JStr "job_1"); ("reservation", reservation_dict demo_record);
     ("spool_usage", usage_dict (mkUsage "/spool/job_1" 100 1 0 1 1)); volumes_detail default_limits [v]].

Lemma demo_guard_runs :
  check_runtime_job default_limits "/core" "/spool" "job_1" "/spool/job_1" demo_disk
    = (Ok guard_decision, mkPolicy (ledger_of demo_disk) 6).
Proof.
  apply decide_runs. unfold demo_disk at 1.
  generalize demo_read_runs. cbn [ledger_of demo_disk]. generalize (Some (_encode_ledger demo_ledger)).
  intros file Hread.
  apply (SM_step _ _ _ tt (mkPolicy file 0)); [vm_compute; reflexivity|]. cbv zeta.
  apply (SM_step _ _ _ tt (mkPolicy file 0)); [reflexivity|].
  apply (SM_step _ _ _ tt (mkPolicy file 1)); [reflexivity|].
  eapply SM_step; [apply Hread|]. change (find_reservation _ _) with (Some demo_record). cbv iota.
  apply (SM_step _ _ _ (Some (mkUsage "/spool/job_1" 100 1 0 1 1)) (mkPolicy file 3)); [reflexivity|].
  cbv iota. change (_ <? _) with false. cbv iota.
  apply (SM_step _ _ _ [mkRuntimeVolume "device:1" ["core"; "spool"] TIB true] (mkPolicy file 6)); [reflexivity|].
  reflexivity.
Qed.

Lemma runtime_guard_sound_witness :
  exists c p v vs, amts (reservations demo_ledger) !! "job_1" = Some (c, p) /\
    total_bytes (tree_counters v) <= p /\ every_root_has_room default_limits vs.
Proof.
  destruct (runtime_guard_sound default_limits "/core" "/spool" "job_1" "/spool/job_1" demo_disk demo_ledger _ _
    default_limits_valid demo_disk_holds demo_guard_runs eq_refl) as (c&p&v&vs&Hm&_&_&Hb&Hv).
  exists c, p, v, vs. split_and!; [exact Hm|exact Hb|exact Hv].
Defined.

(** A ledger whose checksum was damaged by a byte outside ASCII. *)
Definition damaged_envelope : list (string * json) :=
  ledger_payload 1 [] ++ [("checksum", JStr (char 195 +:+ char 169))].
Definition damaged_disk : policy_state := mkPolicy (Some (mkFile (Some (JObj damaged_envelope)) 120)) 0.

Lemma nonascii_checksum_escapes_witness :
  exists e s', release default_limits "job_1" damaged_disk = (Err (TypeError e), s').
Proof.
  assert (Hj : _validate_job_id (JStr "job_1") = Done tt) by (vm_compute; reflexivity).
  destruct (nonascii_checksum_escapes default_limits "job_1" damaged_disk (mkFile (Some (JObj damaged_envelope)) 120)
    damaged_envelope 1 [] (char 195 +:+ char 169)) as (e&s'&Hr&_);
    try reflexivity; try exact Hj; try (split; by vm_compute); try by vm_compute.
  exists e, s'. exact Hr.
Defined.
