(* ===== verification/FairLock.v ===== *)
(** * The fair queue lock ([FairBoundedFileLock] of [queue_store_lock.py])

    Local threads take a ticket and are served in ticket order before the one that
    is served takes the cross-process file lock.  Every block under the condition
    variable is one atomic step; the file lock itself is the third-party
    [FileLock], whose acquisition and release succeed or raise; a release that raises
    leaves the lock with its owner.  A thread that waits sleeps
    until it is notified or its deadline passes.  A negative timeout is refused with
    [ValueError] before any ticket is taken and changes nothing. *)

From S2P Require Import Prelude.
From stdpp Require Import base list gmap sets fin_sets.
From Stdlib Require Import Lia.

(** ** The lock object *)
Abbreviation thread := nat.

Record fair_lock := mkLock {
  _owner_thread_id : option thread;
  _owner_depth : nat;
  _next_ticket : nat;
  _serving_ticket : nat;
  _abandoned_tickets : gset nat;
}.

(** [FairBoundedFileLock.__init__] *)
Definition new_lock : fair_lock := mkLock None 0 0 0 ∅.

(** The loop of [_skip_abandoned_tickets_locked]: every round removes a ticket. *)
Fixpoint skip_loop (fuel : nat) (serving : nat) (abandoned : gset nat) : nat * gset nat :=
  match fuel with
  | O => (serving, abandoned)
  | S fuel' =>
      if bool_decide (serving ∈ abandoned)
      then skip_loop fuel' (S serving) (abandoned ∖ {[serving]})
      else (serving, abandoned)
  end.

Definition _skip_abandoned_tickets_locked (l : fair_lock) : fair_lock :=
  let next := skip_loop (size (_abandoned_tickets l)) (_serving_ticket l) (_abandoned_tickets l) in
  mkLock (_owner_thread_id l) (_owner_depth l) (_next_ticket l) next.1 next.2.

(** The block that hands the lock on: the end of [release] and the handler of a
    failed file lock. *)
Definition hand_on (l : fair_lock) : fair_lock :=
  _skip_abandoned_tickets_locked
    (mkLock None 0 (_next_ticket l) (S (_serving_ticket l)) (_abandoned_tickets l)).

(** One evaluation of the [while] condition of [acquire] with what follows;
    [expired] says whether the deadline has passed. *)
Inductive admission :=
  | Served (l : fair_lock)
  | TimedOut (l : fair_lock)
  | MustWait.

Definition try_admission (me ticket : nat) (expired : bool) (l : fair_lock) : admission :=
  if bool_decide (_owner_thread_id l = None) && (ticket =? _serving_ticket l) then
    Served (mkLock (Some me) 1 (_next_ticket l) (_serving_ticket l) (_abandoned_tickets l))
  else if expired then
    TimedOut (_skip_abandoned_tickets_locked
      (mkLock (_owner_thread_id l) (_owner_depth l) (_next_ticket l) (_serving_ticket l)
         ({[ticket]} ∪ _abandoned_tickets l)))
  else MustWait.

(** [ticket = self._next_ticket; self._next_ticket += 1] *)
Definition take_ticket (l : fair_lock) : nat * fair_lock :=
  (_next_ticket l,
   mkLock (_owner_thread_id l) (_owner_depth l) (S (_next_ticket l)) (_serving_ticket l)
     (_abandoned_tickets l)).

(** The reentrant case of [acquire]. *)
Definition reenter (l : fair_lock) : fair_lock :=
  mkLock (_owner_thread_id l) (S (_owner_depth l)) (_next_ticket l) (_serving_ticket l)
    (_abandoned_tickets l).

(** [release]: [None] is the [RuntimeError]; the flag says whether the lock was
    handed on, with a notification. *)
Definition release_lock (me : thread) (l : fair_lock) : option (bool * fair_lock) :=
  if negb (bool_decide (_owner_thread_id l = Some me)) || (_owner_depth l =? 0) then None
  else if (1 <? _owner_depth l) then
    Some (false, mkLock (_owner_thread_id l) (_owner_depth l - 1) (_next_ticket l) (_serving_ticket l)
                   (_abandoned_tickets l))
  else Some (true, hand_on l).

(** ** Threads

    Where a thread is in [acquire] and [release].  [Taking] is between the two
    critical sections of [acquire], while it takes the file lock. *)
Inductive pc :=
  | Idle
  | Waiting (ticket : nat) (asleep : bool)
  | Taking (ticket : nat)
  | Holding (ticket : nat).

Record system := mkSystem { lock : fair_lock; threads : thread -> pc }.

Definition set_pc (me : thread) (p : pc) (ts : thread -> pc) : thread -> pc :=
  fun t => if decide (t = me) then p else ts t.

(** [self._condition.notify_all()] *)
Definition notify_all (ts : thread -> pc) : thread -> pc := fun t =>
  match ts t with Waiting k _ => Waiting k false | p => p end.

Definition start : system := mkSystem new_lock (fun _ => Idle).

(** The outcome of an evaluation of the condition for a thread with a ticket. *)
Definition settle_admission (me ticket : nat) (a : admission) (l : fair_lock) (ts : thread -> pc) : system :=
  match a with
  | Served l' => mkSystem l' (set_pc me (Taking ticket) ts)
  | TimedOut l' => mkSystem l' (notify_all (set_pc me Idle ts))
  | MustWait => mkSystem l (set_pc me (Waiting ticket true) ts)
  end.

Inductive step : system -> system -> Prop :=
  | step_reenter s me k :
      threads s me = Holding k -> _owner_thread_id (lock s) = Some me ->
      step s (mkSystem (reenter (lock s)) (threads s))
  | step_acquire s me expired :
      threads s me = Idle -> _owner_thread_id (lock s) <> Some me ->
      step s (let '(ticket, l) := take_ticket (lock s) in
              settle_admission me ticket (try_admission me ticket expired l) l (threads s))
  | step_wake s me ticket asleep expired :
      threads s me = Waiting ticket asleep -> asleep = false \/ expired = true ->
      step s (settle_admission me ticket (try_admission me ticket expired (lock s)) (lock s) (threads s))
  | step_taken s me ticket :
      threads s me = Taking ticket ->
      step s (mkSystem (lock s) (set_pc me (Holding ticket) (threads s)))
  | step_take_failed s me ticket :
      threads s me = Taking ticket ->
      step s (mkSystem (hand_on (lock s)) (notify_all (set_pc me Idle (threads s))))
  | step_release s me ticket l :
      threads s me = Holding ticket -> release_lock me (lock s) = Some (false, l) ->
      step s (mkSystem l (threads s))
  | step_hand_on s me ticket l :
      threads s me = Holding ticket -> release_lock me (lock s) = Some (true, l) ->
      step s (mkSystem l (notify_all (set_pc me Idle (threads s))))
  | step_release_failed s me ticket l :
      threads s me = Holding ticket -> release_lock me (lock s) = Some (true, l) -> step s s.

(** An exception other than the timeout leaves [self._condition.wait], as a
    [KeyboardInterrupt] does: [acquire] has no handler there. *)
Inductive interrupt : system -> system -> Prop :=
  | interrupt_wait s me ticket asleep :
      threads s me = Waiting ticket asleep ->
      interrupt s (mkSystem (lock s) (set_pc me Idle (threads s))).

Definition reachable (s : system) : Prop := rtc step start s.
