(* ===== verification/FairLockProofs.v ===== *)
(** * The fair queue lock excludes, serves in order and never strands a waiter; witnesses *)

From S2P Require Import Prelude FairLock.
From stdpp Require Import base list gmap sets fin_sets relations.
From Stdlib Require Import Lia.

(** ** Skipping abandoned tickets *)
Lemma skip_loop_spec fuel s A :
  (size A <= fuel)%nat -> (forall k, k ∈ A -> s <= k) ->
  let r := skip_loop fuel s A in
  s <= r.1 /\ r.1 ∉ r.2 /\ (forall k, s <= k < r.1 -> k ∈ A) /\ (forall k, k ∈ r.2 <-> k ∈ A /\ r.1 <= k).
Proof.
  revert s A. induction fuel as [|fuel IH]; intros s A Hsz Hge; cbn [skip_loop].
  - assert (HA : A ≡ ∅) by (apply size_empty_inv; lia). cbn [fst snd].
    split_and!; [lia|set_solver|lia|set_solver].
  - case_bool_decide as Hin; cbn [fst snd].
    + assert (Hsz' : (size (A ∖ {[s]}) <= fuel)%nat).
      { rewrite size_difference by set_solver. rewrite size_singleton. lia. }
      destruct (IH (S s) (A ∖ {[s]}) Hsz') as (H1&H2&H3&H4).
      { intros k Hk. apply elem_of_difference in Hk as [Hk Hne]. specialize (Hge k Hk).
        assert (k <> s) by set_solver. lia. }
      split_and!; [lia|done| |].
      * intros k Hk. destruct (decide (k = s)) as [->|Hne]; [done|].
        assert (Hk' : k ∈ A ∖ {[s]}) by (apply H3; lia). set_solver.
      * intros k. rewrite H4, elem_of_difference, elem_of_singleton. intuition lia.
    + split_and!; [lia|done|lia|]. intros k. split; [|tauto]. intros Hk. split; [done|by apply Hge].
Qed.

(** ** The invariant *)
Definition has_lock (p : pc) : Prop := match p with Taking _ | Holding _ => True | _ => False end.
Definition ticket_of (p : pc) : nat := match p with Taking k | Holding k | Waiting k _ => k | Idle => 0 end.
Definition is_waiting (p : pc) : Prop := match p with Waiting _ _ => True | _ => False end.

Lemma set_pc_eq me p ts : set_pc me p ts me = p.
Proof. unfold set_pc. by rewrite decide_True. Qed.
Lemma set_pc_ne me p ts t : t <> me -> set_pc me p ts t = ts t.
Proof. intros. unfold set_pc. by rewrite decide_False. Qed.

Ltac inv_fields H := destruct H as [Hown Hserved Hdepth Htaking Hwait Hdist Hab Hacc Hlost Hawake Hord].
Ltac at_thread t me ts := destruct (decide (t = me)) as [->|?];
  [rewrite ?(set_pc_eq me _ ts) in * | rewrite ?(set_pc_ne me _ ts t) in * by done].

(** [lost] are the tickets whose holder left without abandoning them: none, unless
    a wait was interrupted. *)
Section lost_tickets.
Context (lost : nat -> Prop).

Record lock_inv (s : system) : Prop := {
  i_owner : forall me, _owner_thread_id (lock s) = Some me <-> has_lock (threads s me);
  i_served : forall me, has_lock (threads s me) -> ticket_of (threads s me) = _serving_ticket (lock s);
  i_depth : _owner_thread_id (lock s) <> None -> 1 <= _owner_depth (lock s) /\ _serving_ticket (lock s) < _next_ticket (lock s);
  i_taking : forall me k, threads s me = Taking k -> _owner_depth (lock s) = 1;
  i_waiting : forall me, is_waiting (threads s me) ->
    _serving_ticket (lock s) <= ticket_of (threads s me) < _next_ticket (lock s) /\
    ticket_of (threads s me) ∉ _abandoned_tickets (lock s) /\
    (_owner_thread_id (lock s) <> None -> ticket_of (threads s me) <> _serving_ticket (lock s));
  i_distinct : forall a b, is_waiting (threads s a) -> is_waiting (threads s b) ->
    ticket_of (threads s a) = ticket_of (threads s b) -> a = b;
  i_abandoned : forall k, k ∈ _abandoned_tickets (lock s) -> _serving_ticket (lock s) < k < _next_ticket (lock s);
  i_accounted : forall k, _serving_ticket (lock s) <= k < _next_ticket (lock s) ->
    k ∈ _abandoned_tickets (lock s) \/ (exists me, is_waiting (threads s me) /\ ticket_of (threads s me) = k) \/
    (k = _serving_ticket (lock s) /\ _owner_thread_id (lock s) <> None) \/ lost k;
  i_lost : forall k, lost k -> _serving_ticket (lock s) <= k < _next_ticket (lock s) /\
    k ∉ _abandoned_tickets (lock s) /\
    (forall me, is_waiting (threads s me) -> ticket_of (threads s me) <> k) /\
    (_owner_thread_id (lock s) <> None -> k <> _serving_ticket (lock s));
  i_awake : _owner_thread_id (lock s) = None -> forall me asleep,
    threads s me = Waiting (_serving_ticket (lock s)) asleep -> asleep = false;
  i_order : _serving_ticket (lock s) <= _next_ticket (lock s);
}.

Lemma notify_lock ts t : has_lock (notify_all ts t) <-> has_lock (ts t).
Proof. unfold notify_all. by destruct (ts t). Qed.
Lemma notify_waiting ts t : is_waiting (notify_all ts t) <-> is_waiting (ts t).
Proof. unfold notify_all. by destruct (ts t). Qed.
Lemma notify_ticket ts t : ticket_of (notify_all ts t) = ticket_of (ts t).
Proof. unfold notify_all. by destruct (ts t). Qed.
Lemma notify_awake ts t k a : notify_all ts t = Waiting k a -> a = false.
Proof. unfold notify_all. destruct (ts t); naive_solver. Qed.

(** Handing the lock on. *)
Lemma hand_on_inv s me :
  lock_inv s -> has_lock (threads s me) ->
  lock_inv (mkSystem (hand_on (lock s)) (notify_all (set_pc me Idle (threads s)))).
Proof.
  intros Hinv Hme. inv_fields Hinv. pose proof (proj2 (Hown me) Hme) as Ho.
  assert (Honly : forall t, has_lock (threads s t) -> t = me) by (intros t Ht%Hown; congruence).
  destruct (Hdepth ltac:(congruence)) as [_ Hlt].
  destruct (skip_loop_spec (size (_abandoned_tickets (lock s))) (S (_serving_ticket (lock s)))
              (_abandoned_tickets (lock s))) as (H1&H2&H3&H4); [done| |].
  { intros k Hk. specialize (Hab k Hk). lia. }
  unfold hand_on, _skip_abandoned_tickets_locked. cbn [_abandoned_tickets _serving_ticket _owner_thread_id _owner_depth _next_ticket].
  set (r := skip_loop _ _ _) in *.
  assert (Hw : forall t, is_waiting (set_pc me Idle (threads s) t) -> is_waiting (threads s t) /\ t <> me).
  { intros t Ht. at_thread t me (threads s); done. }
  assert (Hle : r.1 <= _next_ticket (lock s)).
  { destruct (decide (r.1 <= _next_ticket (lock s))) as [|Hn]; [done|].
    assert (Hin : _next_ticket (lock s) ∈ _abandoned_tickets (lock s)) by (apply H3; lia).
    apply Hab in Hin. lia. }
  split; cbn [lock threads _abandoned_tickets _serving_ticket _owner_thread_id _owner_depth _next_ticket].
  - intros t. rewrite notify_lock. split; [done|]. intros Ht. at_thread t me (threads s); [done|].
    by apply Honly in Ht.
  - intros t. rewrite notify_lock. intros Ht. at_thread t me (threads s); [done|]. by apply Honly in Ht.
  - done.
  - intros t k Ht. assert (Hl : has_lock (notify_all (set_pc me Idle (threads s)) t)) by (by rewrite Ht).
    rewrite notify_lock in Hl. at_thread t me (threads s); [done|]. by apply Honly in Hl.
  - intros t. rewrite notify_waiting, notify_ticket. intros Ht. apply Hw in Ht as [Ht Hne].
    rewrite set_pc_ne by done. destruct (Hwait t Ht) as (Hb&Hna&Hns). specialize (Hns ltac:(congruence)).
    split_and!; [|lia| |done].
    + destruct (decide (r.1 <= ticket_of (threads s t))) as [|Hlt']; [done|]. destruct Hna. apply H3. lia.
    + intros Hk. apply H4 in Hk as [Hk _]. done.
  - intros a b. rewrite !notify_waiting, !notify_ticket. intros Ha Hb. apply Hw in Ha as [Ha Hna].
    apply Hw in Hb as [Hb Hnb]. rewrite !set_pc_ne by done. by apply Hdist.
  - intros k Hk. pose proof Hk as Hk2. apply H4 in Hk as [Hk Hge]. specialize (Hab k Hk).
    assert (k <> r.1) by (intros ->; done). lia.
  - intros k Hk. destruct (Hacc k ltac:(lia)) as [Hin|[(t&Ht&Htk)|[[-> _]|?]]];
      [left; apply H4; split; [done|lia]| |lia|by do 3 right].
    right. left. exists t. rewrite notify_waiting, notify_ticket.
    destruct (decide (t = me)) as [->|Hne]; [by destruct (threads s me)|]. by rewrite set_pc_ne.
  - intros k (Hr&Hna&Hnw&Hns)%Hlost. specialize (Hns ltac:(congruence)). split_and!; [|lia| | |done].
    + destruct (decide (r.1 <= k)) as [|Hlt']; [done|]. destruct Hna. apply H3. lia.
    + intros Hk. apply H4 in Hk as [Hk _]. done.
    + intros t. rewrite notify_waiting, notify_ticket. intros Ht. apply Hw in Ht as [Ht Hne].
      rewrite set_pc_ne by done. by apply Hnw.
  - intros _ t a Ht. by eapply notify_awake.
  - done.
Qed.

(** A thread that is about to evaluate the condition is awake. *)
Lemma wake_inv s me k a :
  lock_inv s -> threads s me = Waiting k a ->
  lock_inv (mkSystem (lock s) (set_pc me (Waiting k false) (threads s))).
Proof.
  intros Hinv Hme. inv_fields Hinv.
  assert (Hsame : forall t, has_lock (set_pc me (Waiting k false) (threads s) t) <-> has_lock (threads s t)).
  { intros t. at_thread t me (threads s); [by rewrite Hme|done]. }
  assert (Hw : forall t, is_waiting (set_pc me (Waiting k false) (threads s) t) <-> is_waiting (threads s t)).
  { intros t. at_thread t me (threads s); [by rewrite Hme|done]. }
  assert (Ht : forall t, ticket_of (set_pc me (Waiting k false) (threads s) t) = ticket_of (threads s t)).
  { intros t. at_thread t me (threads s); [by rewrite Hme|done]. }
  split; cbn [lock threads]; try done.
  - intros t. by rewrite Hsame.
  - intros t. rewrite Hsame, Ht. apply Hserved.
  - intros t j Hj. at_thread t me (threads s); [done|]. by eapply Htaking.
  - intros t. rewrite Hw, Ht. apply Hwait.
  - intros x y. rewrite !Hw, !Ht. apply Hdist.
  - intros j Hj. setoid_rewrite Hw. setoid_rewrite Ht. by apply Hacc.
  - intros j Hj. setoid_rewrite Hw. setoid_rewrite Ht. by apply Hlost.
  - intros Hn t b Hb. at_thread t me (threads s); [congruence|]. by eapply Hawake.
Qed.

Lemma take_ticket_inv s me :
  lock_inv s -> threads s me = Idle ->
  lock_inv (mkSystem (take_ticket (lock s)).2 (set_pc me (Waiting (take_ticket (lock s)).1 false) (threads s))).
Proof.
  intros Hinv Hme. inv_fields Hinv. cbn [take_ticket fst snd].
  set (w := Waiting (_next_ticket (lock s)) false).
  split; cbn [lock threads _abandoned_tickets _serving_ticket _owner_thread_id _owner_depth _next_ticket].
  - intros t. rewrite Hown. at_thread t me (threads s); [by rewrite Hme|done].
  - intros t Ht. at_thread t me (threads s); [done|]. by apply Hserved.
  - intros Ho. apply Hdepth in Ho. lia.
  - intros t j Hj. at_thread t me (threads s); [done|]. by eapply Htaking.
  - intros t Ht. at_thread t me (threads s); cbn [w ticket_of].
    + split_and!; [lia|lia|intros Hk%Hab; lia|]. intros Ho. apply Hdepth in Ho. lia.
    + destruct (Hwait t Ht) as (?&?&?). split_and!; [lia|lia|done|done].
  - intros a b Ha Hb Hab'. at_thread a me (threads s); at_thread b me (threads s); cbn [w ticket_of] in Hab'; [done| | |].
    + destruct (Hwait b Hb) as (?&_). lia.
    + destruct (Hwait a Ha) as (?&_). lia.
    + by apply Hdist.
  - intros k Hk%Hab. lia.
  - intros k Hk. destruct (decide (k = _next_ticket (lock s))) as [->|Hne].
    + right. left. exists me. by rewrite set_pc_eq.
    + destruct (Hacc k ltac:(lia)) as [?|[(t&Ht&Htk)|?]]; [by left| |by right; right].
      right. left. exists t. destruct (decide (t = me)) as [->|Hn]; [by rewrite Hme in Ht|]. by rewrite set_pc_ne.
  - intros k (Hr&Hna&Hnw&Hns)%Hlost. split_and!; [lia|lia|done| |done].
    intros t Ht. at_thread t me (threads s); [cbn; lia|by apply Hnw].
  - intros Hn t a Ht. at_thread t me (threads s); [unfold w in Ht; congruence|]. by eapply Hawake.
  - lia.
Qed.

Lemma skip_loop_served fuel s A : s ∉ A -> skip_loop fuel s A = (s, A).
Proof. intros Hs. destruct fuel; cbn; [done|]. by rewrite bool_decide_false. Qed.

(** The evaluation of the condition by a waiting thread. *)
Lemma settle_inv l ts me k expired :
  lock_inv (mkSystem l (set_pc me (Waiting k false) ts)) ->
  lock_inv (settle_admission me k (try_admission me k expired l) l ts).
Proof.
  intros Hinv. inv_fields Hinv. cbn [lock threads] in *.
  assert (Hother : forall t p, t <> me -> set_pc me p ts t = ts t) by (intros; by apply set_pc_ne).
  pose proof (Hwait me) as Hk. rewrite set_pc_eq in Hk. cbn in Hk. destruct (Hk I) as (Hrange&Hna&Hns). clear Hk.
  unfold try_admission. destruct (bool_decide (_owner_thread_id l = None) && (k =? _serving_ticket l)) eqn:Hc;
    [|destruct expired]; cbn [settle_admission].
  - bool_prop. apply Nat.eqb_eq in H0. subst k.
    assert (Hnone : forall t, ~ has_lock (ts t) \/ t = me).
    { intros t. destruct (decide (t = me)) as [|Hne]; [by right|left]. intros Ht. specialize (Hown t).
      rewrite Hother in Hown by done. apply Hown in Ht. congruence. }
    split; cbn [lock threads _abandoned_tickets _serving_ticket _owner_thread_id _owner_depth _next_ticket].
    + intros t. destruct (decide (t = me)) as [->|Hne]; [by rewrite set_pc_eq|]. rewrite Hother by done.
      destruct (Hnone t) as [Hn|]; [|done]. split; [intros [= ->]; done|done].
    + intros t Ht. destruct (decide (t = me)) as [->|Hne]; [by rewrite set_pc_eq|]. rewrite Hother in * by done.
      by destruct (Hnone t).
    + intros _. lia.
    + intros t j Hj. done.
    + intros t Ht. destruct (decide (t = me)) as [->|Hne]; [by rewrite set_pc_eq in Ht|]. rewrite Hother in * by done.
      pose proof (Hwait t) as Hwt. rewrite Hother in Hwt by done. destruct (Hwt Ht) as (H1&H2&_).
      split_and!; [lia|lia|done|]. intros _ Heq. apply Hne. apply (Hdist t me); rewrite ?set_pc_eq, ?Hother by done; done.
    + intros a b Ha Hb Heq. destruct (decide (a = me)) as [->|Hna']; [by rewrite set_pc_eq in Ha|].
      destruct (decide (b = me)) as [->|Hnb']; [by rewrite set_pc_eq in Hb|]. rewrite (Hother a) in Ha by done.
      rewrite (Hother b) in Hb by done. rewrite (Hother a), (Hother b) in Heq by done.
      apply Hdist; rewrite ?Hother by done; done.
    + done.
    + intros j Hj. destruct (Hacc j Hj) as [?|[(t&Ht&Htk)|[[-> ?]|?]]]; [by left| |by right; right; left|by do 3 right].
      destruct (decide (t = me)) as [->|Hne].
      * rewrite set_pc_eq in Htk. cbn in Htk. right. right. left. split; [done|done].
      * right. left. exists t. rewrite Hother in * by done. done.
    + intros j (Hr&Hna'&Hnw&_)%Hlost. pose proof (Hnw me) as Hnm. rewrite set_pc_eq in Hnm. cbn in Hnm.
      split_and!; [lia|lia|done| |intros _ ->; by apply Hnm].
      intros t Ht. destruct (decide (t = me)) as [->|Hne]; [by rewrite set_pc_eq in Ht|].
      pose proof (Hnw t) as Hnt. rewrite Hother in * by done. by apply Hnt.
    + done.
    + done.
  - assert (Hne : k <> _serving_ticket l).
    { intros ->. rewrite Nat.eqb_refl, andb_true_r in Hc. bool_prop. by apply Hns. }
    unfold _skip_abandoned_tickets_locked. cbn [_abandoned_tickets _serving_ticket _owner_thread_id _owner_depth _next_ticket].
    rewrite skip_loop_served.
    2:{ intros [Heq%elem_of_singleton|Hin%Hab]%elem_of_union; [done|lia]. }
    cbn [fst snd]. split; cbn [lock threads _abandoned_tickets _serving_ticket _owner_thread_id _owner_depth _next_ticket].
    + intros t. rewrite notify_lock, Hown. destruct (decide (t = me)) as [->|?]; [by rewrite !set_pc_eq|by rewrite !Hother].
    + intros t. rewrite notify_lock, notify_ticket. intros Ht.
      destruct (decide (t = me)) as [->|?]; [by rewrite set_pc_eq in Ht|]. pose proof (Hserved t) as Hst.
      rewrite Hother in * by done. by apply Hst.
    + done.
    + intros t j Hj. apply (Htaking t j). destruct (decide (t = me)) as [->|?].
      * unfold notify_all in Hj. by rewrite set_pc_eq in Hj.
      * unfold notify_all in Hj. rewrite Hother in * by done. by destruct (ts t).
    + intros t. rewrite notify_waiting, notify_ticket. intros Ht.
      destruct (decide (t = me)) as [->|Hnt]; [by rewrite set_pc_eq in Ht|]. pose proof (Hwait t) as Hwt.
      pose proof (Hdist t me) as Hdt. rewrite !Hother, ?set_pc_eq in * by done. destruct (Hwt Ht) as (H1&H2&H3).
      split_and!; [tauto|tauto| |done]. intros [Heq%elem_of_singleton|Hin]%elem_of_union; [|done].
      apply Hnt. by apply Hdt.
    + intros a b. rewrite !notify_waiting, !notify_ticket. intros Ha Hb Heq.
      destruct (decide (a = me)) as [->|Hna']; [by rewrite set_pc_eq in Ha|].
      destruct (decide (b = me)) as [->|Hnb']; [by rewrite set_pc_eq in Hb|]. rewrite (Hother a) in Ha by done.
      rewrite (Hother b) in Hb by done. rewrite (Hother a), (Hother b) in Heq by done.
      apply Hdist; rewrite ?Hother by done; done.
    + intros j [->%elem_of_singleton|Hj%Hab]%elem_of_union; lia.
    + intros j Hj. destruct (decide (j = k)) as [->|Hnj]; [left; set_solver|].
      destruct (Hacc j Hj) as [?|[(t&Ht&Htk)|?]]; [left; set_solver| |by right; right].
      right. left. exists t. rewrite notify_waiting, notify_ticket.
      destruct (decide (t = me)) as [->|?]; [rewrite set_pc_eq in Htk; cbn in Htk; congruence|].
      rewrite Hother in * by done. done.
    + intros j (Hr&Hna'&Hnw&Hns')%Hlost. pose proof (Hnw me) as Hnm. rewrite set_pc_eq in Hnm. cbn in Hnm.
      split_and!; [lia|lia| | |done].
      * intros [->%elem_of_singleton|Hin]%elem_of_union; [by apply Hnm|done].
      * intros t. rewrite notify_waiting, notify_ticket. intros Ht.
        destruct (decide (t = me)) as [->|?]; [by rewrite set_pc_eq in Ht|].
        pose proof (Hnw t) as Hnt. rewrite Hother in * by done. by apply Hnt.
    + intros _ t a Ht. by eapply notify_awake.
    + done.
  - split; cbn [lock threads]; try done.
    + intros t. rewrite Hown. destruct (decide (t = me)) as [->|?]; [by rewrite !set_pc_eq|by rewrite !Hother].
    + intros t Ht. destruct (decide (t = me)) as [->|?]; [by rewrite set_pc_eq in Ht|]. pose proof (Hserved t) as Hst.
      rewrite Hother in * by done. by apply Hst.
    + intros t j Hj. apply (Htaking t j). destruct (decide (t = me)) as [->|?]; [by rewrite set_pc_eq in Hj|].
      by rewrite Hother in *.
    + intros t Ht. pose proof (Hwait t) as Hwt. destruct (decide (t = me)) as [->|?].
      * rewrite !set_pc_eq in *. by apply Hwt.
      * rewrite !Hother in * by done. by apply Hwt.
    + intros a b Ha Hb Heq. apply Hdist; (destruct (decide (a = me)) as [->|?], (decide (b = me)) as [->|?];
        rewrite ?set_pc_eq, ?Hother in * by done; done).
    + intros j Hj. destruct (Hacc j Hj) as [?|[(t&Ht&Htk)|?]]; [by left| |by right; right].
      right. left. exists t. destruct (decide (t = me)) as [->|?]; rewrite ?set_pc_eq, ?Hother in * by done; done.
    + intros j (Hr&Hna'&Hnw&Hns')%Hlost. split_and!; [lia|lia|done| |done].
      intros t Ht. pose proof (Hnw t) as Hnt. destruct (decide (t = me)) as [->|?];
        rewrite ?set_pc_eq, ?Hother in * by done; by apply Hnt.
    + intros Hn t a Ht. destruct (decide (t = me)) as [->|?].
      * rewrite set_pc_eq in Ht. injection Ht as -> _. rewrite Nat.eqb_refl, andb_true_r in Hc. bool_prop. done.
      * apply (Hawake Hn t). by rewrite Hother in *.
Qed.

(** ** Reachable states *)
Lemma release_hands_on me l flag l' :
  release_lock me l = Some (flag, l') ->
  _owner_thread_id l = Some me /\
  (flag = true -> l' = hand_on l) /\
  (flag = false -> 1 < _owner_depth l /\
     l' = mkLock (_owner_thread_id l) (_owner_depth l - 1) (_next_ticket l) (_serving_ticket l) (_abandoned_tickets l)).
Proof.
  unfold release_lock. destruct (negb _ || _) eqn:Hb; [done|]. bool_prop.
  destruct (1 <? _owner_depth l) eqn:Hd; intros [= <- <-]; (split; [done|]); split; try done.
  intros _. split; [by apply Nat.ltb_lt|done].
Qed.

(** Changing the depth of a held lock. *)
Lemma depth_inv s me k d :
  lock_inv s -> threads s me = Holding k -> 1 <= d ->
  lock_inv (mkSystem (mkLock (_owner_thread_id (lock s)) d (_next_ticket (lock s)) (_serving_ticket (lock s))
                        (_abandoned_tickets (lock s))) (threads s)).
Proof.
  intros Hinv Hme Hd. inv_fields Hinv. assert (Hl : has_lock (threads s me)) by (by rewrite Hme).
  split; cbn [lock threads _abandoned_tickets _serving_ticket _owner_thread_id _owner_depth _next_ticket]; try done.
  - intros Ho. split; [done|]. by apply Hdepth.
  - intros t j Ht. apply Hown in Hl. assert (Hl' : has_lock (threads s t)) by (by rewrite Ht).
    apply Hown in Hl'. assert (t = me) as -> by congruence. congruence.
Qed.

Lemma step_inv s s' : lock_inv s -> step s s' -> lock_inv s'.
Proof.
  intros Hinv Hs. destruct Hs as [s me k Hme Ho|s me expired Hme Ho|s me k a expired Hme Ha|s me k Hme|s me k Hme
                                 |s me k l Hme Hr|s me k l Hme Hr|s me k l Hme Hr].
  - apply (depth_inv s me k (S (_owner_depth (lock s)))); [done|done|lia].
  - apply settle_inv. by apply (take_ticket_inv s me).
  - apply settle_inv. by eapply wake_inv.
  - pose proof Hinv as Hinv'. inv_fields Hinv'.
    assert (Hl : forall t, has_lock (set_pc me (Holding k) (threads s) t) <-> has_lock (threads s t)).
    { intros t. at_thread t me (threads s); [by rewrite Hme|done]. }
    assert (Hw : forall t, is_waiting (set_pc me (Holding k) (threads s) t) <-> is_waiting (threads s t)).
    { intros t. at_thread t me (threads s); [by rewrite Hme|done]. }
    assert (Ht : forall t, ticket_of (set_pc me (Holding k) (threads s) t) = ticket_of (threads s t)).
    { intros t. at_thread t me (threads s); [by rewrite Hme|done]. }
    split; cbn [lock threads]; try done.
    + intros t. by rewrite Hl.
    + intros t. rewrite Hl, Ht. apply Hserved.
    + intros t j Hj. at_thread t me (threads s); [done|]. by eapply Htaking.
    + intros t. rewrite Hw, Ht. apply Hwait.
    + intros a b. rewrite !Hw, !Ht. apply Hdist.
    + intros j Hj. setoid_rewrite Hw. setoid_rewrite Ht. by apply Hacc.
    + intros j Hj. setoid_rewrite Hw. setoid_rewrite Ht. by apply Hlost.
    + intros Hn t a Hta. at_thread t me (threads s); [done|]. by eapply Hawake.
  - apply (hand_on_inv s me); [done|]. by rewrite Hme.
  - apply release_hands_on in Hr as (Ho&_&Hf). destruct (Hf eq_refl) as [Hd ->].
    apply (depth_inv s me k); [done|done|lia].
  - apply release_hands_on in Hr as (Ho&Ht&_). rewrite (Ht eq_refl). apply (hand_on_inv s me); [done|]. by rewrite Hme.
  - done.
Qed.

Lemma steps_inv s s' : lock_inv s -> rtc step s s' -> lock_inv s'.
Proof. intros Hinv Hr. induction Hr as [|x y z Hxy _ IH]; [done|]. by eapply IH, step_inv. Qed.
End lost_tickets.

Definition none_lost : nat -> Prop := fun _ => False.

Lemma reachable_inv s : reachable s -> lock_inv none_lost s.
Proof.
  apply steps_inv. split; cbn; try done; try lia; try set_solver.
Qed.

(** C23: Mutual exclusion: in every reachable state at most one thread is between its
    admission and its release, it is the recorded owner with a positive depth, and the
    ticket being served is its own. *)
Theorem lock_exclusive s a b :
  reachable s -> has_lock (threads s a) -> has_lock (threads s b) ->
  a = b /\ _owner_thread_id (lock s) = Some a /\ 1 <= _owner_depth (lock s) /\
  ticket_of (threads s a) = _serving_ticket (lock s).
Proof.
  intros Hr Ha Hb. apply reachable_inv in Hr. inv_fields Hr. pose proof (Hserved a Ha).
  apply Hown in Ha, Hb. split_and!; [congruence|done| |done]. apply Hdepth. congruence.
Qed.

(** No overtaking: the thread that is admitted or holds the lock has a smaller ticket
    than every thread that waits, and an acquisition that begins now gets a larger
    ticket than all of them. *)
Theorem lock_fifo s me other :
  reachable s -> has_lock (threads s me) -> is_waiting (threads s other) ->
  ticket_of (threads s me) < ticket_of (threads s other) < (take_ticket (lock s)).1.
Proof.
  intros Hr%reachable_inv Hme Hw. inv_fields Hr.
  pose proof (Hserved me Hme) as Hst. destruct (Hwait other Hw) as ([Hge Hlt]&_&Hne).
  apply Hown in Hme. specialize (Hne ltac:(congruence)). cbn. lia.
Qed.

(** C33: No stranded waiter: whenever nobody owns the lock and some thread waits, a thread
    with a ticket no larger is awake and its next step admits it. *)
Theorem lock_progress s t :
  reachable s -> _owner_thread_id (lock s) = None -> is_waiting (threads s t) ->
  exists me k s', threads s me = Waiting k false /\ k <= ticket_of (threads s t) /\
    step s s' /\ threads s' me = Taking k.
Proof.
  intros Hr%reachable_inv Ho Hw. inv_fields Hr. destruct (Hwait t Hw) as ([H1 H2]&_&_).
  destruct (Hacc (_serving_ticket (lock s)) ltac:(lia)) as [Hin|[(me&Hm&Hk)|[[_ Hn]|[]]]]; [apply Hab in Hin; lia| |done].
  destruct (threads s me) as [|k a| |] eqn:Hme; try done. cbn in Hk. subst k.
  rewrite (Hawake Ho me a Hme) in Hme.
  eexists me, (_serving_ticket (lock s)), _. split_and!; [done|lia| |].
  - apply (step_wake s me _ false false Hme). by left.
  - unfold try_admission. rewrite bool_decide_true, Nat.eqb_refl by done. cbn. apply set_pc_eq.
Qed.

(** ** An interrupted wait *)
Lemma interrupt_inv s s' me k a :
  lock_inv none_lost s -> threads s me = Waiting k a ->
  s' = mkSystem (lock s) (set_pc me Idle (threads s)) -> lock_inv (fun j => j = k) s'.
Proof.
  intros Hinv Hme ->. inv_fields Hinv.
  assert (Hw : forall t, is_waiting (set_pc me Idle (threads s) t) -> is_waiting (threads s t) /\ t <> me).
  { intros t Ht. at_thread t me (threads s); done. }
  pose proof (Hwait me) as Hk. rewrite Hme in Hk. cbn in Hk. destruct (Hk I) as (Hrange&Hna&Hns).
  split; cbn [lock threads]; try done.
  - intros t. rewrite Hown. at_thread t me (threads s); [by rewrite Hme|done].
  - intros t Ht. at_thread t me (threads s); [done|by apply Hserved].
  - intros t j Hj. at_thread t me (threads s); [done|by eapply Htaking].
  - intros t Ht. apply Hw in Ht as [Ht Hne]. rewrite set_pc_ne by done. by apply Hwait.
  - intros x y [Hx Hnx]%Hw [Hy Hny]%Hw. rewrite !set_pc_ne by done. by apply Hdist.
  - intros j Hj. destruct (Hacc j Hj) as [?|[(t&Ht&Htk)|[?|[]]]]; [by left| |by right; right; left].
    destruct (decide (t = me)) as [->|Hne]; [rewrite Hme in Htk; cbn in Htk; by do 3 right|].
    right. left. exists t. by rewrite set_pc_ne.
  - intros j ->. split_and!; [lia|lia|done| |done]. intros t [Ht Hne]%Hw. rewrite set_pc_ne by done.
    intros Heq. apply Hne, Hdist; [done|by rewrite Hme|by rewrite Hme].
  - intros Ho t b Ht. at_thread t me (threads s); [done|by eapply Hawake].
Qed.

(** C39: An exception that leaves the wait, such as [KeyboardInterrupt], blocks the lock
    for good: the ticket of the interrupted thread is neither served nor abandoned, so
    whatever happens afterwards no thread with a later ticket is ever admitted, and
    once the earlier tickets are done every acquisition can only time out. *)
Theorem interrupted_wait_blocks s me k a s1 s2 t :
  reachable s -> threads s me = Waiting k a ->
  s1 = mkSystem (lock s) (set_pc me Idle (threads s)) -> interrupt s s1 -> rtc step s1 s2 ->
  _serving_ticket (lock s2) <= k < _next_ticket (lock s2) /\
  (has_lock (threads s2 t) -> ticket_of (threads s2 t) < k).
Proof.
  intros Hr%reachable_inv Hme Hs1 _ Hs2. pose proof (interrupt_inv _ _ _ _ _ Hr Hme Hs1) as Hinv.
  apply (steps_inv _ _ _ Hinv) in Hs2. inv_fields Hs2. destruct (Hlost k eq_refl) as (Hrange&_&_&Hns).
  split; [done|]. intros Hl. rewrite (Hserved t Hl). apply Hown in Hl. specialize (Hns ltac:(congruence)). lia.
Qed.

(** ** Witnesses on two threads *)
Definition acquired (me : thread) (s : system) : system :=
  let '(ticket, l) := take_ticket (lock s) in
  settle_admission me ticket (try_admission me ticket false l) l (threads s).

(** Thread 1 is admitted, takes the file lock, then thread 2 waits, then thread 1
    releases. *)
Definition s_taking : system := acquired 1 start.
Definition s_holding : system := mkSystem (lock s_taking) (set_pc 1 (Holding 0) (threads s_taking)).
Definition s_contended : system := acquired 2 s_holding.
Definition s_released : system :=
  mkSystem (hand_on (lock s_contended)) (notify_all (set_pc 1 Idle (threads s_contended))).

Lemma reach_holding : reachable s_holding.
Proof.
  apply (rtc_l _ _ s_taking); [apply (step_acquire start 1 false); done|].
  apply rtc_once. by apply (step_taken s_taking 1 0).
Qed.
Lemma reach_contended : reachable s_contended.
Proof. eapply rtc_r; [apply reach_holding|]. by apply (step_acquire s_holding 2 false). Qed.
Lemma reach_released : reachable s_released.
Proof. eapply rtc_r; [apply reach_contended|]. by apply (step_hand_on s_contended 1 0). Qed.

Lemma lock_exclusive_witness :
  has_lock (threads s_contended 1) /\ _owner_thread_id (lock s_contended) = Some 1.
Proof.
  assert (Hl : has_lock (threads s_contended 1)) by exact I. split; [exact Hl|].
  apply (lock_exclusive s_contended 1 1 reach_contended Hl Hl).
Defined.

Lemma lock_fifo_witness :
  ticket_of (threads s_contended 1) < ticket_of (threads s_contended 2) < 2.
Proof. exact (lock_fifo s_contended 1 2 reach_contended I I). Defined.

Lemma lock_progress_witness :
  exists me k s', threads s_released me = Waiting k false /\ k <= 1 /\
    step s_released s' /\ threads s' me = Taking k.
Proof. exact (lock_progress s_released 2 reach_released eq_refl I). Defined.

Lemma interrupted_wait_blocks_witness :
  threads s_contended 2 = Waiting 1 true /\
  _serving_ticket (lock (mkSystem (lock s_contended) (set_pc 2 Idle (threads s_contended)))) <= 1.
Proof.
  split; [reflexivity|].
  apply (interrupted_wait_blocks s_contended 2 1 true _ _ 3 reach_contended eq_refl eq_refl
    (interrupt_wait s_contended 2 1 true eq_refl) (rtc_refl _ _)).
Defined.
