(* ===== verification/JobLifecycle.v ===== *)
(** * The life of a job ([queue_jobs.py])

    Every call that changes a job between its submission and its end: metadata and state
    updates, cancellation and its acknowledgement; the index of active jobs, its repair
    and the capacity it bounds; and the listings that read jobs. *)

From S2P Require Import Prelude Sha256 Json Identifiers Models Store OrderIndex JobIndex Events SchedulerCancel.
From S2P Require Import LeaseRecords LeaseTransitions LeaseAdmission OwnerSessions Decimal.
From stdpp Require Import base list gmap strings.
From Stdlib Require Import ZArith Lia.
From Stdlib Require Ascii String.
Open Scope Z_scope.

(** ** Copies of a job *)

(** [job.model_copy(update={"updated_at": ..., "metadata": ...})] *)
Definition metadata_copy (j : RelayJob) (meta : list (string * json)) (now : Z) : RelayJob :=
  mkJob (job_id j) (job_cluster j) (job_kind j) (job_state j) (job_spec j) (idempotency_key j)
    (owner_session_id j) (owner_session_generation_id j) (used_artifact_refs j) (submission_digest j)
    (job_created_at j) now (leased_by j) (job_attempts j) (job_last_error j) (storage_reservation j) meta.

(** The copy of [update_job_state]; [owner] is [leased_by], or [None] when it is unset. *)
Definition state_copy (j : RelayJob) (st : JobState) (error : option string) (owner : option (option string))
    (now : Z) : RelayJob :=
  mkJob (job_id j) (job_cluster j) (job_kind j) st (job_spec j) (idempotency_key j)
    (owner_session_id j) (owner_session_generation_id j) (used_artifact_refs j) (submission_digest j)
    (job_created_at j) now (default (leased_by j) owner) (job_attempts j) error (storage_reservation j)
    (metadata j).

(** The copy that ends a canceled job. *)
Definition canceled_copy (j : RelayJob) (meta : list (string * json)) (now : Z) : RelayJob :=
  mkJob (job_id j) (job_cluster j) (job_kind j) CANCELED (job_spec j) (idempotency_key j)
    (owner_session_id j) (owner_session_generation_id j) (used_artifact_refs j) (submission_digest j)
    (job_created_at j) now None (job_attempts j) None (storage_reservation j) meta.

(** ** The request in a canceled job's metadata *)
Definition cancellation_document (previous : JobState) (cancel_scheduler : bool) (now : Z) : list (string * json) :=
  [("schema_version", JStr "clio-relay.cancellation-request.v1"); ("requested_at", JStr (isoformat now));
   ("previous_state", JStr (JobState_value previous)); ("cancel_scheduler", JBool cancel_scheduler)].

(** [dict(request)] with its acknowledgement. *)
Definition acknowledged (request : list (string * json)) (now : Z) : list (string * json) :=
  dict_set "cleanup_acknowledged" (JBool true) (dict_set "acknowledged_at" (JStr (isoformat now)) request).

Definition canceled_payload : list (string * json) :=
  [("state", JStr (JobState_value CANCELED)); ("error", JNull); ("cleanup_acknowledged", JBool true)].

Definition state_event_type (st : JobState) : string := "job." +:+ JobState_value st.
(** [message or f"Job {state.value}"] *)
Definition state_message (message : option string) (st : JobState) : string :=
  match message with
  | Some m => if str_nonempty m then m else "Job " +:+ JobState_value st
  | None => "Job " +:+ JobState_value st
  end.

Section lifecycle.
Context `{JobDerived}.

(** ** Updates *)
Definition update_job_metadata (jid : string) (meta : list (string * json)) : M disk RelayJob :=
  jid ← lift (require_durable_record_id (JStr jid) "job_id");
  _ ← _recover_pending_transitions_unlocked;
  job ← get_job jid;
  let updated := dict_update (metadata job) meta in
  _ ← (if bool_decide (get_value "owner_session_id" (metadata job) = None) then
         lift (_validate_new_owner_session_metadata updated)
       else mret tt);
  now ← utc_now;
  let job := metadata_copy job updated now in
  _ ← write_job job;
  mret job.

Definition update_job_state (jid : string) (st : JobState) (message error : option string)
    (owner : option (option string)) : M disk RelayJob :=
  jid ← lift (require_durable_record_id (JStr jid) "job_id");
  _ ← match owner with
      | Some (Some o) => _ ← lift (require_durable_record_id (JStr o) "leased_by"); mret tt
      | _ => mret tt
      end;
  _ ← _recover_pending_transitions_unlocked;
  job ← get_job jid;
  _ ← ensure (negb (is_terminal (job_state job) && negb (bool_decide (st = job_state job))))
        (QueueConflictError "cannot change terminal job ");
  now ← utc_now;
  let job := state_copy job st error owner now in
  _ ← write_job job;
  _ ← append_event jid (state_event_type st) (state_message message st)
        (Some [("state", JStr (JobState_value st)); ("error", JOptStr error)]);
  mret job.

(** ** Cancellation *)

(** The canceled or to-be-canceled copy of an active job. *)
Definition cancellation_copy (job : RelayJob) (cancel_scheduler : bool) (now : Z) : RelayJob :=
  let request := cancellation_document (job_state job) cancel_scheduler now in
  let meta r := dict_set "cancellation_request" (JObj r) (metadata job) in
  if bool_decide (job_state job = QUEUED) then canceled_copy job (meta (acknowledged request now)) now
  else metadata_copy job (meta request) now.

Definition cancel_job_if_active (jid : string) (cancel_scheduler : bool) (expected_state : option JobState)
    (expected_updated_at : option Z) : M disk (RelayJob * bool) :=
  jid ← lift (require_durable_record_id (JStr jid) "job_id");
  _ ← _recover_pending_transitions_unlocked;
  job ← get_job jid;
  if is_terminal (job_state job)
     || negb (opt_forall (fun st => bool_decide (job_state job = st)) expected_state)
     || negb (opt_forall (fun t => job_updated_at job =? t) expected_updated_at)
  then mret (job, false)
  else
    now ← utc_now;
    _ ← (if cancel_scheduler then
           let request := cancellation_document (job_state job) cancel_scheduler now in
           _ ← _ensure_scheduler_cancel_pending_unlocked
                 (metadata_copy job (dict_set "cancellation_request" (JObj request) (metadata job)) now)
                 now "operator_request";
           mret tt
         else mret tt);
    let requested := cancellation_copy job cancel_scheduler now in
    _ ← write_job requested;
    _ ← append_event jid "job.cancel_requested" "Cancellation requested"
          (Some [("previous_state", JStr (JobState_value (job_state job)));
                 ("cancel_scheduler", JBool cancel_scheduler)]);
    _ ← (if bool_decide (job_state requested = CANCELED) then
           _ ← append_event jid "job.canceled" "Job canceled" (Some canceled_payload); mret tt
         else mret tt);
    mret (requested, true).

Definition acknowledge_job_cancellation (jid : string) : M disk RelayJob :=
  jid ← lift (require_durable_record_id (JStr jid) "job_id");
  _ ← _recover_pending_transitions_unlocked;
  job ← get_job jid;
  if bool_decide (job_state job = CANCELED) then mret job
  else
    _ ← ensure (negb (is_terminal (job_state job)))
          (QueueConflictError "cannot acknowledge cancellation for terminal job ");
    match dict_get "cancellation_request" (metadata job) with
    | Some (JObj request) =>
        now ← utc_now;
        let canceled :=
          canceled_copy job (dict_set "cancellation_request" (JObj (acknowledged request now)) (metadata job)) now in
        _ ← write_job canceled;
        _ ← append_event jid "job.canceled" "Job cancellation cleanup acknowledged" (Some canceled_payload);
        mret canceled
    | _ => raise (QueueConflictError "job ")
    end.

(** ** The index of active jobs *)
Definition active_dir : path := ["jobs_active"].

(** [read_json_file(path, RelayJob)] *)
Definition read_indexed_job (p : path) : M disk RelayJob :=
  d ← read_doc p;
  match d with
  | Some (DJob j) => _ ← ensure (valid_job j) (ValidationError "RelayJob"); mret j
  | Some _ => raise (ValidationError "RelayJob")
  | None => raise (OSError "FileNotFoundError")
  end.

(** One round of the loop of [_repair_active_job_index_unlocked]. *)
Definition repair_active_entry (p : path) : M disk unit :=
  indexed ← read_indexed_job p;
  canonical ← read_optional_job (job_id indexed);
  match canonical with
  | Some j =>
      if is_terminal (job_state j) then
        _ ← unlink_durable_path p; unlink_durable_path ["jobs_queued"; json_name (job_id indexed)]
      else
        _ ← write_doc p (DJob j);
        if bool_decide (job_state j = QUEUED) then write_doc ["jobs_queued"; json_name (job_id j)] (DJob j)
        else unlink_durable_path ["jobs_queued"; json_name (job_id j)]
  | None => _ ← unlink_durable_path p; unlink_durable_path ["jobs_queued"; json_name (job_id indexed)]
  end.

Definition _repair_active_job_index_unlocked : M disk unit :=
  paths ← bounded_json_record_paths active_dir (Z.to_nat MAX_ACTIVE_JOB_RECORDS);
  for_each repair_active_entry paths.

Fixpoint get_jobs (jobs : list RelayJob) : M disk (list RelayJob) :=
  match jobs with
  | [] => mret []
  | j :: rest => job ← get_job (job_id j); js ← get_jobs rest; mret (job :: js)
  end.

Definition scan_active_jobs (limit : Z) : M disk (list RelayJob * bool) :=
  _ ← _recover_pending_transitions_unlocked;
  _ ← _repair_active_job_index_unlocked;
  indexed ← scan_many_job active_dir (Z.to_nat limit);
  jobs ← get_jobs indexed.1;
  ordered ← in_submission_order jobs;
  mret (ordered, indexed.2).

(** What [except (QueueConflictError, ValueError)] catches; pydantic's error is a
    [ValueError]. *)
Definition conflict_or_value (e : exn) : bool :=
  match e with QueueConflictError _ | ValueError _ | ValidationError _ => true | _ => false end.

(** Whether the repair went through; other errors pass. *)
Definition catch_repair (m : M disk unit) : M disk bool := fun s =>
  match m s with
  | (Ok _, s') => (Ok true, s')
  | (Err e, s') => if conflict_or_value e then (Ok false, s') else (Err e, s')
  end.

(** The handler of [_ensure_active_job_capacity_unlocked]. *)
Definition refuse_at_capacity (initial : Z) (m : M disk unit) : M disk unit := fun s =>
  match m s with
  | (Err e, s') =>
      if conflict_or_value e && (MAX_ACTIVE_JOB_RECORDS <=? initial)
      then (Err (QueueConflictError "active_job_capacity_reached: active job capacity "), s')
      else (Err e, s')
  | r => r
  end.

Definition active_count : M disk (Z * bool) := bounded_regular_json_count active_dir MAX_ACTIVE_JOB_RECORDS.

Definition active_job_capacity : M disk (list (string * json)) :=
  _ ← _recover_pending_transitions_unlocked;
  before ← active_count;
  repaired ← catch_repair _repair_active_job_index_unlocked;
  counted ← if (repaired : bool) then active_count else mret before;
  mret [("limit", JInt MAX_ACTIVE_JOB_RECORDS); ("used", JInt counted.1);
        ("remaining", JInt (Z.max 0 (MAX_ACTIVE_JOB_RECORDS - counted.1)));
        ("over_capacity", JBool counted.2)].

(** The counting loop of [_ensure_active_job_capacity_unlocked]. *)
Fixpoint check_capacity (entries : list (path * doc)) (count : Z) : result unit :=
  match entries with
  | [] => Ok tt
  | e :: rest =>
      if negb (ends_with ".json" (default "" (last e.1))) then
        Err (QueueConflictError "active job index contains an unsafe record: ")
      else if MAX_ACTIVE_JOB_RECORDS <=? count + 1 then
        Err (QueueConflictError "active_job_capacity_reached: active job capacity ")
      else check_capacity rest (count + 1)
  end.

Definition _ensure_active_job_capacity_unlocked (job : RelayJob) : M disk unit :=
  if negb (bool_decide (job_state job = QUEUED)) then mret tt
  else
    before ← active_count;
    _ ← refuse_at_capacity before.1 _repair_active_job_index_unlocked;
    entries ← scandir active_dir;
    lift (check_capacity entries 0).

(** ** Events of a queued job *)
Definition _ensure_job_queued_event (job : RelayJob) : M disk unit :=
  present ← path_exists (seq_path (event_dir (job_id job)) 1);
  if (present : bool) then mret tt
  else
    _ ← _update_job_index_unlocked (job_id job) [("latest_event_seq", JInt 0)];
    _ ← append_event (job_id job) "job.queued" "Job queued" None; mret tt.

(** ** Reading jobs *)
Definition list_jobs : M disk (list RelayJob) :=
  scanned ← scan_many_job ["jobs"] (Z.to_nat MAX_BOUNDED_SCAN_RECORDS);
  _ ← ensure (negb scanned.2)
        (QueueConflictError "canonical record family exceeds the bounded read limit of ");
  in_submission_order scanned.1.

(** [read_optional(path, JobTombstone)]; [job_tombstones] is a flat family. *)
Definition read_optional_tombstone (jid : string) : M disk (option JobTombstone) :=
  d ← read_doc ["job_tombstones"; json_name jid];
  match d with
  | None => mret None
  | Some (DTombstone t) =>
      _ ← ensure (valid_tombstone t) (ValidationError "JobTombstone");
      _ ← ensure (bool_decide (tomb_job_id t = jid))
            (QueueConflictError "canonical job tombstone identity mismatch: ");
      mret (Some t)
  | Some _ => raise (ValidationError "JobTombstone")
  end.

Definition get_job_tombstone (jid : string) : M disk (option JobTombstone) :=
  jid ← lift (require_durable_record_id (JStr jid) "job_id");
  read_optional_tombstone jid.

(** ** The jobs of one owner-session generation *)

(** The checks on one membership record and its job. *)
Definition owned_job (owner : string) (generation : option string) (p : path) : M disk RelayJob :=
  d ← read_doc p;
  match d with
  | Some (DMembership x) =>
      _ ← ensure (valid_membership x) (ValidationError "OwnerSessionJobMembership");
      _ ← ensure (bool_decide (member_owner_session_id x = owner) &&
                  bool_decide (member_generation_id x = generation))
            (QueueConflictError "owner-session membership identity mismatch: ");
      job ← get_job (member_job_id x);
      _ ← ensure (is_string owner (dict_get "owner_session_id" (metadata job)) &&
                  match generation with
                  | Some g => is_string g (dict_get "owner_session_generation_id" (metadata job))
                  | None => bool_decide (get_value "owner_session_generation_id" (metadata job) = None)
                  end)
            (QueueConflictError "owner-session membership target mismatch: ");
      mret job
  | Some _ => raise (ValidationError "OwnerSessionJobMembership")
  | None => raise (OSError "FileNotFoundError")
  end.

Fixpoint owned_jobs (owner : string) (generation : option string) (dir : path) (cluster : option string)
    (include_terminal : bool) (names : list string) : M disk (list RelayJob) :=
  match names with
  | [] => mret []
  | name :: rest =>
      job ← owned_job owner generation (dir ++ [name]);
      jobs ← owned_jobs owner generation dir cluster include_terminal rest;
      mret (if opt_forall (fun c => bool_decide (job_cluster job = c)) cluster
               && (include_terminal || negb (is_terminal (job_state job)))
            then job :: jobs else jobs)
  end.

Definition str_ltb (a b : string) : bool := str_leb a b && negb (bool_decide (a = b)).

(** [Path(cursor).name == cursor] for a name that ends with [.json]: it has no separator. *)
Definition is_file_name (name : string) : bool := str_forall (fun c => negb (N.eqb (code c) 47)) name.

Definition list_owner_session_jobs_page (owner : string) (generation : option string) (cursor : option string)
    (limit : json) (cluster : option string) (include_terminal : bool)
  : M disk (list RelayJob * option string * nat * nat) :=
  _ ← nonempty_owner owner;
  generation ← match generation with
               | Some g => g ← require_generation g; mret (Some g)
               | None => mret None
               end;
  limit ← lift (validate_response_page_limit limit);
  _ ← require_index_migration_complete;
  let dir := _owner_session_membership_dir owner generation in
  counted ← bounded_regular_json_count dir MAX_ACTIVE_JOB_RECORDS;
  _ ← ensure (negb counted.2) (QueueConflictError "owner-session job membership exceeds its supported capacity");
  entries ← scandir dir;
  let all_names := sort_by str_leb ((fun e => default "" (last e.1)) <$> entries) in
  names ← match cursor with
          | None => mret all_names
          | Some c =>
              _ ← ensure (ends_with ".json" c && is_file_name c)
                    (ValueError "owner-session membership cursor is invalid");
              mret (List.filter (str_ltb c) all_names)
          end;
  let window := take (Z.to_nat limit) names in
  jobs ← owned_jobs owner generation dir cluster include_terminal window;
  mret (jobs, if (length window <? length names)%nat then last window else None, length all_names, length window).
End lifecycle.
