(* ===== verification/JobFrames.v ===== *)
(** * Calls that leave the job files alone

    Most of what the queue does never writes a canonical job or an entry of the indexes
    of active and queued jobs.  Each frame says so of one call, whatever it raises and
    wherever it stops. *)

From S2P Require Import Prelude Sha256 Json Identifiers Models Store OrderIndex OrderIndexProofs JobIndex Events SchedulerCancel.
From S2P Require Import LeaseRecords LeaseCapacity LeaseIndexes LeaseTransitions LeaseAdmission Recovery JournalStages.
From S2P Require Import OwnerSessions OwnerSessionsRuns JobLifecycle Decimal.
From stdpp Require Import base list gmap strings.
From Stdlib Require Import ZArith Lia.
From Stdlib Require Ascii String.
Open Scope Z_scope.

(** The families most calls leave alone, and the files outside some of them. *)
Definition quiet_families : list string := ["jobs"; "jobs_active"; "jobs_queued"; "idempotency"; "gateway_sessions"; "tasks"].

Class Quiet (F : list string) : Prop := quiet : F ⊆ quiet_families.

Definition outside (F : list string) (p : path) : Prop := default "" (head p) ∉ F.

Lemma not_outside F p : ~ outside F p -> default "" (head p) ∈ F.
Proof. unfold outside. destruct (decide (default "" (head p) ∈ F)); tauto. Qed.

Lemma outside_head F `{!Quiet F} f q : bool_decide (f ∈ quiet_families) = false -> outside F (f :: q).
Proof. intros Hf%bool_decide_eq_false Hin. by apply Hf, quiet. Qed.

#[export] Hint Extern 1 (outside _ _) => eapply outside_head; [typeclasses eauto|reflexivity] : touches.

#[export] Hint Extern 1 (Quiet _) => typeclasses eauto : touches.

Ltac frame := repeat step_touches.
Ltac frame_loop l IH := induction l as [|? l IH]; intros; cbn; frame; try apply IH.

Section frames.
Context `{ExecutionCleanup} (F : list string) {HF : Quiet F}.

#[local] Abbreviation apart := (outside F).

Lemma touches_catch {A : Type} (m : M disk A) : touches apart m -> touches apart (catch_not_found m).
Proof.
  intros Hm s p Hp. unfold catch_not_found. specialize (Hm s p Hp).
  destruct (m s) as [[a|[]] s']; exact Hm.
Qed.
Lemma touches_rewrap {A : Type} text (m : M disk A) : touches apart m -> touches apart (rewrap text m).
Proof.
  intros Hm s p Hp. unfold rewrap. specialize (Hm s p Hp). destruct (m s) as [[a|[]] s']; exact Hm.
Qed.
#[local] Hint Resolve touches_catch touches_rewrap : touches.

Lemma touches_read_job jid : touches apart (read_optional_job jid).
Proof. unfold read_optional_job. frame. Qed.
Lemma touches_get_job jid : touches apart (get_job jid).
Proof. unfold get_job, read_required_job. frame. Qed.
Lemma touches_migration : touches apart require_index_migration_complete.
Proof. unfold require_index_migration_complete. frame. Qed.
Lemma touches_migrated : touches apart _lease_capacity_migration_complete_unlocked.
Proof. unfold _lease_capacity_migration_complete_unlocked. frame. Qed.
Lemma touches_read_lease lid : touches apart (read_optional_lease lid).
Proof. unfold read_optional_lease. frame. Qed.
Lemma touches_read_json p : touches apart (read_json_document p).
Proof. unfold read_json_document. frame. Qed.
Lemma touches_index_token a b : touches apart (_read_lease_index_identity_by_token a b).
Proof. unfold _read_lease_index_identity_by_token. frame. Qed.
Lemma touches_new_lease jid endpoint ttl : touches apart (new_lease jid endpoint ttl).
Proof. unfold new_lease. frame. Qed.
#[local] Hint Resolve touches_read_job touches_get_job touches_migration touches_migrated touches_read_lease : touches.
#[local] Hint Resolve touches_read_json touches_index_token touches_new_lease : touches.
Lemma touches_index lid : touches apart (_read_lease_index_identity lid).
Proof. unfold _read_lease_index_identity. frame. Qed.
Lemma touches_empty_ref p label : touches apart (_require_empty_lease_ref p label).
Proof. unfold _require_empty_lease_ref, file_size. frame. Qed.
#[local] Hint Resolve touches_index touches_empty_ref : touches.

Lemma touches_each {A : Type} (f : A -> M disk unit) l : (forall x, touches apart (f x)) -> touches apart (for_each f l).
Proof. intros Hf. by apply touches_for_each. Qed.

(** *** The capacity pair *)
Lemma touches_settle tr after missing : touches apart (settle_capacity tr after missing).
Proof.
  assert (Ha : forall v, touches apart (_apply_lease_capacity_transition_unlocked v after)).
  { intros v. eapply touches_weaken, touches_apply. by intros p [-> | ->]; by apply outside_head. }
  unfold settle_capacity. frame; apply Ha.
Qed.
Lemma touches_apply_transition v after : touches apart (_apply_lease_capacity_transition_unlocked v after).
Proof. eapply touches_weaken, touches_apply. by intros p [-> | ->]; by apply outside_head. Qed.
Lemma touches_pair : touches apart _read_lease_capacity_aggregate_unlocked.
Proof.
  unfold _read_lease_capacity_aggregate_unlocked, _read_lease_capacity_components_unlocked,
    _lease_capacity_record_paths_unlocked, _read_unique_json_document. frame.
Qed.
#[local] Hint Resolve touches_settle touches_apply_transition touches_pair : touches.
Lemma touches_snapshot cluster : touches apart (_lease_capacity_snapshot cluster).
Proof. unfold _lease_capacity_snapshot. frame. Qed.
Lemma touches_prepare deltas rollback : touches apart (_prepare_lease_capacity_transition_unlocked deltas rollback).
Proof. unfold _prepare_lease_capacity_transition_unlocked. frame. Qed.
#[local] Hint Resolve touches_snapshot touches_prepare : touches.

(** *** The lease indexes *)
Lemma written_apart i p : p ∈ written_refs i -> apart p.
Proof.
  unfold written_refs. rewrite !elem_of_cons, elem_of_nil.
  intros Hp. repeat destruct Hp as [->|Hp]; try done; by apply outside_head.
Qed.
Lemma removed_apart i p : p ∈ removed_refs i -> apart p.
Proof.
  unfold removed_refs. rewrite !elem_of_cons, elem_of_nil.
  intros Hp. repeat destruct Hp as [->|Hp]; try done; by apply outside_head.
Qed.
Lemma touches_sync l job previous : touches apart (sync_operational_indexes l job previous).
Proof.
  unfold sync_operational_indexes, unlink_stale_refs, _write_lease_index_identity_unlocked. frame.
  all: apply touches_for_each; intros p Hp; frame; eauto using touches_unlink, touches_write, written_apart, removed_apart.
Qed.
Lemma touches_drop_indexes i foreign : touches apart (_delete_lease_operational_indexes_unlocked i foreign).
Proof.
  unfold _delete_lease_operational_indexes_unlocked. frame.
  apply touches_for_each; intros p Hp. eauto using touches_unlink, removed_apart.
Qed.
#[local] Hint Resolve touches_sync touches_drop_indexes : touches.

(** *** Events, the job index and the global order *)
Lemma touches_job_index jid : touches apart (read_job_index jid).
Proof. unfold read_job_index. frame. Qed.
#[local] Hint Resolve touches_job_index : touches.
Lemma touches_update_index jid updates : touches apart (_update_job_index_unlocked jid updates).
Proof. unfold _update_job_index_unlocked. frame. Qed.
Lemma touches_increment jid field updates : touches apart (increment_job_index jid field updates).
Proof. unfold increment_job_index. frame. Qed.
Lemma touches_index_exists jid : touches apart (_job_index_exists jid).
Proof. unfold _job_index_exists. frame. Qed.
#[local] Hint Resolve touches_update_index touches_increment touches_index_exists : touches.

Lemma touches_next_after text n dir c : touches apart (next_after text n dir c).
Proof. revert c. induction n as [|n IH]; intros c; cbn [next_after]; frame. Qed.
#[local] Hint Resolve touches_next_after : touches.
Lemma touches_next_event jid : touches apart (_next_event_seq jid).
Proof. unfold _next_event_seq. frame. Qed.
#[local] Hint Resolve touches_next_event : touches.
Lemma touches_append jid type_ message payload : touches apart (append_event jid type_ message payload).
Proof. unfold append_event, _append_event_unlocked. frame. Qed.
Lemma touches_optional_event jid seq : touches apart (read_optional_event jid seq).
Proof. unfold read_optional_event. frame. Qed.
#[local] Hint Resolve touches_append touches_optional_event : touches.
Lemma touches_recovery_event event : touches apart (_write_recovery_event_unlocked event).
Proof. unfold _write_recovery_event_unlocked. frame. Qed.

Lemma touches_ensure_global family rid : touches apart (ensure_global family rid).
Proof. unfold ensure_global, _ensure_global_sequence, _read_global_record, _read_global_head. frame. Qed.
#[local] Hint Resolve touches_recovery_event touches_ensure_global : touches.
Lemma touches_order_keys jobs : touches apart (with_order_keys jobs).
Proof. induction jobs as [|j jobs IH]; cbn; unfold _job_submission_order_key_unlocked; frame; apply IH. Qed.
#[local] Hint Resolve touches_order_keys : touches.
Lemma touches_order jobs : touches apart (in_submission_order jobs).
Proof.
  unfold in_submission_order. frame.
Qed.
#[local] Hint Resolve touches_order : touches.

(** *** Scans *)
Lemma touches_scan_many {A : Type} (read : path * doc -> result A) dir limit : touches apart (scan_many read dir limit).
Proof. unfold scan_many. frame. Qed.
Lemma touches_lease_scan dir limit : touches apart (scan_many_lease dir limit).
Proof. apply touches_scan_many. Qed.
Lemma touches_job_scan dir limit : touches apart (scan_many_job dir limit).
Proof. apply touches_scan_many. Qed.
Lemma touches_count dir limit : touches apart (bounded_regular_json_count dir limit).
Proof. unfold bounded_regular_json_count. frame. Qed.
Lemma touches_expiry_refs text : touches apart (all_expiry_refs text).
Proof. unfold all_expiry_refs, _scan_expiry_refs. frame. Qed.
Lemma touches_endpoint_refs endpoint limit : touches apart (_scan_lease_endpoint_refs endpoint limit).
Proof. unfold _scan_lease_endpoint_refs. frame. Qed.
Lemma touches_record_paths dir limit : touches apart (bounded_json_record_paths dir limit).
Proof. unfold bounded_json_record_paths. frame. Qed.
Lemma touches_read_intents paths : touches apart (read_intents paths).
Proof. induction paths as [|p paths IH]; cbn; frame; apply IH. Qed.
Lemma touches_expired_now leases : touches apart (expired_now leases).
Proof. induction leases as [|l leases IH]; cbn; frame; apply IH. Qed.
#[local] Hint Resolve touches_scan_many touches_lease_scan touches_job_scan touches_count touches_expiry_refs
  touches_endpoint_refs touches_record_paths : touches.
#[local] Hint Resolve touches_read_intents touches_expired_now : touches.

Lemma touches_mcp_count cluster class refs : touches apart (_active_mcp_admission_count_unlocked cluster class refs).
Proof.
  assert (Hl : forall rs n, touches apart (mcp_count_loop cluster class rs n)).
  { induction rs as [|r rs IH]; intros n; cbn [mcp_count_loop]; frame; apply IH. }
  unfold _active_mcp_admission_count_unlocked. frame; apply Hl.
Qed.
Lemma active_lease_frame endpoint refs : touches apart (_active_lease_for_endpoint endpoint refs).
Proof.
  assert (Hl : forall rs active, touches apart (active_leases endpoint rs active)).
  { induction rs as [|r rs IH]; intros active; cbn [active_leases]; frame; apply IH. }
  unfold _active_lease_for_endpoint. frame; apply Hl.
Qed.
Lemma touches_due cluster now refs : touches apart (_due_expired_leases_unlocked cluster now refs).
Proof.
  assert (Hl : forall rs due, touches apart (due_leases cluster now rs due)).
  { induction rs as [|r rs IH]; intros due; cbn [due_leases]; frame; apply IH. }
  unfold _due_expired_leases_unlocked. frame; apply Hl.
Qed.
Lemma touches_observation j : touches apart (_job_has_scheduler_observation_unlocked j).
Proof. unfold _job_has_scheduler_observation_unlocked. frame. Qed.
Lemma touches_check_expired j l : touches apart (check_expired_lease j l).
Proof. unfold check_expired_lease. frame. Qed.
Lemma touches_check_recovered current j l : touches apart (check_recovered_lease current j l).
Proof. unfold check_recovered_lease. frame. Qed.
#[local] Hint Resolve touches_mcp_count active_lease_frame touches_due touches_observation : touches.
#[local] Hint Resolve touches_check_expired touches_check_recovered : touches.

(** *** The parts with files of their own *)
Lemma derived_apart p : ~ apart p -> default "" (head p) ∉ derived_families.
Proof.
  intros Hp%not_outside%quiet. pose proof derived_families_apart as Hf. rewrite Forall_forall in Hf.
  apply Hf. revert Hp. unfold quiet_families. rewrite !elem_of_cons, elem_of_nil.
  intros [-> |[-> |[-> |[-> |[-> |[]]]]]]; set_solver.
Qed.
Lemma touches_migrate cluster jid : touches apart (_migrate_execution_cleanup_shard_unlocked cluster jid).
Proof. intros s p Hp. by apply migrate_frame, derived_apart. Qed.
Lemma touches_session job : touches apart (_sync_owner_session_job_membership_unlocked job).
Proof. intros s p Hp. by apply owner_session_frame, derived_apart. Qed.
Lemma touches_source jid source meta : touches apart (_sync_scheduler_source_unlocked jid source meta).
Proof. intros s p Hp. by apply scheduler_source_frame, derived_apart. Qed.
Lemma touches_gateway_sync sid : touches apart (_sync_gateway_session_derived_unlocked sid).
Proof. intros s p Hp. by apply gateway_session_frame, derived_apart. Qed.
Lemma touches_ordered family jid sequence d : bool_decide (family +:+ "_order_by_job" ∈ quiet_families) = false ->
  touches apart (_write_ordered_job_record family jid sequence d).
Proof. intros Hf. unfold _write_ordered_job_record. frame. apply touches_write. eapply outside_head; [exact HF|exact Hf]. Qed.
Lemma touches_initialize jid : touches apart (_initialize_job_index_unlocked jid).
Proof. unfold _initialize_job_index_unlocked. frame. Qed.
#[local] Hint Resolve touches_initialize touches_source touches_gateway_sync : touches.
Lemma record_path_outside f a b p : bool_decide (f ∈ quiet_families) = false -> job_record_path f a b = Ok p -> apart p.
Proof.
  unfold job_record_path. intros Hf (x&_&(y&_&[= <-])%bind_ok)%bind_ok. eapply outside_head; [exact HF|exact Hf].
Qed.
Lemma touches_lift_bind {A B : Type} (r : result A) (k : A -> M disk B) :
  (forall a, r = Ok a -> touches apart (k a)) -> touches apart (a ← lift r; k a).
Proof. intros Hk s p Hp. unfold lift, mbind, M_bind. destruct r as [a|e]; [|done]. by apply (Hk a). Qed.
Lemma touches_retention t : touches apart (_sync_task_retention_indexes_unlocked t).
Proof.
  unfold _sync_task_retention_indexes_unlocked. apply touches_lift_bind. intros q Hq%record_path_outside; [|done]. frame.
Qed.
#[local] Hint Resolve touches_retention : touches.
Lemma touches_task_derived t : touches apart (_sync_task_derived_unlocked t).
Proof.
  unfold _sync_task_derived_unlocked. apply touches_bind; [auto with touches|intros ?].
  apply touches_lift_bind. intros q Hq%record_path_outside; [|done]. frame; by apply touches_ordered.
Qed.
Lemma touches_read_task tid : touches apart (read_optional_task tid).
Proof. unfold read_optional_task. frame. Qed.
#[local] Hint Resolve touches_task_derived touches_read_task : touches.
Lemma touches_task_replay p tid : apart p -> touches apart (replay_task_sync p tid).
Proof. intros Hp. unfold replay_task_sync. frame. Qed.
Lemma touches_gateway_replay p sid : apart p -> touches apart (replay_gateway_sync p sid).
Proof. intros Hp. unfold replay_gateway_sync. frame. Qed.
Lemma touches_cleanup cluster jid : touches apart (_job_has_pending_execution_cleanup_unlocked cluster jid).
Proof. apply touches_pure. intros s. by rewrite cleanup_read_only. Qed.
#[local] Hint Resolve touches_migrate touches_session touches_source touches_cleanup : touches.
Lemma touches_cleanup_after cluster jid : touches apart (_job_has_pending_execution_cleanup_after_migration_unlocked cluster jid).
Proof. unfold _job_has_pending_execution_cleanup_after_migration_unlocked. frame. Qed.
Lemma touches_cancel_pending j at_ why : touches apart (_ensure_scheduler_cancel_pending_unlocked j at_ why).
Proof. unfold _ensure_scheduler_cancel_pending_unlocked, read_optional_cancel. frame. Qed.
#[local] Hint Resolve touches_cleanup_after touches_cancel_pending : touches.
End frames.

#[export] Hint Resolve touches_lease_scan touches_job_scan touches_count : touches.
#[export] Hint Resolve touches_catch touches_rewrap touches_read_job touches_get_job touches_migration touches_migrated : touches.
#[export] Hint Resolve touches_read_lease touches_read_json touches_index_token touches_new_lease touches_index touches_empty_ref : touches.
#[export] Hint Resolve touches_settle touches_apply_transition touches_pair touches_snapshot touches_prepare touches_sync : touches.
#[export] Hint Resolve touches_drop_indexes touches_job_index touches_update_index touches_increment touches_index_exists touches_next_after : touches.
#[export] Hint Resolve touches_next_event touches_append touches_optional_event touches_recovery_event touches_ensure_global touches_order touches_order_keys : touches.
#[export] Hint Resolve touches_scan_many touches_expiry_refs touches_endpoint_refs touches_record_paths touches_read_intents touches_expired_now : touches.
#[export] Hint Resolve touches_mcp_count active_lease_frame touches_due touches_observation touches_check_expired touches_check_recovered : touches.
#[export] Hint Resolve touches_migrate touches_session touches_source touches_cleanup touches_cleanup_after touches_cancel_pending : touches.
#[export] Hint Resolve touches_gateway_sync touches_initialize touches_retention touches_task_derived touches_read_task touches_task_replay touches_gateway_replay : touches.
