(* ===== verification/JobSubmission.v ===== *)
(** * Submitting a job ([queue_jobs.py], [queue_idempotency.py], [models_job.py],
      [models_job_specs.py])

    A submission names an idempotency key.  The key's record says which job the key
    belongs to and what was asked for: it is reserved before the job is written and
    committed after.  A repeated submission gets the same job back, finishes what a crash
    left undone, and is refused when it asks for something else. *)

From S2P Require Import Prelude Sha256 Json Identifiers Models Store OrderIndex JobIndex Events SchedulerCancel.
From S2P Require Import LeaseRecords LeaseTransitions LeaseAdmission OwnerSessions JobLifecycle Decimal.
From stdpp Require Import base list gmap strings.
From Stdlib Require Import ZArith Lia.
From Stdlib Require Ascii String.
Open Scope Z_scope.

(** ** The execution identity of a trusted JARVIS run *)
Definition REGISTERED_JARVIS_EXECUTION_CONTRACTS : list string :=
  ["clio-kit-jarvis-user-v3.6"; "clio-kit-jarvis-user-v3.7.2"].

(** [deterministic_jarvis_execution_id]; the four keys in their sorted order. *)
Definition deterministic_jarvis_execution_id (cluster key jid : string) : string :=
  let field name value := dumps_raw_str name +:+ ":" +:+ dumps_raw_str value in
  let canonical := "{" +:+ str_join "," [field "cluster" cluster; field "idempotency_key" key; field "job_id" jid;
    field "schema_version" "clio-relay.jarvis-run-execution-identity.v2"] +:+ "}" in
  "jarvis_" +:+ take_str 32 (sha256_hex canonical).

Definition upper_char (c : Ascii.ascii) : Ascii.ascii :=
  if is_lower c then Ascii.ascii_of_N (code c - 32) else c.
Definition underscored (c : Ascii.ascii) : Ascii.ascii := if N.eqb (code c) 45 then Ascii.ascii_of_N 95 else c.

(** [(spec.tool or "").replace("-", "_").lower()], compared with an ASCII word: no other
    character lowers to a letter of [jarvis_run]. *)
Definition normalized_tool (spec : list (string * json)) : string :=
  match dict_get "tool" spec with Some (JStr t) => map_str lower_char (map_str underscored t) | _ => "" end.

(** [is_owned_jarvis_run_spec]; a specification is stored as its dump. *)
Definition is_owned_jarvis_run_spec (kind : JobKind) (spec : json) : bool :=
  match spec with
  | JObj d =>
      bool_decide (kind = MCP_CALL) && bool_decide (is_Some (dict_get "server" d))
      && is_string "tools/call" (dict_get "operation" d) && bool_decide (normalized_tool d = "jarvis_run")
      && bool_decide (get_value "expected_server_artifact_digest" d <> None)
      && match get_value "expected_jarvis_cd_lock_binding" d, get_value "expected_registered_contract" d with
         | Some _, None => true
         | None, Some (JStr contract) => bool_decide (contract ∈ REGISTERED_JARVIS_EXECUTION_CONTRACTS)
         | _, _ => false
         end
  | _ => false
  end.

Definition reserved_stems : list string :=
  ["CON"; "PRN"; "AUX"; "NUL"; "COM1"; "COM2"; "COM3"; "COM4"; "COM5"; "COM6"; "COM7"; "COM8"; "COM9";
   "LPT1"; "LPT2"; "LPT3"; "LPT4"; "LPT5"; "LPT6"; "LPT7"; "LPT8"; "LPT9"].

(** [value.split(".", 1)[0]] *)
Fixpoint before_dot (s : string) : string :=
  match s with
  | EmptyString => EmptyString
  | String c s' => if N.eqb (code c) 46 then EmptyString else String c (before_dot s')
  end.

Definition is_alnum (c : Ascii.ascii) : bool := is_lower c || is_upper c || is_digit c.
Definition execution_char (c : Ascii.ascii) : bool :=
  is_alnum c || N.eqb (code c) 46 || N.eqb (code c) 95 || N.eqb (code c) 45.

(** [_validate_jarvis_execution_id] *)
Definition _validate_jarvis_execution_id (value : json) : result string :=
  match value with
  | JStr s =>
      _ ← raise_unless (match s with
                        | String c rest => is_alnum c && str_forall execution_char rest
                                           && (String.length rest <=? 127)%nat
                        | EmptyString => false
                        end)
            (ValueError "trusted jarvis_run execution_id must be 1-128 portable ASCII characters");
      _ ← raise_unless (negb (ends_with "." s || bool_decide (map_str upper_char (before_dot s) ∈ reserved_stems)))
            (ValueError "trusted jarvis_run execution_id is not a portable path component");
      Ok s
  | _ => Err (ValueError "trusted jarvis_run execution_id must be 1-128 portable ASCII characters")
  end.

(** ** Copies of a submitted job *)
Definition with_job_id (j : RelayJob) (jid : string) : RelayJob :=
  mkJob jid (job_cluster j) (job_kind j) (job_state j) (job_spec j) (idempotency_key j)
    (owner_session_id j) (owner_session_generation_id j) (used_artifact_refs j) (submission_digest j)
    (job_created_at j) (job_updated_at j) (leased_by j) (job_attempts j) (job_last_error j)
    (storage_reservation j) (metadata j).
Definition with_spec (j : RelayJob) (spec : json) : RelayJob :=
  mkJob (job_id j) (job_cluster j) (job_kind j) (job_state j) spec (idempotency_key j)
    (owner_session_id j) (owner_session_generation_id j) (used_artifact_refs j) (submission_digest j)
    (job_created_at j) (job_updated_at j) (leased_by j) (job_attempts j) (job_last_error j)
    (storage_reservation j) (metadata j).
Definition with_digest (j : RelayJob) (digest : string) : RelayJob :=
  mkJob (job_id j) (job_cluster j) (job_kind j) (job_state j) (job_spec j) (idempotency_key j)
    (owner_session_id j) (owner_session_generation_id j) (used_artifact_refs j) (Some digest)
    (job_created_at j) (job_updated_at j) (leased_by j) (job_attempts j) (job_last_error j)
    (storage_reservation j) (metadata j).

Definition spec_fields (spec : json) : list (string * json) := match spec with JObj d => d | _ => [] end.
Definition spec_arguments (spec : json) : list (string * json) :=
  match dict_get "arguments" (spec_fields spec) with Some (JObj args) => args | _ => [] end.

(** [prepare_owned_jarvis_run_submission] *)
Definition prepare_owned_jarvis_run_submission (j : RelayJob) : result RelayJob :=
  if negb (is_owned_jarvis_run_spec (job_kind j) (job_spec j)) then Ok j
  else
    let args := spec_arguments (job_spec j) in
    _ ← raise_unless (bool_decide (dict_get "wait" args = None))
          (ValueError "trusted jarvis_run does not accept internal wait; query the returned ");
    let expected := deterministic_jarvis_execution_id (job_cluster j) (idempotency_key j) (job_id j) in
    _ ← match get_value "execution_id" args with
        | None => Ok tt
        | Some supplied =>
            validated ← _validate_jarvis_execution_id supplied;
            raise_unless (bool_decide (validated = expected))
              (ValueError "trusted jarvis_run execution_id must match the relay-owned ")
        end;
    Ok (with_spec j (JObj (dict_set "arguments" (JObj (dict_set "execution_id" (JStr expected) args))
                             (spec_fields (job_spec j))))).

(** ** The digest of what was asked for *)
Definition INPUT_INGEST_POLICY_METADATA_KEY : string := "input_ingest_policy".
Definition INPUT_INGEST_ORIGINAL_POLICY_METADATA_KEY : string := "input_ingest_original_policy".
Definition INPUT_INGEST_ATTEMPT_METADATA_KEY : string := "input_ingest_attempt".

Definition dict_pops (keys : list string) (d : list (string * json)) : list (string * json) :=
  foldl (fun d k => dict_pop k d) d keys.

(** The metadata without what the server adds to an input ingest. *)
Definition digest_metadata (j : RelayJob) : list (string * json) :=
  if bool_decide (job_kind j = INPUT_INGEST) then
    dict_pops [INPUT_INGEST_POLICY_METADATA_KEY; INPUT_INGEST_ORIGINAL_POLICY_METADATA_KEY;
               INPUT_INGEST_ATTEMPT_METADATA_KEY] (metadata j)
  else metadata j.

(** The specification without the fields older releases did not have and without the
    execution identity, which the job's identifier decides. *)
Definition digest_spec (j : RelayJob) : json :=
  match job_spec j with
  | JObj d =>
      let d := if bool_decide (get_value "expected_jarvis_cd_lock_binding" d = None)
               then dict_pop "expected_jarvis_cd_lock_binding" d else d in
      let d := if bool_decide (job_kind j = MCP_CALL) && bool_decide (mcp_spec_class (job_spec j) = Some WORKLOAD)
               then dict_pop "admission_class" d else d in
      if is_owned_jarvis_run_spec (job_kind j) (job_spec j) then
        match dict_get "arguments" d with
        | Some (JObj args) => JObj (dict_set "arguments" (JObj (dict_pop "execution_id" args)) d)
        | _ => JObj d
        end
      else JObj d
  | spec => spec
  end.

Definition reservation_dump (r : option (Z * Z)) : json :=
  match r with
  | Some (core, spool) => JObj [("core_bytes", JInt core); ("spool_bytes", JInt spool)]
  | None => JNull
  end.

(** The dump of a job without its generated fields; a dependency is kept as its
    [artifact_use_payload]. *)
Definition digest_payload (j : RelayJob) : list (string * json) :=
  [("cluster", JStr (job_cluster j)); ("kind", JStr (JobKind_value (job_kind j))); ("spec", digest_spec j);
   ("idempotency_key", JStr (idempotency_key j)); ("owner_session_id", JOptStr (owner_session_id j));
   ("owner_session_generation_id", JOptStr (owner_session_generation_id j))]
  ++ match used_artifact_refs j with
     | [] => []
     | uses => [("used_artifact_refs", JList uses.*2)]
     end
  ++ [("storage_reservation", reservation_dump (storage_reservation j)); ("metadata", JObj (digest_metadata j))].

Definition _job_idempotency_digest (j : RelayJob) : string := canonical_sha256 (JObj (digest_payload j)).

(** ** The record of an idempotency key *)
Definition _idempotency_key_filename (key : string) : string := "key_" +:+ sha256_hex key.
Definition idempotency_path (key : string) : path := ["idempotency"; json_name (_idempotency_key_filename key)].

Definition reserved_record (j : RelayJob) (digest : string) (now : Z) : list (string * json) :=
  [("state", JStr "reserved"); ("job_id", JStr (job_id j)); ("idempotency_key", JStr (idempotency_key j));
   ("job_digest", JStr digest); ("created_at", JStr (isoformat now))].
Definition _committed_idempotency_record (j : RelayJob) (digest : string) (now : Z) : list (string * json) :=
  [("state", JStr "committed"); ("job_id", JStr (job_id j)); ("idempotency_key", JStr (idempotency_key j));
   ("job_digest", JStr digest); ("created_at", JStr (isoformat (job_created_at j)));
   ("committed_at", JStr (isoformat now))].

(** The checks both calls make on a record: its job and its state.  Python tests the state
    for membership in a set, which a list or an object does not survive. *)
Definition key_record_state (invalid : exn) (key : string) (d : list (string * json)) : result (string * string) :=
  match dict_get "job_id" d with
  | Some (JStr jid) =>
      if negb (safe_global_record_id (JStr jid) && is_string key (dict_get "idempotency_key" d)) then Err invalid
      else match dict_get "state" d with
           | Some (JStr st) => if bool_decide (st ∈ ["reserved"; "committed"; "retired"]) then Ok (jid, st) else Err invalid
           | Some (JList _) | Some (JObj _) => Err (TypeError "unhashable type")
           | _ => Err invalid
           end
  | _ => Err invalid
  end.

(** [_is_sha256_digest] of [queue_jobs] and of [queue_lease_records] *)
Definition sha256_digest (v : option json) : option string :=
  match v with
  | Some (JStr h) => if (String.length h =? 64)%nat && str_forall is_lower_hex h then Some h else None
  | _ => None
  end.

Definition invalid_key_record : exn := QueueConflictError "invalid idempotency record for key: ".
Definition reused : exn := QueueConflictError "idempotency key was reused with a different job payload: ".
(** The one refusal of [resolve_idempotent_submission], for a bad record and for another payload. *)
Definition reused_or_invalid : exn :=
  QueueConflictError "idempotency key was reused with a different or invalid job payload: ".

(** [existing.submission_digest] is another one, or the job has another key. *)
Definition target_mismatch (existing : RelayJob) (key digest : string) : bool :=
  negb (bool_decide (idempotency_key existing = key))
  || match submission_digest existing with Some h => negb (bool_decide (h = digest)) | None => false end.

(** [submission_digest not in {None, job_digest}] *)
Definition digest_matches (j : RelayJob) (digest : string) : bool :=
  match submission_digest j with None => true | Some h => bool_decide (h = digest) end.

(** The answer to a submission whose job was collected. *)
Definition retired_copy (j : RelayJob) (t : JobTombstone) : RelayJob :=
  mkJob (tomb_job_id t) (tomb_cluster t) (tomb_kind t) (tomb_final_state t) (job_spec j) (idempotency_key j)
    (owner_session_id j) (owner_session_generation_id j) (used_artifact_refs j) (submission_digest j)
    (tomb_created_at t) (tomb_updated_at t) None (tomb_attempts t) (tomb_last_error t) (storage_reservation j)
    (dict_set "retired_job"
       (JObj [("schema_version", JStr (tomb_schema_version t)); ("phase", JStr (JobGcPhase.value (tomb_phase t)));
              ("gc_started_at", JStr (isoformat (gc_started_at t)))])
       (metadata j)).

(** ** The parts a submission passes through

    The edges to used artifacts and the quota of input ingests keep files of their own. *)
Class SubmissionParts `{JobDerived} := {
  _artifact_use_records_unlocked : RelayJob -> M disk unit;
  _ensure_artifact_use_indexes_unlocked : RelayJob -> M disk unit;
  _assert_input_ingest_quota_unlocked : RelayJob -> M disk unit;
  artifact_families : list string;
  artifact_families_apart :
    Forall (fun f => f ∉ artifact_families)
      ["jobs"; "jobs_active"; "jobs_queued"; "job_indexes"; "events"; "transition_intents"; "idempotency";
       "global_order"; "migrations"; "job_tombstones"; "gateway_sessions"; "tasks"];
  artifact_records_read_only : forall job s, files (_artifact_use_records_unlocked job s).2 = files s;
  ingest_quota_read_only : forall job s, files (_assert_input_ingest_quota_unlocked job s).2 = files s;
  artifact_indexes_frame : forall job s p,
    default "" (head p) ∉ artifact_families ->
    files (_ensure_artifact_use_indexes_unlocked job s).2 !! p = files s !! p;
}.

(** The time [datetime.fromisoformat] reads, a text without zone taken as UTC. *)
Class IsoTime := { iso_time : string -> option Z }.

Section submission.
Context `{SubmissionParts} `{!IsoParser} `{!IsoTime}.

(** [_replay_retired_job] *)
Definition _replay_retired_job (submitted : RelayJob) (jid digest : string) : M disk RelayJob :=
  tombstone ← read_optional_tombstone jid;
  match tombstone with
  | None => raise (QueueConflictError "retired idempotency record points to a missing tombstone: ")
  | Some t =>
      _ ← ensure (bool_decide (tomb_job_digest t = digest)
                  && bool_decide (tomb_idempotency_key t = idempotency_key submitted))
            (QueueConflictError "retired idempotency identity mismatch: ");
      mret (retired_copy submitted t)
  end.

(** [_write_committed_idempotency_record] *)
Definition _write_committed_idempotency_record (j : RelayJob) (key digest : string) : M disk unit :=
  now ← utc_now;
  write_doc (idempotency_path key) (DJson (JObj (_committed_idempotency_record j digest now))).

(** [cancellation_requested_at] *)
Definition cancellation_requested_at (request : list (string * json)) : option Z :=
  match dict_get "requested_at" request with Some (JStr t) => iso_time t | _ => None end.

(** The scheduler cancellation a crash may have left out of a canceled job's store. *)
Definition resume_cancellation (j : RelayJob) : M disk unit :=
  match Records.scheduler_cancellation_request j with
  | Some request =>
      if is_true (dict_get "cancel_scheduler" request) then
        _ ← _ensure_scheduler_cancel_pending_unlocked j
              (default (job_updated_at j) (cancellation_requested_at request)) "operator_request";
        mret tt
      else mret tt
  | None => mret tt
  end.

(** The job of the key exists: everything that hangs on it is written again. *)
Definition resume_existing_job (j : RelayJob) (key digest st : string) : M disk RelayJob :=
  _ ← ensure (negb (target_mismatch j key digest)) (QueueConflictError "idempotency target identity mismatch: ");
  _ ← ensure_global "jobs" (job_id j);
  _ ← _initialize_job_index_unlocked (job_id j);
  _ ← _ensure_artifact_use_indexes_unlocked j;
  _ ← write_job j;
  _ ← resume_cancellation j;
  _ ← _ensure_job_queued_event j;
  _ ← (if bool_decide (st = "reserved") then _write_committed_idempotency_record j key digest else mret tt);
  mret j.

(** The last steps: the job is written, its key committed and its first event appended. *)
Definition write_submitted_job (j : RelayJob) (key digest : string) : M disk RelayJob :=
  _ ← ensure_global "jobs" (job_id j);
  _ ← _initialize_job_index_unlocked (job_id j);
  _ ← _ensure_artifact_use_indexes_unlocked j;
  _ ← write_job j;
  _ ← _write_committed_idempotency_record j key digest;
  _ ← append_event (job_id j) "job.queued" "Job queued" None;
  mret j.

(** The checks before a job may be written. *)
Definition admit_submission (j : RelayJob) : M disk unit :=
  _ ← _assert_owner_session_intake_open_unlocked (metadata j) false;
  _ ← _assert_input_ingest_quota_unlocked j;
  _ensure_active_job_capacity_unlocked j.

(** The digest of a prepared job, and the job that carries it. *)
Definition digested (j : RelayJob) : result (RelayJob * string) :=
  j ← prepare_owned_jarvis_run_submission j;
  let digest := _job_idempotency_digest j in
  _ ← raise_unless (digest_matches j digest)
        (QueueConflictError "submitted job carries a mismatched submission_digest");
  Ok (with_digest j digest, digest).

(** The digest an existing record binds the key to; a reserved record without one gets the
    digest of this submission. *)
Definition bind_key_digest (d : list (string * json)) (st key digest : string) : M disk unit :=
  if bool_decide (get_value "job_digest" d = None) && bool_decide (st = "reserved") then
    write_doc (idempotency_path key) (DJson (JObj (dict_set "job_digest" (JStr digest) d)))
  else ensure (bool_decide (sha256_digest (dict_get "job_digest" d) = Some digest)) reused.

(** The key is new: it is reserved for the submitted job. *)
Definition submit_new_key (job : RelayJob) (key : string) : M disk RelayJob :=
  jd ← lift (digested job);
  let '(job, digest) := jd in
  _ ← _artifact_use_records_unlocked job;
  _ ← admit_submission job;
  now ← utc_now;
  _ ← write_doc (idempotency_path key) (DJson (JObj (reserved_record job digest now)));
  write_submitted_job job key digest.

(** The key has the record [d]: its job answers, or is written after all. *)
Definition submit_known_key (job : RelayJob) (key : string) (d : list (string * json)) : M disk RelayJob :=
  record ← lift (key_record_state invalid_key_record key d);
  let '(jid, st) := record in
  jd ← lift (digested (with_job_id job jid));
  let '(job, digest) := jd in
  _ ← bind_key_digest d st key digest;
  if bool_decide (st = "retired") then _replay_retired_job job jid digest
  else
    existing ← read_optional_job jid;
    match existing with
    | Some j => resume_existing_job j key digest st
    | None =>
        _ ← ensure (bool_decide (st = "reserved")) (QueueConflictError "idempotency key points to missing job: ");
        _ ← admit_submission job;
        write_submitted_job job key digest
    end.

Definition submit_job (job : RelayJob) : M disk RelayJob :=
  _ ← lift (require_durable_record_id (JStr (job_id job)) "job_id");
  _ ← lift (_validate_new_owner_session_metadata (metadata job));
  _ ← require_index_migration_complete;
  let key := idempotency_key job in
  _ ← _recover_pending_transitions_unlocked;
  raw ← read_json_document (idempotency_path key);
  match raw with
  | None => submit_new_key job key
  | Some (JObj d) => submit_known_key job key d
  | Some _ => raise (QueueConflictError "idempotency record is not an object: ")
  end.

(** ** Resolving a submission without writing *)
Inductive resolution_state := res_new | res_reserved | res_existing | res_retired.
Record IdempotentSubmissionResolution := mkResolution {
  rs_state : resolution_state;
  rs_job_id : string;
  rs_existing : option RelayJob;
}.

Definition resolve_idempotent_submission (job : RelayJob) : M disk IdempotentSubmissionResolution :=
  _ ← lift (require_durable_record_id (JStr (job_id job)) "job_id");
  _ ← lift (_validate_new_owner_session_metadata (metadata job));
  _ ← require_index_migration_complete;
  let key := idempotency_key job in
  raw ← read_json_document (idempotency_path key);
  match raw with
  | None => _ ← lift (digested job); mret (mkResolution res_new (job_id job) None)
  | Some (JObj d) =>
      record ← lift (key_record_state reused_or_invalid key d);
      let '(jid, st) := record in
      jd ← lift (digested (with_job_id job jid));
      let '(job, digest) := jd in
      _ ← ensure (bool_decide (sha256_digest (dict_get "job_digest" d) = Some digest)) reused_or_invalid;
      if bool_decide (st = "retired") then
        retired ← _replay_retired_job job jid digest; mret (mkResolution res_retired jid (Some retired))
      else
        existing ← read_optional_job jid;
        match existing with
        | Some j =>
            _ ← ensure (negb (target_mismatch j key digest))
                  (QueueConflictError "idempotency target identity mismatch: ");
            mret (mkResolution res_existing jid (Some j))
        | None =>
            _ ← ensure (negb (bool_decide (st = "committed")))
                  (QueueConflictError "idempotency key points to missing job: ");
            mret (mkResolution res_reserved jid None)
        end
  | Some _ => raise (QueueConflictError "idempotency record is not an object: ")
  end.
End submission.
