(* ===== verification/JobGuards.v ===== *)
(** * Invariants that every call on jobs keeps

    What a call may do to a job is limited by what the call read: a canonical job is only
    overwritten by a copy of the record just read, in a state that record may move to.
    [Guarded] collects what an invariant of the store has to allow for that to keep it;
    the lemmas go through every call on jobs and leases, complete or cut. *)

From S2P Require Import Prelude Sha256 Json Identifiers Models Store OrderIndex OrderIndexProofs JobIndex Events SchedulerCancel SchedulerCancelProofs.
From S2P Require Import LeaseRecords LeaseCapacity LeaseIndexes LeaseTransitions LeaseAdmission Recovery JournalStages.
From S2P Require Import OwnerSessions OwnerSessionsRuns JobLifecycle JobFrames AdmissionSnapshotProofs Decimal.
From stdpp Require Import base list gmap strings.
From Stdlib Require Import ZArith Lia.
From Stdlib Require Ascii String.
Open Scope Z_scope.

Definition queued_path (jid : string) : path := ["jobs_queued"; json_name jid].
Definition active_path (jid : string) : path := ["jobs_active"; json_name jid].
Definition job_index_families : list string := ["jobs_active"; "jobs_queued"].

(** An invariant [I], the jobs [agrees] it lets a call write, the identifiers [free] whose
    jobs may change state, and the names [entry_ok] it allows in the active index. *)
Class Guarded (I : gmap path doc -> Prop) (agrees : RelayJob -> Prop) (free entry_ok : string -> Prop) := {
  guarded_families : list string;
  guarded_quiet :: Quiet guarded_families;
  guarded_frame (m m' : gmap path doc) : (forall p, default "" (head p) ∈ guarded_families -> m' !! p = m !! p) -> I m -> I m';
  guarded_read (m : gmap path doc) k j : I m -> m !! job_path k = Some (DJob j) -> job_id j = k -> agrees j;
  guarded_absent (m : gmap path doc) k : I m -> m !! job_path k = None -> free k;
  guarded_free j : free (job_id j) -> agrees j;
  guarded_active j : agrees j -> is_terminal (job_state j) = false -> free (job_id j);
  guarded_update j j' : agrees j -> job_id j' = job_id j -> job_state j' = job_state j -> agrees j';
  guarded_write j (m : gmap path doc) : agrees j -> I m -> I (<[job_path (job_id j) := DJob j]> m);
  guarded_index f k d (m : gmap path doc) : f ∈ job_index_families -> free k -> I m -> I (<[[f; json_name k] := d]> m);
  guarded_delete f name (m : gmap path doc) : f ∈ job_index_families -> I m -> I (delete [f; name] m);
  guarded_queued (m : gmap path doc) k d : I m -> m !! queued_path k = Some d -> free k;
  guarded_listed (m : gmap path doc) name : I m -> is_Some (m !! ["jobs_active"; name]) -> entry_ok name;
  guarded_entry name j (m : gmap path doc) : entry_ok name -> agrees j -> is_terminal (job_state j) = false ->
    I m -> I (<[["jobs_active"; name] := DJob j]> m);
}.

Section rules.
Context `{ExecutionCleanup} {I : gmap path doc -> Prop} {agrees : RelayJob -> Prop} {free entry_ok : string -> Prop}.
Context `{G : !Guarded I agrees free entry_ok}.

#[local] Abbreviation keeps m := (triple I m (fun _ => True)).
#[local] Abbreviation apart := (outside guarded_families).

(** ** Rules *)
Lemma keeps_frame {A : Type} (m : M disk A) : touches apart m -> keeps m.
Proof using G.
  intros Hm s Hs. split; [|done]. eapply guarded_frame; [|exact Hs]. intros p Hp. apply Hm. unfold outside. tauto.
Qed.

Lemma keeps_weak {A : Type} (m : M disk A) Q : triple I m Q -> keeps m.
Proof using. intros Hm. by eapply triple_conseq. Qed.

Lemma keeps_each {A : Type} (f : A -> M disk unit) l : (forall x, x ∈ l -> keeps (f x)) -> keeps (for_each f l).
Proof using.
  intros Hf. induction l as [|x l IH]; cbn; [by apply triple_ret|].
  eapply triple_bind; [apply Hf; left|]. intros _ _. apply IH. intros y Hy. apply Hf. by right.
Qed.

End rules.

(** One step of a computation: a rule, the lemma of the call, its frame, or both sides
    of a branch. *)
Ltac keep_step :=
  lazymatch goal with
  | |- triple _ (mret _) _ => by apply triple_ret
  | |- triple _ (mbind _ _) _ =>
      first
        [ step_triple
        | eapply triple_bind; [solve [eauto with keeps]|cbv beta; intros ? ?]
        | eapply (triple_bind _ _ _ (fun _ => True)); [apply keeps_frame; solve [frame]|cbv beta; intros ? _]
        | eapply (triple_bind _ _ _ (fun _ => True)); [|cbv beta; intros ? _] ]
  | |- triple _ _ _ =>
      first
        [ solve [eauto with keeps] | eapply keeps_weak; solve [eauto with keeps]
        | apply keeps_frame; solve [frame] | step_triple ]
  end.
Ltac keep := repeat keep_step.

Create HintDb keeps.

Section guarded.
Context `{ExecutionCleanup} {I : gmap path doc -> Prop} {agrees : RelayJob -> Prop} {free entry_ok : string -> Prop}.
Context `{G : !Guarded I agrees free entry_ok}.

#[local] Abbreviation keeps m := (triple I m (fun _ => True)).
#[local] Abbreviation apart := (outside guarded_families).

(** ** Reading jobs *)
Lemma triple_read_doc k :
  triple I (read_doc (job_path k))
    (fun d => (forall j, d = Some (DJob j) -> job_id j = k -> agrees j) /\ (d = None -> free k)).
Proof using G.
  intros s Hs. unfold read_doc. destruct (files s !! job_path k) as [d|] eqn:Hd; [case_match|]; cbn; (split; [done|]); [done|..].
  - intros ? [= <-]. split; [|done]. intros j [= ->]. by eapply guarded_read.
  - intros ? [= <-]. split; [done|]. intros _. by eapply guarded_absent.
Qed.

Lemma read_job_keeps k :
  triple I (read_optional_job k)
    (fun o => (forall j, o = Some j -> agrees j /\ job_id j = k) /\ (o = None -> free k)).
Proof using G.
  unfold read_optional_job. eapply triple_bind; [apply triple_read_doc|]. intros d [Hd Hn].
  repeat step_triple; try (apply triple_ret; split; [by intros|by auto]).
  apply triple_ret. split; [|done]. intros j' [= <-]. assert (job_id j = k) by (by eapply bool_decide_eq_true). auto.
Qed.

Lemma triple_get_job k : triple I (get_job k) (fun j => agrees j /\ job_id j = k).
Proof using G.
  unfold get_job, read_required_job.
  eapply (triple_bind _ _ _ (fun x => x = k)).
  { apply triple_lift. by intros x [-> _]%require_id_ok. }
  intros x ->. eapply triple_bind; [apply triple_read_doc|]. intros d [Hd _].
  repeat step_triple; try by apply triple_ret.
  apply triple_ret. assert (job_id j = k) by (by eapply bool_decide_eq_true). auto.
Qed.

(** ** Writing a job *)
Lemma keeps_sync j : agrees j -> keeps (_sync_job_derived_unlocked j).
Proof using G.
  intros Hj. unfold _sync_job_derived_unlocked.
  eapply triple_bind; [apply keeps_frame; auto with touches|intros ? _].
  eapply triple_bind; [apply keeps_frame; auto with touches|intros ? _].
  destruct (is_terminal (job_state j)) eqn:Ht.
  - eapply (triple_bind _ _ _ (fun _ => True)); [|intros ? _]; apply triple_unlink; intros m; apply guarded_delete; set_solver.
  - apply guarded_active in Hj; [|done].
    eapply triple_bind; [apply triple_write; intros m; apply guarded_index; set_solver|intros ? _].
    case_match; [apply triple_write; intros m; apply guarded_index; set_solver|].
    apply triple_unlink; intros m; apply guarded_delete; set_solver.
Qed.

Lemma triple_write_intent identity body : triple I (_write_transition_intent_unlocked identity body) apart.
Proof using G.
  unfold _write_transition_intent_unlocked. step_triple.
  eapply triple_bind; [apply keeps_frame; auto with touches|intros ? _]. apply triple_ret. auto with touches.
Qed.

Lemma keeps_write_job j : agrees j -> keeps (write_job j).
Proof using G.
  intros Hj. unfold write_job.
  eapply triple_bind; [apply keeps_frame; auto with touches|intros ? _].
  eapply triple_bind; [apply triple_write_intent|intros p Hp].
  eapply triple_bind; [apply triple_write; intros m; by apply guarded_write|intros ? _].
  eapply triple_bind; [by apply keeps_sync|intros ? _]. apply keeps_frame. auto with touches.
Qed.

Lemma record_path_apart f a b p : job_record_path f a b = Ok p -> bool_decide (f ∈ quiet_families) = false -> apart p.
Proof.
  unfold job_record_path. intros (x&_&(y&_&[= <-])%bind_ok)%bind_ok Hf. eapply outside_head; [typeclasses eauto|exact Hf].
Qed.

#[local] Hint Extern 1 (apart _) => eapply record_path_apart; [eassumption|reflexivity] : touches.
#[local] Hint Resolve triple_get_job read_job_keeps triple_write_intent : keeps.


(** ** Dropping and renewing leases *)
Lemma keeps_remove_files l i : keeps (remove_lease_files l i).
Proof using G. unfold remove_lease_files. keep. Qed.
Lemma keeps_renewed l previous job : keeps (write_renewed_lease l previous job).
Proof using G. unfold write_renewed_lease. keep. Qed.
#[local] Hint Resolve keeps_remove_files keeps_renewed : keeps.

Lemma keeps_delete_lease l job intent identity finalize : keeps (_delete_lease_unlocked l job intent identity finalize).
Proof using G.
  unfold _delete_lease_unlocked, delete_identity.
  eapply (triple_bind _ _ _ (fun _ => True)); [keep|intros i _]. do 2 keep_step.
  eapply (triple_bind _ _ _ (fun _ => True)); [keep|intros ? _].
  eapply (triple_bind _ _ _ (fun o => o.2 = None \/ apart o.1)).
  { destruct intent as [p|]; [apply triple_ret; by left|]. do 2 keep_step. apply triple_ret. by right. }
  intros [p [t|]] Ho; keep_step; [|by keep]. destruct Ho as [|Ho]; [done|]. keep.
Qed.
#[local] Hint Resolve keeps_delete_lease : keeps.

(** ** Replaying the journal *)
Lemma agrees_leased j : agrees j -> job_state j ∈ [LEASED; RUNNING; QUEUED] -> free (job_id j).
Proof using G.
  intros Hj Hl. apply guarded_active; [done|]. rewrite !elem_of_cons, elem_of_nil in Hl.
  by destruct Hl as [-> |[-> |[-> |[]]]].
Qed.
Lemma agrees_free j : free (job_id j) -> agrees j.
Proof using G. apply guarded_free. Qed.
#[local] Hint Resolve keeps_sync keeps_write_job agrees_free : keeps.

Lemma keeps_write_apart j : agrees j -> keeps (write_doc (job_path (job_id j)) (DJob j)).
Proof using G. intros Hj. apply triple_write. intros m. by apply guarded_write. Qed.
#[local] Hint Resolve keeps_write_apart : keeps.

Lemma keeps_acquire p lease original target at_ capacity :
  apart p -> keeps (_reconcile_lease_acquire_intent_unlocked p lease original target at_ capacity).
Proof using G.
  intros Hp. unfold _reconcile_lease_acquire_intent_unlocked. do 4 keep_step.
  eapply triple_bind; [apply read_job_keeps|cbv beta; intros current [Hc _]].
  eapply (triple_bind _ _ _ (fun _ => True)); [|intros ? _; keep].
  destruct current as [j|]; [|keep].
  destruct ((job_updated_at j =? at_) && _ && _) eqn:Ht; [|keep].
  destruct (Hc j eq_refl) as [Hj Hid]. apply andb_true_iff in Ht as [[_ Hs%bool_decide_eq_true]%andb_true_iff _].
  apply agrees_leased in Hj; [|rewrite Hs; left].
  apply andb_true_iff in H5 as [[[[[[Hl%bool_decide_eq_true _]%andb_true_iff _]%andb_true_iff _]%andb_true_iff _]%andb_true_iff _]%andb_true_iff _].
  rewrite Hid, Hl in Hj. keep.
Qed.

Lemma keeps_replay_sync p l previous job capacity : apart p -> keeps (replay_lease_sync p l previous job capacity).
Proof using G. intros Hp. unfold replay_lease_sync. keep. Qed.
Lemma keeps_replay_delete p k lid index capacity : apart p -> keeps (replay_lease_delete p k lid index capacity).
Proof using G. intros Hp. unfold replay_lease_delete. keep. Qed.

Lemma recovery_facts k original target leases event :
  recovery_consistent k original target leases event = true ->
  job_id target = job_id original /\ job_state original ∈ [LEASED; RUNNING].
Proof. unfold recovery_consistent. rewrite !andb_true_iff, !bool_decide_eq_true. tauto. Qed.

Lemma keeps_stale p k original target leases event capacity :
  apart p -> keeps (_apply_stale_lease_recovery_intent_unlocked p k original target leases event capacity).
Proof using G.
  intros Hp. unfold _apply_stale_lease_recovery_intent_unlocked. do 5 keep_step.
  eapply triple_bind; [apply read_job_keeps|cbv beta; intros current [Hc _]]. keep_step.
  assert (Ht : agrees target).
  { match goal with H : recovery_consistent _ _ _ _ _ = true |- _ => apply recovery_facts in H as [Hto Ho] end.
    match goal with H : bool_decide _ || bool_decide _ = true |- _ => apply orb_true_iff in H as [Hcur|Hcur] end;
      apply bool_decide_eq_true in Hcur; destruct (Hc _ Hcur) as [Hj Hid]; [|done].
    apply agrees_free. rewrite Hto. apply agrees_leased; [done|]. set_solver. }
  eapply triple_bind; [apply keeps_each; intros l _; keep|intros ? _].
  eapply triple_bind; [by apply keeps_write_job|intros ? _]. keep_step.
  eapply triple_bind; [apply keeps_each; intros l _; keep|intros ? _]. keep.
Qed.

Lemma keeps_job_sync p k : apart p -> keeps (replay_job_sync p k).
Proof using G.
  intros Hp. unfold replay_job_sync. keep_step.
  eapply triple_bind; [apply read_job_keeps|cbv beta; intros current [Hc _]].
  eapply (triple_bind _ _ _ (fun _ => True)); [|intros ? _; keep].
  destruct current as [j|]; [|keep]. apply keeps_sync. by apply Hc.
Qed.

Lemma keeps_replay e : apart e.1 -> keeps (replay_intent e).
Proof using G.
  intros Hp. unfold replay_intent.
  destruct (intent_body e.2);
    eauto using keeps_acquire, keeps_replay_sync, keeps_replay_delete, keeps_job_sync.
  3, 2: apply keeps_frame; auto with touches.
  eapply triple_bind; [by apply keeps_stale|intros ? _; keep].
Qed.

(** The entries of a directory are named below it. *)
Lemma bounded_entries_paths limit entries paths ps :
  bounded_entries limit entries paths = Ok ps -> ps = paths ++ entries.*1.
Proof.
  revert paths. induction entries as [|e es IH]; intros paths; cbn [bounded_entries fmap list_fmap].
  { intros [= <-]. by rewrite app_nil_r. }
  case_match; [done|]. case_match; [done|]. intros ->%IH. by rewrite <- app_assoc.
Qed.

Lemma triple_record_paths dir limit :
  dir <> [] ->
  triple I (bounded_json_record_paths dir limit)
    (fun ps => Forall (fun p => (exists name, p = dir ++ [name]) /\ (forall name, p = ["jobs_active"; name] -> entry_ok name)) ps).
Proof using G.
  intros Hdir. unfold bounded_json_record_paths.
  apply (triple_bind _ _ _ (fun es => Forall (fun e => (exists name, e.1 = dir ++ [name]) /\ (forall name, e.1 = ["jobs_active"; name] -> entry_ok name)) es)).
  - intros s Hs. split; [done|]. intros es [= <-]. apply Forall_forall. intros [p d] He.
    apply scandir_elem in He as [Hd Hp]; [|done]. split; [done|]. cbn. intros name ->. by eapply guarded_listed.
  - intros es Hes. apply triple_lift. intros ps ->%bounded_entries_paths. cbn. by apply Forall_fmap.
Qed.

Lemma read_intents_paths paths s ts s' : read_intents paths s = (Ok ts, s') -> ts.*1 = paths.
Proof.
  revert s ts s'. induction paths as [|p paths IH]; intros s ts s'; cbn [read_intents].
  { by intros [= <- _]. }
  intros (d&s1&_&Hr)%M_bind_ok. destruct d as [[]|]; try done.
  apply M_bind_ok in Hr as (ts'&s2&Hts&Hr). injection Hr as <- _. cbn. f_equal. by eapply IH.
Qed.

Lemma keeps_recover : keeps _recover_pending_transitions_unlocked.
Proof using G.
  unfold _recover_pending_transitions_unlocked, _reconcile_transition_intents_unlocked.
  eapply triple_bind; [by apply triple_record_paths|cbv beta; intros paths Hps].
  apply (triple_bind _ _ _ (fun ts => ts.*1 = paths)).
  { intros s Hs. split; [by apply (keeps_frame (I:=I) (read_intents paths)); [auto with touches|]|].
    intros ts Hts. eapply read_intents_paths. by rewrite <- Hts, <- surjective_pairing. }
  intros ts Hts. apply keeps_each. intros e He. rewrite sort_by_perm in He. apply keeps_replay.
  assert (Hp : e.1 ∈ paths) by (rewrite <- Hts; by apply list_elem_of_fmap_2).
  rewrite Forall_forall in Hps. apply Hps in Hp as [[name ->] _]. auto with touches.
Qed.
#[local] Hint Resolve keeps_recover keeps_stale : keeps.

(** ** The calls on leases *)
Lemma keeps_release lid : keeps (release_lease lid).
Proof using G. unfold release_lease. keep. Qed.
Lemma keeps_renew lid ttl : keeps (renew_lease lid ttl).
Proof using G. unfold renew_lease. keep. Qed.
Lemma keeps_scan_leases limit cluster : keeps (scan_leases limit cluster).
Proof using G.
  assert (Hl : forall c ls, touches apart (leases_of_cluster c ls)).
  { intros c ls. induction ls as [|l ls IH]; cbn; frame. }
  unfold scan_leases. keep.
Qed.
Lemma keeps_job_leases k limit : keeps (scan_job_leases k limit).
Proof using G. unfold scan_job_leases. keep. Qed.
Lemma keeps_capacity_snapshot cluster : keeps (lease_admission_capacity_snapshot cluster).
Proof using G. unfold lease_admission_capacity_snapshot. keep. Qed.
Lemma keeps_pending_cleanup k cluster : keeps (job_has_pending_execution_cleanup k cluster).
Proof using G. unfold job_has_pending_execution_cleanup. keep. Qed.
#[local] Hint Resolve keeps_job_leases : keeps.

(** ** Expired leases *)
Lemma keeps_recover_expired j expired attempts : keeps (_recover_expired_leases_unlocked j expired attempts).
Proof using G.
  unfold _recover_expired_leases_unlocked. do 4 keep_step.
  eapply triple_bind; [apply keeps_each; intros l _; keep|intros ? _]. keep.
Qed.
#[local] Hint Resolve keeps_recover_expired : keeps.

Lemma keeps_groups cluster attempts groups recovered changed :
  keeps (recover_groups cluster attempts groups recovered changed).
Proof using G.
  revert recovered changed. induction groups as [|[k leases] groups IH]; intros recovered changed; cbn [recover_groups].
  { keep. }
  assert (Hd : forall j, keeps (for_each (fun l => _delete_lease_unlocked l j None None true) leases)).
  { intros j. apply keeps_each. intros l _. apply keeps_delete_lease. }
  keep.
Qed.
#[local] Hint Resolve keeps_groups : keeps.
Lemma keeps_recover_refs cluster attempts refs : keeps (_recover_stale_jobs_from_expiry_refs_unlocked cluster attempts refs).
Proof using G. unfold _recover_stale_jobs_from_expiry_refs_unlocked. keep. Qed.
#[local] Hint Resolve keeps_recover_refs : keeps.
Lemma keeps_recover_admission cluster attempts : keeps (_recover_stale_jobs_for_admission_unlocked cluster attempts).
Proof using G. unfold _recover_stale_jobs_for_admission_unlocked. keep. Qed.
#[local] Hint Resolve keeps_recover_admission : keeps.
Lemma keeps_recover_jobs cluster attempts : keeps (recover_stale_jobs cluster attempts).
Proof using G. unfold recover_stale_jobs. keep. Qed.
Lemma keeps_recover_job k cluster attempts : keeps (recover_stale_job k cluster attempts).
Proof using G.
  unfold recover_stale_job.
  assert (Hd : forall j leases, keeps (for_each (fun l => _delete_lease_unlocked l (Some j) None None true) leases)).
  { intros j leases. apply keeps_each. intros l _. apply keeps_delete_lease. }
  keep.
Qed.

(** ** Leasing *)
Lemma keeps_lease j endpoint ttl total : free (job_id j) -> keeps (_lease_job_unlocked j endpoint ttl total).
Proof using G.
  intros Hj. assert (Hw : forall now, keeps (write_job (leased_copy j endpoint now))).
  { intros now. apply keeps_write_job. by apply agrees_free. }
  unfold _lease_job_unlocked. keep.
Qed.

Lemma keeps_acquire_job k endpoint cluster ttl attempts kinds : keeps (acquire_job k endpoint cluster ttl attempts kinds).
Proof using G.
  unfold acquire_job. do 7 keep_step. keep_step; [keep|].
  eapply triple_bind; [apply triple_get_job|cbv beta; intros j [Hj _]].
  destruct (negb _) eqn:Hq; [keep|]. apply negb_false_iff in Hq.
  apply andb_true_iff in Hq as [[_ Hq%bool_decide_eq_true]%andb_true_iff _].
  apply agrees_leased in Hj; [|rewrite Hq; set_solver].
  do 2 keep_step; [keep|]. do 2 keep_step; [keep|].
  eapply triple_bind; [by apply keeps_lease|intros ? _]. keep.
Qed.

Lemma read_job_entry_ok p d j : read_job_entry (p, d) = Ok j -> d = DJob j /\ job_id j = json_stem (default "" (last p)).
Proof.
  unfold read_job_entry. cbn [fst snd]. destruct d as [| | | | | | | | | | | | | | | |]; try done.
  case_match; [done|]. case_bool_decide; [|done]. by intros [= ->].
Qed.

(** A job the queued index offers may change state. *)
Lemma triple_queued limit :
  triple I (scan_many_job ["jobs_queued"] limit) (fun r => Forall (fun j => free (job_id j)) r.1).
Proof using G.
  unfold scan_many_job, scan_many. step_triple.
  apply (triple_bind _ _ _ (Forall (fun e => (exists name, e.1 = ["jobs_queued"; name]) /\ (forall k, e.1 = queued_path k -> free k)))).
  { intros s Hs. split; [done|]. intros es [= <-]. apply Forall_forall. intros [p d] He.
    apply scandir_elem in He as [Hd [name Hp]]; [|done]. cbn. split; [by exists name|]. intros k ->.
    by eapply guarded_queued. }
  intros es Hes. apply (triple_bind _ _ _ (fun r => exists k, r.1 = take k es /\ Forall json_named r.1)).
  { apply triple_lift. intros [l tr] Hsc. pose proof (scan_entries_named _ _ _ _ _ Hsc (Forall_nil_2 _)).
    apply scan_entries_spec in Hsc as [-> _]; [|cbn; lia]. by eexists. }
  intros [l tr] (k&Hl&Hn). cbn in Hl, Hn. subst l. step_triple. apply triple_ret. cbn [fst].
  match goal with H : mapM_result _ _ = _ |- _ => apply mapM_result_ok in H as Hmap end.
  apply Forall_forall. intros j [n Hj]%list_elem_of_lookup.
  destruct (Forall2_lookup_r _ _ _ _ _ Hmap Hj) as (e&He&Hr).
  rewrite Forall_lookup in Hn. specialize (Hn n e He). apply lookup_take_Some in He as [He _].
  rewrite Forall_lookup in Hes. destruct (Hes n e He) as [[name Hp] Hq]. destruct e as [p d]. cbn in *. subst p.
  unfold json_named in Hn. cbn in Hn. apply read_job_entry_ok in Hr as [-> Hid]. cbn in Hid.
  apply Hq. unfold queued_path. rewrite Hid. f_equal. f_equal. symmetry. by apply json_name_stem.
Qed.

Lemma order_keys_same jobs s ks s' : with_order_keys jobs s = (Ok ks, s') -> ks.*2 = jobs.
Proof.
  revert s ks s'. induction jobs as [|j jobs IH]; intros s ks s'; cbn [with_order_keys]; [by intros [= <- _]|].
  intros (key&s1&_&(ks'&s2&Hk&Hr)%M_bind_ok)%M_bind_ok. injection Hr as <- _. cbn. f_equal. by eapply IH.
Qed.

Lemma triple_order (P : RelayJob -> Prop) jobs : Forall P jobs -> triple I (in_submission_order jobs) (Forall P).
Proof using G.
  intros HP. unfold in_submission_order. apply (triple_bind _ _ _ (fun ks => ks.*2 = jobs)).
  - intros s Hs. split; [by apply (keeps_frame (I:=I) (with_order_keys jobs)); [auto with touches|]|].
    intros ks Hks. eapply order_keys_same. by rewrite <- Hks, <- surjective_pairing.
  - intros ks <-. apply triple_ret. by rewrite sort_by_perm.
Qed.

Lemma triple_select (P : RelayJob -> Prop) ln refs workload jobs :
  Forall P jobs -> triple I (select_job ln refs workload jobs) (fun o => forall j, o = Some j -> P j).
Proof using G.
  intros HP. revert workload. induction HP as [|j jobs Hj HP IH]; intros workload; cbn [select_job]; [by apply triple_ret|].
  destruct (negb _); [done|]. eapply (triple_bind _ _ _ (fun _ => True)); [apply keeps_frame; frame|intros pending _].
  destruct pending; [done|].
  eapply (triple_bind _ _ _ (fun _ => True)); [apply keeps_frame; unfold kind_full; frame|intros decided _].
  destruct decided.1; [done|]. apply triple_ret. by intros ? [= <-].
Qed.

Lemma keeps_acquire_next endpoint cluster ttl attempts kinds class limit :
  keeps (acquire_next_job endpoint cluster ttl attempts kinds class limit).
Proof using G.
  unfold acquire_next_job. do 8 keep_step. { keep. }
  do 2 keep_step. { keep. }
  eapply (triple_bind _ _ _ (fun _ => True)); [keep|intros at_limit _].
  eapply triple_bind; [apply triple_queued|cbv beta; intros queued Hq].
  eapply triple_bind; [by apply triple_order|cbv beta; intros ordered Ho].
  eapply triple_bind; [by apply triple_select|cbv beta; intros selected Hs].
  destruct selected as [j|]; [|keep]. eapply triple_bind; [by apply keeps_lease, Hs|intros ? _]. keep.
Qed.

(** ** Updates and cancellation *)
Lemma keeps_metadata k meta : keeps (update_job_metadata k meta).
Proof using G.
  unfold update_job_metadata. do 2 keep_step. eapply triple_bind; [apply triple_get_job|cbv beta; intros j [Hj _]].
  assert (Hw : forall updated now, keeps (write_job (metadata_copy j updated now))).
  { intros updated now. apply keeps_write_job. by eapply guarded_update. }
  keep.
Qed.

Lemma keeps_update k target message error owner : keeps (update_job_state k target message error owner).
Proof using G.
  unfold update_job_state. do 3 keep_step.
  eapply triple_bind; [apply triple_get_job|cbv beta; intros j [Hj _]]. keep_step.
  assert (Hw : forall now, keeps (write_job (state_copy j target error owner now))).
  { intros now. apply keeps_write_job. destruct (is_terminal (job_state j)) eqn:Ht.
    - match goal with H : negb _ = true |- _ =>
        rewrite andb_true_l, negb_involutive in H; apply bool_decide_eq_true in H as -> end.
      by eapply guarded_update.
    - apply guarded_free. exact (guarded_active j Hj Ht). }
  keep.
Qed.

Lemma keeps_cancel k cancel expected at_ : keeps (cancel_job_if_active k cancel expected at_).
Proof using G.
  unfold cancel_job_if_active. do 2 keep_step. eapply triple_bind; [apply triple_get_job|cbv beta; intros j [Hj _]].
  destruct (_ || _) eqn:Ha; [keep|]. rewrite !orb_false_iff in Ha. destruct Ha as [[Ha _] _].
  apply guarded_active in Hj; [|done].
  assert (Hw : forall now, keeps (write_job (cancellation_copy j cancel now))).
  { intros now. apply keeps_write_job, agrees_free. unfold cancellation_copy. by case_match. }
  keep.
Qed.

Lemma keeps_acknowledge k : keeps (acknowledge_job_cancellation k).
Proof using G.
  unfold acknowledge_job_cancellation. do 2 keep_step. eapply triple_bind; [apply triple_get_job|cbv beta; intros j [Hj _]].
  destruct (bool_decide _); [keep|]. keep_step.
  match goal with H : negb _ = true |- _ => apply negb_true_iff, guarded_active in H; [|done] end.
  assert (Hw : forall meta now, keeps (write_job (canceled_copy j meta now))).
  { intros meta now. by apply keeps_write_job, agrees_free. }
  keep.
Qed.

(** ** The index of active jobs *)
Lemma keeps_repair_entry p : (exists name, p = active_dir ++ [name]) -> (forall name, p = ["jobs_active"; name] -> entry_ok name) -> keeps (repair_active_entry p).
Proof using G.
  intros [name ->] Hp. change (active_dir ++ [name]) with ["jobs_active"; name] in *. unfold repair_active_entry.
  eapply (triple_bind _ _ _ (fun _ => True)).
  { unfold read_indexed_job. keep. }
  intros indexed _. eapply triple_bind; [apply read_job_keeps|cbv beta; intros canonical [Hc _]].
  assert (Ha : keeps (unlink_durable_path ["jobs_active"; name])).
  { apply triple_unlink. intros m. apply guarded_delete. set_solver. }
  assert (Hq : forall k, keeps (unlink_durable_path ["jobs_queued"; json_name k])).
  { intros k. apply triple_unlink. intros m. apply guarded_delete. set_solver. }
  destruct canonical as [j|]; [|keep]. destruct (is_terminal (job_state j)) eqn:Ht; [keep|].
  destruct (Hc j eq_refl) as [Hj _].
  eapply triple_bind; [apply triple_write; intros m; apply guarded_entry; auto|intros ? _].
  apply guarded_active in Hj; [|done]. case_bool_decide; [|keep].
  apply triple_write. intros m. apply guarded_index; [set_solver|done].
Qed.

Lemma keeps_repair : keeps _repair_active_job_index_unlocked.
Proof using G.
  unfold _repair_active_job_index_unlocked.
  eapply triple_bind; [by apply triple_record_paths|cbv beta; intros paths Hps].
  apply keeps_each. intros p Hp. rewrite Forall_forall in Hps. destruct (Hps p Hp). by apply keeps_repair_entry.
Qed.
#[local] Hint Resolve keeps_repair : keeps.

Lemma keeps_scan_active limit : keeps (scan_active_jobs limit).
Proof using G.
  assert (Hg : forall jobs, touches apart (get_jobs jobs)) by (induction jobs; cbn; frame).
  unfold scan_active_jobs. keep.
Qed.

Lemma keeps_caught {A B : Type} (m : M disk A) (f : M disk A -> M disk B) :
  (forall s, (f m s).2 = (m s).2) -> keeps m -> keeps (f m).
Proof using G. intros Hf Hm s Hs. rewrite Hf. split; [by apply Hm|done]. Qed.

Lemma keeps_catch_repair m : keeps m -> keeps (catch_repair m).
Proof using G. apply keeps_caught. intros s. unfold catch_repair. by repeat case_match. Qed.
Lemma keeps_refuse n m : keeps m -> keeps (refuse_at_capacity n m).
Proof using G. apply (keeps_caught _ (refuse_at_capacity n)). intros s. unfold refuse_at_capacity. by repeat case_match. Qed.
#[local] Hint Resolve keeps_catch_repair keeps_refuse : keeps.

Lemma keeps_capacity : keeps active_job_capacity.
Proof using G. unfold active_job_capacity, active_count. keep. Qed.
Lemma keeps_ensure_capacity j : keeps (_ensure_active_job_capacity_unlocked j).
Proof using G. unfold _ensure_active_job_capacity_unlocked, active_count. keep. Qed.

End guarded.

#[export] Hint Resolve triple_get_job read_job_keeps triple_write_intent keeps_remove_files keeps_renewed keeps_delete_lease keeps_sync keeps_write_job keeps_write_apart keeps_recover keeps_stale keeps_job_leases keeps_recover_expired keeps_groups keeps_recover_refs keeps_recover_admission keeps_repair keeps_catch_repair keeps_refuse keeps_ensure_capacity : keeps.
#[export] Hint Extern 1 (Guarded _ _ _ _) => typeclasses eauto : keeps.
