(* ===== verification/JobSubmissionProofs.v ===== *)
(** * What a submission does to the store

    The frames of the calls a submission makes, what the record of a key fixes, and that
    every call on jobs keeps it. *)

From S2P Require Import Prelude Sha256 Json Identifiers Models Store OrderIndex OrderIndexProofs JobIndex Events SchedulerCancel SchedulerCancelProofs.
From S2P Require Import LeaseRecords LeaseTransitions LeaseAdmission Recovery OwnerSessions JobLifecycle Decimal.
From S2P Require Import JobFrames JobGuards JobSubmission.
From stdpp Require Import base list gmap strings.
From Stdlib Require Import ZArith Lia.
From Stdlib Require Ascii String.
Open Scope Z_scope.

(** ** Frames *)
Section frames.
Context `{SubmissionParts} `{!IsoParser} `{!IsoTime} (F : list string) {HF : Quiet F}.

#[local] Abbreviation apart := (outside F).

Lemma touches_transition_record p : touches apart (_read_owner_session_transition_record p).
Proof using. unfold _read_owner_session_transition_record. frame. Qed.
#[local] Hint Resolve touches_transition_record : touches.
Lemma touches_closed owner generation : touches apart (get_owner_session_closed owner generation).
Proof using. unfold get_owner_session_closed, read_optional_closure, nonempty_owner, require_generation. frame. Qed.
#[local] Hint Resolve touches_closed : touches.
Lemma intake_apart meta active : touches apart (_assert_owner_session_intake_open_unlocked meta active).
Proof using.
  unfold _assert_owner_session_intake_open_unlocked, _owner_session_active_generation, read_active. frame.
Qed.
Lemma touches_quota j : touches apart (_assert_input_ingest_quota_unlocked j).
Proof using. apply touches_pure, ingest_quota_read_only. Qed.
Lemma touches_uses j : touches apart (_artifact_use_records_unlocked j).
Proof using. apply touches_pure, artifact_records_read_only. Qed.
Lemma touches_use_indexes j : touches apart (_ensure_artifact_use_indexes_unlocked j).
Proof using HF.
  intros s p Hp. apply artifact_indexes_frame. apply not_outside, HF in Hp. pose proof artifact_families_apart as Hf.
  rewrite Forall_forall in Hf. apply Hf. revert Hp. unfold quiet_families. rewrite !elem_of_cons, elem_of_nil.
  intros Hp2; repeat destruct Hp2 as [->|Hp2]; set_solver.
Qed.
Lemma touches_queued_event j : touches apart (_ensure_job_queued_event j).
Proof using HF. unfold _ensure_job_queued_event. frame. Qed.
Lemma touches_tombstone jid : touches apart (read_optional_tombstone jid).
Proof using. unfold read_optional_tombstone. frame. Qed.
#[local] Hint Resolve touches_tombstone : touches.
Lemma touches_retired j jid digest : touches apart (_replay_retired_job j jid digest).
Proof using. unfold _replay_retired_job. frame. Qed.
Lemma touches_resume_cancel j : touches apart (resume_cancellation j).
Proof using HF. unfold resume_cancellation. frame. Qed.
#[local] Hint Resolve touches_retired : touches.
Lemma touches_resolve j : touches apart (resolve_idempotent_submission j).
Proof using HF. unfold resolve_idempotent_submission. frame. Qed.
End frames.

#[export] Hint Resolve intake_apart touches_quota touches_uses touches_use_indexes : touches.
#[export] Hint Resolve touches_queued_event touches_retired touches_resume_cancel touches_tombstone : touches.

(** ** What the record of a key fixes *)

(** The record [d] gives the key to the job [jid] and the digest. *)
Definition binds (key jid digest : string) (d : list (string * json)) : Prop :=
  dict_get "job_id" d = Some (JStr jid) /\ dict_get "idempotency_key" d = Some (JStr key) /\
  dict_get "job_digest" d = Some (JStr digest).

Definition bound (key jid digest : string) (m : gmap path doc) : Prop :=
  exists d, m !! idempotency_path key = Some (DJson (JObj d)) /\ binds key jid digest d.

Lemma reserved_binds j digest now : binds (idempotency_key j) (job_id j) digest (reserved_record j digest now).
Proof. done. Qed.
Lemma committed_binds j digest now : binds (idempotency_key j) (job_id j) digest (_committed_idempotency_record j digest now).
Proof. done. Qed.

(** The directory of the keys is no other call's. *)
#[export] Instance quiet_keys : Quiet ["idempotency"].
Proof. intros x. unfold quiet_families. set_solver. Qed.

Lemma bound_insert key jid digest p d m :
  default "" (head p) <> "idempotency" -> bound key jid digest m -> bound key jid digest (<[p := d]> m).
Proof.
  intros Hp (d'&Hd&Hb). exists d'. split; [|done]. rewrite lookup_insert_ne; [done|]. by intros ->.
Qed.
Lemma bound_delete key jid digest p m :
  default "" (head p) <> "idempotency" -> bound key jid digest m -> bound key jid digest (delete p m).
Proof.
  intros Hp (d'&Hd&Hb). exists d'. split; [|done]. rewrite lookup_delete_ne; [done|]. by intros ->.
Qed.
Lemma index_family f : f ∈ job_index_families -> f <> "idempotency".
Proof. unfold job_index_families. set_solver. Qed.

#[export] Program Instance bound_guarded key jid digest :
  Guarded (bound key jid digest) (fun _ => True) (fun _ => True) (fun _ => True) := {|
  guarded_families := ["idempotency"];
|}.
Next Obligation.
  intros key jid digest m m' Hm (d&Hd&Hb). exists d. split; [|done]. rewrite Hm; [done|]. cbn. set_solver.
Qed.
Solve Obligations with done.
Next Obligation. intros key jid digest j m _. by apply bound_insert. Qed.
Next Obligation. intros key jid digest f k d m Hf%index_family _. by apply bound_insert. Qed.
Next Obligation. intros key jid digest f name m Hf%index_family. by apply bound_delete. Qed.
Next Obligation. intros key jid digest name j m _ _ _. by apply bound_insert. Qed.

Section bound.
Context `{ExecutionCleanup} `{!SubmissionParts} `{!IsoParser} `{!IsoTime} (key jid digest : string).

#[local] Abbreviation I := (bound key jid digest).
#[local] Abbreviation keeps m := (triple I m (fun _ => True)).

Lemma keeps_any_job j : keeps (write_job j).
Proof using. by apply (keeps_write_job (G:=bound_guarded key jid digest)). Qed.
#[local] Hint Resolve keeps_any_job : keeps.

(** Writing a key's record keeps what another key, or the same job's record, fixed. *)
Lemma keeps_key_record k d :
  (k = key -> binds key jid digest d) -> (idempotency_path k = idempotency_path key -> k = key) ->
  keeps (write_doc (idempotency_path k) (DJson (JObj d))).
Proof using.
  intros Hb Hk. apply triple_write. intros m Hm. destruct (decide (idempotency_path k = idempotency_path key)) as [He|He].
  - exists d. rewrite He, lookup_insert_eq. auto.
  - destruct Hm as (d'&Hd&Hb'). exists d'. by rewrite lookup_insert_ne.
Qed.

Lemma keeps_committed j k h :
  (k = key -> binds key jid digest (_committed_idempotency_record j h 0)) ->
  (idempotency_path k = idempotency_path key -> k = key) ->
  keeps (_write_committed_idempotency_record j k h).
Proof using.
  intros Hb Hk. unfold _write_committed_idempotency_record. step_triple. apply keeps_key_record; [|done].
  intros He. exact (Hb He).
Qed.

(** The rest of a submission whose job and digest are those of its key. *)
Definition owns (j : RelayJob) (k h : string) : Prop :=
  (k = key -> binds key jid digest (_committed_idempotency_record j h 0)) /\
  (idempotency_path k = idempotency_path key -> k = key).

Lemma target_key j k h : negb (target_mismatch j k h) = true -> idempotency_key j = k.
Proof using. unfold target_mismatch. intros [Hk _]%negb_true_iff%orb_false_iff. by apply negb_false_iff, bool_decide_eq_true in Hk. Qed.

Lemma keeps_resume j k h st : (idempotency_key j = k -> owns j k h) -> keeps (resume_existing_job j k h st).
Proof using.
  intros Ho. unfold resume_existing_job. keep_step.
  match goal with Hm : negb _ = true |- _ => apply target_key, Ho in Hm as [Hb Hk] end.
  assert (Hc : keeps (_write_committed_idempotency_record j k h)) by by apply keeps_committed.
  keep.
Qed.
Lemma keeps_write_submitted j k h : owns j k h -> keeps (write_submitted_job j k h).
Proof using.
  intros [Hb Hk]. assert (Hc : keeps (_write_committed_idempotency_record j k h)) by by apply keeps_committed.
  unfold write_submitted_job. keep.
Qed.
Lemma keeps_admit j : keeps (admit_submission j).
Proof using. unfold admit_submission. keep. Qed.
#[local] Hint Resolve keeps_admit : keeps.

(** ** What a submission reads and checks *)
Lemma triple_key_record k :
  triple I (read_json_document (idempotency_path k))
    (fun raw => idempotency_path k = idempotency_path key ->
       exists d, raw = Some (JObj d) /\ binds key jid digest d).
Proof using.
  unfold read_json_document.
  eapply (triple_bind _ _ _ (fun d => idempotency_path k = idempotency_path key ->
    exists d', d = Some (DJson (JObj d')) /\ binds key jid digest d')).
  - intros s Hs. unfold read_doc. destruct (files s !! _) as [d|] eqn:Hd; [case_match|]; cbn; (split; [done|]); [done|..].
    + intros ? [= <-] He. rewrite He in Hd. destruct Hs as (d'&Hd'&Hb). rewrite Hd' in Hd. injection Hd as <-. eauto.
    + intros ? [= <-] He. rewrite He in Hd. destruct Hs as (d'&Hd'&Hb). congruence.
  - intros d Hd. destruct d as [[]|]; try apply triple_raise; apply triple_ret; intros He;
      destruct (Hd He) as (d'&[= ->]&Hb). eauto.
Qed.

Lemma key_record_ok e k d x st :
  key_record_state e k d = Ok (x, st) ->
  dict_get "job_id" d = Some (JStr x) /\ dict_get "idempotency_key" d = Some (JStr k).
Proof using.
  unfold key_record_state. destruct (dict_get "job_id" d) as [[]|]; try done.
  destruct (safe_global_record_id _ && _) eqn:Hc; cbn [negb]; [|done].
  apply andb_true_iff in Hc as [_ Hk]. unfold is_string in Hk.
  destruct (dict_get "idempotency_key" d) as [[]|]; try done.
  apply bool_decide_eq_true in Hk as ->. destruct (dict_get "state" d) as [[]|]; try done.
  case_bool_decide; [|done]. by intros [= <- _].
Qed.

Lemma digested_ok j p h : digested j = Ok (p, h) -> job_id p = job_id j /\ idempotency_key p = idempotency_key j.
Proof using.
  unfold digested. intros (p'&Hp&Hr)%bind_ok. apply bind_ok in Hr as (u&_&Hr). injection Hr as <- _. cbn.
  unfold prepare_owned_jarvis_run_submission in Hp. case_match; [by injection Hp as <-|].
  apply bind_ok in Hp as (u1&_&Hp). apply bind_ok in Hp as (u2&_&Hp). by injection Hp as <-.
Qed.

Definition same (k : string) : Prop := idempotency_path k = idempotency_path key.

Lemma triple_bind_digest d st k h :
  (same k -> binds key jid digest d) -> triple I (bind_key_digest d st k h) (fun _ => same k -> h = digest).
Proof using.
  intros Hd. unfold bind_key_digest. destruct (decide (same k)) as [Hs|Hs].
  - destruct (Hd Hs) as (_&_&Hh). unfold get_value. rewrite Hh. cbn [bool_decide andb].
    rewrite bool_decide_false by done. cbn [andb].
    eapply triple_conseq; [apply triple_ensure|]. cbv beta. intros _ Hb%bool_decide_eq_true _.
    unfold sha256_digest in Hb. case_match; by simplify_eq.
  - case_match; [|by eapply triple_conseq; [apply triple_ensure|]].
    eapply triple_conseq; [apply keeps_key_record|]; [|by intros ?|by intros].
    intros ->. by destruct Hs.
Qed.

(** A submission keeps the record of every key; with this key, it answers with the key's
    job and has asked for what the key's digest says. *)
Definition answers (j r : RelayJob) : Prop :=
  job_id r = jid /\ exists p, digested (with_job_id j jid) = Ok (p, digest).

(** What an answer of a call for the record [e] needs. *)
Lemma resume_answers j k h st :
  (idempotency_key j = k -> owns j k h) -> triple I (resume_existing_job j k h st) (fun r => r = j).
Proof using.
  intros Ho s Hs. split; [by apply keeps_resume|]. intros r Hr.
  destruct (resume_existing_job j k h st s) as [x s'] eqn:He. cbn in Hr. subst x.
  unfold resume_existing_job in He. repeat (apply M_bind_ok in He as (?&?&_&He)). by injection He as <- _.
Qed.
Lemma write_answers j k h : owns j k h -> triple I (write_submitted_job j k h) (fun r => r = j).
Proof using.
  intros Ho s Hs. split; [by apply keeps_write_submitted|]. intros r Hr.
  destruct (write_submitted_job j k h s) as [x s'] eqn:He. cbn in Hr. subst x.
  unfold write_submitted_job in He. repeat (apply M_bind_ok in He as (?&?&_&He)). by injection He as <- _.
Qed.
Lemma retired_answers j x h : triple I (_replay_retired_job j x h) (fun r => job_id r = x).
Proof using.
  unfold _replay_retired_job. eapply (triple_bind _ _ _ (fun o => forall t, o = Some t -> tomb_job_id t = x)).
  - intros s Hs. split; [by apply (keeps_frame (I:=I) (read_optional_tombstone x)); [auto with touches|]|].
    intros o Ho t ->. destruct (read_optional_tombstone x s) as [r s'] eqn:He. cbn in Ho. subst r.
    unfold read_optional_tombstone in He. apply M_bind_ok in He as (d&s1&_&He). destruct d as [[]|]; try done.
    apply M_bind_ok in He as (u&s2&_&He). apply M_bind_ok in He as (u'&s3&Hid&He). injection He as <- _.
    injection Hid as Hid _. apply raise_unless_ok in Hid. by apply bool_decide_eq_true in Hid.
  - intros [t|] Ht; [|apply triple_raise]. step_triple. apply triple_ret. by apply Ht.
Qed.

Lemma submit_known j d :
  (same (idempotency_key j) -> binds key jid digest d) ->
  triple I (submit_known_key j (idempotency_key j) d) (fun r => idempotency_key j = key -> answers j r).
Proof using.
  intros Hd. unfold submit_known_key. step_triple. destruct a as [x st].
  match goal with Hx : key_record_state _ _ _ = _ |- _ => apply key_record_ok in Hx as [Hxj Hxk] end.
  assert (Hsame : same (idempotency_key j) -> x = jid /\ idempotency_key j = key).
  { intros Hs. destruct (Hd Hs) as (Hj&Hk&_). rewrite Hxj in Hj. rewrite Hxk in Hk. by injection Hj; injection Hk. }
  step_triple. destruct a as [p h].
  match goal with Hp : digested _ = _ |- _ => rename Hp into Hdig; destruct (digested_ok _ _ _ Hdig) as [Hpj Hpk] end.
  cbn in Hpj, Hpk. eapply triple_bind; [by apply triple_bind_digest|]. cbv beta. intros _ Hh.
  assert (Hown : forall e, job_id e = x -> idempotency_key e = idempotency_key j -> owns e (idempotency_key j) h).
  { intros e He Hk. split; [|intros Hs; by apply Hsame].
    intros Hkey. assert (Hs : same (idempotency_key j)) by (unfold same; by rewrite Hkey).
    destruct (Hsame Hs) as [-> _]. rewrite <- (Hh Hs), <- He, <- Hkey, <- Hk. apply committed_binds. }
  assert (Hans : forall r, job_id r = x -> idempotency_key j = key -> answers j r).
  { intros r Hr Hkey. assert (Hs : same (idempotency_key j)) by (unfold same; by rewrite Hkey).
    destruct (Hsame Hs) as [-> _]. split; [done|]. exists p. by rewrite <- (Hh Hs). }
  case_match; [eapply triple_conseq; [apply retired_answers|auto]|].
  eapply triple_bind; [apply (read_job_keeps (G:=bound_guarded key jid digest))|cbv beta; intros existing [Hex _]].
  destruct existing as [e|].
  - destruct (Hex e eq_refl) as [_ He]. eapply triple_conseq; [apply resume_answers; auto|]. intros r ->. by apply Hans.
  - step_triple. eapply triple_bind; [apply keeps_admit|intros ? _].
    eapply triple_conseq; [apply write_answers; by apply Hown|]. intros r ->. by apply Hans.
Qed.

Lemma triple_submit j : triple I (submit_job j) (fun r => idempotency_key j = key -> answers j r).
Proof using.
  unfold submit_job. do 4 keep_step.
  eapply triple_bind; [apply triple_key_record|cbv beta; intros raw Hraw].
  assert (Hnew : raw = None -> ~ same (idempotency_key j)).
  { intros -> Hs. destruct (Hraw Hs) as (d&[=]&_). }
  destruct raw as [[| | | | | |d]|]; try apply triple_raise.
  - apply submit_known. intros Hs. destruct (Hraw Hs) as (d'&[= ->]&Hb). done.
  - specialize (Hnew eq_refl). unfold submit_new_key. step_triple.
    match goal with Hp : digested _ = Ok ?a |- _ => destruct a as [p h]; destruct (digested_ok _ _ _ Hp) as [Hpj Hpk] end.
    assert (Hne : forall Q : Prop, idempotency_key j = key -> Q).
    { intros Q Hkey. destruct Hnew. unfold same. by rewrite Hkey. }
    eapply (triple_bind _ _ _ (fun _ => True)); [apply keeps_frame; auto with touches|intros ? _].
    eapply (triple_bind _ _ _ (fun _ => True)); [apply keeps_admit|intros ? _]. step_triple.
    eapply (triple_bind _ _ _ (fun _ => True)).
    { apply keeps_key_record; [intros Hk; by apply Hne|intros Hk; by destruct Hnew]. }
    intros ? _. eapply triple_conseq; [apply keeps_write_submitted|intros r _ Hk; by apply Hne].
    split; [intros Hk; by apply Hne|intros Hk; by destruct Hnew].
Qed.
End bound.

(** ** The submission that gives a key its job *)
Section establish.
Context `{ExecutionCleanup} `{!SubmissionParts} `{!IsoParser} `{!IsoTime}.

Lemma run_triple {A : Type} (J : gmap path doc -> Prop) (m : M disk A) Q s a s' :
  triple J m Q -> m s = (Ok a, s') -> J (files s) -> J (files s') /\ Q a.
Proof using. intros Hm Hr Hs. destruct (Hm s Hs) as [Hk Hq]. rewrite Hr in Hk, Hq. auto. Qed.

Lemma run_write p d s u s' : write_doc p d s = (Ok u, s') -> files s' = <[p := d]> (files s).
Proof using.
  unfold write_doc, durable. case_match; [done|]. destruct (budget s) as [[|n]|]; by intros [= _ <-].
Qed.

Lemma own_self j h : owns (idempotency_key j) (job_id j) h j (idempotency_key j) h.
Proof using. by split. Qed.

Lemma submit_new_binds j s r s' :
  submit_new_key j (idempotency_key j) s = (Ok r, s') ->
  exists p h, digested j = Ok (p, h) /\ job_id r = job_id j /\ bound (idempotency_key j) (job_id j) h (files s').
Proof using.
  unfold submit_new_key. intros ([p h]&s1&Hd&Hr)%M_bind_ok. injection Hd as Hd _. cbn in Hr.
  destruct (digested_ok _ _ _ Hd) as [Hpj Hpk].
  apply M_bind_ok in Hr as (u2&s2&_&Hr). apply M_bind_ok in Hr as (u3&s3&_&Hr).
  apply M_bind_ok in Hr as (now&s4&_&Hr). apply M_bind_ok in Hr as (u5&s5&Hw%run_write&Hr).
  exists p, h. split; [done|]. rewrite <- Hpk, <- Hpj in *.
  assert (Hb : bound (idempotency_key p) (job_id p) h (files s5)).
  { exists (reserved_record p h now). rewrite Hw, lookup_insert_eq. split; [done|apply reserved_binds]. }
  destruct (run_triple _ _ _ _ _ _ (write_answers (idempotency_key p) (job_id p) h p (idempotency_key p) h (own_self p h)) Hr Hb)
    as [Hk ->]. done.
Qed.

Lemma bind_digest_binds k d x st h s u s' :
  dict_get "job_id" d = Some (JStr x) -> dict_get "idempotency_key" d = Some (JStr k) ->
  files s !! idempotency_path k = Some (DJson (JObj d)) ->
  bind_key_digest d st k h s = (Ok u, s') -> bound k x h (files s').
Proof using.
  intros Hx Hk Hf. unfold bind_key_digest. case_match.
  - intros Hw%run_write. exists (dict_set "job_digest" (JStr h) d). rewrite Hw, lookup_insert_eq. split; [done|].
    unfold binds. rewrite !dict_get_set_ne, dict_get_set_eq by done. done.
  - intros Hr. unfold ensure, lift in Hr. injection Hr as Hr <-. apply raise_unless_ok, bool_decide_eq_true in Hr.
    exists d. split; [done|]. split_and!; [done|done|]. unfold sha256_digest in Hr.
    destruct (dict_get "job_digest" d) as [[]|]; try done. case_match; by simplify_eq.
Qed.

Lemma submit_known_binds j d s r s' :
  files s !! idempotency_path (idempotency_key j) = Some (DJson (JObj d)) ->
  submit_known_key j (idempotency_key j) d s = (Ok r, s') ->
  exists p h, digested (with_job_id j (job_id r)) = Ok (p, h) /\ bound (idempotency_key j) (job_id r) h (files s').
Proof using.
  intros Hf. unfold submit_known_key. intros ([x st]&s1&Hx&Hr)%M_bind_ok. injection Hx as Hx <-. cbn in Hr.
  apply key_record_ok in Hx as [Hxj Hxk].
  apply M_bind_ok in Hr as ([p h]&s2&Hd&Hr). injection Hd as Hd <-. cbn in Hr.
  destruct (digested_ok _ _ _ Hd) as [Hpj Hpk]. cbn in Hpj, Hpk.
  apply M_bind_ok in Hr as (u3&s3&Hb&Hr). apply bind_digest_binds with (x:=x) in Hb; [|done..].
  assert (Hown : forall e, job_id e = x -> idempotency_key e = idempotency_key j -> owns (idempotency_key j) x h e (idempotency_key j) h).
  { intros e <- <-. apply own_self. }
  enough (job_id r = x /\ bound (idempotency_key j) x h (files s')) as [-> Hk] by eauto.
  case_match; [by destruct (run_triple _ _ _ _ _ _ (retired_answers (idempotency_key j) x h p x h) Hr Hb)|].
  apply M_bind_ok in Hr as (existing&s4&He&Hr).
  destruct (run_triple _ _ _ _ _ _ (read_job_keeps (G:=bound_guarded (idempotency_key j) x h) x) He Hb) as [Hb4 [Hex _]].
  destruct existing as [e|].
  - destruct (Hex e eq_refl) as [_ Hid].
    by destruct (run_triple _ _ _ _ _ _ (resume_answers (idempotency_key j) x h e _ h st (Hown e Hid)) Hr Hb4) as [Hb5 ->].
  - apply M_bind_ok in Hr as (u5&s5&He5&Hr). injection He5 as _ <-. apply M_bind_ok in Hr as (u6&s6&Ha&Hr).
    destruct (run_triple _ _ _ _ _ _ (keeps_admit (idempotency_key j) x h p) Ha Hb4) as [Hb6 _].
    by destruct (run_triple _ _ _ _ _ _ (write_answers (idempotency_key j) x h p _ h (Hown p Hpj Hpk)) Hr Hb6) as [Hb7 ->].
Qed.

(** A submission that returns has given its key the job it returns and the digest of what
    was asked for. *)
Lemma submit_binds j s r s' :
  submit_job j s = (Ok r, s') ->
  exists p h, digested (with_job_id j (job_id r)) = Ok (p, h) /\ bound (idempotency_key j) (job_id r) h (files s').
Proof using.
  unfold submit_job. intros (u1&s1&_&Hr)%M_bind_ok. apply M_bind_ok in Hr as (u2&s2&_&Hr).
  apply M_bind_ok in Hr as (u3&s3&_&Hr). apply M_bind_ok in Hr as (u4&s4&_&Hr).
  apply M_bind_ok in Hr as (raw&s5&Hraw&Hr).
  assert (Hd : forall d, raw = Some (JObj d) -> files s5 !! idempotency_path (idempotency_key j) = Some (DJson (JObj d))).
  { intros d ->. unfold read_json_document, read_doc, mbind, M_bind in Hraw.
    destruct (files s4 !! _) as [d'|] eqn:Hd; [|done].
    destruct (_ <? _); [done|]. destruct d'; try done. cbn in Hraw. injection Hraw as -> <-. done. }
  destruct raw as [[| | | | | |d]|]; try done.
  - by eapply submit_known_binds; [apply Hd|].
  - apply submit_new_binds in Hr as (p&h&Hp&Hid&Hb). exists p, h. rewrite Hid. split; [|done]. by destruct j.
Qed.
End establish.

(** ** Submissions and the invariants of the jobs *)
Section guarded.
Context `{ExecutionCleanup} `{!SubmissionParts} `{!IsoParser} `{!IsoTime}.
Context {I : gmap path doc -> Prop} {agrees : RelayJob -> Prop} {free entry_ok : string -> Prop}.
Context `{G : !Guarded I agrees free entry_ok}.

#[local] Abbreviation keeps m := (triple I m (fun _ => True)).

Context (Hkeys : forall k d, keeps (write_doc (idempotency_path k) (DJson (JObj d)))).

Lemma keeps_submit j : free (job_id j) -> keeps (submit_job j).
Proof using G Hkeys.
  intros Hj. assert (Hc : forall p k h, keeps (_write_committed_idempotency_record p k h)).
  { intros p k h. unfold _write_committed_idempotency_record. keep. }
  assert (Hw : forall p k h, agrees p -> keeps (write_submitted_job p k h)).
  { intros p k h Hp. assert (keeps (write_job p)) by by apply keeps_write_job. unfold write_submitted_job. keep. }
  assert (He : forall e k h st, agrees e -> keeps (resume_existing_job e k h st)).
  { intros e k h st Hp. assert (keeps (write_job e)) by by apply keeps_write_job. unfold resume_existing_job. keep. }
  assert (Ha : forall p, keeps (admit_submission p)) by (intros p; unfold admit_submission; keep).
  unfold submit_job. do 5 keep_step. destruct a3 as [[| | | | | |d]|]; try apply triple_raise.
  - unfold submit_known_key. step_triple. destruct a3 as [x st]. step_triple.
    match goal with Hp : digested _ = Ok ?a |- _ => destruct a as [p h]; destruct (digested_ok _ _ _ Hp) as [Hpj _] end.
    eapply (triple_bind _ _ _ (fun _ => True)); [unfold bind_key_digest; keep|intros ? _].
    case_match; [keep|].
    eapply triple_bind; [apply read_job_keeps|cbv beta; intros existing [Hex Hno]].
    destruct existing as [e|]; [apply He; by apply Hex|]. do 2 keep_step. apply Hw, guarded_free. rewrite Hpj. by apply Hno.
  - unfold submit_new_key. step_triple.
    match goal with Hp : digested _ = Ok ?a |- _ => destruct a as [p h]; destruct (digested_ok _ _ _ Hp) as [Hpj _] end.
    do 4 keep_step. apply Hw, guarded_free. by rewrite Hpj.
Qed.
End guarded.
