(* ===== verification/JobClaims.v ===== *)
(** * What the queue promises about its jobs

    The calls that submit, read and change jobs and leases.  In whatever order they come
    and wherever each one stops, none undoes the end of a job, and a submission repeated
    with its key always gets the same job. *)

From S2P Require Import Prelude Sha256 Json Identifiers Models Store OrderIndex JobIndex Events OrderIndexProofs SchedulerCancel SchedulerCancelProofs.
From S2P Require Import LeaseRecords LeaseTransitions Recovery LeaseReplay LeaseRenew OwnerSessions LeaseAdmission JobLifecycle JobFrames JobSubmission JobGuards JobSubmissionProofs Decimal.
From stdpp Require Import base list gmap strings.
From Stdlib Require Import ZArith Lia.
From Stdlib Require Ascii String.
Open Scope Z_scope.

(** ** The end of a job is an invariant

    Its record stays in its terminal state and it is in neither the active nor the
    queued index. *)

(** The job [jid] ended in [st] and left the indexes. *)
Definition finished (jid : string) (st : JobState) (m : gmap path doc) : Prop :=
  (exists j, m !! job_path jid = Some (DJob j) /\ job_state j = st) /\
  m !! active_path jid = None /\ m !! queued_path jid = None.

(** A record of the finished job has its state. *)
Definition states (jid : string) (st : JobState) (j : RelayJob) : Prop := job_id j = jid -> job_state j = st.

Definition job_families : list string := ["jobs"; "jobs_active"; "jobs_queued"].
#[export] Instance quiet_jobs : Quiet job_families.
Proof. intros x. unfold job_families, quiet_families. set_solver. Qed.

Section rules.
Context (jid : string) (st : JobState).

Lemma finished_insert f k d m :
  f ∈ job_index_families -> f :: k <> active_path jid -> f :: k <> queued_path jid ->
  finished jid st m -> finished jid st (<[f :: k := d]> m).
Proof.
  intros Hf Ha Hq (Hj&Hma&Hmq). assert (f <> "jobs") by (intros ->; unfold job_index_families in Hf; set_solver).
  split_and!; [|by rewrite lookup_insert_ne|by rewrite lookup_insert_ne].
  destruct Hj as (j&Hj&Hs). exists j. split; [|done]. rewrite lookup_insert_ne; [done|]. intros [= ->]. done.
Qed.

Lemma index_name_ne f k g : k <> jid -> [f; json_name k] <> [g; json_name jid].
Proof. by intros Hk [= _ ?%json_name_inj]. Qed.
End rules.

#[export] Program Instance finished_guarded jid st (Hst : is_terminal st = true) :
  Guarded (finished jid st) (states jid st) (fun k => k <> jid) (fun name => name <> json_name jid) := {|
  guarded_families := job_families;
|}.
Next Obligation.
  intros jid st _ m m' Hm (Hj&Ha&Hq). unfold job_families in Hm.
  unfold finished, job_path, active_path, queued_path. rewrite !Hm; [done|cbn; set_solver..].
Qed.
Next Obligation.
  intros jid st _ m k j ((j'&Hj'&Hs)&_) Hj Hid Hjid. rewrite <- Hid, Hjid, Hj' in Hj. by injection Hj as <-.
Qed.
Next Obligation. intros jid st _ m k ((j&Hj&_)&_) Hk ->. congruence. Qed.
Next Obligation. intros jid st _ j Hj. by intros ?. Qed.
Next Obligation. intros jid st Hst j Hj Ht Hid. by rewrite (Hj Hid), Hst in Ht. Qed.
Next Obligation. intros jid st _ j j' Hj Hid Hs Hjid. rewrite Hs. apply Hj. congruence. Qed.
Next Obligation.
  intros jid st _ j m Hj (Ho&Ha&Hq). split_and!; [|by rewrite lookup_insert_ne|by rewrite lookup_insert_ne].
  destruct (decide (job_id j = jid)) as [Hid|Hid].
  - exists j. rewrite Hid, lookup_insert_eq. auto.
  - destruct Ho as (o&Ho&Hs). exists o. split; [|done]. rewrite lookup_insert_ne; [done|]. by intros [= ?%json_name_inj].
Qed.
Next Obligation. intros jid st _ f k d m Hf Hk. apply finished_insert; [done|by apply index_name_ne..]. Qed.
Next Obligation.
  intros jid st _ f name m Hf ((j&Hj&Hs)&Ha&Hq).
  assert (Hn : forall q, m !! q = None -> delete [f; name] m !! q = None) by (intros q Hq'; by rewrite lookup_delete_None; right).
  split_and!; [|by apply Hn..]. exists j. split; [|done]. rewrite lookup_delete_ne; [done|].
  intros [= ->]. unfold job_index_families in Hf. set_solver.
Qed.
Next Obligation. intros jid st _ m k d (_&_&Hq) Hk ->. congruence. Qed.
Next Obligation. intros jid st _ m name (_&Ha&_) [d Hd] ->. unfold active_path in Ha. congruence. Qed.
Next Obligation.
  intros jid st _ name j m Hn _ _. apply finished_insert; [unfold job_index_families; set_solver| |done].
  intros [= ->]. done.
Qed.

(** ** The calls of the queue on jobs and leases *)
Inductive queue_call :=
  | CallSubmit (job : RelayJob)
  | CallResolve (job : RelayJob)
  | CallUpdateMetadata (jid : string) (meta : list (string * json))
  | CallUpdateState (jid : string) (st : JobState) (message error : option string) (owner : option (option string))
  | CallCancel (jid : string) (cancel_scheduler : bool) (expected : option JobState) (at_ : option Z)
  | CallAcknowledge (jid : string)
  | CallScanActive (limit : Z)
  | CallActiveCapacity
  | CallAppendEvent (jid type_ message : string) (payload : option (list (string * json)))
  | CallReleaseLease (lid : string)
  | CallRenewLease (lid : string) (ttl_seconds : Z)
  | CallScanLeases (limit : nat) (cluster : option string)
  | CallScanJobLeases (jid : string) (limit : nat)
  | CallCapacitySnapshot (cluster : string)
  | CallPendingCleanup (jid cluster : string)
  | CallRecoverJobs (cluster : string) (max_attempts : Z)
  | CallRecoverJob (jid cluster : string) (max_attempts : Z)
  | CallAcquireJob (jid endpoint cluster : string) (ttl_seconds max_attempts : Z)
      (kinds : option (list (string * json)))
  | CallAcquireNext (endpoint cluster : string) (ttl_seconds max_attempts : Z)
      (kinds : option (list (string * json))) (class : option McpAdmissionClass) (mcp_limit : option json).

Definition drop_result {A : Type} (m : M disk A) : M disk unit := _ ← m; mret tt.

Section calls.
Context `{ExecutionCleanup} `{!SubmissionParts} `{!IsoParser} `{!IsoTime}.

Definition run_call (c : queue_call) : M disk unit :=
  match c with
  | CallSubmit job => drop_result (submit_job job)
  | CallResolve job => drop_result (resolve_idempotent_submission job)
  | CallUpdateMetadata jid meta => drop_result (update_job_metadata jid meta)
  | CallUpdateState jid st message error owner => drop_result (update_job_state jid st message error owner)
  | CallCancel jid cancel_scheduler expected at_ => drop_result (cancel_job_if_active jid cancel_scheduler expected at_)
  | CallAcknowledge jid => drop_result (acknowledge_job_cancellation jid)
  | CallScanActive limit => drop_result (scan_active_jobs limit)
  | CallActiveCapacity => drop_result active_job_capacity
  | CallAppendEvent jid type_ message payload => drop_result (append_event jid type_ message payload)
  | CallReleaseLease lid => release_lease lid
  | CallRenewLease lid ttl_seconds => drop_result (renew_lease lid ttl_seconds)
  | CallScanLeases limit cluster => drop_result (scan_leases limit cluster)
  | CallScanJobLeases jid limit => drop_result (scan_job_leases jid limit)
  | CallCapacitySnapshot cluster => drop_result (lease_admission_capacity_snapshot cluster)
  | CallPendingCleanup jid cluster => drop_result (job_has_pending_execution_cleanup jid cluster)
  | CallRecoverJobs cluster max_attempts => drop_result (recover_stale_jobs cluster max_attempts)
  | CallRecoverJob jid cluster max_attempts => drop_result (recover_stale_job jid cluster max_attempts)
  | CallAcquireJob jid endpoint cluster ttl_seconds max_attempts kinds =>
      drop_result (acquire_job jid endpoint cluster ttl_seconds max_attempts kinds)
  | CallAcquireNext endpoint cluster ttl_seconds max_attempts kinds class mcp_limit =>
      drop_result (acquire_next_job endpoint cluster ttl_seconds max_attempts kinds class mcp_limit)
  end.

(** A history: calls one after the other, each with the durable steps it gets before it is
    cut, or [None] when it is not. *)
Definition run_calls (calls : list (option nat * queue_call)) (s : disk) : disk :=
  foldl (fun s c => (run_call c.2 (set_budget c.1 s)).2) s calls.

(** The calls that return having ended the job: a terminal state set, a queued job
    canceled, the cancellation of a job that was still going acknowledged, or an expired
    lease taken from a job without attempts left, alone or with others of its cluster. *)
Inductive ends_job (jid : string) (s : disk) : RelayJob -> disk -> Prop :=
  | ends_update st message error owner j s' :
      is_terminal st = true -> update_job_state jid st message error owner s = (Ok j, s') -> ends_job jid s j s'
  | ends_cancel cancel_scheduler expected at_ j s' :
      cancel_job_if_active jid cancel_scheduler expected at_ s = (Ok (j, true), s') ->
      job_state j = CANCELED -> ends_job jid s j s'
  | ends_acknowledge o j s' :
      no_intents (files s) -> files s !! job_path jid = Some (DJob o) -> is_terminal (job_state o) = false ->
      acknowledge_job_cancellation jid s = (Ok j, s') -> ends_job jid s j s'
  | ends_recovery cluster max_attempts j s' :
      recover_stale_job jid cluster max_attempts s = (Ok (Some j), s') -> job_state j = FAILED -> ends_job jid s j s'
  | ends_recoveries cluster max_attempts js j s' :
      recover_stale_jobs cluster max_attempts s = (Ok js, s') -> j ∈ js -> job_id j = jid -> job_state j = FAILED ->
      ends_job jid s j s'.

(** The call submits no job under the identifier [jid].  [submit_job] does not look for a
    record under the identifier it is given: see [submission_overwrites]. *)
Definition spares (jid : string) (c : queue_call) : Prop :=
  match c with CallSubmit job => job_id job <> jid | _ => True end.

(** Every other call keeps every guarded invariant. *)
Lemma keeps_run_call {I : gmap path doc -> Prop} {agrees : RelayJob -> Prop} {free entry_ok : string -> Prop}
    `{G : !Guarded I agrees free entry_ok} c :
  (forall j, c = CallSubmit j -> triple I (submit_job j) (fun _ => True)) -> triple I (run_call c) (fun _ => True).
Proof.
  intros Hsub. destruct c; cbn [run_call]; unfold drop_result;
    try (eapply (triple_bind _ _ _ (fun _ => True)); [|intros ? _; by apply triple_ret]).
  - by apply Hsub.
  - apply keeps_frame. apply touches_resolve. apply guarded_quiet.
  - apply keeps_metadata.
  - apply keeps_update.
  - apply keeps_cancel.
  - apply keeps_acknowledge.
  - apply keeps_scan_active.
  - apply keeps_capacity.
  - apply keeps_frame. auto with touches.
  - apply keeps_release.
  - apply keeps_renew.
  - apply keeps_scan_leases.
  - apply keeps_job_leases.
  - apply keeps_capacity_snapshot.
  - apply keeps_pending_cleanup.
  - apply keeps_recover_jobs.
  - apply keeps_recover_job.
  - apply keeps_acquire_job.
  - apply keeps_acquire_next.
Qed.

Lemma keeps_run_calls (I : gmap path doc -> Prop) (allowed : queue_call -> Prop) calls s :
  (forall c, allowed c -> triple I (run_call c) (fun _ => True)) ->
  Forall (fun c => allowed c.2) calls -> I (files s) -> I (files (run_calls calls s)).
Proof.
  intros HI Hc. revert s. induction Hc as [|[b c] calls Ha Hc IH]; intros s Hs; cbn; [done|].
  apply IH. by apply (HI c Ha (set_budget b s)).
Qed.

Lemma finished_calls jid st calls s :
  is_terminal st = true -> Forall (fun c => spares jid c.2) calls ->
  finished jid st (files s) -> finished jid st (files (run_calls calls s)).
Proof.
  intros Hst. apply keeps_run_calls. intros c Hc. pose proof (finished_guarded jid st Hst) as G.
  apply (keeps_run_call (G:=finished_guarded jid st Hst)). intros j ->.
  apply (keeps_submit (G:=finished_guarded jid st Hst)); [|exact Hc].
  intros k d. apply (keeps_frame (G:=finished_guarded jid st Hst)). apply touches_write. unfold outside. cbn. set_solver.
Qed.

Lemma bound_calls key jid digest calls s :
  bound key jid digest (files s) -> bound key jid digest (files (run_calls calls s)).
Proof.
  apply (keeps_run_calls _ (fun _ => True)); [|by apply Forall_true]. intros c _.
  apply (keeps_run_call (G:=bound_guarded key jid digest)). intros j ->. eapply triple_conseq; [apply triple_submit|done].
Qed.

Lemma get_job_id k s j s' : get_job k s = (Ok j, s') -> job_id j = k.
Proof.
  unfold get_job, read_required_job. intros (x&s1&Hx&Hr)%M_bind_ok. injection Hx as [-> _]%require_id_ok _.
  apply M_bind_ok in Hr as (d&s2&_&Hr). destruct d as [[]|]; try done.
  apply M_bind_ok in Hr as (u&s3&_&Hr). apply M_bind_ok in Hr as (u'&s4&Hid&Hr). injection Hr as <- _.
  injection Hid as Hid _. apply raise_unless_ok in Hid. by apply bool_decide_eq_true in Hid.
Qed.

(** ** The call that ends the job *)
Lemma unlink_done p s u s' : unlink_durable_path p s = (Ok u, s') -> files s' = delete p (files s).
Proof using. unfold unlink_durable_path, durable. destruct (budget s) as [[|n]|]; by intros [= _ <-]. Qed.
Lemma write_done p d s u s' : write_doc p d s = (Ok u, s') -> files s' = <[p := d]> (files s).
Proof using.
  unfold write_doc, durable. case_match; [done|]. destruct (budget s) as [[|n]|]; by intros [= _ <-].
Qed.
Lemma frame_done {A : Type} (m : M disk A) s a s' p :
  touches (outside job_families) m -> m s = (Ok a, s') -> ~ outside job_families p -> files s' !! p = files s !! p.
Proof using. intros Hm Hr Hp. specialize (Hm s p Hp). by rewrite Hr in Hm. Qed.

Lemma job_not_outside k : ~ outside job_families (job_path k).
Proof using. unfold outside, job_families. cbn. set_solver. Qed.

(** A write that returned has put the record in its place. *)
Lemma write_job_record j s u s' : write_job j s = (Ok u, s') -> files s' !! job_path (job_id j) = Some (DJob j).
Proof using.
  unfold write_job. intros (u0&s0&_&Hr)%M_bind_ok. apply M_bind_ok in Hr as (p&s1&Hp&Hr).
  apply M_bind_ok in Hr as (u2&s2&Hw%write_done&Hr). apply M_bind_ok in Hr as (u3&s3&Hsync&Hu%unlink_done).
  assert (Hpath : exists name, p = ["transition_intents"; name]).
  { unfold _write_transition_intent_unlocked in Hp. apply M_bind_ok in Hp as (?&?&_&Hp).
    apply M_bind_ok in Hp as (?&?&_&Hp). injection Hp as <- _. by eexists. }
  destruct Hpath as [name ->]. rewrite Hu, lookup_delete_ne by done.
  assert (Hrec : files s2 !! job_path (job_id j) = Some (DJob j)) by (rewrite Hw; apply lookup_insert_eq).
  unfold _sync_job_derived_unlocked in Hsync.
  apply M_bind_ok in Hsync as (u4&s4&Hm&Hsync). apply M_bind_ok in Hsync as (u5&s5&Hsrc&Hsync).
  rewrite <- (frame_done _ _ _ _ (job_path (job_id j)) (touches_session _ _) Hm (job_not_outside _)) in Hrec.
  rewrite <- (frame_done _ _ _ _ (job_path (job_id j)) (touches_source _ _ _ _) Hsrc (job_not_outside _)) in Hrec.
  destruct (is_terminal (job_state j)); apply M_bind_ok in Hsync as (u6&s6&Ha&Hq).
  - apply unlink_done in Ha, Hq. by rewrite Hq, Ha, !lookup_delete_ne.
  - apply write_done in Ha. rewrite <- Hrec. transitivity (files s6 !! job_path (job_id j)); [|by rewrite Ha, lookup_insert_ne].
    case_match; [apply write_done in Hq; by rewrite Hq, lookup_insert_ne|apply unlink_done in Hq; by rewrite Hq, lookup_delete_ne].
Qed.

Lemma write_finishes jid st j s u s' :
  is_terminal st = true -> job_id j = jid -> job_state j = st -> write_job j s = (Ok u, s') -> finished jid st (files s').
Proof using.
  intros Hst Hid Hs. unfold write_job. intros (u0&s0&_&Hr)%M_bind_ok.
  apply M_bind_ok in Hr as (p&s1&Hp&Hr). apply M_bind_ok in Hr as (u2&s2&Hw&Hr).
  apply M_bind_ok in Hr as (u3&s3&Hsync&Hu). unfold _sync_job_derived_unlocked in Hsync.
  apply M_bind_ok in Hsync as (u4&s4&Hm&Hsync). apply M_bind_ok in Hsync as (u5&s5&Hsrc&Hsync).
  rewrite Hs, Hst in Hsync. apply M_bind_ok in Hsync as (u6&s6&Ha%unlink_done&Hq%unlink_done).
  apply write_done in Hw.
  assert (Hj : files s5 !! job_path jid = Some (DJob j)).
  { rewrite (frame_done _ _ _ _ (job_path jid) (touches_source _ _ _ _) Hsrc) by apply job_not_outside.
    rewrite (frame_done _ _ _ _ (job_path jid) (touches_session _ _) Hm) by apply job_not_outside.
    rewrite Hw, Hid. apply lookup_insert_eq. }
  assert (HI : finished jid st (files s3)).
  { rewrite Hq, Ha, Hid. split_and!.
    - exists j. by rewrite !lookup_delete_ne.
    - unfold active_path. rewrite lookup_delete_ne by done. apply lookup_delete_eq.
    - apply lookup_delete_eq. }
  unfold _write_transition_intent_unlocked in Hp. apply M_bind_ok in Hp as (now&s7&_&Hp).
  apply M_bind_ok in Hp as (u7&s8&_&Hp). injection Hp as <- _.
  rewrite (unlink_done _ _ _ _ Hu). destruct HI as ((o&Ho&Hos)&Hia&Hiq).
  split_and!; [exists o|..]; by rewrite ?lookup_delete_ne.
Qed.

Lemma append_done jid st k type_ message payload s e s' :
  append_event k type_ message payload s = (Ok e, s') -> finished jid st (files s) -> finished jid st (files s').
Proof using.
  intros Hr (Hj&Ha&Hq).
  assert (Hf : forall f q, f ∈ job_families -> files s' !! (f :: q) = files s !! (f :: q)).
  { intros f q Hf. eapply (frame_done (append_event k type_ message payload)); [auto with touches|exact Hr|].
    unfold outside. cbn. tauto. }
  unfold finished, job_path, active_path, queued_path, job_families in *. rewrite !Hf; [done|set_solver..].
Qed.

Lemma update_finishes jid st message error owner s j s' :
  is_terminal st = true -> update_job_state jid st message error owner s = (Ok j, s') ->
  job_state j = st /\ finished jid st (files s').
Proof.
  intros Hst Hr. unfold update_job_state in Hr. apply M_bind_ok in Hr as (k&s1&Hid&Hr). injection Hid as Hid _.
  apply require_id_ok in Hid as [-> _]. apply M_bind_ok in Hr as (u&s2&_&Hr).
  apply M_bind_ok in Hr as (u3&s3&_&Hr). apply M_bind_ok in Hr as (j0&s4&Hg&Hr).
  apply M_bind_ok in Hr as (u5&s5&_&Hr). apply M_bind_ok in Hr as (now&s6&_&Hr).
  apply M_bind_ok in Hr as (u7&s7&Hw&Hr). apply M_bind_ok in Hr as (e&s8&He&Hr). injection Hr as <- <-.
  split; [done|]. eapply append_done; [exact He|].
  apply (write_finishes jid st) in Hw; [done|done|by apply get_job_id in Hg|done].
Qed.

Lemma cancel_finishes jid cancel expected at_ s j s' :
  cancel_job_if_active jid cancel expected at_ s = (Ok (j, true), s') -> job_state j = CANCELED ->
  finished jid CANCELED (files s').
Proof.
  intros Hr Hc. unfold cancel_job_if_active in Hr. apply M_bind_ok in Hr as (k&s1&Hid&Hr). injection Hid as Hid _.
  apply require_id_ok in Hid as [-> _]. apply M_bind_ok in Hr as (u&s2&_&Hr).
  apply M_bind_ok in Hr as (j0&s3&Hg&Hr). case_match; [done|].
  apply M_bind_ok in Hr as (now&s4&_&Hr). apply M_bind_ok in Hr as (u5&s5&_&Hr).
  apply M_bind_ok in Hr as (u6&s6&Hw&Hr). apply M_bind_ok in Hr as (e&s7&He&Hr).
  apply M_bind_ok in Hr as (u8&s8&Hcan&Hr). injection Hr as <- <-.
  rewrite bool_decide_true in Hcan by done. apply M_bind_ok in Hcan as (e'&s9&He'&Hcan). injection Hcan as _ ->.
  eapply append_done; [exact He'|]. eapply append_done; [exact He|].
  apply (write_finishes jid CANCELED) in Hw; [done|done| |exact Hc].
  apply get_job_id in Hg. unfold cancellation_copy. by case_match.
Qed.

Lemma get_job_found k s j s' : get_job k s = (Ok j, s') -> s' = s /\ files s !! job_path k = Some (DJob j).
Proof using.
  unfold get_job, read_required_job. intros (x&s1&Hx&Hr)%M_bind_ok. injection Hx as Hx <-. apply require_id_ok in Hx as [-> _].
  apply M_bind_ok in Hr as (d&s2&Hd&Hr). unfold read_doc in Hd. fold (job_path k) in Hd.
  destruct (files s !! job_path k) as [d'|]; [|injection Hd as <- <-; discriminate Hr]. destruct (_ <? _); [discriminate Hd|]. injection Hd as <- <-.
  destruct d'; try done. apply M_bind_ok in Hr as (u&s3&Hu&Hr). injection Hu as _ <-.
  apply M_bind_ok in Hr as (u'&s4&Hu&Hr). injection Hu as _ <-. by injection Hr as <- <-.
Qed.

Lemma acknowledge_finishes jid o s j s' :
  no_intents (files s) -> files s !! job_path jid = Some (DJob o) -> is_terminal (job_state o) = false ->
  acknowledge_job_cancellation jid s = (Ok j, s') -> job_state j = CANCELED /\ finished jid CANCELED (files s').
Proof.
  intros Hno Ho Ht Hr. unfold acknowledge_job_cancellation in Hr. apply M_bind_ok in Hr as (k&s1&Hid&Hr).
  injection Hid as Hid <-. apply require_id_ok in Hid as [-> _]. apply M_bind_ok in Hr as (u&s2&Hrec&Hr).
  unfold _recover_pending_transitions_unlocked in Hrec. rewrite reconcile_none in Hrec by done. injection Hrec as _ <-.
  apply M_bind_ok in Hr as (j0&s3&Hg&Hr). pose proof (get_job_id _ _ _ _ Hg) as Hid. apply get_job_found in Hg as [-> Hg].
  rewrite Hg in Ho. injection Ho as ->. rewrite bool_decide_false in Hr by (intros Hc; by rewrite Hc in Ht).
  apply M_bind_ok in Hr as (u4&s4&_&Hr). destruct (dict_get _ _) as [[]|]; try done.
  apply M_bind_ok in Hr as (now&s5&_&Hr). apply M_bind_ok in Hr as (u6&s6&Hw&Hr).
  apply M_bind_ok in Hr as (e&s7&He&Hr). injection Hr as <- <-. split; [done|].
  eapply append_done; [exact He|]. by apply (write_finishes jid CANCELED) in Hw.
Qed.

(** *** Recovery to the end *)
Lemma keeps_finished jid st {A : Type} (m : M disk A) s a s' :
  triple (finished jid st) m (fun _ => True) -> m s = (Ok a, s') -> finished jid st (files s) -> finished jid st (files s').
Proof using. intros Hm Hr Hf. specialize (Hm s Hf). rewrite Hr in Hm. apply Hm. Qed.

Lemma frame_finished jid {A : Type} (m : M disk A) :
  touches (outside job_families) m -> triple (finished jid FAILED) m (fun _ => True).
Proof using. apply (keeps_frame (G:=finished_guarded jid FAILED eq_refl)). Qed.

Lemma apply_recovery_finishes p k original target leases event capacity s u s' :
  job_state target = FAILED ->
  _apply_stale_lease_recovery_intent_unlocked p k original target leases event capacity s = (Ok u, s') ->
  outside job_families p -> u = target /\ finished (job_id target) FAILED (files s').
Proof.
  intros Hst Hr Hp. unfold _apply_stale_lease_recovery_intent_unlocked in Hr.
  do 5 (apply M_bind_ok in Hr as (?&?&_&Hr)). apply M_bind_ok in Hr as (current&?&_&Hr).
  do 2 (apply M_bind_ok in Hr as (?&?&_&Hr)). apply M_bind_ok in Hr as (u1&s1&Hw&Hr).
  apply (write_finishes (job_id target) FAILED) in Hw; [|done..].
  set (G := finished_guarded (job_id target) FAILED eq_refl).
  apply M_bind_ok in Hr as (u2&s2&He&Hr).
  apply (keeps_finished (job_id target) FAILED) in He; [|eapply frame_finished, touches_recovery_event; exact quiet_jobs|done].
  apply M_bind_ok in Hr as (u3&s3&Hd&Hr).
  apply (keeps_finished (job_id target) FAILED) in Hd; [| |done].
  2:{ apply keeps_each. intros l _. apply (triple_bind _ _ _ (fun _ => True)); [apply frame_finished; auto with touches|]. intros i _. apply (keeps_delete_lease (G:=G)). }
  apply M_bind_ok in Hr as (u4&s4&Hc&Hr).
  apply (keeps_finished (job_id target) FAILED) in Hc; [|eapply frame_finished, touches_settle; exact quiet_jobs|done].
  apply M_bind_ok in Hr as (u5&s5&Hu&Hr). injection Hr as <- <-. split; [done|].
  eapply (keeps_finished (job_id target) FAILED); [|exact Hu|done].
  apply frame_finished. by apply touches_unlink.
Qed.

Lemma recovery_finishes j expired attempts s u s' :
  _recover_expired_leases_unlocked j expired attempts s = (Ok u, s') ->
  job_id u = job_id j /\ (job_state u = FAILED -> finished (job_id j) FAILED (files s')).
Proof.
  intros Hr. unfold _recover_expired_leases_unlocked in Hr. do 2 (apply M_bind_ok in Hr as (?&?&_&Hr)).
  apply M_bind_ok in Hr as (now&?&_&Hr). set (target := recovered_copy _ _ _) in *.
  do 2 (apply M_bind_ok in Hr as (?&?&_&Hr)). apply M_bind_ok in Hr as (seq_&?&_&Hr).
  apply M_bind_ok in Hr as (created&?&_&Hr). set (event := mkEvent _ _ _ _ _ _ _) in *.
  apply M_bind_ok in Hr as (?&?&_&Hr). apply M_bind_ok in Hr as (tr&?&_&Hr).
  apply M_bind_ok in Hr as (p&?&Hp&Hr).
  assert (Hu : u = target).
  { unfold _apply_stale_lease_recovery_intent_unlocked in Hr. repeat (apply M_bind_ok in Hr as (?&?&_&Hr)). by injection Hr as <- _. }
  subst u. split; [done|]. intros Hst. apply apply_recovery_finishes in Hr; [by apply Hr|done|].
  unfold _write_transition_intent_unlocked in Hp. apply M_bind_ok in Hp as (?&?&_&Hp).
  apply M_bind_ok in Hp as (?&?&_&Hp). injection Hp as <- _. unfold outside, job_families. cbn. set_solver.
Qed.

Lemma recover_job_finishes jid cluster attempts s j s' :
  recover_stale_job jid cluster attempts s = (Ok (Some j), s') -> job_state j = FAILED -> finished jid FAILED (files s').
Proof.
  intros Hr Hst. unfold recover_stale_job in Hr. apply M_bind_ok in Hr as (k&?&Hid&Hr). injection Hid as Hid _.
  apply require_id_ok in Hid as [-> _]. do 3 (apply M_bind_ok in Hr as (?&?&_&Hr)).
  apply M_bind_ok in Hr as (job&?&Hg%get_job_id&Hr). apply M_bind_ok in Hr as (?&?&_&Hr).
  apply M_bind_ok in Hr as (scanned&?&_&Hr). apply M_bind_ok in Hr as (?&?&_&Hr). apply M_bind_ok in Hr as (expired&?&_&Hr).
  case_bool_decide; [by injection Hr|]. case_match.
  { apply M_bind_ok in Hr as (?&?&_&Hr). by injection Hr. }
  apply M_bind_ok in Hr as ([]&?&_&Hr); [by injection Hr|]. apply M_bind_ok in Hr as ([]&?&_&Hr); [by injection Hr|].
  apply M_bind_ok in Hr as (u&s1&Hu&Hr). injection Hr as <- <-. apply recovery_finishes in Hu as [_ Hu]. rewrite <- Hg. by apply Hu.
Qed.

(** Carry a fact over one call. *)
Ltac advance H t := let H' := fresh H in pose proof (t H) as H'; clear H; rename H' into H.

Lemma groups_finish cluster attempts jid groups recovered changed s js b s' :
  recover_groups cluster attempts groups recovered changed s = (Ok (js, b), s') ->
  (forall j, j ∈ recovered -> job_id j = jid -> job_state j = FAILED -> finished jid FAILED (files s)) ->
  forall j, j ∈ js -> job_id j = jid -> job_state j = FAILED -> finished jid FAILED (files s').
Proof.
  pose proof (finished_guarded jid FAILED eq_refl) as G.
  revert recovered changed s. induction groups as [|[k leases] groups IH]; intros recovered changed s Hr Hrec; cbn [recover_groups] in Hr.
  { injection Hr as <- _ <-. done. }
  assert (Hmove : forall {A : Type} (m : M disk A) s1 a s2, triple (finished jid FAILED) m (fun _ => True) -> m s1 = (Ok a, s2) ->
    (forall j, j ∈ recovered -> job_id j = jid -> job_state j = FAILED -> finished jid FAILED (files s1)) ->
    (forall j, j ∈ recovered -> job_id j = jid -> job_state j = FAILED -> finished jid FAILED (files s2))).
  { intros A m s1 a s2 Hm Hr1 Hf j Hj Hid Hst. eapply keeps_finished; eauto. }
  apply M_bind_ok in Hr as (job&s1&Hj&Hr). advance Hrec (Hmove _ _ _ _ _ (frame_finished jid _ (touches_read_job job_families _)) Hj).
  assert (Hdel : forall o, triple (finished jid FAILED) (for_each (fun l => _delete_lease_unlocked l o None None true) leases) (fun _ => True)).
  { intros o. apply keeps_each. intros l _. apply (keeps_delete_lease (G:=G)). }
  destruct job as [job|].
  2:{ apply M_bind_ok in Hr as (u&s2&Hu&Hr). advance Hrec (Hmove _ _ _ _ _ (Hdel None) Hu). by eapply IH. }
  apply M_bind_ok in Hr as (u&s2&Hu&Hr). advance Hrec (Hmove _ _ _ _ _ (frame_finished jid _ (touches_ensure _ _ _)) Hu).
  case_match.
  { apply M_bind_ok in Hr as (u'&s3&Hu'&Hr). advance Hrec (Hmove _ _ _ _ _ (Hdel (Some job)) Hu'). by eapply IH. }
  apply M_bind_ok in Hr as (pending&s3&Hp&Hr). advance Hrec (Hmove _ _ _ _ _ (frame_finished jid _ (touches_cleanup_after job_families _ _)) Hp).
  destruct pending; [by eapply IH|].
  apply M_bind_ok in Hr as (observed&s4&Ho&Hr). advance Hrec (Hmove _ _ _ _ _ (frame_finished jid _ (touches_observation job_families _)) Ho).
  destruct observed; [by eapply IH|]. apply M_bind_ok in Hr as (updated&s5&Hup&Hr).
  pose proof (Hmove _ _ _ _ _ (keeps_recover_expired (G:=G) _ _ _) Hup Hrec) as Hrec'.
  eapply IH; [exact Hr|]. intros j [Hin| ->%list_elem_of_singleton]%elem_of_app Hid Hst; [by apply (Hrec' j)|].
  apply recovery_finishes in Hup as [Hidu Hup]. rewrite <- Hid, Hidu. by apply Hup.
Qed.

Lemma recover_jobs_finish cluster attempts jid s js s' j :
  recover_stale_jobs cluster attempts s = (Ok js, s') -> j ∈ js -> job_id j = jid -> job_state j = FAILED ->
  finished jid FAILED (files s').
Proof.
  intros Hr. unfold recover_stale_jobs in Hr. do 3 (apply M_bind_ok in Hr as (?&?&_&Hr)).
  apply M_bind_ok in Hr as ([js' b]&s1&Hr&Hret). injection Hret as <- <-.
  unfold _recover_stale_jobs_from_expiry_refs_unlocked in Hr. do 2 (apply M_bind_ok in Hr as (?&?&_&Hr)).
  apply (groups_finish _ _ jid _ _ _ _ _ _ _ Hr). by intros j' []%not_elem_of_nil.
Qed.

(** Every one of them leaves the job finished. *)
Lemma ends_finished jid s j s' :
  ends_job jid s j s' -> is_terminal (job_state j) = true /\ finished jid (job_state j) (files s').
Proof.
  destruct 1 as [st message error owner j s' Hst Hr|cancel expected at_ j s' Hr Hc|o j s' Hno Ho Ht Hr
                |cluster attempts j s' Hr Hf|cluster attempts js j s' Hr Hin Hid Hf].
  - apply update_finishes in Hr as [-> Hf]; done.
  - rewrite Hc. split; [done|]. by eapply cancel_finishes.
  - eapply acknowledge_finishes in Hr as [-> Hf]; done.
  - rewrite Hf. split; [done|]. by eapply recover_job_finishes.
  - rewrite Hf. split; [done|]. by eapply recover_jobs_finish.
Qed.


Lemma digested_state j p h : digested j = Ok (p, h) -> job_state p = job_state j.
Proof using.
  unfold digested. intros (p'&Hp&Hr)%bind_ok. apply bind_ok in Hr as (u&_&Hr). injection Hr as <- _. cbn.
  unfold prepare_owned_jarvis_run_submission in Hp. case_match; [by injection Hp as <-|].
  apply bind_ok in Hp as (u1&_&Hp). apply bind_ok in Hp as (u2&_&Hp). by injection Hp as <-.
Qed.

(** What C1 leaves out: [submit_job] does not look for a record under the identifier of the
    job.  A submission that returned under a key of which the store has no record has put
    its job, as it was submitted, where the record of an ended job may have been. *)
Lemma submission_overwrites (job r : RelayJob) (s s' : disk) :
  no_intents (files s) -> files s !! idempotency_path (idempotency_key job) = None ->
  submit_job job s = (Ok r, s') ->
  job_id r = job_id job /\ job_state r = job_state job /\ files s' !! job_path (job_id job) = Some (DJob r).
Proof.
  intros Hno Hk Hr. unfold submit_job in Hr. apply M_bind_ok in Hr as (?&?&Hx&Hr). injection Hx as _ <-.
  apply M_bind_ok in Hr as (?&?&Hx&Hr). injection Hx as _ <-. apply M_bind_ok in Hr as ([]&s1&Hx&Hr).
  assert (Hs1 : files s1 = files s).
  { pose proof (readonly_files _ s readonly_require_migration) as Hf. by rewrite Hx in Hf. }
  apply M_bind_ok in Hr as (?&s2&Hx'&Hr). unfold _recover_pending_transitions_unlocked in Hx'.
  rewrite reconcile_none in Hx' by (by rewrite Hs1). injection Hx' as _ <-.
  apply M_bind_ok in Hr as (raw&s3&Hraw&Hr).
  unfold read_json_document, read_doc, mbind, M_bind in Hraw. rewrite Hs1, Hk in Hraw. injection Hraw as <- <-.
  unfold submit_new_key in Hr. apply M_bind_ok in Hr as ([p h]&?&Hd&Hr). injection Hd as Hd <-.
  assert (Hp : job_id p = job_id job /\ job_state p = job_state job) by (split; [by eapply digested_ok|by eapply digested_state]).
  do 2 (apply M_bind_ok in Hr as (?&?&_&Hr)). apply M_bind_ok in Hr as (now&?&_&Hr). apply M_bind_ok in Hr as (?&?&_&Hr).
  unfold write_submitted_job in Hr. do 3 (apply M_bind_ok in Hr as (?&?&_&Hr)).
  apply M_bind_ok in Hr as (?&s4&Hw%write_job_record&Hr). apply M_bind_ok in Hr as (?&s5&Hc&Hr).
  apply M_bind_ok in Hr as (e&s6&He&Hr). injection Hr as <- <-. destruct Hp as [Hid Hst]. rewrite <- Hid. split_and!; [done|done|].
  rewrite (frame_done _ _ _ _ (job_path (job_id p)) (touches_append _ _ _ _ _) He (job_not_outside _)).
  unfold _write_committed_idempotency_record in Hc. apply M_bind_ok in Hc as (?&?&Hn&Hc%write_done). injection Hn as _ <-.
  cbn in Hc. rewrite Hc, lookup_insert_ne; [exact Hw|discriminate].
Qed.

(** C2: A key gets one job: two submissions with one key that return, whatever ran between
    them and wherever it was cut, return the same job, and have asked for the same thing:
    their prepared jobs have the same digest.  No assumption on the hash is needed, since
    the record of a key names the key. *)
Theorem submission_idempotent (j1 j2 r1 r2 : RelayJob) (s s1 s2 : disk) (calls : list (option nat * queue_call)) :
  idempotency_key j1 = idempotency_key j2 ->
  submit_job j1 s = (Ok r1, s1) -> submit_job j2 (run_calls calls s1) = (Ok r2, s2) ->
  job_id r2 = job_id r1 /\
  exists digest p1 p2, digested (with_job_id j1 (job_id r1)) = Ok (p1, digest) /\
                       digested (with_job_id j2 (job_id r1)) = Ok (p2, digest).
Proof.
  intros Hkey Hr1%submit_binds Hr2. destruct Hr1 as (p1&h&Hp1&Hb).
  apply (bound_calls _ _ _ calls) in Hb.
  destruct (run_triple _ _ _ _ _ _ (triple_submit (idempotency_key j1) (job_id r1) h j2) Hr2 Hb) as [_ Ha].
  destruct Ha as [Hid [p2 Hp2]]; [done|]. split; [done|]. by exists h, p1, p2.
Qed.
End calls.
