(* ===== verification/JobExamples.v ===== *)
(** * Jobs on a concrete store: witnesses *)

From S2P Require Import Prelude Sha256 Json Identifiers Models Store OrderIndex JobIndex Events SchedulerCancel LeaseRecords LeaseTransitions.
From S2P Require Import JsonSize LeaseAdmission LeaseReplay Recovery LeaseExamples LeaseLifecycleExamples.
From S2P Require Import OwnerSessions OwnerSessionsRotation JobLifecycle JobFrames Decimal.
From S2P Require Import JobGuards JobSubmission JobSubmissionProofs JobClaims OwnerSessionsExamples.
From stdpp Require Import base list gmap strings.
From Stdlib Require Import ZArith Lia.
From Stdlib Require Ascii String.
Open Scope Z_scope.

#[local] Existing Instance reference_world.
#[local] Existing Instance no_derived.
#[local] Program Instance no_cleanup : ExecutionCleanup := {|
  _job_has_pending_execution_cleanup_unlocked _ _ := mret false;
|}.
Next Obligation. done. Qed.

#[local] Program Instance no_artifacts : SubmissionParts := {|
  _artifact_use_records_unlocked _ := mret tt;
  _ensure_artifact_use_indexes_unlocked _ := mret tt;
  _assert_input_ingest_quota_unlocked _ := mret tt;
  artifact_families := [];
|}.
Next Obligation. repeat constructor; apply not_elem_of_nil. Qed.
Next Obligation. done. Qed.
Next Obligation. done. Qed.
Next Obligation. done. Qed.
#[local] Existing Instance suffix_parser.
#[local] Instance no_times : IsoTime := {| iso_time _ := None |}.

(** ** A running job is reported as done *)
Definition running_disk : disk := mkDisk {[ job_path "job_1" := DJob demo_job ]} None 0 0.

Lemma running_quiet : no_intents (files running_disk).
Proof. intros name. unfold running_disk. cbn [files]. by apply lookup_singleton_ne. Qed.

(** A step that writes or removes a record, on a store that is not cut. *)
Ltac run_steps := repeat first
  [ erewrite M_bind_run by (apply write_doc_run; [apply record_limits_positive|reflexivity])
  | erewrite M_bind_run by (apply unlink_run; reflexivity)
  | erewrite M_bind_run by reflexivity ]; cbn [files ticks draws].

Definition ended_job : RelayJob := state_copy demo_job SUCCEEDED None None 0.
Definition ended_files (p : path) : gmap path doc :=
  delete p (delete ["jobs_queued"; "job_1.json"] (delete ["jobs_active"; "job_1.json"]
    (<[job_path "job_1" := DJob ended_job]> (<[p := DIntent (mkIntent "job_1" 1000000 (JobSyncIntent "job_1" 0))]>
       (files running_disk))))).

Lemma write_ended_runs : exists name,
  write_job ended_job (mkDisk (files running_disk) None 1 0) =
    (Ok tt, mkDisk (ended_files ["transition_intents"; name]) None 2 0).
Proof.
  exists (json_name ("job_sync" +:+ "-" +:+ _stable_ref_token ["job_sync"; "job_1"])).
  unfold write_job, _write_transition_intent_unlocked, _sync_job_derived_unlocked. run_steps.
  rewrite unlink_run by reflexivity. reflexivity.
Qed.

Lemma ended_lookup name f q : bool_decide (f ∈ ["jobs"; "jobs_queued"; "jobs_active"; "transition_intents"]) = false ->
  ended_files ["transition_intents"; name] !! (f :: q) = None.
Proof.
  intros Hf. apply bool_decide_eq_false in Hf. rewrite !not_elem_of_cons in Hf. destruct Hf as (H1&H2&H3&H4&_).
  unfold ended_files, running_disk, job_path. cbn [files].
  rewrite !lookup_delete_ne by (intros [=]; congruence). rewrite !lookup_insert_ne by (intros [=]; congruence).
  apply lookup_singleton_ne. intros [=]. congruence.
Qed.

Lemma append_runs name type_ message payload :
  exists e s', append_event "job_1" type_ message (Some payload)
    (mkDisk (ended_files ["transition_intents"; name]) None 2 0) = (Ok e, s').
Proof.
  unfold append_event, _append_event_unlocked. do 2 eexists.
  erewrite M_bind_run by reflexivity.
  assert (Hi : forall s, files s !! ["job_indexes"; "job_1.json"] = None -> read_job_index "job_1" s = (Ok None, s)).
  { intros s Hs. unfold read_job_index. erewrite M_bind_run by reflexivity.
    unfold rewrap, read_json_document, read_doc, mbind, M_bind, job_index_path.
    change (json_name "job_1") with "job_1.json". by rewrite Hs. }
  assert (Hn : next_after "legacy event sequence requires index migration: " recovery_bound (event_dir "job_1") 1
                 (mkDisk (ended_files ["transition_intents"; name]) None 2 0) =
               (Ok 1, mkDisk (ended_files ["transition_intents"; name]) None 2 0)).
  { replace recovery_bound with (S (Nat.pred recovery_bound)) by reflexivity. cbn [next_after].
    unfold path_exists, mbind, M_bind, seq_path, event_dir. cbn [files app]. by rewrite ended_lookup. }
  erewrite M_bind_run.
  2:{ unfold _next_event_seq. erewrite M_bind_run by (by apply Hi, ended_lookup). exact Hn. }
  do 2 erewrite M_bind_run by reflexivity.
  erewrite M_bind_run by (apply write_doc_run; [apply record_limits_positive|reflexivity]).
  erewrite M_bind_run.
  2:{ unfold increment_job_index. erewrite M_bind_run; [|apply Hi; cbn [files]; rewrite lookup_insert_ne by done;
      by apply ended_lookup]. reflexivity. }
  reflexivity.
Qed.

Lemma report_runs : exists s',
  update_job_state "job_1" SUCCEEDED None None None running_disk = (Ok ended_job, s').
Proof.
  destruct write_ended_runs as [name Hw].
  destruct (append_runs name (state_event_type SUCCEEDED) (state_message None SUCCEEDED)
              [("state", JStr (JobState_value SUCCEEDED)); ("error", JOptStr None)]) as (e&s1&He).
  exists s1. unfold update_job_state. do 2 erewrite M_bind_run by reflexivity.
  erewrite M_bind_run by (apply reconcile_none, running_quiet).
  erewrite (M_bind_run (get_job _) _ _ demo_job running_disk) by reflexivity.
  do 2 erewrite M_bind_run by reflexivity. cbn [files budget ticks draws running_disk].
  rewrite (M_bind_run _ _ _ _ _ Hw), (M_bind_run _ _ _ _ _ He). reflexivity.
Qed.

(** Whatever follows the report, the job stays [SUCCEEDED]: here a late cancellation that
    stops after two durable steps, another submission and a worker that asks for work. *)
Definition late_calls : list (option nat * queue_call) :=
  [(Some 2%nat, CallCancel "job_1" true None None); (None, CallSubmit (with_job_id demo_job "job_2"));
   (None, CallAcquireNext "ep_1" "ares" 60 3 None None None)].


(** ** A key whose job was collected *)
Section collected.
Context (name h : string) (Hlen : String.length h = 64%nat) (Hhex : str_forall is_lower_hex h = true).

Definition asked_job : RelayJob := with_job_id demo_job "job_9".
Definition retired_record : list (string * json) :=
  [("state", JStr "retired"); ("job_id", JStr "job_1"); ("idempotency_key", JStr "key"); ("job_digest", JStr h)].
Definition demo_tombstone : JobTombstone :=
  mkTombstone "clio-relay.job-tombstone.v1" "job_1" "ares" JARVIS SUCCEEDED "key" h 0 0 1 None "q_1"
    JobGcPhase.COMPLETE 0 0 0 false None true.
Definition migrated : doc :=
  DJson (JObj [("schema_version", JStr "clio-relay.index-migration.v1"); ("complete", JBool true)]).
Definition retired_files : gmap path doc :=
  <[["migrations"; "index-v1.json"] := migrated]>
  (<[["idempotency"; name] := DJson (JObj retired_record)]>
  {[ ["job_tombstones"; "job_1.json"] := DTombstone demo_tombstone ]}).
Definition retired_disk : disk := mkDisk retired_files None 0 0.

Lemma retired_quiet : no_intents retired_files.
Proof using.
  intros n. unfold retired_files. rewrite !lookup_insert_ne by done. by apply lookup_singleton_ne.
Qed.

Lemma record_fits : fits ["idempotency"; name] (DJson (JObj retired_record)).
Proof using Hlen.
  unfold fits. cbn [encoded_size]. pose proof (length_dumps_default (JObj retired_record)) as Hs.
  assert (Hb : (size_bound (JObj retired_record) <= 2000)%nat).
  { unfold retired_record. cbn [size_bound fmap list_fmap fst snd]. unfold sum_nat. cbn [foldr String.length]. rewrite Hlen. lia. }
  change (record_max_bytes ["idempotency"; name]) with 65536. lia.
Qed.

Lemma read_key_runs : idempotency_path "key" = ["idempotency"; name] ->
  read_json_document (idempotency_path "key") retired_disk = (Ok (Some (JObj retired_record)), retired_disk).
Proof using Hlen.
  intros ->. unfold read_json_document, read_doc, mbind, M_bind. cbn [files retired_disk]. unfold retired_files at 1.
  rewrite lookup_insert_ne, lookup_insert_eq by done.
  by rewrite (proj2 (Z.ltb_ge _ _) record_fits).
Qed.

(** The submitted job with the identifier and the digest of its key. *)
Definition bound_job : RelayJob := with_digest (with_job_id asked_job "job_1") h.

Lemma asked_digested : _job_idempotency_digest (with_job_id asked_job "job_1") = h ->
  digested (with_job_id asked_job "job_1") = Ok (bound_job, h).
Proof using.
  intros Hh. unfold digested. change (prepare_owned_jarvis_run_submission (with_job_id asked_job "job_1"))
    with (@Ok RelayJob (with_job_id asked_job "job_1")). unfold mbind at 1. cbn [result_bind]. by rewrite Hh.
Qed.

Lemma tombstone_reads : read_optional_tombstone "job_1" retired_disk = (Ok (Some demo_tombstone), retired_disk).
Proof using.
  unfold read_optional_tombstone, read_doc, mbind, M_bind. cbn [files retired_disk]. unfold retired_files at 1.
  change (json_name "job_1") with "job_1.json". rewrite !lookup_insert_ne, lookup_singleton_eq by done. reflexivity.
Qed.

Lemma replay_runs : _replay_retired_job bound_job "job_1" h retired_disk = (Ok (retired_copy bound_job demo_tombstone), retired_disk).
Proof using.
  unfold _replay_retired_job. rewrite (M_bind_run _ _ _ _ _ tombstone_reads).
  unfold ensure. rewrite !bool_decide_true by done. reflexivity.
Qed.

Lemma migration_runs : require_index_migration_complete retired_disk = (Ok tt, retired_disk).
Proof using.
  unfold require_index_migration_complete. erewrite M_bind_run.
  2:{ unfold read_doc. cbn [files retired_disk]. unfold retired_files at 1. rewrite lookup_insert_eq. reflexivity. }
  reflexivity.
Qed.

Lemma digest_binds : bind_key_digest retired_record "retired" "key" h retired_disk = (Ok tt, retired_disk).
Proof using Hlen Hhex.
  unfold bind_key_digest. rewrite (bool_decide_false ("retired" = "reserved")), andb_false_r by done.
  unfold sha256_digest. change (dict_get "job_digest" retired_record) with (Some (JStr h)). cbv beta iota.
  rewrite Hlen, Hhex. change ((64 =? 64)%nat && true) with true. cbv beta iota.
  unfold ensure. by rewrite bool_decide_true by done.
Qed.

Lemma collected_runs :
  idempotency_path "key" = ["idempotency"; name] -> _job_idempotency_digest (with_job_id asked_job "job_1") = h ->
  submit_job asked_job retired_disk = (Ok (retired_copy bound_job demo_tombstone), retired_disk).
Proof using Hlen Hhex.
  intros Hkey Hh. unfold submit_job. do 2 erewrite M_bind_run by reflexivity. rewrite (M_bind_run _ _ _ _ _ migration_runs).
  erewrite M_bind_run by (apply reconcile_none, retired_quiet). change (idempotency_key asked_job) with "key".
  rewrite (M_bind_run _ _ _ _ _ (read_key_runs Hkey)). unfold submit_known_key.
  erewrite M_bind_run by reflexivity. cbv beta iota.
  unfold lift at 1. rewrite (asked_digested Hh). erewrite M_bind_run by reflexivity. cbv beta iota.
  rewrite (M_bind_run _ _ _ _ _ digest_binds). exact replay_runs.
Qed.
End collected.

(** The key of a collected job, asked for twice by submissions that draw an identifier of
    their own: both get the collected job. *)
Lemma submission_idempotent_witness : exists (s : disk) (r : RelayJob),
  submit_job asked_job s = (Ok r, s) /\ job_id asked_job <> "job_1" /\ job_id r = "job_1" /\
  (job_id r = job_id r /\
   exists digest p1 p2, digested (with_job_id asked_job (job_id r)) = Ok (p1, digest) /\
                        digested (with_job_id asked_job (job_id r)) = Ok (p2, digest)).
Proof.
  destruct (sha256_hex_shape (dumps (JObj (digest_payload (with_job_id asked_job "job_1"))))) as [Hhex Hlen].
  set (h := _job_idempotency_digest (with_job_id asked_job "job_1")).
  pose proof (collected_runs (json_name (_idempotency_key_filename "key")) h Hlen Hhex eq_refl eq_refl) as Hr.
  set (s := retired_disk (json_name (_idempotency_key_filename "key")) h) in *.
  exists s, (retired_copy (bound_job h) (demo_tombstone h)).
  split; [exact Hr|]. split; [discriminate|]. split; [reflexivity|].
  exact (submission_idempotent asked_job asked_job _ _ s s s [] eq_refl Hr Hr).
Defined.
