(* ===== verification/GatewayIndexes.v ===== *)
(** * References between gateways, jobs, artifacts and schedulers ([queue_gateway_indexes.py])

    A gateway session is tied to jobs directly, through artifacts and through the
    scheduler job it runs in.  Every tie of an open session is a file below the job and a
    backlink below the session, so that it can be found from both sides; what a job or a
    task says of its scheduler jobs is kept in a manifest and in reverse references. *)

From S2P Require Import Prelude Sha256 Json Identifiers Models Store OrderIndex JobIndex Events.
From S2P Require Import LeaseRecords LeaseTransitions OwnerSessions.
From stdpp Require Import base list gmap strings sets.
From Stdlib Require Import ZArith Lia.
From Stdlib Require Ascii String.
Open Scope Z_scope.

#[export] Existing Instance GatewaySessionState.t_eq_dec.

Definition MAX_GATEWAY_INDEX_RECORDS : nat := Z.to_nat 10000.
Definition MAX_SCHEDULER_METADATA_RECORDS : nat := Z.to_nat 1000.
Definition GC_TERMINAL_SCHEDULER_PHASES : list string := ["completed"; "failed"; "canceled"].

(** ** What metadata says of scheduler jobs *)

(** The identifiers seen, those seen in a terminal phase, and whether any marker was seen. *)
Record scheduler_seen := mkSeen {
  seen_ids : gset string;
  seen_terminal : gset string;
  seen_marker : bool;
}.

(** [observe(document)]; a phase that lowers to one of the three ASCII words is one of
    them up to the case of ASCII letters. *)
Definition observe (document : option json) (s : scheduler_seen) : scheduler_seen :=
  match document with
  | Some (JObj d) =>
      match dict_get "scheduler_job_id" d with
      | Some (JStr (String c i)) =>
          let sid := String c i in
          mkSeen ({[ sid ]} ∪ seen_ids s)
            (match dict_get "phase" d with
             | Some (JStr phase) =>
                 if bool_decide (map_str lower_char phase ∈ GC_TERMINAL_SCHEDULER_PHASES)
                 then {[ sid ]} ∪ seen_terminal s else seen_terminal s
             | _ => seen_terminal s
             end) true
      | _ =>
          if bool_decide (get_value "scheduler" d <> None \/ get_value "scheduler_provider" d <> None)
          then mkSeen (seen_ids s) (seen_terminal s) true else s
      end
  | _ => s
  end.

(** One of the two lists of documents. *)
Definition observe_field (meta : list (string * json)) (field : string) (s : scheduler_seen) : result scheduler_seen :=
  match dict_get field meta with
  | Some (JList documents) =>
      _ ← raise_unless (length documents <=? MAX_SCHEDULER_METADATA_RECORDS)%nat
            (QueueConflictError "");
      Ok (foldl (fun s d => observe (Some d) s) s documents)
  | _ => Ok s
  end.

Definition observe_id (s : scheduler_seen) (raw : json) : scheduler_seen :=
  match raw with
  | JStr (String c i) => mkSeen ({[ String c i ]} ∪ seen_ids s) (seen_terminal s) true
  | _ => s
  end.

Definition _metadata_scheduler_gc_state (meta : list (string * json)) : result (gset string * bool) :=
  let s := observe (dict_get "runtime_metadata" meta) (mkSeen ∅ ∅ false) in
  let s := observe (Some (JObj meta)) s in
  let s := observe (dict_get "scheduler_status" meta) s in
  s ← observe_field meta "scheduler_statuses" s;
  s ← observe_field meta "scheduler_job_ownership" s;
  s ← match dict_get "scheduler_job_ids" meta with
      | Some (JList ids) =>
          _ ← raise_unless (length ids <=? MAX_SCHEDULER_METADATA_RECORDS)%nat
                (QueueConflictError "scheduler_job_ids exceeds ");
          Ok (foldl observe_id s ids)
      | _ => Ok s
      end;
  Ok (seen_ids s, seen_marker s && negb (bool_decide (seen_ids s = seen_terminal s))).

(** ** What a session is tied to *)
Definition text_value (field : string) (d : list (string * json)) : gset string :=
  match dict_get field d with Some (JStr (String c v)) => {[ String c v ]} | _ => ∅ end.

Definition _gateway_source_provenance (g : GatewaySession) : list (list (string * json)) :=
  gw_metadata g ::
  match dict_get "jarvis_runtime_binding" (gw_gateway g) with Some (JObj d) => [d] | _ => [] end.

Definition _gateway_direct_job_ids (g : GatewaySession) : gset string :=
  text_value "relay_job_id" (gw_metadata g) ∪ text_value "job_id" (gw_metadata g)
  ∪ ⋃ (text_value "source_relay_job_id" <$> _gateway_source_provenance g).

(** Names of artifacts that are not relay identifiers are left out. *)
Definition _gateway_direct_artifact_ids (g : GatewaySession) : gset string :=
  filter (fun a => valid_id a = true)
    (list_to_set (gw_artifacts g) ∪ ⋃ (text_value "source_relay_artifact_id" <$> _gateway_source_provenance g)).

Definition _gateway_relation_is_preserved (raw_ref : list (string * json)) (g : GatewaySession) : result bool :=
  match dict_get "relation_kind" raw_ref, dict_get "relation_key" raw_ref with
  | Some (JStr kind), Some (JStr key) =>
      if bool_decide (kind = "direct") then Ok (bool_decide (key ∈ _gateway_direct_job_ids g))
      else if bool_decide (kind = "artifact") then Ok (bool_decide (key ∈ _gateway_direct_artifact_ids g))
      else if bool_decide (kind = "scheduler") then Ok (bool_decide (gw_scheduler_job_id g = Some key))
      else Err (QueueConflictError "unsupported gateway relation kind: ")
  | _, _ => Err (QueueConflictError "gateway relation reference is invalid")
  end.

(** ** Paths *)
Definition durable_key (value : string) : result string := require_durable_record_id (JStr value) "record_id".

Definition _gateway_reverse_directory (kind key : string) : result path :=
  _ ← raise_unless (bool_decide (kind ∈ ["artifact"; "scheduler"]))
        (QueueConflictError "unsupported gateway reference kind: ");
  Ok ["gateways_by_" +:+ kind; _stable_ref_token [key]].

Definition _gateway_scheduler_jobs_directory (sid : string) : path := ["scheduler_jobs"; _stable_ref_token [sid]].
Definition _scheduler_reverse_ref_path (sid jid source : string) : path :=
  _gateway_scheduler_jobs_directory sid ++ [json_name (_stable_ref_token [jid; source])].

Definition job_ref_path (job_key record_name : string) : path := ["active_gateway_refs_by_job"; job_key; record_name].
Definition backlink_dir (session_key : string) : path := ["active_gateway_refs_by_session"; session_key].
Definition reverse_backlink_dir (session_key : string) : path := ["gateway_reverse_refs_by_session"; session_key].

(** The file name of the tie of a session, and of its backlink. *)
Definition tie_name (sid kind key : string) (source : option string) : string :=
  json_name (_stable_ref_token [sid; kind; key; default "" source]).
Definition backlink_name (jid record_name : string) : string := json_name (_stable_ref_token [jid; record_name]).

Definition tie_document (sid jid kind key : string) (source : option string) : list (string * json) :=
  [("session_id", JStr sid); ("job_id", JStr jid); ("relation_kind", JStr kind); ("relation_key", JStr key);
   ("source_id", JOptStr source); ("record_name", JStr (tie_name sid kind key source))].

(** Python walks a set of strings in an order that changes from run to run. *)
Section order.
Context `{World}.
Definition set_order (X : gset string) : list string := scandir_order (elements X).
End order.

Section indexes.
Context `{World}.

(** ** Typed reads *)

(** [read_json_file(path, GatewaySession)] *)
Definition read_gateway_file (p : path) : M disk GatewaySession :=
  d ← read_doc p;
  match d with
  | Some (DGateway g) => _ ← ensure (valid_gateway g) (ValidationError "GatewaySession"); mret g
  | Some _ => raise (ValidationError "GatewaySession")
  | None => raise (OSError "FileNotFoundError")
  end.

(** [read_optional] of the two flat families, whose file names are their identifiers. *)
Definition read_optional_gateway (sid : string) : M disk (option GatewaySession) :=
  d ← read_doc ["gateway_sessions"; json_name sid];
  match d with
  | None => mret None
  | Some (DGateway g) =>
      _ ← ensure (valid_gateway g) (ValidationError "GatewaySession");
      _ ← ensure (bool_decide (session_id g = sid)) (QueueConflictError "canonical gateway session identity mismatch: ");
      mret (Some g)
  | Some _ => raise (ValidationError "GatewaySession")
  end.

Definition read_optional_artifact (aid : string) : M disk (option ArtifactRef) :=
  d ← read_doc ["artifacts"; json_name aid];
  match d with
  | None => mret None
  | Some (DArtifact a) =>
      _ ← ensure (valid_artifact a) (ValidationError "ArtifactRef");
      _ ← ensure (bool_decide (artifact_id a = aid)) (QueueConflictError "canonical artifact identity mismatch: ");
      mret (Some a)
  | Some _ => raise (ValidationError "ArtifactRef")
  end.

(** ** Ties between a session and a job *)
Definition _link_active_gateway_job_unlocked (g : GatewaySession) (jid kind key : string) (source : option string)
  : M disk unit :=
  let name := tie_name (session_id g) kind key source in
  let document := DJson (JObj (tie_document (session_id g) jid kind key source)) in
  job_key ← lift (durable_key jid);
  _ ← write_doc (job_ref_path job_key name) document;
  session_key ← lift (durable_key (session_id g));
  write_doc (backlink_dir session_key ++ [backlink_name jid name]) document.

Definition _unlink_active_gateway_job_ref_unlocked (sid jid kind key : string) (source : option string) : M disk unit :=
  let name := tie_name sid kind key source in
  job_key ← lift (durable_key jid);
  _ ← unlink_durable_path (job_ref_path job_key name);
  session_key ← lift (durable_key sid);
  unlink_durable_path (backlink_dir session_key ++ [backlink_name jid name]).

Definition _write_gateway_reverse_ref_unlocked (kind key : string) (g : GatewaySession) : M disk unit :=
  session_key ← lift (durable_key (session_id g));
  let record_name := json_name session_key in
  directory ← lift (_gateway_reverse_directory kind key);
  _ ← write_doc (directory ++ [record_name]) (DGateway g);
  write_doc (reverse_backlink_dir session_key ++ [json_name (_stable_ref_token [kind; key])])
    (DJson (JObj [("session_id", JStr (session_id g)); ("family", JStr kind); ("relation_kind", JStr kind);
                  ("relation_key", JStr key); ("record_name", JStr record_name)])).

(** ** The sources of scheduler jobs *)

(** The identifiers in a manifest. *)
Definition old_scheduler_ids (raw : option json) : result (gset string) :=
  match raw with
  | None => Ok ∅
  | Some (JObj manifest) =>
      match dict_get "scheduler_ids" manifest with
      | Some (JList ids) =>
          _ ← raise_unless (forallb (fun v => match v with JStr (String _ _) => true | _ => false end) ids)
                (QueueConflictError "scheduler reference is invalid: ");
          Ok (list_to_set (omap (fun v => match v with JStr i => Some i | _ => None end) ids))
      | _ => Err (QueueConflictError "scheduler reference is invalid: ")
      end
  | Some _ => Err (QueueConflictError "scheduler reference is not an object: ")
  end.

(** The gateways that run in a scheduler job, one action for each. *)
Definition for_scheduler_gateways (sid : string) (act : GatewaySession -> M disk unit) : M disk unit :=
  directory ← lift (_gateway_reverse_directory "scheduler" sid);
  paths ← bounded_json_record_paths directory MAX_GATEWAY_INDEX_RECORDS;
  for_each (fun p => g ← read_gateway_file p; act g) paths.

Definition drop_scheduler_id (jid source sid : string) : M disk unit :=
  _ ← unlink_durable_path (_scheduler_reverse_ref_path sid jid source);
  for_scheduler_gateways sid (fun g =>
    _unlink_active_gateway_job_ref_unlocked (session_id g) jid "scheduler" sid (Some source)).

Definition add_scheduler_id (jid source sid : string) : M disk unit :=
  _ ← write_doc (_scheduler_reverse_ref_path sid jid source)
        (DJson (JObj [("scheduler_id", JStr sid); ("job_id", JStr jid); ("source_id", JStr source)]));
  for_scheduler_gateways sid (fun g =>
    if bool_decide (gw_state g = GatewaySessionState.CLOSED) then mret tt
    else _link_active_gateway_job_unlocked g jid "scheduler" sid (Some source)).

Definition sync_scheduler_source (jid source : string) (meta : list (string * json)) : M disk unit :=
  state ← lift (_metadata_scheduler_gc_state meta);
  let '(ids, ambiguous) := (state : gset string * bool) in
  let token := _stable_ref_token [source] in
  manifest_path ← lift (job_record_path "scheduler_refs_by_job" jid token);
  protection_path ← lift (job_record_path "scheduler_protections_by_job" jid token);
  raw ← read_json_document manifest_path;
  old ← lift (old_scheduler_ids raw);
  _ ← for_each (drop_scheduler_id jid source) (set_order (old ∖ ids));
  _ ← (if bool_decide (ids <> ∅) || ambiguous then
         write_doc manifest_path
           (DJson (JObj [("job_id", JStr jid); ("source_id", JStr source);
                         ("scheduler_ids", JList (JStr <$> sort_by str_leb (elements ids)));
                         ("ambiguous", JBool ambiguous)]))
       else unlink_durable_path manifest_path);
  _ ← (if ambiguous : bool then
         write_doc protection_path
           (DJson (JObj [("job_id", JStr jid); ("source_id", JStr source); ("ambiguous", JBool true)]))
       else unlink_durable_path protection_path);
  for_each (add_scheduler_id jid source) (set_order ids).

(** ** The index of a session *)

(** One job that names the session's scheduler job. *)
Definition link_scheduler_job (g : GatewaySession) (sid : string) (p : path) : M disk unit :=
  raw ← read_json_document p;
  match raw with
  | Some (JObj ref) =>
      match dict_get "job_id" ref, dict_get "source_id" ref with
      | Some (JStr jid), Some (JStr source) => _link_active_gateway_job_unlocked g jid "scheduler" sid (Some source)
      | _, _ => raise (QueueConflictError "scheduler reverse reference is invalid: ")
      end
  | Some _ => raise (QueueConflictError "scheduler reverse reference is invalid: ")
  | None => raise (OSError "FileNotFoundError")
  end.

Definition link_artifact (g : GatewaySession) (aid : string) : M disk unit :=
  _ ← _write_gateway_reverse_ref_unlocked "artifact" aid g;
  artifact ← read_optional_artifact aid;
  match artifact with
  | Some a => _link_active_gateway_job_unlocked g (artifact_job_id a) "artifact" aid None
  | None => mret tt
  end.

Definition _index_gateway_session_unlocked (g : GatewaySession) : M disk unit :=
  if bool_decide (gw_state g = GatewaySessionState.CLOSED) then mret tt
  else
    _ ← for_each (fun jid => _link_active_gateway_job_unlocked g jid "direct" jid None)
          (set_order (_gateway_direct_job_ids g));
    _ ← for_each (link_artifact g) (set_order (_gateway_direct_artifact_ids g));
    match gw_scheduler_job_id g with
    | Some (String c i) =>
        let sid := String c i in
        _ ← _write_gateway_reverse_ref_unlocked "scheduler" sid g;
        paths ← bounded_json_record_paths (_gateway_scheduler_jobs_directory sid) MAX_GATEWAY_INDEX_RECORDS;
        for_each (link_scheduler_job g sid) paths
    | _ => mret tt
    end.

(** ** Removing a session from the index *)

(** [preserve is not None and _gateway_relation_is_preserved(ref, preserve)] *)
Definition preserved (ref : list (string * json)) (preserve : option GatewaySession) : result bool :=
  match preserve with Some g => _gateway_relation_is_preserved ref g | None => Ok false end.

(** A backlink and the reference below its job. *)
Definition unindex_backlink (preserve : option GatewaySession) (p : path) : M disk unit :=
  raw ← read_json_document p;
  match raw with
  | Some (JObj ref) =>
      kept ← lift (preserved ref preserve);
      if (kept : bool) then mret tt
      else
        match dict_get "job_id" ref, dict_get "record_name" ref with
        | Some (JStr jid), Some (JStr name) =>
            job_key ← lift (durable_key jid);
            _ ← unlink_durable_path (job_ref_path job_key name);
            unlink_durable_path p
        | _, _ => raise (QueueConflictError "gateway job reference is invalid: ")
        end
  | Some _ => raise (QueueConflictError "gateway job reference is invalid: ")
  | None => raise (OSError "FileNotFoundError")
  end.

(** A reverse backlink and the copy of the session it names; Python tests the family for
    membership in a set. *)
Definition unindex_reverse (preserve : option GatewaySession) (p : path) : M disk unit :=
  raw ← read_json_document p;
  match raw with
  | Some (JObj ref) =>
      kept ← lift (preserved ref preserve);
      if (kept : bool) then mret tt
      else
        match dict_get "family" ref with
        | Some (JList _) | Some (JObj _) => raise (TypeError "unhashable type")
        | Some (JStr family) =>
            match dict_get "relation_key" ref, dict_get "record_name" ref with
            | Some (JStr key), Some (JStr name) =>
                _ ← ensure (bool_decide (family ∈ ["artifact"; "scheduler"]))
                      (QueueConflictError "gateway reverse reference is invalid: ");
                directory ← lift (_gateway_reverse_directory family key);
                _ ← unlink_durable_path (directory ++ [name]);
                unlink_durable_path p
            | _, _ => raise (QueueConflictError "gateway reverse reference is invalid: ")
            end
        | _ => raise (QueueConflictError "gateway reverse reference is invalid: ")
        end
  | Some _ => raise (QueueConflictError "gateway reverse reference is invalid: ")
  | None => raise (OSError "FileNotFoundError")
  end.

Definition _unindex_gateway_session_id_unlocked (sid : string) (preserve : option GatewaySession) : M disk unit :=
  session_key ← lift (durable_key sid);
  paths ← bounded_json_record_paths (backlink_dir session_key) MAX_GATEWAY_INDEX_RECORDS;
  _ ← for_each (unindex_backlink preserve) paths;
  paths ← bounded_json_record_paths (reverse_backlink_dir session_key) MAX_GATEWAY_INDEX_RECORDS;
  for_each (unindex_reverse preserve) paths.

Definition sync_gateway_session_derived (sid : string) : M disk unit :=
  session ← read_optional_gateway sid;
  _ ← _unindex_gateway_session_id_unlocked sid None;
  match session with
  | Some g => _index_gateway_session_unlocked g
  | None => mret tt
  end.

Definition _link_gateways_for_artifact_unlocked (a : ArtifactRef) : M disk unit :=
  directory ← lift (_gateway_reverse_directory "artifact" (artifact_id a));
  paths ← bounded_json_record_paths directory MAX_GATEWAY_INDEX_RECORDS;
  for_each (fun p =>
    g ← read_gateway_file p;
    if bool_decide (gw_state g = GatewaySessionState.CLOSED) then mret tt
    else _link_active_gateway_job_unlocked g (artifact_job_id a) "artifact" (artifact_id a) None) paths.
End indexes.
