(* ===== verification/Gateways.v ===== *)
(** * Gateway sessions ([queue_gateways.py])

    A gateway session gives access to a program that runs in a scheduler job.  Its
    canonical record is written under an intent, after which its references are rebuilt;
    a closed session stays closed, and the policy of a teardown is committed once. *)

From S2P Require Import Prelude Sha256 Json Identifiers Models Store OrderIndex JobIndex Events.
From S2P Require Import LeaseRecords LeaseTransitions OwnerSessions GatewayIndexes Decimal.
From stdpp Require Import base list gmap strings sets.
From Stdlib Require Import ZArith Lia.
From Stdlib Require Ascii String.
Open Scope Z_scope.

(** [_has_relay_managed_gateway_state] *)
Definition _has_relay_managed_gateway_state (gateway : list (string * json)) : bool :=
  let has (d : list (string * json)) key := bool_decide (is_Some (dict_get key d)) in
  existsb (has gateway)
    ["runtime_spec"; "jarvis_runtime_binding"; "browser_attachment"; "ownership_intents"; "teardown_intent";
     "teardown"; "detach"]
  || match dict_get "transport" gateway with
     | Some (JObj transport) => existsb (has transport) ["browser_proxy"; "desktop_connector"; "remote_connector"]
     | _ => false
     end.

(** The keyword arguments [**updates]: fields of the session, each given or not. *)
Record gateway_updates := mkUpdates {
  up_cluster : option string;
  up_name : option string;
  up_scheduler : option string;
  up_scheduler_job_id : option (option string);
  up_queue_state : option (option string);
  up_node : option (option string);
  up_requested_resources : option (list (string * json));
  up_submit_time : option (option Z);
  up_start_time : option (option Z);
  up_expected_expiry : option (option Z);
  up_stdout_uri : option (option string);
  up_stderr_uri : option (option string);
  up_log_uris : option (list string);
  up_gateway : option (list (string * json));
  up_artifacts : option (list string);
  up_created_at : option Z;
}.

Definition no_updates : gateway_updates :=
  mkUpdates None None None None None None None None None None None None None None None None.

(** [bool(updates)] *)
Definition has_updates (u : gateway_updates) : bool :=
  let given {A} (o : option A) := bool_decide (is_Some o) in
  given (up_cluster u) || given (up_name u) || given (up_scheduler u) || given (up_scheduler_job_id u)
  || given (up_queue_state u) || given (up_node u) || given (up_requested_resources u) || given (up_submit_time u)
  || given (up_start_time u) || given (up_expected_expiry u) || given (up_stdout_uri u) || given (up_stderr_uri u)
  || given (up_log_uris u) || given (up_gateway u) || given (up_artifacts u) || given (up_created_at u).

(** [session.model_copy(update=payload)] *)
Definition updated_copy (g : GatewaySession) (u : gateway_updates) (st : option GatewaySessionState.t)
    (meta : list (string * json)) (now : Z) : GatewaySession :=
  mkGateway (session_id g) (default (gw_cluster g) (up_cluster u)) (default (gw_name g) (up_name u))
    (default (gw_state g) st) (default (gw_scheduler g) (up_scheduler u))
    (default (gw_scheduler_job_id g) (up_scheduler_job_id u)) (default (gw_queue_state g) (up_queue_state u))
    (default (gw_node g) (up_node u)) (default (gw_requested_resources g) (up_requested_resources u))
    (default (gw_submit_time g) (up_submit_time u)) (default (gw_start_time g) (up_start_time u))
    (default (gw_expected_expiry g) (up_expected_expiry u)) (default (gw_stdout_uri g) (up_stdout_uri u))
    (default (gw_stderr_uri g) (up_stderr_uri u)) (default (gw_log_uris g) (up_log_uris u))
    (default (gw_gateway g) (up_gateway u)) (default (gw_artifacts g) (up_artifacts u))
    (default (gw_created_at g) (up_created_at u)) now meta.

(** The checks of [update_gateway_session] against the current session.  Documents are
    compared by structure; Python's [!=] also takes [True], [1] and [1.0] for one value and
    does not look at the order of keys, so the code lets an intent be replaced by a copy
    that differs only in these. *)
Definition check_gateway_update (g : GatewaySession) (st : option GatewaySessionState.t) (u : gateway_updates)
    (allow_owned_runtime_close reject_relay_managed_fields : bool) : result unit :=
  let closing := bool_decide (st = Some GatewaySessionState.CLOSED) in
  let closed := bool_decide (gw_state g = GatewaySessionState.CLOSED) in
  let owned := is_string "clio-relay" (dict_get "owner" (gw_metadata g))
               && match dict_get "runtime_spec" (gw_gateway g) with Some (JObj _) => true | _ => false end in
  _ ← raise_unless (negb (reject_relay_managed_fields && bool_decide (is_Some (up_gateway u))
                          && _has_relay_managed_gateway_state (gw_gateway g)))
        (QueueConflictError "generic gateway updates cannot replace relay-managed runtime state: ");
  _ ← raise_unless (negb (closing && negb closed && owned && negb allow_owned_runtime_close))
        (QueueConflictError "owned runtime gateway sessions must be closed with stop-runtime so ");
  _ ← raise_unless (negb (closed && bool_decide (is_Some st) && negb closing))
        (QueueConflictError "cannot reopen closed gateway session: ");
  _ ← raise_unless (negb (closed && has_updates u && negb allow_owned_runtime_close))
        (QueueConflictError "cannot update closed gateway session: ");
  raise_unless
    (match get_value "teardown_intent" (gw_gateway g), up_gateway u with
     | Some intent, Some replacement => bool_decide (dict_get "teardown_intent" replacement = Some intent)
     | _, _ => true
     end)
    (QueueConflictError "a committed gateway teardown intent cannot be removed or changed: ").

(** ** Teardown intents *)
Definition teardown_document (operation sid : string) (cancel_scheduler_job : bool) (created : Z)
  : list (string * json) :=
  [("schema_version", JStr "clio-relay.gateway-teardown-intent.v1"); ("operation_id", JStr operation);
   ("gateway_session_id", JStr sid); ("cancel_scheduler_job", JBool cancel_scheduler_job);
   ("created_at", JStr (isoformat created))].

Section teardown_checks.
Context `{!IsoParser}.

Definition check_teardown_intent (sid : string) (cancel_scheduler_job : bool) (raw : json) : result unit :=
  let invalid := Err (QueueConflictError "gateway teardown intent is invalid") in
  match raw with
  | JObj intent =>
      match dict_get "operation_id" intent, dict_get "created_at" intent, dict_get "cancel_scheduler_job" intent with
      | Some (JStr operation), Some (JStr created), Some (JBool cancel) =>
          if is_string "clio-relay.gateway-teardown-intent.v1" (dict_get "schema_version" intent)
             && is_string sid (dict_get "gateway_session_id" intent)
             && starts_with "gateway_cleanup_" operation && safe_global_record_id (JStr operation)
          then
            match fromisoformat created with
            | None => Err (QueueConflictError "gateway teardown intent time is invalid")
            | Some false => Err (QueueConflictError "gateway teardown intent time is naive")
            | Some true =>
                raise_unless (Bool.eqb cancel cancel_scheduler_job)
                  (QueueConflictError "gateway cleanup policy changed during retry; resume with the original ")
            end
          else invalid
      | _, _, _ => invalid
      end
  | _ => invalid
  end.
End teardown_checks.

Section gateways.
Context `{JobDerived} `{!IsoParser}.

Definition gateway_path (sid : string) : path := ["gateway_sessions"; json_name sid].

(** ** Writing a session *)
Definition write_gateway_session (g : GatewaySession) : M disk unit :=
  p ← _write_transition_intent_unlocked (session_id g) (GatewaySyncIntent (session_id g));
  _ ← write_doc (gateway_path (session_id g)) (DGateway g);
  _ ← _sync_gateway_session_derived_unlocked (session_id g);
  unlink_durable_path p.

Definition get_gateway_session (sid : string) : M disk GatewaySession :=
  sid ← lift (require_durable_record_id (JStr sid) "session_id");
  session ← read_optional_gateway sid;
  match session with
  | Some g => mret g
  | None => raise (NotFoundError "gateway session not found: ")
  end.

Definition create_gateway_session (g : GatewaySession) : M disk GatewaySession :=
  _ ← lift (require_durable_record_id (JStr (session_id g)) "session_id");
  _ ← require_index_migration_complete;
  _ ← _recover_pending_transitions_unlocked;
  existing ← read_optional_gateway (session_id g);
  _ ← ensure (bool_decide (existing = None)) (QueueConflictError "gateway session already exists: ");
  _ ← lift (_validate_owner_session_identity_metadata (gw_metadata g) false);
  _ ← _assert_owner_session_intake_open_unlocked (gw_metadata g) true;
  _ ← ensure_global "gateway_sessions" (session_id g);
  _ ← write_gateway_session g;
  mret g.

(** The time given as [expected_updated_at] is an aware one. *)
Definition update_gateway_session (sid : string) (st : option GatewaySessionState.t)
    (meta : option (list (string * json))) (expected_updated_at : option Z)
    (allow_owned_runtime_close reject_relay_managed_fields : bool) (updates : gateway_updates)
  : M disk GatewaySession :=
  sid ← lift (require_durable_record_id (JStr sid) "session_id");
  _ ← require_index_migration_complete;
  _ ← _recover_pending_transitions_unlocked;
  g ← get_gateway_session sid;
  _ ← ensure (opt_forall (fun t => gw_updated_at g =? t) expected_updated_at)
        (QueueConflictError "gateway session changed during a runtime transition: ");
  _ ← ensure_global "gateway_sessions" (session_id g);
  _ ← lift (check_gateway_update g st updates allow_owned_runtime_close reject_relay_managed_fields);
  now ← utc_now;
  let updated := updated_copy g updates st (dict_update (gw_metadata g) (default [] meta)) now in
  _ ← write_gateway_session updated;
  mret updated.

(** The copy that commits a teardown policy. *)
Definition teardown_copy (g : GatewaySession) (intent : list (string * json)) (now : Z) : GatewaySession :=
  updated_copy g
    (mkUpdates None None None None None None None None None None None None None
       (Some (dict_set "teardown_intent" (JObj intent) (gw_gateway g))) None None)
    None (gw_metadata g) now.

Definition prepare_gateway_teardown_intent (sid : string) (cancel_scheduler_job : bool) : M disk GatewaySession :=
  sid ← lift (require_durable_record_id (JStr sid) "session_id");
  _ ← require_index_migration_complete;
  _ ← _recover_pending_transitions_unlocked;
  g ← get_gateway_session sid;
  match get_value "teardown_intent" (gw_gateway g) with
  | Some raw => _ ← lift (check_teardown_intent sid cancel_scheduler_job raw); mret g
  | None =>
      _ ← ensure (negb (bool_decide (gw_state g = GatewaySessionState.CLOSED)))
            (QueueConflictError "closed gateway session has no durable teardown intent: ");
      token ← uuid4_hex;
      created ← utc_now;
      now ← utc_now;
      let updated :=
        teardown_copy g (teardown_document ("gateway_cleanup_" +:+ token) sid cancel_scheduler_job created) now in
      _ ← write_gateway_session updated;
      mret updated
  end.

Definition close_gateway_session (sid : string) : M disk GatewaySession :=
  sid ← lift (require_durable_record_id (JStr sid) "session_id");
  update_gateway_session sid (Some GatewaySessionState.CLOSED) None None false false no_updates.

(** ** Listings *)

(** [read_json_file] and the identity check of [_read_records] for a session. *)
Definition read_gateway_entry (entry : path * doc) : result GatewaySession :=
  match entry.2 with
  | DGateway g =>
      if negb (valid_gateway g) then Err (ValidationError "GatewaySession")
      else if bool_decide (session_id g = json_stem (default "" (last entry.1))) then Ok g
      else Err (QueueConflictError "canonical session_id filename/content identity mismatch: ")
  | _ => Err (ValidationError "GatewaySession")
  end.

Definition gateway_matches (cluster : option string) (st : option GatewaySessionState.t) (g : GatewaySession) : bool :=
  opt_forall (fun c => bool_decide (gw_cluster g = c)) cluster && opt_forall (fun x => bool_decide (gw_state g = x)) st.

Definition gateway_leb (a b : GatewaySession) : bool := gw_created_at a <=? gw_created_at b.

Definition list_gateway_sessions (cluster : option string) : M disk (list GatewaySession) :=
  scanned ← scan_many read_gateway_entry ["gateway_sessions"] (Z.to_nat MAX_BOUNDED_SCAN_RECORDS);
  _ ← ensure (negb scanned.2)
        (QueueConflictError "canonical record family exceeds the bounded read limit of ");
  mret (sort_by gateway_leb (List.filter (gateway_matches cluster None) scanned.1)).

Definition list_gateway_sessions_page (cursor limit : json) (cluster : option string) (st : option GatewaySessionState.t)
  : M disk (list GatewaySession * option Z * Z) :=
  _read_global_order_page "gateway_sessions" read_optional_gateway session_id (gateway_matches cluster st) cursor limit.

Definition scan_gateway_sessions (limit : Z) (cluster : option string) (st : option GatewaySessionState.t)
  : M disk (list GatewaySession * bool) :=
  _scan_global_order "gateway_sessions" read_optional_gateway session_id (gateway_matches cluster st) limit.
End gateways.
