(* ===== verification/ExecutionCleanup.v ===== *)
(** * Pending cleanups of executions ([queue_execution_cleanup.py],
      [queue_execution_cleanup_markers.py])

    A job whose execution left processes or files behind has a marker for each task that
    must clean up.  Markers live in one of 256 shards of the job's cluster, in a directory
    named after the job; while the directory exists no worker is offered the job.  Older
    releases kept the markers flat in the shard: every write of a job first moves those of
    its shard, and leaves a receipt. *)

From S2P Require Import Prelude Sha256 Json Identifiers Models Store OrderIndex JobIndex Events.
From S2P Require Import LeaseRecords LeaseTransitions OwnerSessions Decimal.
From stdpp Require Import base list gmap strings sets.
From Stdlib Require Import ZArith Lia.
From Stdlib Require Ascii String.
Open Scope Z_scope.

(** ** Directories the code makes and removes itself

    A directory exists when the code made it, which leaves an entry at its own path, or
    when anything lies below it. *)
Definition directory : doc := DText "".
Definition marks_directory (d : doc) : bool := match d with DText EmptyString => true | _ => false end.

Definition below (dir p : path) : Prop := dir `prefix_of` p /\ p <> dir.
#[export] Instance below_dec dir p : Decision (below dir p).
Proof. unfold below. apply _. Defined.

Definition children (dir : path) (m : gmap path doc) : list path :=
  filter (below dir) (map_to_list m).*1.
Definition dir_exists (p : path) (m : gmap path doc) : bool :=
  bool_decide (is_Some (m !! p) \/ children p m <> []).
(** [S_ISDIR] and [is_file()] of a path that exists. *)
Definition is_dir (p : path) (m : gmap path doc) : bool :=
  match m !! p with Some d => marks_directory d | None => bool_decide (children p m <> []) end.
Definition is_file (p : path) (m : gmap path doc) : bool :=
  match m !! p with Some d => negb (marks_directory d) | None => false end.

(** The names below a directory that end with [suffix]. *)
Definition names_below (dir : path) (suffix : string) (m : gmap path doc) : list string :=
  List.filter (ends_with suffix) (remove_dups ((fun p => nth (length dir) p "") <$> children dir m)).

(** ** Paths *)
Definition _execution_cleanup_shard (jid : string) : Z := default 0 (head (sha256_bytes (bytes_of_string jid))).
(** [f"{shard:02x}"] *)
Definition shard_name (shard : Z) : string := hex_byte shard.

Definition cluster_key (cluster : string) : result string := filesystem_key (JStr cluster) "cluster".

Definition _execution_cleanup_shard_path (cluster : string) (shard : Z) : result path :=
  key ← cluster_key cluster; Ok ["execution_cleanup_pending"; key; shard_name shard].
Definition _execution_cleanup_migration_receipt_path (cluster : string) (shard : Z) : result path :=
  key ← cluster_key cluster; Ok ["execution_cleanup_migrations"; key; json_name (shard_name shard)].
Definition _execution_cleanup_job_path (cluster jid : string) : result path :=
  shard_path ← _execution_cleanup_shard_path cluster (_execution_cleanup_shard jid);
  key ← require_durable_record_id (JStr jid) "record_id";
  Ok (shard_path ++ [key +:+ ".pending"]).
Definition _execution_cleanup_path (cluster jid tid : string) : result path :=
  job_path ← _execution_cleanup_job_path cluster jid;
  key ← require_durable_record_id (JStr tid) "record_id";
  Ok (job_path ++ [json_name key]).

(** [value == shard] for a small number: a JSON boolean or float may equal it. *)
Definition equals_number (n : Z) (v : option json) : bool :=
  match v with
  | Some (JInt z) => z =? n
  | Some (JBool b) => Z.b2z b =? n
  | Some (JFloat r) => bool_decide (r = string_of_Z n +:+ ".0") || ((n =? 0) && bool_decide (r = "-0.0"))
  | _ => false
  end.

Section cleanup.
Context `{World}.

(** ** Directory operations *)
Definition inspect {A : Type} (f : gmap path doc -> A) : M disk A := fun s => (Ok (f (files s)), s).

(** [dir.glob("*" + suffix)]: the names are read before the loop runs. *)
Definition glob (dir : path) (suffix : string) : M disk (list path) :=
  names ← inspect (names_below dir suffix); mret ((fun name => dir ++ [name]) <$> scandir_order names).

(** [mkdir(exist_ok=True)] *)
Definition mkdir (p : path) : M disk unit :=
  present ← inspect (dir_exists p);
  if (present : bool) then
    isdir ← inspect (is_dir p); ensure (isdir : bool) (OSError "FileExistsError")
  else durable (fun m => <[p := directory]> m).

(** [path.mkdir(parents=True, exist_ok=True)] below the family's own directory. *)
Definition mkdir_parents (p : path) : M disk unit :=
  for_each (fun n => mkdir (take n p)) (seq 2 (length p - 1)).

(** [path.rmdir()] *)
Definition rmdir (p : path) : M disk unit :=
  present ← inspect (dir_exists p);
  _ ← ensure (present : bool) (OSError "FileNotFoundError");
  empty ← inspect (fun m => bool_decide (children p m = []));
  _ ← ensure (empty : bool) (OSError "Directory not empty");
  durable (fun m => delete p m).

(** [read_json_file(path, RelayTask)] *)
Definition read_task_file (p : path) : M disk RelayTask :=
  d ← read_doc p;
  match d with
  | Some (DTask t) => _ ← ensure (valid_task t) (ValidationError "RelayTask"); mret t
  | Some _ => raise (ValidationError "RelayTask")
  | None => raise (OSError "FileNotFoundError")
  end.

(** ** Moving the flat markers of older releases *)
Definition _execution_cleanup_shard_migration_complete_unlocked (cluster : string) (shard : Z) : M disk bool :=
  receipt_path ← lift (_execution_cleanup_migration_receipt_path cluster shard);
  raw ← read_json_document receipt_path;
  mret match raw with
       | Some (JObj receipt) =>
           is_string "clio-relay.execution-cleanup-migration.v1" (dict_get "schema_version" receipt)
           && is_string cluster (dict_get "cluster" receipt)
           && equals_number shard (dict_get "shard" receipt) && is_true (dict_get "completed" receipt)
       | _ => false
       end.

(** One marker: it moves to its job's directory, or is dropped when it is there already. *)
Definition migrate_marker (cluster : string) (shard : Z) (legacy_path : path) : M disk unit :=
  marker ← read_task_file legacy_path;
  _ ← ensure (is_string cluster (dict_get "cluster" (task_metadata marker)))
        (QueueConflictError "legacy execution cleanup marker has the wrong cluster: ");
  _ ← ensure (_execution_cleanup_shard (task_job_id marker) =? shard)
        (QueueConflictError "legacy execution cleanup marker has the wrong shard: ");
  target ← lift (_execution_cleanup_path cluster (task_job_id marker) (task_id marker));
  _ ← mkdir_parents (removelast target);
  present ← inspect (dir_exists target);
  if (present : bool) then
    existing ← read_task_file target;
    _ ← ensure (bool_decide (task_id existing = task_id marker) && bool_decide (task_job_id existing = task_job_id marker))
          (QueueConflictError "execution cleanup migration target conflicts: ");
    unlink_durable_path legacy_path
  else
    durable (fun m => match m !! legacy_path with Some d => <[target := d]> (delete legacy_path m) | None => m end).

(** The loop; [false] when more than [limit] markers are left. *)
Fixpoint migrate_markers (cluster : string) (shard : Z) (limit : nat) (paths : list path) : M disk bool :=
  match paths, limit with
  | [], _ => mret true
  | _ :: _, O => mret false
  | p :: rest, S n => _ ← migrate_marker cluster shard p; migrate_markers cluster shard n rest
  end.

Definition migration_receipt (cluster : string) (shard now : Z) : list (string * json) :=
  [("schema_version", JStr "clio-relay.execution-cleanup-migration.v1"); ("cluster", JStr cluster);
   ("shard", JInt shard); ("completed", JBool true); ("completed_at", JStr (isoformat now))].

(** [_migrate_execution_cleanup_shard_unlocked] *)
Definition migrate_cleanup_shard (cluster : string) (shard : Z) (limit : nat) : M disk bool :=
  receipt_path ← lift (_execution_cleanup_migration_receipt_path cluster shard);
  done ← _execution_cleanup_shard_migration_complete_unlocked cluster shard;
  if (done : bool) then mret true
  else
    present ← path_exists receipt_path;
    _ ← ensure (negb present) (QueueConflictError "execution cleanup migration receipt is invalid: ");
    shard_path ← lift (_execution_cleanup_shard_path cluster shard);
    paths ← glob shard_path ".json";
    moved ← migrate_markers cluster shard limit paths;
    if (moved : bool) then
      now ← utc_now;
      _ ← write_doc receipt_path (DJson (JObj (migration_receipt cluster shard now)));
      mret true
    else mret false.

(** The call every write of a job makes. *)
Definition CLEANUP_MIGRATION_LIMIT : nat := Z.to_nat (DEFAULT_EXACT_RECORD_LIMIT + 1).
Definition migrate_job_shard (cluster jid : string) : M disk unit :=
  _ ← migrate_cleanup_shard cluster (_execution_cleanup_shard jid) CLEANUP_MIGRATION_LIMIT; mret tt.

(** [_job_has_pending_execution_cleanup_unlocked] *)
Definition has_pending_cleanup (cluster jid : string) : M disk bool :=
  done ← _execution_cleanup_shard_migration_complete_unlocked cluster (_execution_cleanup_shard jid);
  if negb (done : bool) then mret true
  else p ← lift (_execution_cleanup_job_path cluster jid); inspect (dir_exists p).

(** ** Scanning *)

(** The markers of one job's directory; [true] when the limit cut the loop. *)
Fixpoint scan_markers (cluster : string) (shard : Z) (limit : nat) (paths : list path) (markers : list RelayTask)
  : M disk (list RelayTask * bool) :=
  match paths with
  | [] => mret (markers, false)
  | p :: rest =>
      if (limit <=? length markers)%nat then mret (markers, true)
      else
        marker ← read_task_file p;
        _ ← ensure (is_string cluster (dict_get "cluster" (task_metadata marker)))
              (QueueConflictError "execution cleanup marker has the wrong cluster: ");
        _ ← ensure (_execution_cleanup_shard (task_job_id marker) =? shard)
              (QueueConflictError "execution cleanup marker has the wrong shard: ");
        scan_markers cluster shard limit rest (markers ++ [marker])
  end.

(** The directories of a shard; one without markers is removed. *)
Fixpoint scan_pending (cluster : string) (shard : Z) (limit : nat) (dirs : list path) (markers : list RelayTask)
  : M disk (list RelayTask * bool) :=
  match dirs with
  | [] => mret (markers, false)
  | dir :: rest =>
      present ← inspect (dir_exists dir);
      if negb (present : bool) then scan_pending cluster shard limit rest markers
      else
        isdir ← inspect (is_dir dir);
        _ ← ensure (isdir : bool) (QueueConflictError "execution cleanup job index is not a directory: ");
        paths ← glob dir ".json";
        scanned ← scan_markers cluster shard limit paths markers;
        if (scanned.2 : bool) then mret scanned
        else
          _ ← (if bool_decide (paths = []) then
                 empty ← inspect (fun m => bool_decide (children dir m = []));
                 _ ← ensure (empty : bool) (QueueConflictError "could not repair empty execution cleanup index ");
                 rmdir dir
               else mret tt);
          scan_pending cluster shard limit rest scanned.1
  end.

Definition _scan_execution_cleanup_shard_unlocked (cluster : string) (shard : Z) (limit : nat)
  : M disk (list RelayTask * bool) :=
  migrated ← migrate_cleanup_shard cluster shard limit;
  shard_path ← lift (_execution_cleanup_shard_path cluster shard);
  dirs ← glob shard_path ".pending";
  scanned ← scan_pending cluster shard limit dirs [];
  if (scanned.2 : bool) then mret scanned else mret (scanned.1, negb migrated).

Definition _execution_cleanup_shard_has_pending_paths (cluster : string) (shard : Z) : M disk bool :=
  p ← lift (_execution_cleanup_shard_path cluster shard);
  inspect (fun m => bool_decide (names_below p ".json" m <> []) || bool_decide (names_below p ".pending" m <> [])).

(** The loop over the shards: it stops at the first with something in it. *)
Fixpoint scan_shards (cluster : string) (limit : nat) (shards : list Z) (selected : option Z)
    (found : list RelayTask * bool) : M disk (option Z * (list RelayTask * bool)) :=
  match shards with
  | [] => mret (selected, found)
  | shard :: rest =>
      p ← lift (_execution_cleanup_shard_path cluster shard);
      present ← inspect (dir_exists p);
      if negb (present : bool) then scan_shards cluster limit rest selected found
      else
        scanned ← _scan_execution_cleanup_shard_unlocked cluster shard limit;
        if bool_decide (scanned.1 <> []) || scanned.2 then mret (Some shard, scanned)
        else scan_shards cluster limit rest (Some shard) scanned
  end.

Fixpoint any_shard (cluster : string) (shards : list Z) : M disk bool :=
  match shards with
  | [] => mret false
  | shard :: rest =>
      found ← _execution_cleanup_shard_has_pending_paths cluster shard;
      if (found : bool) then mret true else any_shard cluster rest
  end.

(** The shard the cursor file names. *)
Definition cleanup_cursor (raw : option json) : result Z :=
  match raw with
  | None => Ok 0
  | Some (JObj d) =>
      match dict_get "next_shard" d with
      | Some (JInt shard) =>
          _ ← raise_unless ((0 <=? shard) && (shard <? 256)) (QueueConflictError "execution cleanup cursor is invalid: ");
          Ok shard
      | _ => Err (QueueConflictError "execution cleanup cursor is invalid: ")
      end
  | Some _ => Err (QueueConflictError "execution cleanup cursor is not an object: ")
  end.

Definition task_created_leb (a b : RelayTask) : bool := task_created_at a <=? task_created_at b.

Definition scan_execution_cleanup (cluster : string) (limit : nat) : M disk (list RelayTask * bool) :=
  key ← lift (cluster_key cluster);
  let cursor_path := ["execution_cleanup_scan_cursors"; json_name key] in
  raw ← read_json_document cursor_path;
  cursor ← lift (cleanup_cursor raw);
  scanned ← scan_shards cluster limit ((fun n => (cursor + Z.of_nat n) mod 256) <$> seq 0 256) None ([], false);
  let '(selected, found) := scanned in
  _ ← match selected with
      | None => mret tt
      | Some shard =>
          now ← utc_now;
          write_doc cursor_path
            (DJson (JObj [("cluster", JStr cluster); ("next_shard", JInt ((shard + 1) mod 256));
                          ("updated_at", JStr (isoformat now))]))
      end;
  others ← any_shard cluster
             (List.filter (fun shard => negb (bool_decide (selected = Some shard))) (Z.of_nat <$> seq 0 256));
  let matching :=
    List.filter (fun t => is_string cluster (dict_get "cluster" (task_metadata t))) found.1 in
  mret (sort_by task_created_leb matching, found.2 || others).
End cleanup.

(** ** Changing markers ([queue_execution_cleanup_markers.py]) *)

(** [task.model_copy(update={"updated_at": ..., "metadata": ...})] *)
Definition task_metadata_copy (t : RelayTask) (meta : list (string * json)) (now : Z) : RelayTask :=
  mkTask (task_id t) (task_job_id t) (task_sequence t) (task_name t) (task_state t) (task_created_at t) now meta.

(** [{**cleanup, "migrated_from_legacy": ..., "migrated_at": ...}] *)
Definition migrated_cleanup (cleanup : list (string * json)) (legacy : bool) (now : Z) : list (string * json) :=
  dict_set "migrated_at" (default (JStr (isoformat now)) (dict_get "migrated_at" cleanup))
    (dict_set "migrated_from_legacy" (JBool legacy) cleanup).

(** [{**cleanup, "acknowledgment_stage": ..., "sidecars": {**sidecars, role: ...}}] *)
Definition quarantined_cleanup (cleanup sidecars st : list (string * json)) (role : string) (now : Z)
  : list (string * json) :=
  dict_set "sidecars"
    (JObj (dict_set role
       (JObj (dict_set "quarantined_at" (JStr (isoformat now)) (dict_set "stage" (JStr "quarantined") st))) sidecars))
    (dict_set "acknowledgment_stage" (JStr "quarantining") cleanup).

Section markers.
Context `{JobDerived}.

(** The canonical task of an operation. *)
Definition marked_task (tid : string) : M disk RelayTask :=
  task ← read_optional_task tid;
  match task with Some t => mret t | None => raise (NotFoundError "task not found: ") end.

Definition required_cluster (t : RelayTask) : result string :=
  match dict_get "cluster" (task_metadata t) with
  | Some (JStr (String c s)) => Ok (String c s)
  | _ => Err (QueueConflictError "task ")
  end.

(** The canonical task and its copies below the job. *)
Definition write_marked_task (t : RelayTask) : M disk unit :=
  _ ← write_doc ["tasks"; json_name (task_id t)] (DTask t);
  p ← lift (job_record_path "tasks_by_job" (task_job_id t) (task_id t));
  _ ← write_doc p (DTask t);
  _ ← match task_sequence t with
      | Some sequence => _write_ordered_job_record "task" (task_job_id t) sequence (DTask t)
      | None => mret tt
      end;
  _sync_task_retention_indexes_unlocked t.

Definition register_execution_cleanup (tid : string) (meta : list (string * json)) : M disk RelayTask :=
  tid ← lift (require_durable_record_id (JStr tid) "task_id");
  t ← marked_task tid;
  now ← utc_now;
  let updated := task_metadata_copy t (dict_update (task_metadata t) meta) now in
  cluster ← lift (required_cluster updated);
  _ ← migrate_job_shard cluster (task_job_id updated);
  pending_job_path ← lift (_execution_cleanup_job_path cluster (task_job_id updated));
  _ ← mkdir_parents pending_job_path;
  isdir ← inspect (is_dir pending_job_path);
  _ ← ensure (isdir : bool) (QueueConflictError "execution cleanup job index is not a directory: ");
  p ← lift (_execution_cleanup_path cluster (task_job_id updated) (task_id updated));
  _ ← write_doc p (DTask updated);
  _ ← write_marked_task updated;
  mret updated.

(** The task of a job, for the operations that name both. *)
Definition task_of_job (jid tid : string) : M disk RelayTask :=
  t ← marked_task tid;
  _ ← ensure (bool_decide (task_job_id t = jid)) (QueueConflictError "task ");
  mret t.

(** The directory of the last marker goes too. *)
Definition drop_marker (p : path) : M disk unit :=
  _ ← unlink_durable_path p;
  let dir := removelast p in
  present ← inspect (dir_exists dir);
  empty ← inspect (fun m => bool_decide (children dir m = []));
  if (present : bool) && (empty : bool) then rmdir dir else mret tt.

Definition acknowledge_execution_cleanup (jid tid : string) (meta : list (string * json)) : M disk RelayTask :=
  jid ← lift (require_durable_record_id (JStr jid) "job_id");
  tid ← lift (require_durable_record_id (JStr tid) "task_id");
  t ← task_of_job jid tid;
  now ← utc_now;
  let updated := task_metadata_copy t (dict_update (task_metadata t) meta) now in
  cluster ← lift (required_cluster updated);
  _ ← write_marked_task updated;
  p ← lift (_execution_cleanup_path cluster jid tid);
  _ ← drop_marker p;
  mret updated.

Definition cleanup_schema (d : list (string * json)) : bool :=
  is_string "clio-relay.execution-cleanup.v1" (dict_get "schema_version" d).

Definition nonempty_object (v : option json) : bool := match v with Some (JObj (_ :: _)) => true | _ => false end.

Definition migrate_execution_cleanup_plan (jid tid : string) (cleanup : list (string * json)) : M disk RelayTask :=
  jid ← lift (require_durable_record_id (JStr jid) "job_id");
  tid ← lift (require_durable_record_id (JStr tid) "task_id");
  t ← task_of_job jid tid;
  match dict_get "execution_cleanup" (task_metadata t) with
  | Some (JObj existing) =>
      _ ← ensure (cleanup_schema existing) (QueueConflictError "task ");
      _ ← ensure (cleanup_schema cleanup) (QueueConflictError "task ");
      _ ← ensure (nonempty_object (dict_get "sidecars" cleanup)) (QueueConflictError "task ");
      let planned := get_value "sidecars" existing in
      _ ← ensure (bool_decide (planned = None) || bool_decide (planned = dict_get "sidecars" cleanup))
            (QueueConflictError "task ");
      cluster ← lift (required_cluster t);
      p ← lift (_execution_cleanup_path cluster jid tid);
      present ← inspect (is_file p);
      _ ← ensure (present : bool) (QueueConflictError "execution cleanup marker disappeared before plan migration: ");
      now ← utc_now;
      let plan := migrated_cleanup cleanup (bool_decide (planned = None)) now in
      let updated := task_metadata_copy t (dict_set "execution_cleanup" (JObj plan) (task_metadata t)) now in
      _ ← write_doc p (DTask updated);
      _ ← write_marked_task updated;
      mret updated
  | _ => raise (QueueConflictError "task ")
  end.

(** The state of one staged sidecar, or why there is none. *)
Definition staged_sidecar (t : RelayTask) (role source quarantine : string)
  : result (list (string * json) * list (string * json) * list (string * json)) :=
  match dict_get "execution_cleanup" (task_metadata t) with
  | Some (JObj cleanup) =>
      _ ← raise_unless (cleanup_schema cleanup) (QueueConflictError "task ");
      match dict_get "sidecars" cleanup with
      | Some (JObj sidecars) =>
          match dict_get role sidecars with
          | Some (JObj st) =>
              _ ← raise_unless (is_string "clio-relay.execution-sidecar-cleanup.v1" (dict_get "schema_version" st)
                                && is_string source (dict_get "source_name" st)
                                && is_string quarantine (dict_get "quarantine_name" st)) (QueueConflictError "task ");
              Ok (cleanup, sidecars, st)
          | _ => Err (QueueConflictError "task ")
          end
      | _ => Err (QueueConflictError "task ")
      end
  | _ => Err (QueueConflictError "task ")
  end.

Definition stage_execution_cleanup_sidecar (jid tid role source quarantine : string) : M disk RelayTask :=
  jid ← lift (require_durable_record_id (JStr jid) "job_id");
  tid ← lift (require_durable_record_id (JStr tid) "task_id");
  t ← task_of_job jid tid;
  staged ← lift (staged_sidecar t role source quarantine);
  let '(cleanup, sidecars, st) := (staged : list (string * json) * list (string * json) * list (string * json)) in
  now ← utc_now;
  let plan := quarantined_cleanup cleanup sidecars st role now in
  let updated := task_metadata_copy t (dict_set "execution_cleanup" (JObj plan) (task_metadata t)) now in
  cluster ← lift (required_cluster updated);
  p ← lift (_execution_cleanup_path cluster jid tid);
  present ← inspect (is_file p);
  if negb (present : bool) then
    if is_true (dict_get "execution_sidecars_quarantined" (task_metadata t)) then mret t
    else raise (QueueConflictError "execution cleanup marker disappeared before sidecar staging: ")
  else
    _ ← write_marked_task updated;
    _ ← write_doc p (DTask updated);
    mret updated.
End markers.
