(* ===== verification/QueueParts.v ===== *)
(** * The parts of a job write, put together

    Leases, admission and the life of a job are proved against what their neighbours
    promise ([JobDerived], [ExecutionCleanup]).  Here the owner-session membership, the
    gateway and scheduler references and the execution-cleanup shards keep that promise:
    each writes only files of its own families, so the queue is the composition of the
    modelled modules. *)

From S2P Require Import Prelude Sha256 Json Identifiers Models Store OrderIndex JobIndex Events SchedulerCancel SchedulerCancelProofs.
From S2P Require Import LeaseRecords LeaseTransitions LeaseAdmission Recovery OwnerSessions Decimal.
From S2P Require Import JobLifecycle JobFrames JobGuards GatewayIndexes ExecutionCleanup.
From stdpp Require Import base list gmap strings sets.
From Stdlib Require Import ZArith Lia.
From Stdlib Require Ascii String.
Open Scope Z_scope.

Definition gateway_families : list string :=
  ["scheduler_refs_by_job"; "scheduler_protections_by_job"; "scheduler_jobs"; "active_gateway_refs_by_job";
   "active_gateway_refs_by_session"; "gateways_by_artifact"; "gateways_by_scheduler"; "gateway_reverse_refs_by_session"].
Definition cleanup_families : list string := ["execution_cleanup_pending"; "execution_cleanup_migrations"].
Definition membership_families : list string := ["owner_session_jobs"; "owner_session_legacy_jobs"].

Definition within (F : list string) (p : path) : Prop := default "" (head p) ∈ F.

Lemma within_head F f q : bool_decide (f ∈ F) = true -> within F (f :: q).
Proof. by intros Hf%bool_decide_eq_true. Qed.
Lemma not_within F f q : bool_decide (f ∈ F) = false -> ~ within F (f :: q).
Proof. by intros Hf%bool_decide_eq_false. Qed.

#[export] Hint Extern 1 (within _ _) => (apply within_head; reflexivity) : touches.

Section frames.
Context `{World}.

(** A frame whose second part needs what the first one returned. *)
Lemma touches_bind_ok {A B : Type} (P : path -> Prop) (m : M disk A) (k : A -> M disk B) (Q : A -> Prop) :
  touches P m -> (forall s a s', m s = (Ok a, s') -> Q a) -> (forall a, Q a -> touches P (k a)) -> touches P (m ≫= k).
Proof.
  intros Hm HQ Hk s p Hp. unfold mbind, M_bind. specialize (Hm s p Hp). specialize (HQ s).
  destruct (m s) as [[a|e] s1]; cbn in *; [|done]. by rewrite (Hk a (HQ a s1 eq_refl) s1 p Hp).
Qed.

Lemma lift_returns {A : Type} (r : result A) (Q : A -> Prop) :
  (forall a, r = Ok a -> Q a) -> forall (s : disk) a s', lift r s = (Ok a, s') -> Q a.
Proof. intros HQ s a s' Hr. unfold lift in Hr. injection Hr as Hr _. by apply HQ. Qed.

Lemma record_paths_below dir limit (s : disk) ps s' :
  dir <> [] -> bounded_json_record_paths dir limit s = (Ok ps, s') -> Forall (fun p => exists name, p = dir ++ [name]) ps.
Proof.
  intros Hdir Hr. apply M_bind_ok in Hr as (es&s1&He&Hr). injection He as <- <-. injection Hr as Hr _.
  apply bounded_entries_paths in Hr as ->. apply Forall_fmap, Forall_forall. intros [p d] Hp.
  by apply scandir_elem in Hp as [_ Hp].
Qed.

Lemma touches_record_list (P : path -> Prop) dir limit : touches P (bounded_json_record_paths dir limit).
Proof. unfold bounded_json_record_paths. frame. Qed.
Lemma touches_json (P : path -> Prop) p : touches P (read_json_document p).
Proof. unfold read_json_document. frame. Qed.
Lemma touches_inspect {A : Type} (P : path -> Prop) (f : gmap path doc -> A) : touches P (inspect f).
Proof. by apply touches_pure. Qed.
Lemma touches_glob (P : path -> Prop) dir suffix : touches P (glob dir suffix).
Proof. unfold glob. frame. Qed.
#[local] Hint Resolve touches_record_list touches_json touches_glob touches_inspect : touches.

(** One round for every record of a directory. *)
Lemma touches_record_loop (P : path -> Prop) dir limit (act : path -> M disk unit) :
  dir <> [] -> (forall name, touches P (act (dir ++ [name]))) ->
  touches P (paths ← bounded_json_record_paths dir limit; for_each act paths).
Proof.
  intros Hdir Hact. eapply touches_bind_ok; [auto with touches|by intros ???; apply record_paths_below|].
  intros ps Hps. apply touches_for_each. rewrite Forall_forall in Hps. intros p Hp.
  destruct (Hps p Hp) as [name ->]. apply Hact.
Qed.

(** ** References of gateways and schedulers *)
#[local] Abbreviation own := (within gateway_families).

Lemma touches_read_gateway_file (P : path -> Prop) p : touches P (read_gateway_file p).
Proof. unfold read_gateway_file. frame. Qed.
Lemma touches_read_gateway (P : path -> Prop) sid : touches P (read_optional_gateway sid).
Proof. unfold read_optional_gateway. frame. Qed.
Lemma touches_read_artifact (P : path -> Prop) aid : touches P (read_optional_artifact aid).
Proof. unfold read_optional_artifact. frame. Qed.
#[local] Hint Resolve touches_read_gateway_file touches_read_gateway touches_read_artifact : touches.

Lemma touches_link g jid kind key source : touches own (_link_active_gateway_job_unlocked g jid kind key source).
Proof. unfold _link_active_gateway_job_unlocked, job_ref_path, backlink_dir. frame. Qed.
Lemma touches_unlink_tie sid jid kind key source : touches own (_unlink_active_gateway_job_ref_unlocked sid jid kind key source).
Proof. unfold _unlink_active_gateway_job_ref_unlocked, job_ref_path, backlink_dir. frame. Qed.
#[local] Hint Resolve touches_link touches_unlink_tie : touches.

Lemma reverse_directory_ok kind key p :
  _gateway_reverse_directory kind key = Ok p -> p <> [] /\ forall name, own (p ++ [name]).
Proof.
  unfold _gateway_reverse_directory. intros ([]&Hk%raise_unless_ok&[= <-])%bind_ok.
  apply bool_decide_eq_true in Hk. split; [done|]. intros name. unfold within. cbn.
  rewrite !elem_of_cons, elem_of_nil in Hk. destruct Hk as [-> |[-> |[]]]; cbn; set_solver.
Qed.

Lemma touches_reverse_dir {B : Type} kind key (k : path -> M disk B) :
  (forall dir, dir <> [] -> (forall name, own (dir ++ [name])) -> touches own (k dir)) ->
  touches own (dir ← lift (_gateway_reverse_directory kind key); k dir).
Proof.
  intros Hk. eapply touches_bind_ok; [auto with touches|eapply lift_returns; exact (reverse_directory_ok kind key)|].
  intros dir [Hd Hdir]. by apply Hk.
Qed.

(** Steps that remember where a reverse directory lies. *)
Ltac frame_reverse := repeat first [apply touches_reverse_dir; intros ? ? ?|step_touches].

Lemma touches_reverse_ref kind key g : touches own (_write_gateway_reverse_ref_unlocked kind key g).
Proof.
  unfold _write_gateway_reverse_ref_unlocked, reverse_backlink_dir. frame_reverse.
Qed.

Lemma touches_scheduler_gateways sid act : (forall g, touches own (act g)) -> touches own (for_scheduler_gateways sid act).
Proof.
  intros Hact. unfold for_scheduler_gateways. apply touches_reverse_dir. intros dir Hdir _. apply touches_record_loop; [done|]. intros name. frame.
Qed.
#[local] Hint Resolve touches_reverse_ref : touches.

Lemma record_path_within F f a b p : f ∈ F -> job_record_path f a b = Ok p -> within F p.
Proof. unfold job_record_path. by intros Hf (x&_&(y&_&[= <-])%bind_ok)%bind_ok. Qed.

Lemma touches_scheduler_source jid source meta : touches own (sync_scheduler_source jid source meta).
Proof.
  unfold sync_scheduler_source. step_touches; [auto with touches|]. destruct a as [ids ambiguous].
  do 2 (eapply touches_bind_ok;
    [auto with touches|eapply lift_returns; intros q Hq; eapply (record_path_within gateway_families); [|exact Hq]; set_solver|intros ? ?]).
  do 2 (step_touches; [auto with touches|]).
  step_touches; [|step_touches; [destruct (_ || _); auto with touches|step_touches; [destruct ambiguous; auto with touches|]]];
    apply touches_for_each; intros sid _;
    [unfold drop_scheduler_id|unfold add_scheduler_id]; unfold _scheduler_reverse_ref_path, _gateway_scheduler_jobs_directory;
    (step_touches; [auto with touches|apply touches_scheduler_gateways; intros g; frame]).
Qed.

Lemma touches_link_artifact g aid : touches own (link_artifact g aid).
Proof. unfold link_artifact. frame. Qed.
Lemma touches_link_scheduler g sid p : touches own (link_scheduler_job g sid p).
Proof. unfold link_scheduler_job. frame. Qed.
Lemma touches_all {A : Type} (P : path -> Prop) (f : A -> M disk unit) l :
  (forall x, touches P (f x)) -> touches P (for_each f l).
Proof. intros Hf. by apply touches_for_each. Qed.
#[local] Hint Resolve touches_link_artifact touches_link_scheduler touches_all : touches.

Lemma touches_index_session g : touches own (_index_gateway_session_unlocked g).
Proof. unfold _index_gateway_session_unlocked. frame. Qed.

Lemma touches_unindex sid preserve : touches own (_unindex_gateway_session_id_unlocked sid preserve).
Proof.
  unfold _unindex_gateway_session_id_unlocked. step_touches; [auto with touches|].
  apply (touches_bind_ok _ _ _ (Forall (fun p => own p))); [auto with touches| |].
  { intros s ps s' Hr. apply record_paths_below in Hr; [|done]. eapply Forall_impl; [exact Hr|].
    intros p [name ->]. by apply within_head. }
  intros ps Hps. rewrite Forall_forall in Hps. step_touches.
  - apply touches_for_each. intros p Hp. specialize (Hps p Hp). unfold unindex_backlink, job_ref_path. frame.
  - apply touches_record_loop; [done|]. intros name. unfold unindex_reverse, reverse_backlink_dir. frame_reverse.
Qed.

Lemma touches_sync_gateway sid : touches own (sync_gateway_session_derived sid).
Proof.
  unfold sync_gateway_session_derived. step_touches; [auto with touches|]. step_touches; [apply touches_unindex|].
  destruct a; [apply touches_index_session|auto with touches].
Qed.

(** ** Execution-cleanup shards *)
#[local] Abbreviation shards := (within cleanup_families).

Lemma shard_path_ok cluster shard p :
  _execution_cleanup_shard_path cluster shard = Ok p -> exists key, p = ["execution_cleanup_pending"; key; shard_name shard].
Proof. unfold _execution_cleanup_shard_path. intros (key&_&[= <-])%bind_ok. eauto. Qed.

Lemma job_dir_ok cluster jid p : _execution_cleanup_job_path cluster jid = Ok p ->
  exists key, p = ["execution_cleanup_pending"; key; shard_name (_execution_cleanup_shard jid); jid +:+ ".pending"].
Proof.
  unfold _execution_cleanup_job_path. intros (sp&[key ->]%shard_path_ok&(j&[-> _]%require_id_ok&[= <-])%bind_ok)%bind_ok. eauto.
Qed.

Lemma marker_path_ok cluster jid tid p : _execution_cleanup_path cluster jid tid = Ok p ->
  exists key, p = ["execution_cleanup_pending"; key; shard_name (_execution_cleanup_shard jid); jid +:+ ".pending"; json_name tid].
Proof.
  unfold _execution_cleanup_path. intros (sp&[key ->]%job_dir_ok&(j&[-> _]%require_id_ok&[= <-])%bind_ok)%bind_ok. eauto.
Qed.

Lemma touches_mkdir (P : path -> Prop) p : P p -> touches P (mkdir p).
Proof.
  intros Hp. unfold mkdir. frame. apply touches_durable. intros m q Hq. apply lookup_insert_ne. congruence.
Qed.
Lemma touches_mkdir_parents (P : path -> Prop) p :
  (forall n, (2 <= n)%nat -> P (take n p)) -> touches P (mkdir_parents p).
Proof. intros Hp. apply touches_for_each. intros n [? _]%elem_of_seq. by apply touches_mkdir, Hp. Qed.
Lemma touches_rmdir (P : path -> Prop) p : P p -> touches P (rmdir p).
Proof. intros Hp. unfold rmdir. frame. apply touches_durable. intros m q Hq. apply lookup_delete_ne. congruence. Qed.
Lemma touches_task_file (P : path -> Prop) p : touches P (read_task_file p).
Proof. unfold read_task_file. frame. Qed.
#[local] Hint Resolve touches_rmdir touches_task_file : touches.
Lemma touches_migrated_shard (P : path -> Prop) cluster shard :
  touches P (_execution_cleanup_shard_migration_complete_unlocked cluster shard).
Proof. unfold _execution_cleanup_shard_migration_complete_unlocked. frame. Qed.
#[local] Hint Resolve touches_migrated_shard : touches.

Lemma take_within F p n : (1 <= n)%nat -> within F p -> within F (take n p).
Proof. destruct n, p; cbn; [lia..|done|done]. Qed.

Lemma touches_migrate_marker cluster shard p : shards p -> touches shards (migrate_marker cluster shard p).
Proof.
  intros Hp. unfold migrate_marker. do 3 (step_touches; [auto with touches|]).
  eapply touches_bind_ok; [auto with touches|eapply lift_returns; exact (marker_path_ok _ _ _)|].
  intros target [key ->]. step_touches.
  { apply touches_mkdir_parents. intros n Hn. apply take_within; [lia|]. by apply within_head. }
  frame. apply touches_durable. intros m q Hq. destruct (m !! p); [|done].
  assert (q <> p) by congruence. rewrite lookup_insert_ne, lookup_delete_ne; [done|congruence|].
  intros <-. apply Hq. by apply within_head.
Qed.

Lemma glob_below dir suffix (s : disk) ps s' :
  glob dir suffix s = (Ok ps, s') -> Forall (fun p => exists name, p = dir ++ [name]) ps.
Proof. unfold glob, inspect, mbind, M_bind. intros [= <- _]. apply Forall_fmap, Forall_forall. cbn. eauto. Qed.

Lemma touches_migrate_markers cluster shard limit ps :
  Forall shards ps -> touches shards (migrate_markers cluster shard limit ps).
Proof.
  intros Hps. revert limit. induction Hps as [|p ps Hp Hps IH]; intros [|n]; cbn [migrate_markers]; auto with touches.
  step_touches; [by apply touches_migrate_marker|apply IH].
Qed.

Lemma touches_migrate_shard cluster shard limit : touches shards (migrate_cleanup_shard cluster shard limit).
Proof.
  unfold migrate_cleanup_shard.
  eapply (touches_bind_ok _ _ _ shards); [auto with touches|eapply lift_returns|].
  { unfold _execution_cleanup_migration_receipt_path. intros q (key&_&[= <-])%bind_ok. by apply within_head. }
  intros receipt Hr. step_touches; [auto with touches|]. destruct a; [auto with touches|]. do 2 (step_touches; [auto with touches|]).
  eapply touches_bind_ok; [auto with touches|eapply lift_returns; exact (shard_path_ok cluster shard)|].
  intros dir [key ->]. eapply touches_bind_ok; [auto with touches|intros ???; apply glob_below|].
  intros ps Hps. step_touches; [apply touches_migrate_markers|frame].
  eapply Forall_impl; [exact Hps|]. intros p [name ->]. by apply within_head.
Qed.
End frames.

(** ** The membership of an owner session *)
Section membership.
Context `{World}.
Lemma touches_membership job : touches (within membership_families) (sync_owner_session_job_membership job).
Proof.
  unfold sync_owner_session_job_membership, bounded_regular_json_count, membership_path, _owner_session_membership_dir. frame. destruct o; auto with touches.
Qed.
End membership.

(** ** The composition *)
Section parts.
Context `{World}.

(** A call that leaves the whole state as it is. *)
Definition still {A : Type} (m : M disk A) : Prop := forall s, (m s).2 = s.

Lemma still_bind {A B : Type} (m : M disk A) (k : A -> M disk B) :
  still m -> (forall a, still (k a)) -> still (m ≫= k).
Proof.
  intros Hm Hk s. unfold mbind, M_bind. specialize (Hm s). destruct (m s) as [[a|e] s1]; cbn in *; subst; [apply Hk|done].
Qed.

Lemma still_migrated cluster shard : still (_execution_cleanup_shard_migration_complete_unlocked cluster shard).
Proof.
  unfold _execution_cleanup_shard_migration_complete_unlocked, read_json_document.
  apply still_bind; [done|intros p]. apply still_bind; [|done]. apply still_bind; [|by intros [[]|]].
  intros s. unfold read_doc. by repeat case_match.
Qed.

Definition part_families : list string := gateway_families ++ cleanup_families ++ membership_families.

Lemma frame_of {A : Type} F (m : M disk A) : F ⊆ part_families -> touches (within F) m ->
  forall s p, default "" (head p) ∉ part_families -> files (m s).2 !! p = files s !! p.
Proof. intros HF Hm s p Hp. apply Hm. unfold within. set_solver. Qed.

#[export] Program Instance queue_parts : JobDerived := {|
  _migrate_execution_cleanup_shard_unlocked := migrate_job_shard;
  _sync_owner_session_job_membership_unlocked := sync_owner_session_job_membership;
  _sync_scheduler_source_unlocked := sync_scheduler_source;
  _sync_gateway_session_derived_unlocked := sync_gateway_session_derived;
  derived_families := part_families;
|}.
Next Obligation. apply (bool_decide_unpack _). vm_compute. exact I. Qed.
Next Obligation.
  intros. eapply (frame_of cleanup_families); [apply (bool_decide_unpack _); vm_compute; exact I| |done]. unfold migrate_job_shard. frame. apply touches_migrate_shard.
Qed.
Next Obligation. intros. eapply (frame_of membership_families); [apply (bool_decide_unpack _); vm_compute; exact I|apply touches_membership|done]. Qed.
Next Obligation. intros. eapply (frame_of gateway_families); [apply (bool_decide_unpack _); vm_compute; exact I|apply touches_scheduler_source|done]. Qed.
Next Obligation. intros. eapply (frame_of gateway_families); [apply (bool_decide_unpack _); vm_compute; exact I|apply touches_sync_gateway|done]. Qed.

#[export] Program Instance queue_cleanup : ExecutionCleanup := {|
  _job_has_pending_execution_cleanup_unlocked := has_pending_cleanup;
|}.
Next Obligation.
  intros cluster jid. unfold has_pending_cleanup. apply still_bind; [apply still_migrated|intros [|]]; [|done].
  by apply still_bind.
Qed.
End parts.

#[export] Hint Resolve touches_record_list touches_json touches_inspect touches_glob touches_task_file touches_migrated_shard : touches.
