(* ===== verification/CleanupClaims.v ===== *)
(** * A registered cleanup keeps its job from workers

    From the return of a registration until the cleanup of that task is acknowledged, the
    job counts as having a pending cleanup, whatever the other tasks, the scans and the
    moves of old markers do and wherever they stop. *)

From S2P Require Import Prelude Sha256 Json Identifiers Models Store OrderIndex OrderIndexProofs JobIndex Events SchedulerCancel SchedulerCancelProofs.
From S2P Require Import LeaseRecords LeaseTransitions LeaseAdmission Recovery OwnerSessions Decimal.
From S2P Require Import JobLifecycle JobFrames JobGuards JobSubmission JobClaims GatewayIndexes ExecutionCleanup QueueParts.
From stdpp Require Import base list gmap strings sets.
From Stdlib Require Import ZArith Lia.
From Stdlib Require Ascii String.
Open Scope Z_scope.

(** ** The calls of the two modules, and the migration every write of a job makes *)
Inductive cleanup_call :=
  | CallRegister (tid : string) (meta : list (string * json))
  | CallAcknowledgeCleanup (jid tid : string) (meta : list (string * json))
  | CallMigratePlan (jid tid : string) (cleanup : list (string * json))
  | CallStageSidecar (jid tid role source quarantine : string)
  | CallScanCleanup (cluster : string) (limit : nat)
  | CallMigrateShard (cluster jid : string).

Section calls.
Context `{World}.

Definition run_cleanup_call (c : cleanup_call) : M disk unit :=
  match c with
  | CallRegister tid meta => drop_result (register_execution_cleanup tid meta)
  | CallAcknowledgeCleanup jid tid meta => drop_result (acknowledge_execution_cleanup jid tid meta)
  | CallMigratePlan jid tid cleanup => drop_result (migrate_execution_cleanup_plan jid tid cleanup)
  | CallStageSidecar jid tid role source quarantine =>
      drop_result (stage_execution_cleanup_sidecar jid tid role source quarantine)
  | CallScanCleanup cluster limit => drop_result (scan_execution_cleanup cluster limit)
  | CallMigrateShard cluster jid => migrate_job_shard cluster jid
  end.

Definition run_cleanup_calls (calls : list (option nat * cleanup_call)) (s : disk) : disk :=
  foldl (fun s c => (run_cleanup_call c.2 (set_budget c.1 s)).2) s calls.

(** The call acknowledges no cleanup of the task [tid]. *)
Definition leaves_open (tid : string) (c : cleanup_call) : Prop :=
  match c with CallAcknowledgeCleanup _ tid' _ => tid' <> tid | _ => True end.

(** ** Calls that keep a marker *)
Section kept.
Context (key shard dir tid : string).
#[local] Abbreviation p := ["execution_cleanup_pending"; key; shard; dir; json_name tid].

Definition kept {A : Type} (m : M disk A) : Prop :=
  forall s, is_Some (files s !! p) -> is_Some (files (m s).2 !! p).

Lemma kept_touches {A : Type} (m : M disk A) (P : path -> Prop) : touches P m -> ~ P p -> kept m.
Proof using. intros Hm Hp s Hs. by rewrite Hm. Qed.
Lemma kept_bind {A B : Type} (m : M disk A) (k : A -> M disk B) : kept m -> (forall a, kept (k a)) -> kept (m ≫= k).
Proof using.
  intros Hm Hk s Hs. unfold mbind, M_bind. specialize (Hm s Hs). destruct (m s) as [[a|e] s1]; cbn in *; [by apply Hk|done].
Qed.
Lemma kept_bind_ok {A B : Type} (m : M disk A) (k : A -> M disk B) (Q : A -> Prop) :
  kept m -> (forall s a s', m s = (Ok a, s') -> Q a) -> (forall a, Q a -> kept (k a)) -> kept (m ≫= k).
Proof using.
  intros Hm HQ Hk s Hs. unfold mbind, M_bind. specialize (Hm s Hs). specialize (HQ s).
  destruct (m s) as [[a|e] s1]; cbn in *; [by apply (Hk a (HQ a s1 eq_refl))|done].
Qed.
Lemma kept_pure {A : Type} (m : M disk A) : touches (fun _ => False) m -> kept m.
Proof using. intros Hm. eapply kept_touches; [exact Hm|tauto]. Qed.
Lemma kept_durable f : (forall m, is_Some (m !! p) -> is_Some (f m !! p)) -> kept (durable f).
Proof using. intros Hf s Hs. unfold durable. destruct (budget s) as [[|n]|]; cbn; auto. Qed.
Lemma kept_insert (q : path) (d : doc) (m : gmap path doc) : is_Some (m !! p) -> is_Some (<[q := d]> m !! p).
Proof using. intros Hm. destruct (decide (q = p)) as [->|]; [by rewrite lookup_insert_eq|by rewrite lookup_insert_ne]. Qed.
Lemma kept_write q d : kept (write_doc q d).
Proof using. unfold write_doc. case_match; [by intros s|]. apply kept_durable. intros m. apply kept_insert. Qed.
Lemma kept_unlink q : q <> p -> kept (unlink_durable_path q).
Proof using. intros Hq. apply kept_durable. intros m Hm. by rewrite lookup_delete_ne. Qed.
Lemma kept_each {A : Type} (f : A -> M disk unit) l : (forall x, x ∈ l -> kept (f x)) -> kept (for_each f l).
Proof using.
  intros Hf. induction l as [|x l IH]; [by intros s|]. cbn. apply kept_bind; [apply Hf; left|].
  intros _. apply IH. intros y Hy. apply Hf. by right.
Qed.

(** One step of a computation. *)
Ltac kept_step :=
  lazymatch goal with
  | |- kept (mbind _ _) => apply kept_bind; [|intros ?]
  | |- kept (match ?x with _ => _ end) => destruct x eqn:?
  | |- kept (write_doc _ _) => apply kept_write
  | |- kept _ => first [solve [auto with kept]|apply kept_pure; solve [repeat step_touches]]
  end.
Ltac keep_marker := repeat kept_step.

Lemma kept_mkdir q : kept (mkdir q).
Proof using. unfold mkdir. keep_marker. apply kept_durable. intros m. apply kept_insert. Qed.
Lemma kept_parents q : kept (mkdir_parents q).
Proof using. apply kept_each. intros n _. apply kept_mkdir. Qed.
Lemma kept_rmdir q : q <> p -> kept (rmdir q).
Proof using. intros Hq. unfold rmdir. keep_marker. apply kept_durable. intros m Hm. by rewrite lookup_delete_ne. Qed.
#[local] Hint Resolve kept_mkdir kept_parents kept_rmdir kept_unlink : kept.

Lemma kept_migrate_marker cluster z q : q <> p -> kept (migrate_marker cluster z q).
Proof using.
  intros Hq. unfold migrate_marker. keep_marker. apply kept_durable. intros m Hm. destruct (m !! q); [|done].
  apply kept_insert. by rewrite lookup_delete_ne.
Qed.

(** Entries of a shard lie one level above the markers. *)
Lemma not_marker cluster z q name : _execution_cleanup_shard_path cluster z = Ok q -> q ++ [name] <> p.
Proof using. intros [k ->]%shard_path_ok. done. Qed.

Lemma kept_migrate_markers cluster z limit ps : Forall (fun q => q <> p) ps -> kept (migrate_markers cluster z limit ps).
Proof using.
  intros Hps. revert limit. induction Hps as [|q ps Hq Hps IH]; intros [|n]; cbn [migrate_markers]; try by intros s.
  apply kept_bind; [by apply kept_migrate_marker|intros _; apply IH].
Qed.

Lemma kept_glob {A : Type} cluster z suffix (k : list path -> M disk A) q :
  _execution_cleanup_shard_path cluster z = Ok q -> (forall ps, Forall (fun r => r <> p) ps -> kept (k ps)) ->
  kept (ps ← glob q suffix; k ps).
Proof using.
  intros Hq Hk. eapply kept_bind_ok; [apply kept_pure; auto with touches|intros ???; apply glob_below|].
  intros ps Hps. apply Hk. eapply Forall_impl; [exact Hps|]. intros r [name ->]. by eapply not_marker.
Qed.

Lemma kept_shard_path {A : Type} cluster z (k : path -> M disk A) :
  (forall q, _execution_cleanup_shard_path cluster z = Ok q -> kept (k q)) ->
  kept (q ← lift (_execution_cleanup_shard_path cluster z); k q).
Proof using.
  intros Hk. apply (kept_bind_ok _ _ (fun q => _execution_cleanup_shard_path cluster z = Ok q)); [by intros s| |exact Hk].
  by apply lift_returns.
Qed.

Lemma kept_migrate_shard cluster z limit : kept (migrate_cleanup_shard cluster z limit).
Proof using.
  unfold migrate_cleanup_shard. do 2 (apply kept_bind; [kept_step|intros ?]). case_match; [by intros s|].
  do 2 (apply kept_bind; [kept_step|intros ?]). apply kept_shard_path. intros q Hq. eapply kept_glob; [exact Hq|].
  intros ps Hps. apply kept_bind; [by apply kept_migrate_markers|intros moved]. keep_marker.
Qed.
Lemma kept_job_shard cluster j : kept (migrate_job_shard cluster j).
Proof using. unfold migrate_job_shard. apply kept_bind; [apply kept_migrate_shard|by intros ? s]. Qed.

(** ** Scans *)
Lemma touches_scan_markers cluster z limit ps ms : touches (fun _ => False) (scan_markers cluster z limit ps ms).
Proof using. revert ms. induction ps as [|q ps IH]; intros ms; cbn [scan_markers]; repeat first [apply IH|step_touches]. Qed.

Lemma kept_scan_pending cluster z limit ds ms : Forall (fun q => q <> p) ds -> kept (scan_pending cluster z limit ds ms).
Proof using.
  intros Hds. revert ms. induction Hds as [|q ds Hq Hds IH]; intros ms; cbn [scan_pending]; [by intros s|].
  apply kept_bind; [kept_step|intros present]. case_match; [apply IH|].
  do 3 (apply kept_bind; [kept_step|intros ?]). apply kept_bind; [apply kept_pure, touches_scan_markers|intros scanned].
  case_match; [by intros s|]. apply kept_bind; [keep_marker|intros _; apply IH].
Qed.

Lemma kept_scan_shard cluster z limit : kept (_scan_execution_cleanup_shard_unlocked cluster z limit).
Proof using.
  unfold _scan_execution_cleanup_shard_unlocked. apply kept_bind; [apply kept_migrate_shard|intros ?].
  apply kept_shard_path. intros q Hq. eapply kept_glob; [exact Hq|]. intros ds Hds.
  apply kept_bind; [by apply kept_scan_pending|intros ?]. keep_marker.
Qed.

Lemma kept_scan_shards cluster limit zs selected found : kept (scan_shards cluster limit zs selected found).
Proof using.
  revert selected found. induction zs as [|z zs IH]; intros selected found; cbn [scan_shards]; [by intros s|].
  do 2 (apply kept_bind; [kept_step|intros ?]). case_match; [apply IH|].
  apply kept_bind; [apply kept_scan_shard|intros ?]. case_match; [by intros s|apply IH].
Qed.

Lemma touches_any_shard cluster zs : touches (fun _ => False) (any_shard cluster zs).
Proof using.
  induction zs as [|z zs IH]; cbn [any_shard]; [auto with touches|].
  apply touches_bind; [unfold _execution_cleanup_shard_has_pending_paths; frame|intros found]. by destruct found.
Qed.

Lemma kept_scan cluster limit : kept (scan_execution_cleanup cluster limit).
Proof using.
  unfold scan_execution_cleanup. do 3 (apply kept_bind; [kept_step|intros ?]).
  apply kept_bind; [apply kept_scan_shards|intros [selected found]]. apply kept_bind; [keep_marker|intros _].
  apply kept_bind; [apply kept_pure, touches_any_shard|by intros ? s].
Qed.

(** ** Changes of markers *)
Lemma kept_record_path {A : Type} f a b (k : path -> M disk A) : f <> "execution_cleanup_pending" ->
  (forall q, q <> p -> kept (k q)) -> kept (q ← lift (job_record_path f a b); k q).
Proof using.
  intros Hf Hk. apply (kept_bind_ok _ _ (fun q => q <> p)); [by intros s| |exact Hk].
  apply lift_returns. unfold job_record_path. by intros q (x&_&(y&_&[= <-])%bind_ok)%bind_ok [= ->].
Qed.

Lemma kept_write_task t : kept (write_marked_task t).
Proof using.
  unfold write_marked_task. apply kept_bind; [kept_step|intros _]. apply kept_record_path; [done|intros q Hq].
  do 2 (apply kept_bind; [unfold _write_ordered_job_record; keep_marker|intros _]).
  unfold _sync_task_retention_indexes_unlocked. apply kept_record_path; [done|intros r Hr].
  apply kept_bind; [keep_marker|intros _]. eapply kept_touches; [apply touches_scheduler_source|].
  by apply not_within.
Qed.
Lemma kept_marked t : kept (marked_task t).
Proof using. unfold marked_task, read_optional_task. keep_marker. Qed.
Lemma kept_task_of_job j t : kept (task_of_job j t).
Proof using. unfold task_of_job. apply kept_bind; [apply kept_marked|intros ?; keep_marker]. Qed.
#[local] Hint Resolve kept_write_task kept_marked kept_task_of_job kept_job_shard : kept.

Lemma kept_register t meta : kept (register_execution_cleanup t meta).
Proof using. unfold register_execution_cleanup. keep_marker. Qed.
Lemma kept_plan j t cleanup : kept (migrate_execution_cleanup_plan j t cleanup).
Proof using. unfold migrate_execution_cleanup_plan. keep_marker. Qed.
Lemma kept_stage j t role source quarantine : kept (stage_execution_cleanup_sidecar j t role source quarantine).
Proof using. unfold stage_execution_cleanup_sidecar. keep_marker. Qed.

Lemma kept_acknowledge j t meta : t <> tid -> kept (acknowledge_execution_cleanup j t meta).
Proof using.
  intros Ht. unfold acknowledge_execution_cleanup. apply kept_bind; [kept_step|intros j'].
  apply (kept_bind_ok _ _ (fun t' => t' = t)); [by intros s|apply lift_returns; by intros ? [-> _]%require_id_ok|intros ? ->].
  do 4 (apply kept_bind; [kept_step|intros ?]).
  eapply kept_bind_ok; [by intros s|eapply lift_returns; exact (marker_path_ok _ j' t)|intros q [k ->]].
  apply kept_bind; [|by intros ? s]. unfold drop_marker. cbn [removelast].
  apply kept_bind; [apply kept_unlink; intros [= _ _ _ ?%json_name_inj]; congruence|intros _]. keep_marker.
Qed.

Lemma kept_call c : leaves_open tid c -> kept (run_cleanup_call c).
Proof using.
  intros Hc. destruct c; cbn [run_cleanup_call]; unfold drop_result; try (apply kept_bind; [|by intros ? s]).
  - apply kept_register.
  - by apply kept_acknowledge.
  - apply kept_plan.
  - apply kept_stage.
  - apply kept_scan.
  - apply kept_migrate_shard.
Qed.

Lemma kept_calls calls s :
  Forall (fun c => leaves_open tid c.2) calls -> is_Some (files s !! p) -> is_Some (files (run_cleanup_calls calls s) !! p).
Proof using.
  intros Hc. revert s. induction Hc as [|[b c] calls Hc _ IH]; intros s Hs; cbn; [done|].
  apply IH. by apply (kept_call c Hc (set_budget b s)).
Qed.

(** The job's directory exists as long as the marker does. *)
Lemma marker_holds m : is_Some (m !! p) -> dir_exists ["execution_cleanup_pending"; key; shard; dir] m = true.
Proof using.
  intros [d Hd]. unfold dir_exists. apply bool_decide_eq_true. right. unfold children.
  assert (Hin : p ∈ filter (below ["execution_cleanup_pending"; key; shard; dir]) (map_to_list m).*1).
  { apply list_elem_of_filter. split; [by split; [exists [json_name tid]|]|].
    apply list_elem_of_fmap. exists (p, d). split; [done|]. by apply elem_of_map_to_list. }
  intros He. rewrite He in Hin. by apply not_elem_of_nil in Hin.
Qed.
End kept.

(** A registration leaves its marker. *)
Lemma marked_task_id tid s t s' : marked_task tid s = (Ok t, s') -> task_id t = tid.
Proof.
  unfold marked_task, read_optional_task. intros (o&s1&Ho&Hr)%M_bind_ok. destruct o as [t0|]; [|done].
  injection Hr as -> _. apply M_bind_ok in Ho as (d&s2&_&Hr). destruct d as [[]|]; try done.
  apply M_bind_ok in Hr as (u&s3&_&Hr). apply M_bind_ok in Hr as (u'&s4&Hid&Hr). injection Hr as -> _.
  injection Hid as Hid _. apply raise_unless_ok in Hid. by apply bool_decide_eq_true in Hid.
Qed.

Lemma register_marks tid meta s t s' cluster :
  register_execution_cleanup tid meta s = (Ok t, s') -> required_cluster t = Ok cluster ->
  task_id t = tid /\ exists q, _execution_cleanup_path cluster (task_job_id t) tid = Ok q /\ is_Some (files s' !! q).
Proof.
  unfold register_execution_cleanup. intros Hr Hcl. apply M_bind_ok in Hr as (k&s1&Hk&Hr).
  injection Hk as [-> _]%require_id_ok _. apply M_bind_ok in Hr as (t0&s2&Ht%marked_task_id&Hr).
  apply M_bind_ok in Hr as (now&s3&_&Hr). cbv zeta in Hr. apply M_bind_ok in Hr as (c&s4&Hc&Hr). injection Hc as Hc _.
  do 4 apply M_bind_ok in Hr as (?&?&_&Hr).
  apply M_bind_ok in Hr as (u&s5&_&Hr). apply M_bind_ok in Hr as (q&s6&Hq&Hr). injection Hq as Hq <-.
  apply M_bind_ok in Hr as ([]&s7&Hw%write_done&Hr). apply M_bind_ok in Hr as ([]&s8&Hm&Hr). injection Hr as <- <-.
  rewrite Hc in Hcl. injection Hcl as ->. split; [exact Ht|]. exists q. cbn in *. rewrite Ht in Hq. split; [exact Hq|].
  apply marker_path_ok in Hq as [key ->].
  change s8 with ((Ok tt : result unit, s8).2). rewrite <- Hm. apply kept_write_task.
  rewrite Hw. rewrite lookup_insert_eq. by eexists.
Qed.

(** The answer of the check workers ask, for a job whose directory is there. *)
Lemma pending_not_free cluster jid s q :
  _execution_cleanup_job_path cluster jid = Ok q -> dir_exists q (files s) = true ->
  (has_pending_cleanup cluster jid s).1 <> Ok false.
Proof.
  intros Hq Hd. unfold has_pending_cleanup, mbind, M_bind. pose proof (still_migrated cluster (_execution_cleanup_shard jid) s) as Hs.
  destruct (_execution_cleanup_shard_migration_complete_unlocked _ _ s) as [[b|e] s1]; cbn in Hs; [|done].
  subst s1. destruct b; cbn [negb]; [|done]. unfold lift, inspect. rewrite Hq. cbn. by rewrite Hd.
Qed.

(** C14: Once a registration has returned, no worker is offered the task's job until a cleanup
    of the task is acknowledged: whatever registrations, acknowledgements of other tasks,
    changes of plans, scans and moves of old markers follow, and wherever each is cut,
    the check workers ask never says that nothing is pending. *)
Theorem registered_cleanup_holds_job (tid : string) (meta : list (string * json)) (s s' : disk) (t : RelayTask)
    (cluster : string) (calls : list (option nat * cleanup_call)) :
  register_execution_cleanup tid meta s = (Ok t, s') -> required_cluster t = Ok cluster ->
  Forall (fun c => leaves_open tid c.2) calls ->
  (has_pending_cleanup cluster (task_job_id t) (run_cleanup_calls calls s')).1 <> Ok false.
Proof.
  intros Hr Hcl Hcalls. destruct (register_marks _ _ _ _ _ _ Hr Hcl) as (_&q&Hq&Hm).
  unfold _execution_cleanup_path in Hq. apply bind_ok in Hq as (dir&Hdir&Hq). apply bind_ok in Hq as (k&[-> _]%require_id_ok&Hq).
  injection Hq as <-. eapply pending_not_free; [exact Hdir|]. apply job_dir_ok in Hdir as [key ->].
  apply (marker_holds _ _ _ tid). by apply kept_calls.
Qed.

(** ** The last acknowledgement *)
Definition task_families : list string :=
  ["tasks"; "tasks_by_job"; "task_order_by_job"; "active_tasks_by_job"] ++ gateway_families.

Lemma touches_record_path {A : Type} F f a b (k : path -> M disk A) :
  f ∈ F -> (forall q, within F q -> touches (within F) (k q)) ->
  touches (within F) (q ← lift (job_record_path f a b); k q).
Proof.
  intros Hf Hk. eapply touches_bind_ok; [auto with touches|eapply lift_returns|exact Hk].
  intros q Hq. by eapply record_path_within.
Qed.

Lemma touches_write_marked t : touches (within task_families) (write_marked_task t).
Proof.
  unfold write_marked_task. step_touches; [apply touches_write; by apply within_head|].
  apply touches_record_path; [set_solver|intros q Hq]. step_touches; [by apply touches_write|]. step_touches.
  { unfold _write_ordered_job_record, order_by_job. frame. }
  unfold _sync_task_retention_indexes_unlocked. apply touches_record_path; [set_solver|intros r Hr].
  step_touches; [destruct (is_terminal _); [by apply touches_unlink|by apply touches_write]|].
  eapply touches_weaken; [|apply touches_scheduler_source]. intros x. unfold within, task_families. set_solver.
Qed.

Lemma touches_after {A : Type} (P : path -> Prop) (m : M disk A) s r s' q :
  touches P m -> m s = (r, s') -> ~ P q -> files s' !! q = files s !! q.
Proof. intros Hm Hr Hq. rewrite <- (Hm s q Hq). by rewrite Hr. Qed.

Lemma elem_of_children dir q m : q ∈ children dir m <-> is_Some (m !! q) /\ below dir q.
Proof.
  unfold children. rewrite list_elem_of_filter, list_elem_of_fmap. split.
  - intros [Hb ([r d]&->&Hd%elem_of_map_to_list)]. cbn in *. eauto.
  - intros [[d Hd] Hb]. split; [done|]. exists (q, d). split; [done|]. by apply elem_of_map_to_list.
Qed.

Lemma no_children dir m : (forall q, is_Some (m !! q) -> ~ below dir q) <-> children dir m = [].
Proof.
  split.
  - intros Hn. destruct (children dir m) as [|q l] eqn:He; [done|].
    destruct (proj1 (elem_of_children dir q m)) as [Hs Hb]; [rewrite He; left|]. by destruct (Hn q Hs).
  - intros He q Hs Hb. pose proof (proj2 (elem_of_children dir q m) (conj Hs Hb)) as Hin.
    rewrite He in Hin. by apply not_elem_of_nil in Hin.
Qed.

Lemma rmdir_done q s u s' : rmdir q s = (Ok u, s') -> files s' = delete q (files s).
Proof.
  unfold rmdir. intros (x&s1&[= <- <-]&Hr)%M_bind_ok. apply M_bind_ok in Hr as (?&s2&Hs2&Hr).
  injection Hs2 as _ <-. apply M_bind_ok in Hr as (?&s3&[= <- <-]&Hr). apply M_bind_ok in Hr as (?&s4&Hs4&Hr).
  injection Hs4 as _ <-. unfold durable in Hr. destruct (budget s) as [[|n]|]; revert Hr; by intros [= _ <-].
Qed.

(** Removing the only marker of a directory removes the directory. *)
Lemma drop_last_marker dir name s u s' :
  drop_marker (dir ++ [name]) s = (Ok u, s') -> (forall q, is_Some (files s !! q) -> below dir q -> q = dir ++ [name]) ->
  dir_exists dir (files s') = false /\ (forall q, q <> dir -> q <> dir ++ [name] -> files s' !! q = files s !! q).
Proof.
  unfold drop_marker. rewrite removelast_last. intros ([]&s1&Hu%unlink_done&Hr)%M_bind_ok Hone.
  apply M_bind_ok in Hr as (present&s2&[= <- <-]&Hr). apply M_bind_ok in Hr as (empty&s3&[= <- <-]&Hr).
  assert (He : children dir (files s1) = []).
  { apply no_children. intros q Hq Hb. rewrite Hu in Hq. destruct (decide (q = dir ++ [name])) as [->|Hne].
    - rewrite lookup_delete_eq in Hq. by destruct Hq.
    - rewrite lookup_delete_ne in Hq by done. by apply Hne, Hone. }
  rewrite (bool_decide_true _ He), andb_true_r in Hr. destruct (dir_exists dir (files s1)) eqn:Hd.
  - apply rmdir_done in Hr. rewrite Hr. split.
    + apply bool_decide_eq_false. rewrite lookup_delete_eq. intros [[? [=]]|Hc]. apply Hc, no_children.
      intros q Hq. destruct (decide (q = dir)) as [->|Hne]; [by rewrite lookup_delete_eq in Hq; destruct Hq|].
      rewrite lookup_delete_ne in Hq by done. by apply (proj2 (no_children dir (files s1)) He).
    + intros q Hq Hq'. by rewrite lookup_delete_ne, Hu, lookup_delete_ne.
  - injection Hr as _ <-. split; [done|]. intros q Hq Hq'. by rewrite Hu, lookup_delete_ne.
Qed.

(** Whether a shard was migrated is read from its receipt. *)
Lemma migrated_reads cluster z r s s' :
  _execution_cleanup_migration_receipt_path cluster z = Ok r -> files s' !! r = files s !! r ->
  (_execution_cleanup_shard_migration_complete_unlocked cluster z s').1 =
  (_execution_cleanup_shard_migration_complete_unlocked cluster z s).1.
Proof.
  intros Hr Hf. unfold _execution_cleanup_shard_migration_complete_unlocked, lift, mbind, M_bind. rewrite Hr.
  unfold read_json_document, read_doc, mbind, M_bind. rewrite Hf. destruct (files s !! r) as [d|]; [|done].
  destruct (record_max_bytes r <? _); [done|]. by destruct d.
Qed.

(** C27: Acknowledging the last open cleanup of a job frees it: its directory goes, and in a
    migrated shard the check workers ask then says that nothing is pending. *)
Theorem acknowledged_cleanup_frees_job (jid tid : string) (meta : list (string * json)) (s s' : disk) (t : RelayTask)
    (cluster : string) (dir : path) :
  acknowledge_execution_cleanup jid tid meta s = (Ok t, s') -> required_cluster t = Ok cluster ->
  _execution_cleanup_job_path cluster jid = Ok dir ->
  (forall q, is_Some (files s !! q) -> below dir q -> q = dir ++ [json_name tid]) ->
  _execution_cleanup_shard_migration_complete_unlocked cluster (_execution_cleanup_shard jid) s = (Ok true, s) ->
  has_pending_cleanup cluster jid s' = (Ok false, s').
Proof.
  intros Hr Hcl Hdir Hone Hm. unfold acknowledge_execution_cleanup in Hr.
  apply M_bind_ok in Hr as (j&s1&Hj&Hr). injection Hj as [-> _]%require_id_ok <-.
  apply M_bind_ok in Hr as (k&s1&Hk&Hr). injection Hk as [-> _]%require_id_ok <-.
  apply M_bind_ok in Hr as (t0&s1&Ht0&Hr).
  assert (H1 : files s1 = files s).
  { pose proof (readonly_files (task_of_job jid tid) s) as Hf. rewrite Ht0 in Hf. apply Hf.
    unfold task_of_job, marked_task, read_optional_task. red. frame. }
  apply M_bind_ok in Hr as (now&s2&Hn&Hr). injection Hn as _ <-. cbv zeta in Hr.
  apply M_bind_ok in Hr as (c&s3&Hc&Hr). injection Hc as Hc <-.
  apply M_bind_ok in Hr as ([]&s4&Hw&Hr). apply M_bind_ok in Hr as (q&s5&Hq&Hr). injection Hq as Hq <-.
  apply M_bind_ok in Hr as ([]&s6&Hd&Hr). injection Hr as <- <-. rewrite Hc in Hcl. injection Hcl as ->.
  unfold _execution_cleanup_path in Hq. rewrite Hdir in Hq.
  apply bind_ok in Hq as (?&[= <-]&Hq). apply bind_ok in Hq as (?&[-> _]%require_id_ok&[= <-]).
  assert (H4 : forall x, ~ within task_families x -> files s4 !! x = files s !! x).
  { intros x Hx. rewrite (touches_after _ _ _ _ _ x (touches_write_marked _) Hw Hx). cbn. by rewrite H1. }
  pose proof Hdir as [key ->]%job_dir_ok.
  destruct (drop_last_marker _ _ _ _ _ Hd) as [Hgone Hsame].
  { intros x Hx Hb. apply Hone; [|done]. rewrite <- H4; [done|]. destruct Hb as [[y ->] _]. by apply not_within. }
  unfold has_pending_cleanup, mbind, M_bind.
  pose proof (still_migrated cluster (_execution_cleanup_shard jid) s6) as Hs.
  destruct (cluster_key cluster) as [ck|] eqn:Hck.
  2:{ unfold _execution_cleanup_job_path, _execution_cleanup_shard_path in Hdir. by rewrite Hck in Hdir. }
  pose proof (migrated_reads cluster (_execution_cleanup_shard jid) ["execution_cleanup_migrations"; ck; json_name (shard_name (_execution_cleanup_shard jid))] s s6) as Hre.
  rewrite Hm in Hre.
  destruct (_execution_cleanup_shard_migration_complete_unlocked _ _ s6) as [b s7]. cbn in Hs, Hre. subst s7.
  rewrite Hre; [|unfold _execution_cleanup_migration_receipt_path; by rewrite Hck|].
  - cbn [negb]. unfold lift, inspect. rewrite Hdir. cbn. by rewrite Hgone.
  - rewrite Hsame by done. apply H4. by apply not_within.
Qed.
End calls.
