(* ===== verification/GatewayClaims.v ===== *)
(** * What gateways promise

    What a gateway session has committed to lasts: a closed session stays closed and a
    teardown policy stays as it was written, whatever calls follow and wherever they
    stop.  Rebuilding the references of a closed session removes them all and nothing
    else. *)

From S2P Require Import Prelude Sha256 Json Identifiers Models Store OrderIndex OrderIndexProofs JobIndex Events SchedulerCancel SchedulerCancelProofs.
From S2P Require Import LeaseRecords LeaseTransitions LeaseAdmission Recovery OwnerSessions Decimal.
From S2P Require Import JobLifecycle JobFrames JobGuards JobSubmission JobSubmissionProofs JobClaims GatewayIndexes Gateways.
From stdpp Require Import base list gmap strings sets.
From Stdlib Require Import ZArith Lia.
From Stdlib Require Ascii String.
Open Scope Z_scope.

(** ** Commitments of a session *)

(** [g] has what was committed: closed, or a teardown intent. *)
Definition honors (closed : bool) (intent : option json) (g : GatewaySession) : Prop :=
  (closed = true -> gw_state g = GatewaySessionState.CLOSED) /\
  (forall i, intent = Some i -> get_value "teardown_intent" (gw_gateway g) = Some i).

Definition committed (sid : string) (closed : bool) (intent : option json) (m : gmap path doc) : Prop :=
  exists g, m !! gateway_path sid = Some (DGateway g) /\ honors closed intent g.

(** The directory of the sessions is no job or lease call's. *)
#[export] Instance quiet_gateways : Quiet ["gateway_sessions"].
Proof. intros x. unfold quiet_families. set_solver. Qed.

Lemma committed_insert sid c d p x m :
  default "" (head p) <> "gateway_sessions" -> committed sid c d m -> committed sid c d (<[p := x]> m).
Proof.
  intros Hp (g&Hg&Hh). exists g. split; [|done]. rewrite lookup_insert_ne; [done|]. by intros ->.
Qed.
Lemma committed_delete sid c d p m :
  default "" (head p) <> "gateway_sessions" -> committed sid c d m -> committed sid c d (delete p m).
Proof.
  intros Hp (g&Hg&Hh). exists g. split; [|done]. rewrite lookup_delete_ne; [done|]. by intros ->.
Qed.
Lemma job_index_not_gateways f : f ∈ job_index_families -> f <> "gateway_sessions".
Proof. unfold job_index_families. set_solver. Qed.

#[export] Program Instance committed_guarded sid c d :
  Guarded (committed sid c d) (fun _ => True) (fun _ => True) (fun _ => True) := {|
  guarded_families := ["gateway_sessions"];
|}.
Next Obligation.
  intros sid c d m m' Hm (g&Hg&Hh). exists g. split; [|done]. rewrite Hm; [done|]. cbn. set_solver.
Qed.
Solve Obligations with done.
Next Obligation. intros sid c d j m _. by apply committed_insert. Qed.
Next Obligation. intros sid c d f k x m Hf%job_index_not_gateways _. by apply committed_insert. Qed.
Next Obligation. intros sid c d f name m Hf%job_index_not_gateways. by apply committed_delete. Qed.
Next Obligation. intros sid c d name j m _ _ _. by apply committed_insert. Qed.

(** What the checks of an update leave of the commitments. *)
Lemma update_honors c d g st u allow reject meta now :
  check_gateway_update g st u allow reject = Ok tt -> honors c d g -> honors c d (updated_copy g u st meta now).
Proof.
  unfold check_gateway_update. intros (x1&_&Hr)%bind_ok. apply bind_ok in Hr as (x2&_&Hr).
  apply bind_ok in Hr as (x3&Hopen%raise_unless_ok&Hr). apply bind_ok in Hr as (x4&_&Hint%raise_unless_ok).
  intros [Hc Hd]. split.
  - intros ->. specialize (Hc eq_refl). cbn. destruct st as [x|]; [|done]. cbn in *.
    rewrite bool_decide_true in Hopen by done. cbn in Hopen. apply negb_true_iff, negb_false_iff, bool_decide_eq_true in Hopen.
    by injection Hopen.
  - intros i ->. specialize (Hd i eq_refl). cbn. rewrite Hd in Hint. destruct (up_gateway u) as [r|]; [|done].
    apply bool_decide_eq_true in Hint. cbn. unfold get_value in *. rewrite Hint.
    destruct (dict_get "teardown_intent" (gw_gateway g)) as [[]|]; by simplify_eq.
Qed.

Lemma teardown_honors c d g intent now :
  get_value "teardown_intent" (gw_gateway g) = None -> honors c d g -> honors c d (teardown_copy g intent now).
Proof. intros Hn [Hc Hd]. split; [exact Hc|]. intros i ->. specialize (Hd i eq_refl). congruence. Qed.

(** ** Pages only read *)
Section pages.
Context `{World} {Record : Type} (P : path -> Prop) (family : string) (read_record : string -> M disk (option Record)).
Context (identity : Record -> string) (predicate : Record -> bool) (Hread : forall k, touches P (read_record k)).

Lemma touches_head : touches P (_read_global_head family).
Proof using. unfold _read_global_head, read_json_document. frame. Qed.
Lemma touches_page cursor limit : touches P (_read_global_order_page family read_record identity predicate cursor limit).
Proof using Hread.
  unfold _read_global_order_page, require_index_migration_complete. frame; try apply touches_head.
  generalize (Z.to_nat (Z.min (a2 + 1) (a + a0) - a)) as n. intros n. generalize (@nil Record) as acc. generalize a as m.
  induction n as [|n IH]; intros m acc; cbn [page_loop]; [auto with touches|].
  step_touches; [|apply IH]. unfold page_entry, _read_global_record, read_json_document. frame.
Qed.
Lemma touches_scan_order limit : touches P (_scan_global_order family read_record identity predicate limit).
Proof using Hread.
  unfold _scan_global_order. step_touches; [auto with touches|]. generalize (Z.to_nat limit) as fuel. intros fuel.
  generalize (@nil Record) as acc. generalize 1 as cursor. revert limit.
  induction fuel as [|fuel IH]; intros limit cursor acc; cbn [scan_pages]; [frame; apply touches_head|].
  destruct (limit <=? 0); [frame; apply touches_head|]. step_touches; [apply touches_page|].
  destruct a0 as [[found next] total]. destruct next; [apply IH|auto with touches].
Qed.
End pages.

(** ** The calls *)
Inductive gateway_call :=
  | CallCreateGateway (g : GatewaySession)
  | CallGetGateway (sid : string)
  | CallUpdateGateway (sid : string) (st : option GatewaySessionState.t) (meta : option (list (string * json)))
      (expected : option Z) (allow_close reject_managed : bool) (updates : gateway_updates)
  | CallPrepareTeardown (sid : string) (cancel_scheduler_job : bool)
  | CallCloseGateway (sid : string)
  | CallListGateways (cluster : option string)
  | CallPageGateways (cursor limit : json) (cluster : option string) (st : option GatewaySessionState.t)
  | CallScanGateways (limit : Z) (cluster : option string) (st : option GatewaySessionState.t).

Section calls.
Context `{ExecutionCleanup} `{!SubmissionParts} `{!IsoParser} `{!IsoTime}.

Definition run_gateway_call (c : gateway_call) : M disk unit :=
  match c with
  | CallCreateGateway g => drop_result (create_gateway_session g)
  | CallGetGateway sid => drop_result (get_gateway_session sid)
  | CallUpdateGateway sid st meta expected allow reject updates =>
      drop_result (update_gateway_session sid st meta expected allow reject updates)
  | CallPrepareTeardown sid cancel => drop_result (prepare_gateway_teardown_intent sid cancel)
  | CallCloseGateway sid => drop_result (close_gateway_session sid)
  | CallListGateways cluster => drop_result (list_gateway_sessions cluster)
  | CallPageGateways cursor limit cluster st => drop_result (list_gateway_sessions_page cursor limit cluster st)
  | CallScanGateways limit cluster st => drop_result (scan_gateway_sessions limit cluster st)
  end.

(** Calls on gateways and on jobs and leases, each cut anywhere. *)
Definition run_mixed (c : gateway_call + queue_call) : M disk unit :=
  match c with inl g => run_gateway_call g | inr q => run_call q end.
Definition run_mixed_calls (calls : list (option nat * (gateway_call + queue_call))) (s : disk) : disk :=
  foldl (fun s c => (run_mixed c.2 (set_budget c.1 s)).2) s calls.

(** ** One session *)
Section committed.
Context (sid : string) (c : bool) (d : option json).
#[local] Abbreviation I := (committed sid c d).
#[local] Abbreviation keeps m := (triple I m (fun _ => True)).
#[local] Abbreviation apart := (outside ["gateway_sessions"]).

Lemma read_gateway_commits k :
  triple I (read_optional_gateway k) (fun o =>
    (forall g, o = Some g -> session_id g = k /\ (k = sid -> honors c d g)) /\ (o = None -> k <> sid)).
Proof using.
  intros s Hs. unfold read_optional_gateway, read_doc, mbind, M_bind.
  destruct (files s !! ["gateway_sessions"; json_name k]) as [x|] eqn:Hx.
  2:{ split; [done|]. intros o [= <-]. split; [done|]. intros _ ->. destruct Hs as (g&Hg&_). unfold gateway_path in Hg. congruence. }
  destruct (record_max_bytes _ <? _); [done|]. destruct x; try done.
  unfold ensure, lift. destruct (valid_gateway g); [|done]. cbn. case_bool_decide as Hid; [|done]. cbn.
  split; [done|]. intros o [= <-]. split; [|done]. intros g' [= <-]. split; [done|]. intros ->.
  destruct Hs as (g'&Hg&Hh). unfold gateway_path in Hg. rewrite Hg in Hx. by injection Hx as ->.
Qed.

Lemma get_gateway_commits k :
  triple I (get_gateway_session k) (fun g => session_id g = k /\ (k = sid -> honors c d g)).
Proof using.
  unfold get_gateway_session.
  eapply (triple_bind _ _ _ (fun x => x = k)); [apply triple_lift; by intros x [-> _]%require_id_ok|intros ? ->].
  eapply triple_bind; [apply read_gateway_commits|]. intros [g|] [Hg _]; [|apply triple_raise].
  apply triple_ret. by apply Hg.
Qed.

Lemma keeps_write_gateway g : (session_id g = sid -> honors c d g) -> keeps (write_gateway_session g).
Proof using.
  intros Hg. unfold write_gateway_session, _write_transition_intent_unlocked.
  eapply (triple_bind _ _ _ (fun p => apart p)).
  { step_triple. eapply (triple_bind _ _ _ (fun _ => True)); [apply keeps_frame; auto with touches|intros _ _].
    apply triple_ret. unfold outside. cbn. set_solver. }
  intros p Hp. eapply (triple_bind _ _ _ (fun _ => True)).
  { apply triple_write. intros m (g0&Hg0&Hh). destruct (decide (session_id g = sid)) as [He|He].
    - exists g. rewrite <- He, lookup_insert_eq. auto.
    - exists g0. split; [|done]. rewrite lookup_insert_ne; [done|]. by intros [= ?%json_name_inj]. }
  intros _ _. eapply (triple_bind _ _ _ (fun _ => True)); [apply keeps_frame; auto with touches|intros _ _].
  apply keeps_frame. auto with touches.
Qed.

Lemma keeps_recovery : keeps _recover_pending_transitions_unlocked.
Proof using. apply (keeps_recover (G:=committed_guarded sid c d)). Qed.
Lemma keeps_ordered k : keeps (ensure_global "gateway_sessions" k).
Proof using. apply keeps_frame. auto with touches. Qed.
#[local] Hint Resolve keeps_recovery keeps_ordered : keeps.

Lemma keeps_create g : keeps (create_gateway_session g).
Proof using.
  unfold create_gateway_session. do 3 keep_step.
  eapply triple_bind; [apply read_gateway_commits|intros o [_ Hn]].
  eapply triple_bind; [apply triple_ensure|cbv beta; intros _ Ho%bool_decide_eq_true].
  do 3 keep_step.
  eapply (triple_bind _ _ _ (fun _ => True)); [apply keeps_write_gateway; intros He; by destruct (Hn Ho)|intros _ _]. keep_step.
Qed.

Lemma keeps_update_gateway k st meta expected allow reject u :
  keeps (update_gateway_session k st meta expected allow reject u).
Proof using.
  unfold update_gateway_session. do 3 keep_step.
  eapply triple_bind; [apply get_gateway_commits|intros g [Hid Hg]]. do 2 keep_step.
  eapply (triple_bind _ _ _ (fun _ => check_gateway_update g st u allow reject = Ok tt));
    [apply triple_lift; by intros []|intros _ Hok]. keep_step.
  eapply (triple_bind _ _ _ (fun _ => True)); [|intros _ _; keep_step].
  apply keeps_write_gateway. intros He. eapply update_honors; [exact Hok|]. apply Hg. rewrite <- Hid. exact He.
Qed.

Lemma keeps_prepare k cancel : keeps (prepare_gateway_teardown_intent k cancel).
Proof using.
  unfold prepare_gateway_teardown_intent. do 3 keep_step.
  eapply triple_bind; [apply get_gateway_commits|intros g [Hid Hg]].
  destruct (get_value "teardown_intent" (gw_gateway g)) eqn:Hv; [keep|]. do 4 keep_step.
  eapply (triple_bind _ _ _ (fun _ => True)); [|intros _ _; keep_step].
  apply keeps_write_gateway. intros He. eapply teardown_honors; [exact Hv|]. apply Hg. rewrite <- Hid. exact He.
Qed.

Lemma keeps_gateway_call x : keeps (run_gateway_call x).
Proof using.
  destruct x; cbn [run_gateway_call]; unfold drop_result;
    (eapply (triple_bind _ _ _ (fun _ => True)); [|intros ? _; by apply triple_ret]).
  - apply keeps_create.
  - eapply triple_conseq; [apply get_gateway_commits|done].
  - apply keeps_update_gateway.
  - apply keeps_prepare.
  - unfold close_gateway_session. keep_step. apply keeps_update_gateway.
  - unfold list_gateway_sessions. apply keeps_frame. frame.
  - apply keeps_frame, touches_page. intros k. unfold read_optional_gateway. frame.
  - apply keeps_frame, touches_scan_order. intros k. unfold read_optional_gateway. frame.
Qed.

Lemma keeps_mixed x : keeps (run_mixed x).
Proof using.
  destruct x as [g|q]; [apply keeps_gateway_call|].
  apply (keeps_run_call (G:=committed_guarded sid c d)). intros j ->.
  apply (keeps_submit (G:=committed_guarded sid c d)); [|done].
  intros k x. apply keeps_frame, touches_write. unfold outside. cbn. set_solver.
Qed.

Lemma committed_calls calls s : I (files s) -> I (files (run_mixed_calls calls s)).
Proof using.
  revert s. induction calls as [|[b x] calls IH]; intros s Hs; cbn; [done|]. apply IH.
  by apply (keeps_mixed x (set_budget b s)).
Qed.
End committed.

(** A call returned the session as it is on disk. *)
Inductive observed (sid : string) (s : disk) (g : GatewaySession) (s' : disk) : Prop :=
  | observed_get : get_gateway_session sid s = (Ok g, s') -> observed sid s g s'
  | observed_update st meta expected allow reject u :
      update_gateway_session sid st meta expected allow reject u s = (Ok g, s') -> observed sid s g s'
  | observed_close : close_gateway_session sid s = (Ok g, s') -> observed sid s g s'
  | observed_prepare cancel : prepare_gateway_teardown_intent sid cancel s = (Ok g, s') -> observed sid s g s'.

Lemma get_gateway_found sid s g s' : get_gateway_session sid s = (Ok g, s') ->
  session_id g = sid /\ files s' = files s /\ files s !! gateway_path sid = Some (DGateway g).
Proof.
  unfold get_gateway_session. intros (k&s1&Hk&Hr)%M_bind_ok. injection Hk as [-> _]%require_id_ok <-.
  apply M_bind_ok in Hr as (o&s2&Ho&Hr). destruct o as [g0|]; [|done]. injection Hr as <- <-.
  unfold read_optional_gateway in Ho. apply M_bind_ok in Ho as (x&s3&Hx&Ho).
  unfold read_doc in Hx. destruct (files s !! ["gateway_sessions"; json_name sid]) as [y|] eqn:Hy.
  - destruct (record_max_bytes _ <? _); [done|]. injection Hx as <- <-. destruct y; try done.
    apply M_bind_ok in Ho as (u&s4&Hu&Ho). injection Hu as _ <-. apply M_bind_ok in Ho as (v&s5&Hv&Ho).
    injection Hv as Hv <-. apply raise_unless_ok, bool_decide_eq_true in Hv. by injection Ho as <- <-.
  - by injection Hx as <- <-.
Qed.

Lemma write_gateway_done g s u s' : write_gateway_session g s = (Ok u, s') ->
  files s' !! gateway_path (session_id g) = Some (DGateway g).
Proof.
  unfold write_gateway_session, _write_transition_intent_unlocked. intros (p&s1&Hp&Hr)%M_bind_ok.
  apply M_bind_ok in Hp as (now&s2&_&Hp). apply M_bind_ok in Hp as ([]&s3&_&Hp). injection Hp as <- <-.
  apply M_bind_ok in Hr as ([]&s4&Hw%write_done&Hr). apply M_bind_ok in Hr as ([]&s5&Hs&Hu%unlink_done).
  assert (H5 : files s5 !! gateway_path (session_id g) = files s4 !! gateway_path (session_id g)).
  { pose proof (touches_gateway_sync ["gateway_sessions"] (session_id g) s4 (gateway_path (session_id g))) as Hf.
    rewrite Hs in Hf. apply Hf. unfold outside, gateway_path. cbn. set_solver. }
  rewrite Hu, lookup_delete_ne, H5, Hw by done. apply lookup_insert_eq.
Qed.

Lemma update_gateway_done sid st meta expected allow reject u s g s' :
  update_gateway_session sid st meta expected allow reject u s = (Ok g, s') ->
  files s' !! gateway_path sid = Some (DGateway g).
Proof.
  unfold update_gateway_session. intros (k&s1&Hk&Hr)%M_bind_ok. injection Hk as [-> _]%require_id_ok <-.
  apply M_bind_ok in Hr as (?&s2&_&Hr). apply M_bind_ok in Hr as (?&s3&_&Hr).
  apply M_bind_ok in Hr as (g0&s4&Hg&Hr). do 3 apply M_bind_ok in Hr as (?&?&_&Hr).
  apply M_bind_ok in Hr as (now&s5&_&Hr). apply M_bind_ok in Hr as ([]&s6&Hw&Hr). injection Hr as <- <-.
  apply get_gateway_found in Hg as (Hid&_). apply write_gateway_done in Hw. cbn in Hw. by rewrite Hid in Hw.
Qed.

Lemma observed_stored sid s g s' : observed sid s g s' -> files s' !! gateway_path sid = Some (DGateway g).
Proof.
  destruct 1 as [Hr|st meta expected allow reject u Hr|Hr|cancel Hr].
  - apply get_gateway_found in Hr as (_&->&Hg). exact Hg.
  - by apply update_gateway_done in Hr.
  - unfold close_gateway_session in Hr. apply M_bind_ok in Hr as (k&s1&Hk&Hr). injection Hk as [-> _]%require_id_ok <-.
    by apply update_gateway_done in Hr.
  - unfold prepare_gateway_teardown_intent in Hr. apply M_bind_ok in Hr as (k&s1&Hk&Hr). injection Hk as [-> _]%require_id_ok <-.
    apply M_bind_ok in Hr as (?&s2&_&Hr). apply M_bind_ok in Hr as (?&s3&_&Hr). apply M_bind_ok in Hr as (g0&s4&Hg&Hr).
    apply get_gateway_found in Hg as (Hid&Hf&Hg). destruct (get_value "teardown_intent" (gw_gateway g0)).
    + apply M_bind_ok in Hr as (?&s5&Hc&Hr). injection Hc as _ <-. injection Hr as <- <-. by rewrite Hf.
    + do 4 apply M_bind_ok in Hr as (?&?&_&Hr). apply M_bind_ok in Hr as ([]&s6&Hw&Hr). injection Hr as <- <-.
      apply write_gateway_done in Hw. cbn in Hw. by rewrite Hid in Hw.
Qed.

(** C13: What a gateway session has committed to lasts.  Once a call has returned a session,
    then after any history of calls on gateways, jobs and leases, in any order, with any
    arguments and cut at any durable step, the session is still there; it is closed if it
    was closed, and it has the same teardown intent if it had one: no retry can take a
    cleanup policy back or reopen a gateway. *)
Theorem gateway_commitments_last (sid : string) (s s' : disk) (g : GatewaySession)
    (calls : list (option nat * (gateway_call + queue_call))) :
  observed sid s g s' ->
  exists g', files (run_mixed_calls calls s') !! gateway_path sid = Some (DGateway g') /\
    (gw_state g = GatewaySessionState.CLOSED -> gw_state g' = GatewaySessionState.CLOSED) /\
    (forall intent, get_value "teardown_intent" (gw_gateway g) = Some intent ->
       get_value "teardown_intent" (gw_gateway g') = Some intent).
Proof.
  intros Hg%observed_stored.
  destruct (committed_calls sid (bool_decide (gw_state g = GatewaySessionState.CLOSED))
              (get_value "teardown_intent" (gw_gateway g)) calls s') as (g'&Hg'&Hc&Hd).
  { exists g. split; [exact Hg|]. split; [by intros ?%bool_decide_eq_true|done]. }
  exists g'. split; [exact Hg'|]. split; [|exact Hd]. intros He. apply Hc. by apply bool_decide_eq_true.
Qed.
End calls.

(** ** The references of a closed session *)
Section unindexing.
Context `{World}.

(** The file a backlink and a reverse backlink stand for. *)
Definition backlink_target (ref : list (string * json)) : option path :=
  match dict_get "job_id" ref, dict_get "record_name" ref with
  | Some (JStr jid), Some (JStr name) => Some (job_ref_path jid name)
  | _, _ => None
  end.
Definition reverse_target (ref : list (string * json)) : option path :=
  match dict_get "family" ref, dict_get "relation_key" ref, dict_get "record_name" ref with
  | Some (JStr family), Some (JStr key), Some (JStr name) =>
      Some ["gateways_by_" +:+ family; _stable_ref_token [key]; name]
  | _, _, _ => None
  end.

(** The files below [dir] and the files they stand for. *)
Definition listed (target : list (string * json) -> option path) (dir : path) (m : gmap path doc) (q : path) : Prop :=
  exists name, is_Some (m !! (dir ++ [name])) /\
    (q = dir ++ [name] \/ exists ref, m !! (dir ++ [name]) = Some (DJson (JObj ref)) /\ target ref = Some q).

(** One round removes a backlink and what it stands for. *)
Definition removes (target : list (string * json) -> option path) (act : path -> M disk unit) : Prop :=
  forall p s u s', act p s = (Ok u, s') -> exists ref q,
    files s !! p = Some (DJson (JObj ref)) /\ target ref = Some q /\ files s' = delete p (delete q (files s)).

Lemma read_json_ok p s v s' : read_json_document p s = (Ok v, s') ->
  s' = s /\ (forall d, v = Some d -> files s !! p = Some (DJson d)).
Proof.
  unfold read_json_document. intros (x&s1&Hx&Hr)%M_bind_ok. unfold read_doc in Hx.
  destruct (files s !! p) as [y|] eqn:Hy.
  - destruct (record_max_bytes _ <? _); [done|]. injection Hx as <- <-. destruct y; try done.
    injection Hr as <- <-. split; [done|]. by intros ? [= <-].
  - injection Hx as <- <-. by injection Hr as <- <-.
Qed.

Lemma backlink_removes : removes backlink_target (unindex_backlink None).
Proof.
  intros p s u s'. unfold unindex_backlink. intros (v&s1&[-> Hv]%read_json_ok&Hr)%M_bind_ok.
  destruct v as [[| | | | | |ref]|]; try done. exists ref. apply M_bind_ok in Hr as (b&s2&[= <- <-]&Hr).
  unfold backlink_target. destruct (dict_get "job_id" ref) as [[]|], (dict_get "record_name" ref) as [[]|]; try done.
  apply M_bind_ok in Hr as (k&s3&Hk&Hr). injection Hk as [-> _]%require_id_ok <-.
  apply M_bind_ok in Hr as ([]&s4&Ha%unlink_done&Hb%unlink_done). eexists. split; [by apply Hv|]. split; [done|].
  by rewrite Hb, Ha.
Qed.

Lemma reverse_removes : removes reverse_target (unindex_reverse None).
Proof.
  intros p s u s'. unfold unindex_reverse. intros (v&s1&[-> Hv]%read_json_ok&Hr)%M_bind_ok.
  destruct v as [[| | | | | |ref]|]; try done. exists ref. apply M_bind_ok in Hr as (b&s2&[= <- <-]&Hr).
  unfold reverse_target. destruct (dict_get "family" ref) as [[]|]; try done.
  destruct (dict_get "relation_key" ref) as [[]|], (dict_get "record_name" ref) as [[]|]; try done.
  apply M_bind_ok in Hr as (k&s3&Hk&Hr). injection Hk as _ <-.
  apply M_bind_ok in Hr as (dir&s4&Hd&Hr). injection Hd as Hd <-.
  unfold _gateway_reverse_directory in Hd. apply bind_ok in Hd as (?&_&[= <-]).
  apply M_bind_ok in Hr as ([]&s5&Ha%unlink_done&Hb%unlink_done). eexists. split; [by apply Hv|]. split; [done|].
  by rewrite Hb, Ha.
Qed.

(** What a loop over backlinks removes. *)
Definition dead (target : list (string * json) -> option path) (ps : list path) (m : gmap path doc) (q : path) : Prop :=
  q ∈ ps \/ exists p ref, p ∈ ps /\ m !! p = Some (DJson (JObj ref)) /\ target ref = Some q.

Lemma unindex_loop target act dir ps s u s' :
  removes target act -> (forall ref name, target ref <> Some (dir ++ [name])) ->
  for_each act ps s = (Ok u, s') -> Forall (fun p => exists name, p = dir ++ [name]) ps ->
  forall q, (files s' !! q = None \/ files s' !! q = files s !! q) /\
    (dead target ps (files s) q -> files s' !! q = None) /\ (~ dead target ps (files s) q -> files s' !! q = files s !! q).
Proof.
  intros Hact Hdir Hr Hps. revert s Hr. induction Hps as [|p ps [name Hp] Hps IH]; intros s Hr q; cbn in Hr.
  { injection Hr as _ <-. split; [by right|]. split; [|done].
    intros [Hq|(p&ref&Hp&_)]; by apply not_elem_of_nil in Hq || apply not_elem_of_nil in Hp. }
  apply M_bind_ok in Hr as (v&s1&Ha&Hr). destruct (Hact _ _ _ _ Ha) as (ref&r&Hf&Ht&Hs1).
  assert (Hrd : forall x, r <> dir ++ [x]) by (intros x ->; by apply (Hdir ref x)).
  destruct (IH s1 Hr q) as (Hmono&Hdead&Hsame).
  assert (Hgone : q = p \/ q = r -> files s' !! q = None).
  { intros Hq. assert (H1 : files s1 !! q = None).
    { rewrite Hs1. destruct Hq as [->| ->]; [apply lookup_delete_eq|].
      destruct (decide (p = r)) as [->|]; [apply lookup_delete_eq|by rewrite lookup_delete_ne, lookup_delete_eq]. }
    destruct Hmono as [?|Hm]; [done|by rewrite Hm]. }
  assert (Hother : q <> p -> q <> r -> files s1 !! q = files s !! q).
  { intros H1 H2. by rewrite Hs1, !lookup_delete_ne. }
  split_and!.
  - destruct (decide (q = p)) as [|H1]; [left; auto|]. destruct (decide (q = r)) as [|H2]; [left; auto|].
    rewrite <- Hother by done. exact Hmono.
  - intros [[->|Hq]%elem_of_cons|(p'&ref'&[->|Hp']%elem_of_cons&Hf'&Ht')]; [by auto|apply Hdead; by left|..].
    + apply Hgone. right. rewrite Hf in Hf'. injection Hf' as <-. congruence.
    + destruct (decide (p' = p)) as [->|Hne]; [apply Hgone; right; rewrite Hf in Hf'; injection Hf' as <-; congruence|].
      apply Hdead. right. exists p', ref'. split_and!; [done| |done]. rewrite Hs1, !lookup_delete_ne; [done| |done].
      rewrite Forall_forall in Hps. destruct (Hps _ Hp') as [x ->]. apply Hrd.
  - intros Hn. rewrite Hsame.
    + apply Hother; intros ->; apply Hn; [left; left|right; exists p, ref; split_and!; [left|done|done]].
    + intros [Hq|(p'&ref'&Hp'&Hf'&Ht')]; apply Hn; [left; by right|]. right. exists p', ref'.
      split_and!; [by right| |done]. rewrite Hs1 in Hf'. by apply lookup_delete_Some in Hf' as [_ [_ ?]%lookup_delete_Some].
Qed.

(** The loop over all records of a directory. *)
Lemma unindex_directory target act dir limit s u s' :
  dir <> [] -> removes target act -> (forall ref name, target ref <> Some (dir ++ [name])) ->
  (paths ← bounded_json_record_paths dir limit; for_each act paths) s = (Ok u, s') ->
  forall q, (files s' !! q = None \/ files s' !! q = files s !! q) /\
            (listed target dir (files s) q -> files s' !! q = None) /\
            (~ listed target dir (files s) q -> files s' !! q = files s !! q).
Proof.
  intros Hne Hact Hdir (ps&s1&Hl&Hr)%M_bind_ok q. pose proof Hl as Hl'. unfold bounded_json_record_paths in Hl'.
  apply M_bind_ok in Hl' as (es&s2&[= <- <-]&Hb). injection Hb as Hb <-. apply bounded_entries_paths in Hb as ->.
  assert (Hin : forall p, p ∈ (scandir_order (filter (fun kv => removelast kv.1 = dir /\ kv.1 <> []) (map_to_list (files s)))).*1 <->
                exists name, p = dir ++ [name] /\ is_Some (files s !! p)).
  { intros p. rewrite list_elem_of_fmap. split.
    - intros ([p' x]&->&[Hx [name ->]]%scandir_elem); [|done]. cbn. exists name. split; [done|]. by eexists.
    - intros (name&->&[x Hx]). exists (dir ++ [name], x). split; [done|]. apply scandir_elem; [done|]. split; [done|by exists name]. }
  assert (Heq : dead target (scandir_order (filter (fun kv => removelast kv.1 = dir /\ kv.1 <> []) (map_to_list (files s)))).*1 (files s) q
                <-> listed target dir (files s) q).
  { unfold dead, listed. split.
    - intros [(name&->&Hs)%Hin|(p&ref&(name&->&Hs)%Hin&Hf&Ht)]; exists name; (split; [done|]); [by left|right; by exists ref].
    - intros (name&Hs&[->|(ref&Hf&Ht)]); [left; apply Hin; by exists name|].
      right. exists (dir ++ [name]), ref. split; [apply Hin; by exists name|done]. }
  destruct (unindex_loop target act dir _ _ _ _ Hact Hdir Hr) with (q := q) as (H0&H1&H2).
  { apply Forall_forall. intros p (name&->&_)%Hin. by exists name. }
  cbn [app] in *. rewrite Heq in H1, H2. done.
Qed.

Lemma backlink_elsewhere sid ref name : backlink_target ref <> Some (backlink_dir sid ++ [name]).
Proof.
  unfold backlink_target. destruct (dict_get "job_id" ref) as [[]|], (dict_get "record_name" ref) as [[]|]; done.
Qed.
Lemma reverse_elsewhere sid ref name : reverse_target ref <> Some (reverse_backlink_dir sid ++ [name]).
Proof.
  unfold reverse_target. destruct (dict_get "family" ref) as [[]|]; try done.
  destruct (dict_get "relation_key" ref) as [[]|], (dict_get "record_name" ref) as [[]|]; done.
Qed.

Lemma read_gateway_ok sid s o s' : read_optional_gateway sid s = (Ok o, s') ->
  s' = s /\ (forall g, o = Some g -> files s !! gateway_path sid = Some (DGateway g)).
Proof.
  unfold read_optional_gateway. intros (x&s1&Hx&Hr)%M_bind_ok. unfold read_doc in Hx. unfold gateway_path.
  destruct (files s !! ["gateway_sessions"; json_name sid]) as [y|] eqn:Hy.
  - destruct (record_max_bytes _ <? _); [done|]. injection Hx as <- <-. destruct y; try done.
    apply M_bind_ok in Hr as (u&s2&Hu&Hr). injection Hu as _ <-. apply M_bind_ok in Hr as (v&s3&Hv&Hr).
    injection Hv as _ <-. injection Hr as <- <-. split; [done|]. by intros ? [= <-].
  - injection Hx as <- <-. by injection Hr as <- <-.
Qed.

(** C26: When the index of a session that is closed, or whose record is gone, has been rebuilt,
    exactly its own files are gone: every backlink and reverse backlink below it, and
    every reference below a job and every copy below an artifact or scheduler job that
    these stand for.  All other files are as they were. *)
Theorem closed_session_unindexed (sid : string) (s s' : disk) :
  (forall g, files s !! gateway_path sid = Some (DGateway g) -> gw_state g = GatewaySessionState.CLOSED) ->
  sync_gateway_session_derived sid s = (Ok tt, s') ->
  let ties q := listed backlink_target (backlink_dir sid) (files s) q
                \/ listed reverse_target (reverse_backlink_dir sid) (files s) q in
  forall q, (ties q -> files s' !! q = None) /\ (~ ties q -> files s' !! q = files s !! q).
Proof.
  intros Hclosed Hr ties q. unfold sync_gateway_session_derived in Hr. apply M_bind_ok in Hr as (o&s1&Ho&Hr).
  apply M_bind_ok in Hr as ([]&s2&Hu&Hr). apply read_gateway_ok in Ho as [-> Ho].
  assert (s2 = s') as ->.
  { destruct o as [g|]; [|by injection Hr as <-]. unfold _index_gateway_session_unlocked in Hr.
    rewrite bool_decide_true in Hr by (apply Hclosed; by apply Ho). by injection Hr as <-. }
  unfold _unindex_gateway_session_id_unlocked in Hu. apply M_bind_ok in Hu as (k&s3&Hk&Hu).
  injection Hk as [-> _]%require_id_ok <-. apply M_bind_ok in Hu as (ps&s3&Hps&Hu). apply M_bind_ok in Hu as ([]&s4&Hl&Hu).
  destruct (unindex_directory backlink_target (unindex_backlink None) (backlink_dir sid) MAX_GATEWAY_INDEX_RECORDS s tt s4)
    with (q := q) as (_&H1&H2); [done|apply backlink_removes|apply backlink_elsewhere|apply M_bind_ok; by exists ps, s3|].
  destruct (unindex_directory reverse_target (unindex_reverse None) (reverse_backlink_dir sid) _ s4 tt s' ltac:(done)
    reverse_removes (reverse_elsewhere sid) Hu q) as (Hmono&H3&H4).
  assert (Hkept : forall name, files s4 !! (reverse_backlink_dir sid ++ [name]) = files s !! (reverse_backlink_dir sid ++ [name])).
  { intros name. destruct (unindex_directory backlink_target (unindex_backlink None) (backlink_dir sid) MAX_GATEWAY_INDEX_RECORDS s tt s4)
      with (q := reverse_backlink_dir sid ++ [name]) as (_&_&H5);
      [done|apply backlink_removes|apply backlink_elsewhere|apply M_bind_ok; by exists ps, s3|].
    apply H5. intros (x&_&[?|(ref&_&Ht)]); [done|]. unfold backlink_target in Ht.
    destruct (dict_get "job_id" ref) as [[]|], (dict_get "record_name" ref) as [[]|]; done. }
  assert (Hsame : listed reverse_target (reverse_backlink_dir sid) (files s4) q <->
                  listed reverse_target (reverse_backlink_dir sid) (files s) q).
  { unfold listed. by setoid_rewrite Hkept. }
  rewrite Hsame in H3, H4. split.
  - intros [Hq|Hq]; [|by apply H3]. destruct Hmono as [?|Hm]; [done|]. rewrite Hm. by apply H1.
  - intros Hn. rewrite H4 by (intros ?; apply Hn; by right). apply H2. intros ?; apply Hn; by left.
Qed.
End unindexing.
