(* ===== verification/Tasks.v ===== *)
(** * Tasks of a job ([queue_tasks.py])

    A task is numbered within its job.  Its record is announced in the journal before it is
    written, so that its copies and the counts of the job follow from it after a crash. *)

From S2P Require Import Prelude Sha256 Json Identifiers Models Store OrderIndex JobIndex Events.
From S2P Require Import LeaseRecords LeaseTransitions JobLifecycle OwnerSessions ExecutionCleanup.
From stdpp Require Import base list gmap strings.
From Stdlib Require Import ZArith Lia.
From Stdlib Require Ascii String.
Open Scope Z_scope.

(** [task.model_copy(update={"sequence": sequence})] *)
Definition numbered_task (t : RelayTask) (sequence : Z) : RelayTask :=
  mkTask (task_id t) (task_job_id t) (Some sequence) (task_name t) (task_state t) (task_created_at t)
    (task_updated_at t) (task_metadata t).

(** The copy of [update_task_state]. *)
Definition task_state_copy (t : RelayTask) (st : JobState) (meta : list (string * json)) (now : Z) : RelayTask :=
  mkTask (task_id t) (task_job_id t) (task_sequence t) (task_name t) st (task_created_at t) now meta.

Definition task_event_type (st : JobState) : string := "task." +:+ JobState_value st.
(** [message or f"Task {updated.name} {state.value}"] *)
Definition task_message (message : option string) (t : RelayTask) (st : JobState) : string :=
  let printed := "Task " +:+ task_name t +:+ " " +:+ JobState_value st in
  match message with Some m => if str_nonempty m then m else printed | None => printed end.

Section tasks.
Context `{JobDerived}.

(** [_write_task_unlocked] *)
Definition write_task (t : RelayTask) : M disk unit :=
  p ← _write_transition_intent_unlocked (task_id t) (TaskSyncIntent (task_job_id t) (task_id t));
  _ ← write_doc ["tasks"; json_name (task_id t)] (DTask t);
  _ ← _sync_task_derived_unlocked t;
  unlink_durable_path p.

Definition get_task (tid : string) : M disk RelayTask :=
  tid ← lift (require_durable_record_id (JStr tid) "task_id");
  marked_task tid.

Definition append_task (t : RelayTask) : M disk RelayTask :=
  _ ← lift (require_durable_record_id (JStr (task_id t)) "task_id");
  _ ← lift (require_durable_record_id (JStr (task_job_id t)) "job_id");
  _ ← _recover_pending_transitions_unlocked;
  _ ← get_job (task_job_id t);
  sequence ← _next_job_record_sequence_unlocked (task_job_id t) "task_count";
  let saved := numbered_task t sequence in
  _ ← write_task saved;
  _ ← append_event (task_job_id t) "task.queued" ("Task queued: " +:+ task_name t)
        (Some [("task_id", JStr (task_id t)); ("name", JStr (task_name t))]);
  mret saved.

Definition update_task_state (tid : string) (st : JobState) (message : option string)
    (meta : option (list (string * json))) : M disk RelayTask :=
  tid ← lift (require_durable_record_id (JStr tid) "task_id");
  _ ← _recover_pending_transitions_unlocked;
  t ← marked_task tid;
  now ← utc_now;
  let updated := task_state_copy t st (dict_update (task_metadata t) (default [] meta)) now in
  _ ← write_task updated;
  _ ← append_event (task_job_id updated) (task_event_type st) (task_message message updated st)
        (Some [("task_id", JStr (task_id updated)); ("name", JStr (task_name updated));
               ("state", JStr (JobState_value st))]);
  mret updated.

Definition update_task_metadata (tid : string) (meta : list (string * json)) : M disk RelayTask :=
  tid ← lift (require_durable_record_id (JStr tid) "task_id");
  _ ← _recover_pending_transitions_unlocked;
  t ← marked_task tid;
  now ← utc_now;
  let updated := task_metadata_copy t (dict_update (task_metadata t) meta) now in
  _ ← write_task updated;
  mret updated.

(** ** Listings *)

(** [read_json_file] and the identity check of [_read_records] for a task. *)
Definition read_task_entry (entry : path * doc) : result RelayTask :=
  match entry.2 with
  | DTask t =>
      if negb (valid_task t) then Err (ValidationError "RelayTask")
      else if bool_decide (task_id t = json_stem (default "" (last entry.1))) then Ok t
      else Err (QueueConflictError "canonical task_id filename/content identity mismatch: ")
  | _ => Err (ValidationError "RelayTask")
  end.

(** [read_many(directory, RelayTask, identity_field="task_id")] *)
Definition read_many_task (directory : path) : M disk (list RelayTask) :=
  scanned ← scan_many read_task_entry directory (Z.to_nat MAX_BOUNDED_SCAN_RECORDS);
  _ ← ensure (negb scanned.2)
        (QueueConflictError "canonical record family exceeds the bounded read limit of ");
  mret scanned.1.

Definition of_job (jid : string) (t : RelayTask) : bool := bool_decide (task_job_id t = jid).

Definition list_tasks (jid : option string) : M disk (list RelayTask) :=
  match jid with
  | None =>
      _ ← _recover_pending_transitions_unlocked;
      tasks ← read_many_task ["tasks"];
      mret (sort_by task_created_leb tasks)
  | Some jid =>
      jid ← lift (require_durable_record_id (JStr jid) "job_id");
      _ ← _recover_pending_transitions_unlocked;
      indexed ← _job_index_exists jid;
      if (indexed : bool) then
        tasks ← read_many_task ["tasks_by_job"; jid]; mret (sort_by task_created_leb tasks)
      else
        tasks ← read_many_task ["tasks"];
        mret (sort_by task_created_leb (List.filter (of_job jid) tasks))
  end.

(** [read_optional] of an ordered copy: its name is a number, so its identity is not
    checked. *)
Definition read_ordered_task (p : path) : M disk (option RelayTask) :=
  d ← read_doc p;
  match d with
  | None => mret None
  | Some (DTask t) => _ ← ensure (valid_task t) (ValidationError "RelayTask"); mret (Some t)
  | Some _ => raise (ValidationError "RelayTask")
  end.

Definition list_tasks_page (jid : string) (cursor limit : json) : M disk (list RelayTask * option Z * Z) :=
  jid ← lift (require_durable_record_id (JStr jid) "job_id");
  _ ← _recover_pending_transitions_unlocked;
  _read_ordered_job_page read_ordered_task jid "task" cursor limit "task_count".

Definition scan_job_tasks (jid : string) (limit : Z) : M disk (list RelayTask * bool) :=
  jid ← lift (require_durable_record_id (JStr jid) "job_id");
  _ ← _recover_pending_transitions_unlocked;
  indexed ← _job_index_exists jid;
  scanned ← scan_many read_task_entry (if (indexed : bool) then ["tasks_by_job"; jid] else ["tasks"]) (Z.to_nat limit);
  mret (sort_by task_created_leb (if (indexed : bool) then scanned.1 else List.filter (of_job jid) scanned.1), scanned.2).
End tasks.
