(* ===== verification/QueueBlocked.v ===== *)
(** * A record that stops the queue

    A job's scheduler references are rebuilt from its metadata after the job is written and
    announced in the journal.  The bound on the number of scheduler jobs is only checked
    there: metadata over the bound is stored, its announcement stays, and every later call
    that first replays the journal fails on it. *)

From S2P Require Import Prelude Sha256 Json Decimal Identifiers Models Store OrderIndex JobIndex Events SchedulerCancel SchedulerCancelProofs.
From S2P Require Import LeaseRecords LeaseTransitions LeaseAdmission Recovery LeaseReplay LeaseRenew OwnerSessions.
From S2P Require Import JobLifecycle JobFrames JobGuards JobSubmission JobClaims GatewayIndexes Gateways ExecutionCleanup QueueParts GatewayClaims.
From stdpp Require Import base list gmap strings sets.
From Stdlib Require Import ZArith Lia.
From Stdlib Require Ascii String.
Open Scope Z_scope.

(** ** The calls that begin with a replay of the journal *)
Definition recovers (c : gateway_call + queue_call) : bool :=
  match c with
  | inl (CallCreateGateway _ | CallUpdateGateway _ _ _ _ _ _ _ | CallPrepareTeardown _ _ | CallCloseGateway _) => true
  | inl _ => false
  | inr (CallResolve _ | CallAppendEvent _ _ _ _) => false
  | inr _ => true
  end.

(** The only intent of the journal is that of a job whose metadata is over the bound. *)
Definition stuck `{World} (jid : string) (m : gmap path doc) : Prop :=
  exists p t at_ j e, only_intent p t m /\ fits p (DIntent t) /\ intent_body t = JobSyncIntent jid at_ /\
    m !! job_path jid = Some (DJob j) /\ _metadata_scheduler_gc_state (metadata j) = Err e.

Lemma stuck_frame `{World} (jid : string) (m m' : gmap path doc) :
  (forall p, default "" (head p) ∈ ["jobs"; "transition_intents"] -> m' !! p = m !! p) -> stuck jid m -> stuck jid m'.
Proof.
  intros Hm (p&t&at_&j&e&Hp&Hf&Hb&Hj&He). exists p, t, at_, j, e. split_and!; [|done|done| |done].
  - destruct Hp as [[stem ->] Hp Ho]. split; [by exists stem| |].
    + rewrite Hm; [done|]. cbn. set_solver.
    + intros name. rewrite Hm by (cbn; set_solver). apply Ho.
  - rewrite Hm; [done|]. cbn. set_solver.
Qed.

Lemma oversized_ids_rejected meta ids :
  dict_get "scheduler_job_ids" meta = Some (JList ids) -> (MAX_SCHEDULER_METADATA_RECORDS < length ids)%nat ->
  exists e, _metadata_scheduler_gc_state meta = Err e.
Proof.
  intros Hd Hl. unfold _metadata_scheduler_gc_state. destruct (observe_field meta "scheduler_statuses" _) as [s1|e]; [|by exists e].
  cbn. destruct (observe_field meta "scheduler_job_ownership" s1) as [s2|e]; [|by exists e].
  cbn. rewrite Hd. rewrite (proj2 (Nat.leb_gt _ _)) by lia. by eexists.
Qed.

Section blocked.
Context `{World} `{!SubmissionParts} `{!IsoParser} `{!IsoTime} (jid : string).

(** The call fails on such a store and leaves it as bad as it was. *)
Definition blocks {A : Type} (m : M disk A) : Prop :=
  forall s, stuck jid (files s) -> is_ok (m s).1 = false /\ stuck jid (files (m s).2).

Lemma blocks_bind {A B : Type} (m : M disk A) (k : A -> M disk B) : blocks m -> blocks (m ≫= k).
Proof using.
  intros Hm s Hs. specialize (Hm s Hs). unfold mbind, M_bind. by destruct (m s) as [[a|e] s1], Hm.
Qed.
Lemma blocks_after {A B : Type} (m : M disk A) (k : A -> M disk B) :
  readonly m -> (forall a, blocks (k a)) -> blocks (m ≫= k).
Proof using.
  intros Hm Hk s Hs. pose proof (readonly_files m s Hm) as Hf. unfold mbind, M_bind.
  destruct (m s) as [[a|e] s1]; cbn in *; rewrite <- Hf in Hs; [by apply Hk|done].
Qed.

Lemma stuck_within (F : list string) {A : Type} (m : M disk A) s :
  touches (within F) m -> "jobs" ∉ F -> "transition_intents" ∉ F -> stuck jid (files s) -> stuck jid (files (m s).2).
Proof using.
  intros Hm Hj Hi. apply stuck_frame. intros p Hp. apply Hm. unfold within.
  rewrite !elem_of_cons, elem_of_nil in Hp. by destruct Hp as [-> |[-> |[]]].
Qed.

Lemma blocks_then {A B : Type} (m : M disk A) (k : A -> M disk B) :
  (forall s, stuck jid (files s) -> stuck jid (files (m s).2)) -> (forall a, blocks (k a)) -> blocks (m ≫= k).
Proof using.
  intros Hm Hk s Hs. specialize (Hm s Hs). unfold mbind, M_bind. destruct (m s) as [[a|e] s1]; cbn in *; [by apply Hk|done].
Qed.

Lemma blocks_source k source meta e : _metadata_scheduler_gc_state meta = Err e -> blocks (sync_scheduler_source k source meta).
Proof using. intros He s Hs. unfold sync_scheduler_source, mbind, M_bind, lift. by rewrite He. Qed.

Lemma blocks_sync j e : _metadata_scheduler_gc_state (metadata j) = Err e -> blocks (_sync_job_derived_unlocked j).
Proof using.
  intros He. apply blocks_then; [|intros _; eapply blocks_bind, blocks_source, He].
  intros s. apply (stuck_within membership_families); [apply touches_membership|..]; unfold membership_families; set_solver.
Qed.

Lemma blocks_recover : blocks _recover_pending_transitions_unlocked.
Proof using.
  intros s Hs. pose proof Hs as (p&t&at_&j&e&Hp&Hf&Hb&Hj&He).
  unfold _recover_pending_transitions_unlocked. rewrite (reconcile_one p t s Hp Hf).
  unfold replay_intent. cbn [fst snd]. rewrite Hb. revert s Hs Hp Hj. 
  assert (Hbl : forall s, stuck jid (files s) -> files s !! job_path jid = Some (DJob j) ->
    is_ok (replay_job_sync p jid s).1 = false /\ stuck jid (files (replay_job_sync p jid s).2)).
  { intros s Hs Hj. unfold replay_job_sync, ensure, lift, mbind, M_bind. destruct (raise_unless _ _); [|done].
    unfold read_optional_job, read_doc, mbind, M_bind. change ["jobs"; json_name jid] with (job_path jid). rewrite Hj. destruct (record_max_bytes _ <? _); [done|].
    unfold ensure, lift. destruct (valid_job j); [|done]. cbn [raise_unless]. destruct (bool_decide (job_id j = jid)); [|done].
    cbn [raise_unless mret M_ret]. pose proof (blocks_sync j e He s Hs) as Hsync.
    by destruct (_sync_job_derived_unlocked j s) as [[u|e1] s1], Hsync. }
  intros s Hs _ Hj. specialize (Hbl s Hs Hj). unfold mbind, M_bind. by destruct (replay_job_sync p jid s) as [[u|e1] s1], Hbl.
Qed.

(** ** Every call that recovers first *)
Lemma blocks_drop {A : Type} (m : M disk A) : blocks m -> blocks (drop_result m).
Proof using. apply blocks_bind. Qed.

Lemma blocks_start {A : Type} (k : unit -> M disk A) : blocks (x ← _recover_pending_transitions_unlocked; k x).
Proof using. apply blocks_bind, blocks_recover. Qed.

(** Checks and reads, then the replay. *)
Ltac until_recovery :=
  repeat first
    [ apply blocks_start
    | apply blocks_after; [unfold readonly, require_index_migration_complete, opt_forall; solve [frame]|intros ?]
    | match goal with |- blocks (match ?x with _ => _ end) => destruct x end ].

Lemma blocks_call c : recovers c = true -> blocks (run_mixed c).
Proof using.
  destruct c as [g|q]; cbn [run_mixed].
  - destruct g; try done; intros _; cbn [run_gateway_call]; apply blocks_drop.
    + unfold create_gateway_session. until_recovery.
    + unfold update_gateway_session. until_recovery.
    + unfold prepare_gateway_teardown_intent. until_recovery.
    + unfold close_gateway_session. apply blocks_after; [unfold readonly; frame|intros k].
      unfold update_gateway_session. until_recovery.
  - destruct q; try done; intros _; cbn [run_call]; try apply blocks_drop.
    + unfold submit_job. until_recovery.
    + unfold update_job_metadata. until_recovery.
    + unfold update_job_state. until_recovery.
    + unfold cancel_job_if_active. until_recovery.
    + unfold acknowledge_job_cancellation. until_recovery.
    + unfold scan_active_jobs. until_recovery.
    + unfold active_job_capacity. until_recovery.
    + unfold release_lease. until_recovery.
    + unfold renew_lease. until_recovery.
    + unfold scan_leases. until_recovery.
    + unfold scan_job_leases. until_recovery.
    + unfold lease_admission_capacity_snapshot. until_recovery.
    + unfold job_has_pending_execution_cleanup. until_recovery.
    + unfold recover_stale_jobs. until_recovery.
    + unfold recover_stale_job. until_recovery.
    + unfold acquire_job. until_recovery.
    + unfold acquire_next_job. until_recovery.
Qed.

(** ** How a store gets there *)
Lemma bind_any {A B : Type} (m : M disk A) (k : A -> M disk B) s r s' :
  (m ≫= k) s = (r, s') -> (exists e, r = Err e /\ m s = (Err e, s')) \/ (exists a s1, m s = (Ok a, s1) /\ k a s1 = (r, s')).
Proof using. unfold mbind, M_bind. destruct (m s) as [[a|e] s1]; [eauto|intros [= <- <-]; eauto]. Qed.

Lemma write_outcome p d s r s' :
  write_doc p d s = (r, s') ->
  (is_ok r = false /\ files s' = files s) \/ (r = Ok tt /\ fits p d /\ files s' = <[p := d]> (files s)).
Proof using.
  unfold write_doc. destruct (Z.ltb_spec (record_max_bytes p) (Z.of_nat (encoded_size d))).
  { intros [= <- <-]. by left. }
  unfold durable. destruct (budget s) as [[|n]|]; intros [= <- <-]; [by left|right; by split_and!..].
Qed.

Lemma intent_outcome identity body s r s' :
  _write_transition_intent_unlocked identity body s = (r, s') ->
  let p := intent_path (intent_kind body) identity in
  (is_ok r = false /\ files s' = files s) \/
  exists at_, r = Ok p /\ fits p (DIntent (mkIntent identity at_ body)) /\
    files s' = <[p := DIntent (mkIntent identity at_ body)]> (files s).
Proof using.
  unfold _write_transition_intent_unlocked. intros [(e&_&[=])|(now&s1&[= <- <-]&Hr)]%bind_any.
  apply bind_any in Hr as [(e&->&Hr)|([]&s2&Hw&[= <- <-])].
  - apply write_outcome in Hr as [[_ Hr]|([=]&_)]. left. split; [reflexivity|exact Hr].
  - apply write_outcome in Hw as [[[=] _]|(_&Hf&Hw)]. right. eexists. split_and!; [reflexivity|exact Hf|exact Hw].
Qed.

(** Writing such a job either leaves the job as it was or gets the queue stuck, wherever it
    stops. *)
Lemma write_blocks j e s r s' :
  job_id j = jid -> _metadata_scheduler_gc_state (metadata j) = Err e -> no_intents (files s) ->
  write_job j s = (r, s') -> files s' !! job_path jid <> files s !! job_path jid -> stuck jid (files s').
Proof using.
  intros Hid He Hno Hr Hne. unfold write_job in Hr. cbn [_migrate_execution_cleanup_shard_unlocked queue_parts] in Hr.
  assert (Hmig : touches (within cleanup_families) (migrate_job_shard (job_cluster j) (job_id j))).
  { unfold migrate_job_shard. frame. apply touches_migrate_shard. }
  specialize (Hmig s). apply bind_any in Hr as [(e1&->&Hr)|([]&s1&Hm&Hr)].
  { rewrite Hr in Hmig. destruct Hne. apply Hmig. by apply not_within. }
  rewrite Hm in Hmig. cbn in Hmig. rewrite <- (Hmig (job_path jid)) in Hne by (by apply not_within).
  assert (Hno1 : no_intents (files s1)) by (intros name; rewrite Hmig; [apply Hno|by apply not_within]).
  clear Hno Hmig Hm s. apply bind_any in Hr as [(e1&->&Hr)|(p&s2&Hp&Hr)].
  { destruct (intent_outcome _ _ _ _ _ Hr) as [[_ Hs]|(at_&[=]&_)]. rewrite Hs in Hne. destruct Hne. reflexivity. }
  destruct (intent_outcome _ _ _ _ _ Hp) as [[[=] _]|(at_&[= ->]&Hf&Hs)].
  rewrite Hid in Hf, Hs, Hr. cbn [intent_kind] in Hf, Hs. set (q := intent_path "job_sync" jid) in *.
  assert (Hqj : q <> job_path jid) by done. apply bind_any in Hr as [(e1&->&Hr)|([]&s3&Hw&Hr)].
  { apply write_outcome in Hr as [[_ Hw]|([=]&_)]. rewrite Hw, Hs, lookup_insert_ne in Hne by exact Hqj. destruct Hne. reflexivity. }
  apply write_outcome in Hw as [[[=] _]|(_&_&Hw)].
  assert (Hst : stuck jid (files s3)).
  { exists q, (mkIntent jid at_ (JobSyncIntent jid (job_updated_at j))), (job_updated_at j), j, e. rewrite Hw, Hs.
    split_and!; [|done|done|apply lookup_insert_eq|done]. split.
    - apply intent_path_name.
    - rewrite lookup_insert_ne by done. apply lookup_insert_eq.
    - intros name [d Hd]. rewrite lookup_insert_ne in Hd by done. destruct (decide (["transition_intents"; name] = q)); [done|].
      by rewrite lookup_insert_ne, Hno1 in Hd by done. }
  destruct (blocks_sync j e He s3 Hst) as [Hok Hst'].
  apply bind_any in Hr as [(e1&->&Hr)|(u&s4&Hr&_)]; rewrite Hr in Hok, Hst'; [exact Hst'|done].
Qed.
End blocked.

Section queue.
Context `{World} `{!SubmissionParts} `{!IsoParser} `{!IsoTime}.

Lemma stuck_calls jid calls s :
  Forall (fun c => recovers c.2 = true) calls -> stuck jid (files s) -> stuck jid (files (run_mixed_calls calls s)).
Proof using.
  intros Hc. revert s. induction Hc as [|[b c] calls Hc _ IH]; intros s Hs; cbn; [done|].
  apply IH. by apply (blocks_call jid c Hc (set_budget b s)).
Qed.

Lemma get_job_outcome jid s r s' j :
  get_job jid s = (r, s') -> files s !! job_path jid = Some (DJob j) ->
  s' = s /\ forall j', r = Ok j' -> j' = j /\ job_id j = jid.
Proof using.
  intros Hr Hj.
  assert (Hw : wp (get_job jid) s (fun r s' => s' = s /\ forall j', r = Ok j' -> j' = j /\ job_id j = jid)).
  { apply wp_get_job; [|done]. intros j0 Hj0 _ Hid. rewrite Hj in Hj0. injection Hj0 as <-. split; [done|]. by intros j' [= <-]. }
  unfold wp in Hw. by rewrite Hr in Hw.
Qed.

(** The record an update leaves is the old one or the queue is stuck. *)
Lemma update_stuck jid meta s r s' j ids :
  no_intents (files s) -> files s !! job_path jid = Some (DJob j) ->
  dict_get "scheduler_job_ids" (dict_update (metadata j) meta) = Some (JList ids) ->
  (MAX_SCHEDULER_METADATA_RECORDS < length ids)%nat ->
  update_job_metadata jid meta s = (r, s') -> files s' !! job_path jid <> Some (DJob j) -> stuck jid (files s').
Proof using.
  intros Hno Hj Hids Hlen Hr. rewrite <- Hj. intros Hne. unfold update_job_metadata in Hr.
  destruct (oversized_ids_rejected _ _ Hids Hlen) as [e He].
  apply bind_any in Hr as [(e1&->&Hk)|(k&s1&Hk&Hr)]; [by injection Hk as _ <-|].
  injection Hk as [-> _]%require_id_ok <-. rewrite (M_bind_run _ _ _ _ _ (reconcile_none s Hno)) in Hr.
  apply bind_any in Hr as [(e1&->&Hg)|(j'&s2&Hg&Hr)]; destruct (get_job_outcome _ _ _ _ _ Hg Hj) as [-> Hid]; [done|].
  destruct (Hid j' eq_refl) as [-> Hjid]. cbv zeta in Hr.
  apply bind_any in Hr as [(e1&->&Hv)|([]&s3&Hv&Hr)].
  { destruct Hne. by destruct (bool_decide _); injection Hv as _ <-. }
  assert (s3 = s) as -> by (by destruct (bool_decide _); [injection Hv as _ <-|injection Hv as <-]).
  apply bind_any in Hr as [(e1&_&[=])|(now&s4&[= <- <-]&Hr)].
  assert (Hw : exists r', write_job (metadata_copy j (dict_update (metadata j) meta) (clock (ticks s)))
    (mkDisk (files s) (budget s) (S (ticks s)) (draws s)) = (r', s')).
  { apply bind_any in Hr as [(e1&->&Hr)|([]&s5&Hw&[= _ <-])]; by eexists. }
  destruct Hw as [r' Hw]. by apply (write_blocks jid _ e) in Hw.
Qed.

(** C17: An update whose metadata names more than a thousand scheduler jobs stops the queue.
    If it is stored, the call failing or not and wherever it stopped, then whatever calls
    on jobs, leases and gateways follow, every one that first replays the journal fails:
    no job can be submitted, updated, canceled or leased any more. *)
Theorem oversized_metadata_blocks_queue (jid : string) (meta : list (string * json)) (s s' : disk)
    (r : result RelayJob) (j : RelayJob) (ids : list json)
    (calls : list (option nat * (gateway_call + queue_call))) (b : option nat) (c : gateway_call + queue_call) :
  no_intents (files s) -> files s !! job_path jid = Some (DJob j) ->
  dict_get "scheduler_job_ids" (dict_update (metadata j) meta) = Some (JList ids) ->
  (MAX_SCHEDULER_METADATA_RECORDS < length ids)%nat ->
  update_job_metadata jid meta s = (r, s') -> files s' !! job_path jid <> Some (DJob j) ->
  Forall (fun c => recovers c.2 = true) calls -> recovers c = true ->
  is_ok (run_mixed c (set_budget b (run_mixed_calls calls s'))).1 = false.
Proof using.
  intros Hno Hj Hids Hlen Hr Hne Hcalls Hc. apply (blocks_call jid c Hc (set_budget b (run_mixed_calls calls s'))).
  apply (stuck_calls jid); [exact Hcalls|]. by eapply update_stuck.
Qed.
End queue.
