(* ===== verification/TaskClaims.v ===== *)
(** * What the queue promises about tasks

    The record of a task stays the record of that task, with its job, its number, its name
    and every entry of its metadata; and a write of a task that stops half-way is settled
    by the next replay of the journal. *)

From S2P Require Import Prelude Sha256 Json Decimal Identifiers Models Store OrderIndex OrderIndexProofs JobIndex Events SchedulerCancel SchedulerCancelProofs.
From S2P Require Import LeaseRecords LeaseTransitions LeaseAdmission Recovery LeaseReplay OwnerSessions.
From S2P Require Import JobLifecycle JobFrames JobGuards JobSubmission JobSubmissionProofs JobClaims GatewayIndexes Gateways ExecutionCleanup Tasks.
From S2P Require Import EventsProofs QueueParts CleanupClaims GatewayClaims QueueBlocked.
From stdpp Require Import base list gmap strings sets.
From Stdlib Require Import ZArith Lia.
From Stdlib Require Ascii String.
Open Scope Z_scope.

(** ** The calls *)
Inductive task_call :=
  | CallAppendTask (t : RelayTask)
  | CallTaskState (tid : string) (st : JobState) (message : option string) (meta : option (list (string * json)))
  | CallTaskMetadata (tid : string) (meta : list (string * json))
  | CallGetTask (tid : string)
  | CallListTasks (jid : option string)
  | CallTasksPage (jid : string) (cursor limit : json)
  | CallScanTasks (jid : string) (limit : Z).

Definition any_call : Type := task_call + (cleanup_call + (gateway_call + queue_call)).

(** The call makes no new task under the identifier [tid]. *)
Definition spares_task (tid : string) (c : any_call) : Prop :=
  match c with inl (CallAppendTask t) => task_id t <> tid | _ => True end.

(** [t] goes on from [t0]: another state, newer metadata, the same task. *)
Definition continues (t0 t : RelayTask) : Prop :=
  task_job_id t = task_job_id t0 /\ task_sequence t = task_sequence t0 /\ task_name t = task_name t0 /\
  task_created_at t = task_created_at t0 /\
  forall k, is_Some (dict_get k (task_metadata t0)) -> is_Some (dict_get k (task_metadata t)).

Definition task_path (tid : string) : path := ["tasks"; json_name tid].
Definition lasting (tid : string) (t0 : RelayTask) (m : gmap path doc) : Prop :=
  exists t, m !! task_path tid = Some (DTask t) /\ continues t0 t.

Lemma dict_set_keeps (k k' : string) (v : json) d : is_Some (dict_get k' d) -> is_Some (dict_get k' (dict_set k v d)).
Proof. intros Hd. destruct (decide (k' = k)) as [->|]; [by rewrite dict_get_set_eq|by rewrite dict_get_set_ne]. Qed.
Lemma dict_update_keeps (d u : list (string * json)) k : is_Some (dict_get k d) -> is_Some (dict_get k (dict_update d u)).
Proof.
  unfold dict_update. revert d. induction u as [|[k' v] u IH]; intros d Hd; cbn; [done|]. by apply IH, dict_set_keeps.
Qed.

#[export] Instance quiet_tasks : Quiet ["tasks"].
Proof. intros x. unfold quiet_families. set_solver. Qed.

Lemma lasting_insert (tid : string) (t0 : RelayTask) (p : path) (x : doc) (m : gmap path doc) :
  default "" (head p) <> "tasks" -> lasting tid t0 m -> lasting tid t0 (<[p := x]> m).
Proof. intros Hp (t&Ht&Hc). exists t. split; [|done]. rewrite lookup_insert_ne; [done|]. by intros ->. Qed.
Lemma lasting_delete (tid : string) (t0 : RelayTask) (p : path) (m : gmap path doc) :
  default "" (head p) <> "tasks" -> lasting tid t0 m -> lasting tid t0 (delete p m).
Proof. intros Hp (t&Ht&Hc). exists t. split; [|done]. rewrite lookup_delete_ne; [done|]. by intros ->. Qed.
Lemma job_index_not_tasks f : f ∈ job_index_families -> f <> "tasks".
Proof. unfold job_index_families. set_solver. Qed.

#[export] Program Instance lasting_guarded tid t0 :
  Guarded (lasting tid t0) (fun _ => True) (fun _ => True) (fun _ => True) := {|
  guarded_families := ["tasks"];
|}.
Next Obligation.
  intros tid t0 m m' Hm (t&Ht&Hc). exists t. split; [|done]. rewrite Hm; [done|]. cbn. set_solver.
Qed.
Solve Obligations with done.
Next Obligation. intros tid t0 j m _. by apply lasting_insert. Qed.
Next Obligation. intros tid t0 f k x m Hf%job_index_not_tasks _. by apply lasting_insert. Qed.
Next Obligation. intros tid t0 f name m Hf%job_index_not_tasks. by apply lasting_delete. Qed.
Next Obligation. intros tid t0 name j m _ _ _. by apply lasting_insert. Qed.

Section calls.
Context `{World} `{!SubmissionParts} `{!IsoParser} `{!IsoTime}.

Definition run_task_call (c : task_call) : M disk unit :=
  match c with
  | CallAppendTask t => drop_result (append_task t)
  | CallTaskState tid st message meta => drop_result (update_task_state tid st message meta)
  | CallTaskMetadata tid meta => drop_result (update_task_metadata tid meta)
  | CallGetTask tid => drop_result (get_task tid)
  | CallListTasks jid => drop_result (list_tasks jid)
  | CallTasksPage jid cursor limit => drop_result (list_tasks_page jid cursor limit)
  | CallScanTasks jid limit => drop_result (scan_job_tasks jid limit)
  end.

Definition run_any (c : any_call) : M disk unit :=
  match c with inl t => run_task_call t | inr (inl c) => run_cleanup_call c | inr (inr c) => run_mixed c end.
Definition run_any_calls (calls : list (option nat * any_call)) (s : disk) : disk :=
  foldl (fun s c => (run_any c.2 (set_budget c.1 s)).2) s calls.

(** ** One task *)
Section lasting.
Context (tid : string) (t0 : RelayTask).
#[local] Abbreviation I := (lasting tid t0).
#[local] Abbreviation keeps m := (triple I m (fun _ => True)).
#[local] Abbreviation apart := (outside ["tasks"]).

Lemma read_task_lasts k :
  triple I (read_optional_task k) (fun o =>
    forall t, o = Some t -> task_id t = k /\ (k = tid -> continues t0 t)).
Proof using.
  intros s Hs. unfold read_optional_task, read_doc, mbind, M_bind.
  destruct (files s !! ["tasks"; json_name k]) as [x|] eqn:Hx; [|split; [done|by intros o [= <-]]].
  destruct (record_max_bytes _ <? _); [done|]. destruct x; try done.
  unfold ensure, lift. destruct (valid_task t); [|done]. cbn. case_bool_decide as Hid; [|done]. cbn.
  split; [done|]. intros o [= <-] t' [= <-]. split; [done|]. intros ->.
  destruct Hs as (t'&Ht&Hc). unfold task_path in Ht. rewrite Ht in Hx. by injection Hx as ->.
Qed.

Lemma marked_task_lasts k : triple I (marked_task k) (fun t => task_id t = k /\ (k = tid -> continues t0 t)).
Proof using.
  unfold marked_task. eapply triple_bind; [apply read_task_lasts|]. intros [t|] Ht; [|apply triple_raise].
  apply triple_ret. by apply Ht.
Qed.

Lemma task_of_job_lasts j k : triple I (task_of_job j k) (fun t => task_id t = k /\ (k = tid -> continues t0 t)).
Proof using.
  unfold task_of_job. eapply triple_bind; [apply marked_task_lasts|]. intros t Ht. step_triple. by apply triple_ret.
Qed.

Lemma keeps_task_doc t : (task_id t = tid -> continues t0 t) -> keeps (write_doc ["tasks"; json_name (task_id t)] (DTask t)).
Proof using.
  intros Ht. apply triple_write. intros m (t'&Ht'&Hc). destruct (decide (task_id t = tid)) as [He|He].
  - exists t. rewrite <- He. unfold task_path. rewrite lookup_insert_eq. auto.
  - exists t'. split; [|done]. rewrite lookup_insert_ne; [done|]. by intros [= ?%json_name_inj].
Qed.

Lemma keeps_write_task t : (task_id t = tid -> continues t0 t) -> keeps (write_task t).
Proof using.
  intros Ht. unfold write_task, _write_transition_intent_unlocked.
  eapply (triple_bind _ _ _ (fun p => apart p)).
  { step_triple. eapply (triple_bind _ _ _ (fun _ => True)); [apply keeps_frame; auto with touches|intros _ _].
    apply triple_ret. unfold outside. cbn. set_solver. }
  intros p Hp. eapply (triple_bind _ _ _ (fun _ => True)); [by apply keeps_task_doc|intros _ _].
  eapply (triple_bind _ _ _ (fun _ => True)); [apply keeps_frame; auto with touches|intros _ _].
  apply keeps_frame. auto with touches.
Qed.

Lemma metadata_continues t meta now : continues t0 t -> continues t0 (task_metadata_copy t (dict_update (task_metadata t) meta) now).
Proof using.
  intros (Hj&Hs&Hn&Hc&Hk). split_and!; [done..|]. intros k Hd. cbn. by apply dict_update_keeps, Hk.
Qed.

Lemma set_continues t k v now : continues t0 t -> continues t0 (task_metadata_copy t (dict_set k v (task_metadata t)) now).
Proof using.
  intros (Hj&Hs&Hn&Hc&Hk). split_and!; [done..|]. intros k' Hd. cbn. by apply dict_set_keeps, Hk.
Qed.

Lemma keeps_task_recovery : keeps _recover_pending_transitions_unlocked.
Proof using. apply (keeps_recover (G:=lasting_guarded tid t0)). Qed.
#[local] Hint Resolve keeps_task_recovery : keeps.

Lemma keeps_append_task t : task_id t <> tid -> keeps (append_task t).
Proof using.
  intros Hne. unfold append_task. do 4 keep_step.
  eapply (triple_bind _ _ _ (fun _ => True)); [apply keeps_frame; unfold _next_job_record_sequence_unlocked; frame|intros n _].
  eapply (triple_bind _ _ _ (fun _ => True)); [apply keeps_write_task; by intros He|intros _ _]. keep.
Qed.

Lemma keeps_task_state k st message meta : keeps (update_task_state k st message meta).
Proof using.
  unfold update_task_state. do 2 keep_step.
  eapply triple_bind; [apply marked_task_lasts|intros t [Hid Ht]]. keep_step.
  eapply (triple_bind _ _ _ (fun _ => True)); [|intros _ _; keep].
  apply keeps_write_task. cbn. intros He. rewrite <- Hid in Ht. destruct (Ht He) as (Hj&Hs&Hn&Hc&Hk).
  split_and!; [done..|]. intros k' Hd. cbn. by apply dict_update_keeps, Hk.
Qed.

Lemma keeps_task_metadata k meta : keeps (update_task_metadata k meta).
Proof using.
  unfold update_task_metadata. do 2 keep_step.
  eapply triple_bind; [apply marked_task_lasts|intros t [Hid Ht]]. keep_step.
  eapply (triple_bind _ _ _ (fun _ => True)); [|intros _ _; keep].
  apply keeps_write_task. intros He. apply metadata_continues, Ht. by rewrite <- Hid.
Qed.

(** Pages of ordered records only read. *)
Lemma keeps_ordered_page jid cursor limit : keeps (_read_ordered_job_page read_ordered_task jid "task" cursor limit "task_count").
Proof using.
  assert (Hl : forall n dir m acc, touches apart (ordered_loop read_ordered_task n dir m acc)).
  { induction n as [|n IH]; intros dir m acc; cbn [ordered_loop]; [auto with touches|].
    step_touches; [unfold read_ordered_task; frame|]. destruct a; [apply IH|auto with touches]. }
  apply keeps_frame. unfold _read_ordered_job_page. frame.
Qed.

Lemma keeps_task_call c : spares_task tid (inl c) -> keeps (run_task_call c).
Proof using.
  intros Hc. destruct c; cbn [run_task_call]; unfold drop_result;
    (eapply (triple_bind _ _ _ (fun _ => True)); [|intros ? _; by apply triple_ret]).
  - by apply keeps_append_task.
  - apply keeps_task_state.
  - apply keeps_task_metadata.
  - unfold get_task. keep_step. eapply triple_conseq; [apply marked_task_lasts|done].
  - unfold list_tasks, read_many_task, _job_index_exists. keep.
  - unfold list_tasks_page. do 2 keep_step. apply keeps_ordered_page.
  - unfold scan_job_tasks, _job_index_exists. keep.
Qed.

(** *** Changes of cleanup markers *)
Lemma keeps_within {A : Type} (F : list string) (m : M disk A) : bool_decide ("tasks" ∈ F) = false -> touches (within F) m -> keeps m.
Proof.
  intros HF%bool_decide_eq_false Hm. apply keeps_frame. eapply touches_weaken; [|exact Hm].
  intros p Hp Hin%list_elem_of_singleton. unfold within in Hp. by rewrite Hin in Hp.
Qed.

Lemma keeps_shard cluster j : keeps (migrate_job_shard cluster j).
Proof.
  apply (keeps_within cleanup_families); [reflexivity|]. unfold migrate_job_shard. step_touches; [apply touches_migrate_shard|auto with touches].
Qed.

Lemma keeps_parents p : within cleanup_families p -> keeps (mkdir_parents p).
Proof.
  intros Hp. apply (keeps_within cleanup_families); [reflexivity|]. apply touches_mkdir_parents.
  intros n Hn. apply take_within; [lia|done].
Qed.

Lemma keeps_marker q d : within cleanup_families q -> keeps (write_doc q d).
Proof. intros Hq. apply (keeps_within cleanup_families); [reflexivity|]. by apply touches_write. Qed.

Lemma keeps_copies t f : f <> "tasks" -> triple I (lift (job_record_path f (task_job_id t) (task_id t))) apart.
Proof.
  intros Hf. apply triple_lift. unfold job_record_path. intros q (x&_&(y&_&[= <-])%bind_ok)%bind_ok. unfold outside. cbn. set_solver.
Qed.

Lemma keeps_marked t : (task_id t = tid -> continues t0 t) -> keeps (write_marked_task t).
Proof.
  intros Ht. unfold write_marked_task. eapply (triple_bind _ _ _ (fun _ => True)); [by apply keeps_task_doc|intros _ _].
  eapply triple_bind; [by apply keeps_copies|intros q Hq].
  eapply (triple_bind _ _ _ (fun _ => True)); [apply keeps_frame; auto with touches|intros _ _].
  apply keeps_frame. step_touches; [unfold _write_ordered_job_record; frame|auto with touches].
Qed.

Lemma marker_path_within cluster j t q : _execution_cleanup_path cluster j t = Ok q -> within cleanup_families q.
Proof. intros [key ->]%marker_path_ok. by apply within_head. Qed.
Lemma job_dir_within cluster j q : _execution_cleanup_job_path cluster j = Ok q -> within cleanup_families q.
Proof. intros [key ->]%job_dir_ok. by apply within_head. Qed.
#[local] Hint Resolve keeps_shard keeps_parents keeps_marker keeps_marked marker_path_within job_dir_within metadata_continues set_continues : keeps.

Lemma keeps_register k meta : keeps (register_execution_cleanup k meta).
Proof.
  unfold register_execution_cleanup. keep_step. eapply triple_bind; [apply marked_task_lasts|intros t [Hid Ht]].
  rewrite <- Hid in Ht. keep.
Qed.

Lemma keeps_plan k j cleanup : keeps (migrate_execution_cleanup_plan j k cleanup).
Proof.
  unfold migrate_execution_cleanup_plan. do 2 keep_step. eapply triple_bind; [apply task_of_job_lasts|intros t [Hid Ht]].
  rewrite <- Hid in Ht. keep.
Qed.

Lemma keeps_stage j k role source quarantine : keeps (stage_execution_cleanup_sidecar j k role source quarantine).
Proof.
  unfold stage_execution_cleanup_sidecar. do 2 keep_step. eapply triple_bind; [apply task_of_job_lasts|intros t [Hid Ht]].
  rewrite <- Hid in Ht. keep.
Qed.

Lemma keeps_ack_cleanup j k meta : keeps (acknowledge_execution_cleanup j k meta).
Proof.
  unfold acknowledge_execution_cleanup. do 2 keep_step. eapply triple_bind; [apply task_of_job_lasts|intros t [Hid Ht]].
  rewrite <- Hid in Ht. do 3 keep_step. apply triple_bind with (fun q => exists key shard dir name, q = ["execution_cleanup_pending"; key; shard; dir; name]).
  { apply triple_lift. intros q [key ->]%marker_path_ok. by do 4 eexists. }
  intros q (key&shard&dir&name&->). eapply (triple_bind _ _ _ (fun _ => True)); [|intros _ _; keep].
  apply (keeps_within cleanup_families); [reflexivity|]. unfold drop_marker. cbn [removelast]. frame.
  apply touches_rmdir. by apply within_head.
Qed.

(** Scans change the shards and their cursor. *)
Lemma touches_scan_pending cluster z limit ds ms :
  Forall (within cleanup_families) ds -> touches (within cleanup_families) (scan_pending cluster z limit ds ms).
Proof.
  intros Hds. revert ms. induction Hds as [|q ds Hq Hds IH]; intros ms; cbn [scan_pending]; [auto with touches|].
  step_touches; [auto with touches|]. case_match; [apply IH|]. do 3 (step_touches; [auto with touches|]).
  step_touches; [eapply touches_weaken; [|apply touches_scan_markers]; done|]. case_match; [auto with touches|].
  step_touches; [frame; by apply touches_rmdir|apply IH].
Qed.

Lemma touches_scan_shard cluster z limit : touches (within cleanup_families) (_scan_execution_cleanup_shard_unlocked cluster z limit).
Proof.
  unfold _scan_execution_cleanup_shard_unlocked. step_touches; [apply touches_migrate_shard|].
  eapply touches_bind_ok; [auto with touches|eapply lift_returns; exact (shard_path_ok cluster z)|].
  intros dir [key ->]. eapply touches_bind_ok; [auto with touches|intros ???; apply glob_below|].
  intros ps Hps. step_touches; [|frame]. apply touches_scan_pending. eapply Forall_impl; [exact Hps|].
  intros p [name ->]. by apply within_head.
Qed.

Lemma touches_scan_shards cluster limit zs selected found :
  touches (within cleanup_families) (scan_shards cluster limit zs selected found).
Proof.
  revert selected found. induction zs as [|z zs IH]; intros selected found; cbn [scan_shards]; [auto with touches|].
  do 2 (step_touches; [auto with touches|]). case_match; [apply IH|].
  step_touches; [apply touches_scan_shard|]. case_match; [auto with touches|apply IH].
Qed.

Lemma keeps_scan_cleanup cluster limit : keeps (scan_execution_cleanup cluster limit).
Proof.
  unfold scan_execution_cleanup. do 2 keep_step. eapply (triple_bind _ _ _ (fun _ => True)); [keep|intros ? _].
  eapply (triple_bind _ _ _ (fun _ => True)).
  { apply (keeps_within cleanup_families); [reflexivity|]. apply touches_scan_shards. }
  intros [selected found] _. eapply (triple_bind _ _ _ (fun _ => True)); [keep|intros _ _].
  eapply (triple_bind _ _ _ (fun _ => True)); [|intros ? _; keep].
  apply keeps_frame. eapply touches_weaken; [|apply touches_any_shard]. done.
Qed.

(** *** Calls on gateways *)
Lemma touches_read_session k : touches apart (read_optional_gateway k).
Proof. unfold read_optional_gateway. frame. Qed.
#[local] Hint Resolve touches_read_session : touches.
Lemma touches_get_session k : touches apart (get_gateway_session k).
Proof. unfold get_gateway_session. frame. Qed.
Lemma touches_write_session g : touches apart (write_gateway_session g).
Proof.
  assert (Ho : forall f q, f <> "tasks" -> apart (f :: q)) by (intros f q Hf; unfold outside; cbn; set_solver).
  unfold write_gateway_session. apply (touches_bind_ok _ _ _ apart).
  - unfold _write_transition_intent_unlocked, intent_path. frame.
  - unfold _write_transition_intent_unlocked. intros s p s' (now&s1&_&Hr)%M_bind_ok.
    apply M_bind_ok in Hr as ([]&s2&_&Hr). injection Hr as <- _. by apply Ho.
  - intros p Hp. unfold gateway_path. step_touches; [apply touches_write; by apply Ho|frame].
Qed.
#[local] Hint Resolve touches_get_session touches_write_session : touches.

Lemma keeps_gateway_calls g : keeps (run_gateway_call g).
Proof.
  destruct g; cbn [run_gateway_call]; unfold drop_result;
    (eapply (triple_bind _ _ _ (fun _ => True)); [|intros ? _; by apply triple_ret]).
  - unfold create_gateway_session. keep.
  - apply keeps_frame. auto with touches.
  - unfold update_gateway_session. keep.
  - unfold prepare_gateway_teardown_intent. keep.
  - unfold close_gateway_session, update_gateway_session. keep.
  - unfold list_gateway_sessions. apply keeps_frame. frame.
  - apply keeps_frame, touches_page. auto with touches.
  - apply keeps_frame, touches_scan_order. auto with touches.
Qed.

Lemma keeps_any c : spares_task tid c -> keeps (run_any c).
Proof.
  destruct c as [t|[c|[g|q]]]; intros Hc; cbn [run_any]; [by apply keeps_task_call|..].
  - destruct c; cbn [run_cleanup_call]; unfold drop_result;
      try (eapply (triple_bind _ _ _ (fun _ => True)); [|intros ? _; by apply triple_ret]).
    + apply keeps_register.
    + apply keeps_ack_cleanup.
    + apply keeps_plan.
    + apply keeps_stage.
    + apply keeps_scan_cleanup.
    + apply (keeps_within cleanup_families); [reflexivity|apply touches_migrate_shard].
  - by apply keeps_gateway_calls.
  - cbn [run_mixed]. apply (keeps_run_call (G:=lasting_guarded tid t0)). intros j ->.
    apply (keeps_submit (G:=lasting_guarded tid t0)); [|done].
    intros k x. apply keeps_frame, touches_write. unfold outside. cbn. set_solver.
Qed.

Lemma lasting_calls calls s : Forall (fun c => spares_task tid c.2) calls -> I (files s) -> I (files (run_any_calls calls s)).
Proof.
  intros Hc. revert s. induction Hc as [|[b c] calls Hc _ IH]; intros s Hs; cbn; [done|].
  apply IH. by apply (keeps_any c Hc (set_budget b s)).
Qed.
End lasting.

(** ** The calls that return a task *)
Inductive returns_task (tid : string) (s : disk) (t : RelayTask) (s' : disk) : Prop :=
  | returns_append t0 : task_id t0 = tid -> append_task t0 s = (Ok t, s') -> returns_task tid s t s'
  | returns_state st message meta : update_task_state tid st message meta s = (Ok t, s') -> returns_task tid s t s'
  | returns_metadata meta : update_task_metadata tid meta s = (Ok t, s') -> returns_task tid s t s'
  | returns_get : get_task tid s = (Ok t, s') -> returns_task tid s t s'.

Lemma write_task_done t s u s' : write_task t s = (Ok u, s') -> files s' !! task_path (task_id t) = Some (DTask t).
Proof.
  unfold write_task. intros (p&s1&Hp&Hr)%M_bind_ok. destruct (intent_outcome _ _ _ _ _ Hp) as [[[=] _]|(at_&[= ->]&_&_)].
  apply M_bind_ok in Hr as ([]&s4&Hw%write_done&Hr). apply M_bind_ok in Hr as ([]&s5&Hs&Hu%unlink_done).
  assert (H5 : files s5 !! task_path (task_id t) = files s4 !! task_path (task_id t)).
  { pose proof (touches_task_derived ["tasks"] t s4 (task_path (task_id t))) as Hf. rewrite Hs in Hf. apply Hf.
    intros Hin. by apply Hin, list_elem_of_singleton. }
  rewrite Hu, lookup_delete_ne, H5, Hw by done. apply lookup_insert_eq.
Qed.

Lemma append_keeps_task jid type_ message payload s e s' tid :
  append_event jid type_ message payload s = (Ok e, s') -> files s' !! task_path tid = files s !! task_path tid.
Proof.
  intros Hr. pose proof (touches_append ["tasks"] jid type_ message payload s (task_path tid)) as Hf. rewrite Hr in Hf.
  apply Hf. intros Hin. by apply Hin, list_elem_of_singleton.
Qed.

Lemma read_task_found tid s o s' : read_optional_task tid s = (Ok o, s') ->
  s' = s /\ match o with
            | Some t => files s !! task_path tid = Some (DTask t) /\ task_id t = tid /\ valid_task t = true
            | None => files s !! task_path tid = None
            end.
Proof.
  unfold read_optional_task, read_doc, mbind, M_bind. change ["tasks"; json_name tid] with (task_path tid).
  destruct (files s !! task_path tid) as [d|]; [|by intros [= <- <-]].
  destruct (record_max_bytes _ <? _); [done|]. destruct d; try done. unfold ensure, lift.
  destruct (valid_task t) eqn:Hv; [|done]. cbn. case_bool_decide; [|done]. by intros [= <- <-].
Qed.

Lemma marked_task_found tid s t s' : marked_task tid s = (Ok t, s') ->
  task_id t = tid /\ files s' = files s /\ files s !! task_path tid = Some (DTask t).
Proof.
  unfold marked_task. intros (o&s1&[-> Ho]%read_task_found&Hr)%M_bind_ok.
  destruct o as [t'|]; [|done]. injection Hr as <- <-. by destruct Ho as (Hf&Hid&_).
Qed.

Lemma returned_stored tid s t s' : returns_task tid s t s' -> files s' !! task_path tid = Some (DTask t).
Proof.
  destruct 1 as [t0 <- Hr|st message meta Hr|meta Hr|Hr].
  - unfold append_task in Hr. do 5 apply M_bind_ok in Hr as (?&?&_&Hr). apply M_bind_ok in Hr as ([]&s1&Hw&Hr).
    apply M_bind_ok in Hr as (e&s2&He&Hr). injection Hr as <- <-.
    rewrite (append_keeps_task _ _ _ _ _ _ _ _ He). by apply write_task_done in Hw.
  - unfold update_task_state in Hr. apply M_bind_ok in Hr as (k&s1&Hk&Hr). injection Hk as [-> _]%require_id_ok <-.
    apply M_bind_ok in Hr as (?&?&_&Hr). apply M_bind_ok in Hr as (t1&s2&Ht%marked_task_id&Hr).
    apply M_bind_ok in Hr as (?&?&_&Hr). apply M_bind_ok in Hr as ([]&s3&Hw&Hr).
    apply M_bind_ok in Hr as (e&s4&He&Hr). injection Hr as <- <-.
    rewrite (append_keeps_task _ _ _ _ _ _ _ _ He). apply write_task_done in Hw. cbn in Hw. by rewrite Ht in Hw.
  - unfold update_task_metadata in Hr. apply M_bind_ok in Hr as (k&s1&Hk&Hr). injection Hk as [-> _]%require_id_ok <-.
    apply M_bind_ok in Hr as (?&?&_&Hr). apply M_bind_ok in Hr as (t1&s2&Ht%marked_task_id&Hr).
    apply M_bind_ok in Hr as (?&?&_&Hr). apply M_bind_ok in Hr as ([]&s3&Hw&Hr). injection Hr as <- <-.
    apply write_task_done in Hw. cbn in Hw. by rewrite Ht in Hw.
  - unfold get_task in Hr. apply M_bind_ok in Hr as (k&s1&Hk&Hr). injection Hk as [-> _]%require_id_ok <-.
    apply marked_task_found in Hr as (_&->&Hr). exact Hr.
Qed.

(** Nothing stops [append_task] from taking an identifier that is in use: it replaces the
    record of whatever task had it. *)
Lemma append_replaces_task (t t' : RelayTask) (s s' : disk) :
  append_task t s = (Ok t', s') ->
  files s' !! task_path (task_id t) = Some (DTask t') /\
  task_job_id t' = task_job_id t /\ task_name t' = task_name t /\ task_metadata t' = task_metadata t.
Proof.
  intros Hr. split; [by apply (returned_stored (task_id t) s t' s'), (returns_append _ _ _ _ t)|].
  unfold append_task in Hr. do 7 apply M_bind_ok in Hr as (?&?&_&Hr). by injection Hr as <- _.
Qed.

(** C15: The record of a task stays the record of that task as long as its identifier is not
    used again.  Once a call has returned a task, then after any history of calls on tasks,
    cleanups, gateways, jobs and leases, in any order, with any arguments and cut at any
    durable step, in which no [append_task] makes a task under the same identifier, the task
    is still there with its job, its number, its name and its time of creation, and every
    entry its metadata had still has a value.  [append_replaces_task] shows why such calls
    are left out; callers draw a new identifier for every task. *)
Theorem task_record_lasts (tid : string) (s s' : disk) (t : RelayTask) (calls : list (option nat * any_call)) :
  returns_task tid s t s' -> Forall (fun c => spares_task tid c.2) calls ->
  exists t', files (run_any_calls calls s') !! ["tasks"; json_name tid] = Some (DTask t') /\
    task_job_id t' = task_job_id t /\ task_sequence t' = task_sequence t /\ task_name t' = task_name t /\
    task_created_at t' = task_created_at t /\
    forall k, is_Some (dict_get k (task_metadata t)) -> is_Some (dict_get k (task_metadata t')).
Proof.
  intros Hr%returned_stored Hc. apply (lasting_calls tid t calls s' Hc). exists t. split; [exact Hr|by split_and!].
Qed.
End calls.

(** ** A write of a task and the replay of its announcement *)
Section writing.
Context `{World}.

(** The references of a source of scheduler jobs say what its metadata says: its manifest
    names exactly the identities of the metadata and is absent when there are none and no
    doubt, the protection of its job is there exactly when there is doubt, and every identity
    has its reverse reference.  Two identities with one digest would share that file. *)
Definition scheduler_ref (jid source sid : string) : doc :=
  DJson (JObj [("scheduler_id", JStr sid); ("job_id", JStr jid); ("source_id", JStr source)]).
Definition scheduler_synced (jid source : string) (meta : list (string * json)) (m : gmap path doc) : Prop :=
  exists ids ambiguous, _metadata_scheduler_gc_state meta = Ok (ids, ambiguous) /\
    let file := json_name (_stable_ref_token [source]) in
    m !! ["scheduler_refs_by_job"; jid; file] =
      (if bool_decide (ids <> ∅) || ambiguous then
         Some (DJson (JObj [("job_id", JStr jid); ("source_id", JStr source);
                            ("scheduler_ids", JList (JStr <$> sort_by str_leb (elements ids)));
                            ("ambiguous", JBool ambiguous)]))
       else None) /\
    m !! ["scheduler_protections_by_job"; jid; file] =
      (if ambiguous : bool then
         Some (DJson (JObj [("job_id", JStr jid); ("source_id", JStr source); ("ambiguous", JBool true)]))
       else None) /\
    forall sid, sid ∈ ids -> exists other, other ∈ ids /\
      _scheduler_reverse_ref_path other jid source = _scheduler_reverse_ref_path sid jid source /\
      m !! _scheduler_reverse_ref_path sid jid source = Some (scheduler_ref jid source other).

(** Every file that follows from a task says what its record says. *)
Definition task_synced (t : RelayTask) (m : gmap path doc) : Prop :=
  m !! task_path (task_id t) = Some (DTask t) /\
  m !! ["tasks_by_job"; task_job_id t; json_name (task_id t)] = Some (DTask t) /\
  (forall n, task_sequence t = Some n ->
     m !! seq_path (order_by_job "task" (task_job_id t)) n = Some (DTask t) /\
     exists index c, m !! job_index_path (task_job_id t) = Some (DJson (JObj index)) /\
       index_integer index "task_count" = Ok c /\ n <= c) /\
  m !! ["active_tasks_by_job"; task_job_id t; json_name (task_id t)] =
    (if is_terminal (task_state t) then None else Some (DTask t)) /\
  scheduler_synced (task_job_id t) ("task:" +:+ task_id t) (task_metadata t) m.

Definition sync_families : list string :=
  ["job_indexes"; "tasks_by_job"; "task_order_by_job"; "active_tasks_by_job"] ++ gateway_families.

Lemma record_path_is f a b p : job_record_path f a b = Ok p -> p = [f; a; json_name b].
Proof. unfold job_record_path. by intros (x&[-> _]%require_id_ok&(y&[-> _]%require_id_ok&[= <-])%bind_ok)%bind_ok. Qed.

Lemma touches_retention_within t : touches (within sync_families) (_sync_task_retention_indexes_unlocked t).
Proof.
  unfold _sync_task_retention_indexes_unlocked. apply touches_record_path; [set_solver|intros q Hq].
  step_touches; [destruct (is_terminal _); [by apply touches_unlink|by apply touches_write]|].
  eapply touches_weaken; [|apply touches_scheduler_source]. intros x. unfold within, sync_families. set_solver.
Qed.

Lemma read_index_only jid : readonly (read_job_index jid).
Proof.
  unfold readonly, read_job_index. step_touches; [auto with touches|]. step_touches; [|frame].
  intros s p Hp. unfold rewrap. pose proof (touches_json (fun _ => False) (job_index_path a) s p Hp) as Hf.
  by destruct (read_json_document _ s) as [[x|[]] s1].
Qed.

Lemma touches_task_sync t : touches (within sync_families) (_sync_task_derived_unlocked t).
Proof.
  unfold _sync_task_derived_unlocked, _initialize_job_index_unlocked, job_index_path. step_touches; [frame|].
  apply touches_record_path; [set_solver|intros q Hq]. step_touches; [by apply touches_write|].
  step_touches; [|apply touches_retention_within]. destruct (task_sequence t) as [n|]; [|auto with touches].
  step_touches; [unfold _write_ordered_job_record, order_by_job; frame|].
  assert (Hr : forall jid, touches (within sync_families) (read_job_index jid)).
  { intros jid. eapply touches_weaken; [|apply read_index_only]. done. }
  unfold _update_job_index_unlocked, job_index_path. frame.
Qed.

(** The document of the index, when it was read. *)
Lemma read_index_found jid s o s' : read_job_index jid s = (Ok o, s') ->
  s' = s /\ match o with
            | Some index => files s !! job_index_path jid = Some (DJson (JObj index))
            | None => files s !! job_index_path jid = None
            end.
Proof.
  unfold read_job_index. intros (k&s1&Hk&Hr)%M_bind_ok. injection Hk as [-> _]%require_id_ok <-.
  apply M_bind_ok in Hr as (raw&s1&Hw&Hr).
  assert (Hd : read_json_document (job_index_path jid) s = (Ok raw, s1)).
  { unfold rewrap in Hw. destruct (read_json_document (job_index_path jid) s) as [[x|[]] s2]; first [exact Hw|done]. }
  clear Hw. unfold read_json_document, read_doc, mbind, M_bind in Hd.
  destruct (files s !! job_index_path jid) as [d|].
  - destruct (record_max_bytes _ <? _); [done|]. destruct d; try done. injection Hd as <- <-.
    apply M_bind_ok in Hr as (index&s3&Hi&Hr). injection Hr as <- <-. injection Hi as Hi <-.
    destruct v; try done. apply decode_job_index_ok in Hi as [-> _]. done.
  - injection Hd as <- <-. by injection Hr as <- <-.
Qed.

Lemma initialize_done jid s u s' : _initialize_job_index_unlocked jid s = (Ok u, s') -> is_Some (files s' !! job_index_path jid).
Proof.
  unfold _initialize_job_index_unlocked. intros (k&s1&Hk&Hr)%M_bind_ok. injection Hk as [-> _]%require_id_ok <-.
  apply M_bind_ok in Hr as (b&s2&Hb&Hr). unfold path_exists in Hb. injection Hb as <- <-.
  case_bool_decide as He; [by injection Hr as _ <-|]. apply write_done in Hr. rewrite Hr, lookup_insert_eq. by eexists.
Qed.

(** The ordered copy and the count. *)
Definition numbered (t : RelayTask) (m : gmap path doc) : Prop :=
  forall n, task_sequence t = Some n ->
    m !! seq_path (order_by_job "task" (task_job_id t)) n = Some (DTask t) /\
    exists index c, m !! job_index_path (task_job_id t) = Some (DJson (JObj index)) /\
      index_integer index "task_count" = Ok c /\ n <= c.

Lemma ordered_done t n s u s' :
  task_sequence t = Some n -> is_Some (files s !! job_index_path (task_job_id t)) ->
  (_ ← _write_ordered_job_record "task" (task_job_id t) n (DTask t);
   index ← read_job_index (task_job_id t);
   match index with
   | None => mret tt
   | Some index =>
       count ← lift (index_integer index "task_count");
       if count <? n then _update_job_index_unlocked (task_job_id t) [("task_count", JInt n)] else mret tt
   end) s = (Ok u, s') -> valid_task t = true ->
  numbered t (files s') /\
  forall q, default "" (head q) ∉ ["task_order_by_job"; "job_indexes"] -> files s' !! q = files s !! q.
Proof.
  intros Hn Hix Hr Hv. apply M_bind_ok in Hr as (?&s1&Hw&Hr).
  unfold _write_ordered_job_record in Hw. apply M_bind_ok in Hw as (k&s2&Hk&Hw). injection Hk as [-> _]%require_id_ok <-.
  apply write_done in Hw. apply M_bind_ok in Hr as (o&s3&Ho&Hr). apply read_index_found in Ho as [-> Ho].
  set (p := seq_path (order_by_job "task" (task_job_id t)) n) in *.
  assert (Hp1 : files s1 !! p = Some (DTask t)) by (by rewrite Hw, lookup_insert_eq).
  assert (Hsame : forall q, default "" (head q) ∉ ["task_order_by_job"; "job_indexes"] -> files s1 !! q = files s !! q).
  { intros q Hq. rewrite Hw. apply lookup_insert_ne. intros <-. apply Hq. cbn. left. }
  destruct o as [index|].
  2:{ exfalso. rewrite Hw, lookup_insert_ne in Ho by done. rewrite Ho in Hix. by destruct Hix. }
  apply M_bind_ok in Hr as (c&s4&Hc&Hr). injection Hc as Hc <-. destruct (Z.ltb_spec c n).
  - unfold _update_job_index_unlocked in Hr. apply M_bind_ok in Hr as (o&s5&Ho'&Hr).
    apply read_index_found in Ho' as [-> Ho']. destruct o as [index'|]; [|by rewrite Ho' in Ho].
    apply write_done in Hr. split.
    + intros n' [= <-]%(eq_trans (eq_sym Hn)). rewrite Hr. split; [by rewrite lookup_insert_ne|].
      exists (dict_update index' [("task_count", JInt n)]), n. rewrite lookup_insert_eq. split_and!; [done| |lia].
      unfold dict_update. cbn [foldl fst snd]. unfold index_integer. rewrite dict_get_set_eq.
      assert (1 <= n) by (unfold valid_task in Hv; rewrite Hn in Hv; cbn in Hv; lia).
      by rewrite (proj2 (Z.ltb_ge _ _)) by lia.
    + intros q Hq. rewrite Hr, lookup_insert_ne; [by apply Hsame|]. intros <-. apply Hq. cbn. right. left.
  - injection Hr as _ <-. split; [|exact Hsame]. intros n' [= <-]%(eq_trans (eq_sym Hn)). split; [exact Hp1|].
    exists index, c. by split_and!.
Qed.

(** What every round of a loop leaves is there at the end, when later rounds keep it. *)
Lemma for_each_done {A : Type} (f : A -> M disk unit) (l : list A) (J : A -> gmap path doc -> Prop) s u s' :
  for_each f l s = (Ok u, s') ->
  (forall x s1 s2, x ∈ l -> f x s1 = (Ok tt, s2) -> J x (files s2)) ->
  (forall x y s1 s2, x ∈ l -> y ∈ l -> J x (files s1) -> f y s1 = (Ok tt, s2) -> J x (files s2)) ->
  forall x, x ∈ l -> J x (files s').
Proof.
  intros Hr Hset Hkeep x Hx. revert s Hr. assert (Hl : forall y, y ∈ l -> y ∈ l) by done. revert Hl Hx.
  generalize l at 1 3 4. intros l'.
  assert (Hrest : forall rest s, (forall y, y ∈ rest -> y ∈ l) -> x ∈ l -> J x (files s) -> for_each f rest s = (Ok u, s') -> J x (files s')).
  { induction rest as [|y rest IH]; intros s Hrest Hx Hj Hr; cbn in Hr; [by injection Hr as _ <-|].
    apply M_bind_ok in Hr as ([]&s1&Hy&Hr). apply (IH s1); [|done| |exact Hr].
    - intros z Hz. apply Hrest. by right.
    - apply (Hkeep x y s s1); [done|apply Hrest; by left|done|exact Hy]. }
  induction l' as [|y l' IH]; intros Hl Hx s Hr; [by apply elem_of_nil in Hx|]. cbn in Hr.
  apply M_bind_ok in Hr as ([]&s1&Hy&Hr). apply elem_of_cons in Hx as [->|Hx].
  - apply (Hrest l' s1); [|by apply Hl; left| |exact Hr]; [intros z Hz; apply Hl; by right|].
    apply (Hset y s s1); [apply Hl; by left|exact Hy].
  - apply (IH (fun z Hz => Hl z (list_elem_of_further _ _ _ Hz)) Hx s1 Hr).
Qed.

Definition tie_families : list string := ["active_gateway_refs_by_job"; "active_gateway_refs_by_session"].
Lemma touches_add_ties jid source sid :
  touches (within tie_families) (for_scheduler_gateways sid (fun g =>
    if bool_decide (gw_state g = GatewaySessionState.CLOSED) then mret tt
    else _link_active_gateway_job_unlocked g jid "scheduler" sid (Some source))).
Proof.
  unfold for_scheduler_gateways. eapply touches_bind_ok;
    [auto with touches|eapply lift_returns; exact (reverse_directory_ok "scheduler" sid)|]. intros dir [Hdir _].
  apply touches_record_loop; [done|]. intros name. unfold read_gateway_file, _link_active_gateway_job_unlocked, job_ref_path, backlink_dir. frame.
Qed.

(** Adding an identity writes its reverse reference and nothing else below scheduler jobs. *)
Lemma add_scheduler_done jid source sid s s' :
  add_scheduler_id jid source sid s = (Ok tt, s') ->
  forall q, ~ within tie_families q ->
    files s' !! q = <[_scheduler_reverse_ref_path sid jid source := scheduler_ref jid source sid]> (files s) !! q.
Proof.
  unfold add_scheduler_id. intros ([]&s1&Hw%write_done&Hr)%M_bind_ok q Hq.
  rewrite (touches_after _ _ _ _ _ q (touches_add_ties jid source sid) Hr Hq). by rewrite Hw.
Qed.

Lemma reverse_refs_done jid source ids s u s' :
  for_each (add_scheduler_id jid source) (set_order ids) s = (Ok u, s') ->
  forall sid, sid ∈ ids -> exists other, other ∈ ids /\
    _scheduler_reverse_ref_path other jid source = _scheduler_reverse_ref_path sid jid source /\
    files s' !! _scheduler_reverse_ref_path sid jid source = Some (scheduler_ref jid source other).
Proof.
  intros Hr sid Hsid. assert (Hin : forall x, x ∈ set_order ids <-> x ∈ ids).
  { intros x. unfold set_order. by rewrite scandir_perm, elem_of_elements. }
  set (J := fun x (m : gmap path doc) => exists other, other ∈ ids /\
    _scheduler_reverse_ref_path other jid source = _scheduler_reverse_ref_path x jid source /\
    m !! _scheduler_reverse_ref_path x jid source = Some (scheduler_ref jid source other)).
  assert (Hnt : forall x, ~ within tie_families (_scheduler_reverse_ref_path x jid source)).
  { intros x. by apply not_within. }
  apply (for_each_done _ _ J s u s' Hr); [| |by apply Hin].
  - intros x s1 s2 Hx Hs. exists x. split_and!; [by apply Hin|done|].
    rewrite (add_scheduler_done _ _ _ _ _ Hs) by apply Hnt. apply lookup_insert_eq.
  - intros x y s1 s2 Hx Hy (o&Ho&Hp&Hl) Hs.
    destruct (decide (_scheduler_reverse_ref_path y jid source = _scheduler_reverse_ref_path x jid source)) as [He|He].
    + exists y. split_and!; [by apply Hin|done|].
      rewrite (add_scheduler_done _ _ _ _ _ Hs) by apply Hnt. rewrite He. apply lookup_insert_eq.
    + exists o. split_and!; [done..|]. rewrite (add_scheduler_done _ _ _ _ _ Hs) by apply Hnt. by rewrite lookup_insert_ne.
Qed.

(** The write of a file, or its removal. *)
Lemma write_or_unlink_done (b : bool) p d s u s' :
  (if b then write_doc p d else unlink_durable_path p) s = (Ok u, s') ->
  files s' !! p = (if b then Some d else None) /\ forall q, q <> p -> files s' !! q = files s !! q.
Proof.
  destruct b.
  - intros Ha%write_done. rewrite Ha. split; [apply lookup_insert_eq|]. intros q Hq. by apply lookup_insert_ne.
  - intros Ha%unlink_done. rewrite Ha. split; [apply lookup_delete_eq|]. intros q Hq. by apply lookup_delete_ne.
Qed.

Lemma scheduler_source_done jid source meta s u s' :
  sync_scheduler_source jid source meta s = (Ok u, s') -> scheduler_synced jid source meta (files s').
Proof.
  unfold sync_scheduler_source. intros ([ids ambiguous]&s1&Hst&Hr)%M_bind_ok. injection Hst as Hst <-.
  apply M_bind_ok in Hr as (p&s1&Hp&Hr). injection Hp as ->%record_path_is <-.
  apply M_bind_ok in Hr as (p&s1&Hp&Hr). injection Hp as ->%record_path_is <-.
  apply M_bind_ok in Hr as (raw&s1&_&Hr). apply M_bind_ok in Hr as (old&s2&_&Hr). apply M_bind_ok in Hr as ([]&s3&_&Hr).
  apply M_bind_ok in Hr as ([]&s4&[Hm Hms]%write_or_unlink_done&Hr).
  apply M_bind_ok in Hr as ([]&s5&[Hq Hqs]%write_or_unlink_done&Hr).
  assert (Hkeep : forall q, default "" (head q) ∉ "scheduler_jobs" :: tie_families -> files s' !! q = files s5 !! q).
  { intros q Hn. apply (touches_after (within ("scheduler_jobs" :: tie_families)) _ _ _ _ q) with (2 := Hr); [|exact Hn]. apply touches_for_each. intros sid _. unfold add_scheduler_id.
    step_touches; [apply touches_write; unfold within; by left|].
    eapply touches_weaken; [|apply touches_add_ties]. intros x Hx. by right. }
  exists ids, ambiguous. split; [done|]. cbv zeta. split_and!.
  - rewrite Hkeep by (apply (bool_decide_eq_false _); reflexivity). rewrite Hqs by done. exact Hm.
  - rewrite Hkeep by (apply (bool_decide_eq_false _); reflexivity). exact Hq.
  - exact (reverse_refs_done jid source ids s5 u s' Hr).
Qed.

Lemma retention_done t s u s' :
  _sync_task_retention_indexes_unlocked t s = (Ok u, s') ->
  files s' !! ["active_tasks_by_job"; task_job_id t; json_name (task_id t)] =
    (if is_terminal (task_state t) then None else Some (DTask t)) /\
  scheduler_synced (task_job_id t) ("task:" +:+ task_id t) (task_metadata t) (files s') /\
  forall q, default "" (head q) ∉ "active_tasks_by_job" :: gateway_families -> files s' !! q = files s !! q.
Proof.
  unfold _sync_task_retention_indexes_unlocked. intros (p&s1&Hp&Hr)%M_bind_ok. injection Hp as ->%record_path_is <-.
  set (p := ["active_tasks_by_job"; task_job_id t; json_name (task_id t)]).
  apply M_bind_ok in Hr as ([]&s2&Ha&Hs).
  assert (H2 : files s2 !! p = (if is_terminal (task_state t) then None else Some (DTask t)) /\
               forall q, q <> p -> files s2 !! q = files s !! q).
  { destruct (is_terminal (task_state t)).
    - apply unlink_done in Ha. rewrite Ha. split; [apply lookup_delete_eq|]. intros q Hq. by apply lookup_delete_ne.
    - apply write_done in Ha. rewrite Ha. split; [apply lookup_insert_eq|]. intros q Hq. by apply lookup_insert_ne. }
  destruct H2 as [H2 Hsame]. assert (Hf : forall q, ~ within gateway_families q -> files s' !! q = files s2 !! q).
  { intros q Hq. eapply touches_after; [apply touches_scheduler_source|exact Hs|exact Hq]. }
  split; [rewrite Hf; [exact H2|by apply not_within]|]. split; [by apply scheduler_source_done in Hs|].
  intros q Hq. rewrite not_elem_of_cons in Hq. destruct Hq as [Hh Hg]. rewrite Hf by exact Hg. apply Hsame. intros ->. by apply Hh.
Qed.

Lemma sync_done t s u s' :
  _sync_task_derived_unlocked t s = (Ok u, s') -> valid_task t = true -> files s !! task_path (task_id t) = Some (DTask t) ->
  task_synced t (files s').
Proof.
  intros Hr Hv Ht. unfold _sync_task_derived_unlocked in Hr. apply M_bind_ok in Hr as ([]&s1&Hi&Hr).
  assert (H1 : forall q, default "" (head q) <> "job_indexes" -> files s1 !! q = files s !! q).
  { intros q Hq. eapply (touches_after (within ["job_indexes"])); [|exact Hi|by intros Hin%list_elem_of_singleton].
    unfold _initialize_job_index_unlocked, job_index_path. frame. }
  apply initialize_done in Hi. apply M_bind_ok in Hr as (p&s2&Hp&Hr). injection Hp as ->%record_path_is <-.
  apply M_bind_ok in Hr as ([]&s2&Hw%write_done&Hr). apply M_bind_ok in Hr as ([]&s3&Ho&Hr).
  set (p := ["tasks_by_job"; task_job_id t; json_name (task_id t)]) in *.
  assert (H3 : numbered t (files s3) /\ forall q, default "" (head q) ∉ ["task_order_by_job"; "job_indexes"] -> files s3 !! q = files s2 !! q).
  { destruct (task_sequence t) as [n|] eqn:Hn.
    - apply (ordered_done t n s2 tt s3 Hn); [|exact Ho|exact Hv]. rewrite Hw, lookup_insert_ne by done. exact Hi.
    - injection Ho as <-. split; [|done]. intros n Hn'. by rewrite Hn in Hn'. }
  destruct H3 as [Hnum H3]. apply retention_done in Hr as (Ha&Hsch&H4). unfold task_synced.
  assert (Hnin : forall f q, bool_decide (f ∈ "active_tasks_by_job" :: gateway_families) = false -> files s' !! (f :: q) = files s3 !! (f :: q)).
  { intros f q Hf%bool_decide_eq_false. by apply H4. }
  split_and!; [| | |exact Ha|exact Hsch].
  - unfold task_path. rewrite Hnin by reflexivity. rewrite H3 by (cbn; set_solver). rewrite Hw, lookup_insert_ne by done. rewrite H1 by done. exact Ht.
  - rewrite Hnin by reflexivity. rewrite H3 by (cbn; set_solver). rewrite Hw. apply lookup_insert_eq.
  - intros n Hn. destruct (Hnum n Hn) as (Ho'&index&c&Hx&Hc). unfold seq_path, order_by_job, job_index_path in *. cbn [app] in *.
    split; [by rewrite Hnin|]. exists index, c. by rewrite Hnin.
Qed.

(** ** The replay of an announcement *)
Lemma synced_delete t name m : task_synced t m -> task_synced t (delete ["transition_intents"; name] m).
Proof.
  intros (Ht&Hb&Hn&Ha&ids&ambiguous&Hst&Hm&Hp&Hrefs). split_and!.
  - unfold task_path. by rewrite lookup_delete_ne.
  - by rewrite lookup_delete_ne.
  - intros n Hs. destruct (Hn n Hs) as (Ho&index&c&Hi&Hc). split; [by rewrite lookup_delete_ne|].
    exists index, c. unfold job_index_path. by rewrite lookup_delete_ne.
  - by rewrite lookup_delete_ne.
  - exists ids, ambiguous. split; [exact Hst|]. cbv zeta. split_and!.
    + rewrite lookup_delete_ne by done. exact Hm.
    + rewrite lookup_delete_ne by done. exact Hp.
    + intros sid Hsid. destruct (Hrefs sid Hsid) as (o&Ho&He&Hl). exists o. split_and!; [done..|].
      rewrite lookup_delete_ne by (unfold _scheduler_reverse_ref_path, _gateway_scheduler_jobs_directory; discriminate). exact Hl.
Qed.

Lemma replay_done t at_ p s u s' :
  only_intent p (mkIntent (task_id t) at_ (TaskSyncIntent (task_job_id t) (task_id t))) (files s) ->
  fits p (DIntent (mkIntent (task_id t) at_ (TaskSyncIntent (task_job_id t) (task_id t)))) ->
  _recover_pending_transitions_unlocked s = (Ok u, s') ->
  no_intents (files s') /\
  match files s !! task_path (task_id t) with
  | None => files s' = delete p (files s)
  | Some d => exists t', d = DTask t' /\ task_synced t' (files s')
  end.
Proof.
  intros Hp Hf Hr. unfold _recover_pending_transitions_unlocked in Hr. rewrite (reconcile_one _ _ _ Hp Hf) in Hr.
  apply M_bind_ok in Hr as (v&s1&Hr&Hret). injection Hret as _ <-. unfold replay_intent, replay_task_sync in Hr. cbn [fst snd intent_body] in Hr.
  apply M_bind_ok in Hr as (?&s2&He&Hr). injection He as _ <-. apply M_bind_ok in Hr as (o&s2&Ho&Hr).
  apply M_bind_ok in Hr as ([]&s3&Hs&Hu%unlink_done). destruct Hp as [[stem Hstem] Hpp Honly].
  assert (Hno : forall s0 : disk, (forall q, default "" (head q) = "transition_intents" -> files s0 !! q = files s !! q) ->
    files s1 = delete p (files s0) -> no_intents (files s1)).
  { intros s0 Hs0 Hd name. rewrite Hd. destruct (decide (["transition_intents"; name] = p)) as [<-|Hne]; [apply lookup_delete_eq|].
    rewrite lookup_delete_ne, Hs0 by done. apply eq_None_not_Some. intros Hx. by apply Hne, Honly. }
  apply read_task_found in Ho as [-> Hread]. destruct o as [t'|].
  - destruct Hread as (Ht'&Hid&Hv). rewrite Ht'. split.
    + apply (Hno s3); [|exact Hu]. intros q Hq.
      eapply touches_after; [apply touches_task_sync|exact Hs|]. unfold within. rewrite Hq. by apply (bool_decide_eq_false _).
    + exists t'. split; [done|]. rewrite Hu, Hstem. apply synced_delete. apply (sync_done t' s tt s3 Hs Hv). by rewrite Hid.
  - injection Hs as <-. rewrite Hread. split; [by apply (Hno s)|exact Hu].
Qed.

Lemma only_intent_frame (p : path) (i : TransitionIntent) (m m' : gmap path doc) :
  (forall q, default "" (head q) = "transition_intents" -> m' !! q = m !! q) -> only_intent p i m -> only_intent p i m'.
Proof.
  intros Hm [[stem ->] Hp Ho]. split; [by exists stem|by rewrite Hm|]. intros name. rewrite Hm by done. apply Ho.
Qed.
Lemma announced (kind identity : string) (i : TransitionIntent) (m : gmap path doc) :
  no_intents m -> only_intent (intent_path kind identity) i (<[intent_path kind identity := DIntent i]> m).
Proof.
  intros Hno. split; [apply intent_path_name|apply lookup_insert_eq|]. intros name Hx.
  destruct (decide (["transition_intents"; name] = intent_path kind identity)) as [|Hne]; [done|].
  rewrite lookup_insert_ne, Hno in Hx by congruence. by destruct Hx.
Qed.

(** What the write leaves: nothing, an announcement without the record, the record with its
    announcement, or everything. *)
Lemma write_task_cases t s r s1 :
  no_intents (files s) -> valid_task t = true -> write_task t s = (r, s1) ->
  let p := intent_path "task_sync" (task_id t) in
  let intent at_ := mkIntent (task_id t) at_ (TaskSyncIntent (task_job_id t) (task_id t)) in
  is_ok r = false /\ files s1 = files s \/
  (exists at_, fits p (DIntent (intent at_)) /\ only_intent p (intent at_) (files s1) /\ is_ok r = false /\
     (files s1 = <[p := DIntent (intent at_)]> (files s) \/ files s1 !! task_path (task_id t) = Some (DTask t))) \/
  no_intents (files s1) /\ task_synced t (files s1).
Proof.
  intros Hno Hv Hr. cbv zeta. unfold write_task in Hr. apply bind_any in Hr as [(e&->&Hr)|(q&s2&Hp&Hr)].
  { left. destruct (intent_outcome _ _ _ _ _ Hr) as [[_ Hs]|(at_&[=]&_)]. by split. }
  destruct (intent_outcome _ _ _ _ _ Hp) as [[[=] _]|(at_&[= ->]&Hf&H2)]. cbn [intent_kind] in Hf, H2, Hr.
  set (p := intent_path "task_sync" (task_id t)) in *. right.
  assert (Hpt : default "" (head p) <> "tasks") by discriminate.
  pose proof (announced "task_sync" (task_id t) (mkIntent (task_id t) at_ (TaskSyncIntent (task_job_id t) (task_id t))) (files s) Hno) as Hon.
  fold p in Hon. rewrite <- H2 in Hon. apply bind_any in Hr as [(e&->&Hr)|([]&s3&Hw&Hr)].
  { left. exists at_. apply write_outcome in Hr as [[_ Hs]|([=]&_)]. rewrite Hs. split_and!; [exact Hf|exact Hon|done|]. by left. }
  apply write_done in Hw. assert (H3 : files s3 !! task_path (task_id t) = Some (DTask t)) by (rewrite Hw; apply lookup_insert_eq).
  assert (Hsync : forall r' s4, _sync_task_derived_unlocked t s3 = (r', s4) ->
    only_intent p (mkIntent (task_id t) at_ (TaskSyncIntent (task_job_id t) (task_id t))) (files s4) /\
    files s4 !! task_path (task_id t) = Some (DTask t)).
  { intros r' s4 Hs. assert (Hq : forall q, ~ within sync_families q -> files s4 !! q = files s3 !! q).
    { intros q Hq. eapply touches_after; [apply touches_task_sync|exact Hs|exact Hq]. }
    split; [|rewrite Hq; [exact H3|by apply not_within]]. eapply only_intent_frame; [|exact Hon]. intros q Hh.
    rewrite Hq, Hw, lookup_insert_ne; [done| |]; [intros <-; discriminate|]. unfold within. rewrite Hh. by apply (bool_decide_eq_false _). }
  apply bind_any in Hr as [(e&->&Hr)|([]&s4&Hs&Hr)].
  { left. exists at_. destruct (Hsync _ _ Hr) as [Ho Ht]. split_and!; [exact Hf|exact Ho|done|by right]. }
  destruct (Hsync _ _ Hs) as [Ho Ht]. unfold unlink_durable_path, durable in Hr.
  assert (Hend : files s1 = files s4 /\ is_ok r = false \/ files s1 = delete p (files s4)).
  { destruct (budget s4) as [[|n]|]; injection Hr as <- <-; auto. }
  destruct Hend as [[Hend Hok]|Hend].
  - left. exists at_. rewrite Hend. split_and!; [exact Hf|exact Ho|done|by right].
  - right. rewrite Hend. split.
    + intros name. destruct (decide (["transition_intents"; name] = p)) as [->|Hne]; [apply lookup_delete_eq|].
      rewrite lookup_delete_ne by done. destruct Ho as [_ _ Ho]. apply eq_None_not_Some. intros Hx. by apply Hne, Ho.
    + apply synced_delete. by eapply sync_done.
Qed.

(** C16: A write of a task that stops half-way is settled by the next replay of the journal.
    Take a store without pending announcements, write a task, and stop the write anywhere;
    when the journal is replayed after that, nothing is pending any more, and the store is
    as it was before the write, or the record of the task, the old or the new one, agrees
    with the files that follow from it: the copy below its job, the numbered copy, the
    count of the job's tasks, the entry of active tasks, and, for the scheduler jobs its
    metadata names, the manifest, the protection and the reverse references.  A write that
    returned leaves the new record.  The ties of gateways that run in those scheduler jobs
    are not part of the statement. *)
Theorem interrupted_task_write_settles (t : RelayTask) (s s1 s2 : disk) (r : result unit) (b : option nat) :
  no_intents (files s) -> valid_task t = true -> write_task t s = (r, s1) ->
  _recover_pending_transitions_unlocked (set_budget b s1) = (Ok tt, s2) ->
  no_intents (files s2) /\
  (is_ok r = true -> task_synced t (files s2)) /\
  (files s2 = files s \/
   exists t', (t' = t \/ files s !! ["tasks"; json_name (task_id t)] = Some (DTask t')) /\ task_synced t' (files s2)).
Proof.
  intros Hno Hv Hw Hr. apply (write_task_cases t s r s1 Hno Hv) in Hw as [[Hok Hs]|[(at_&Hf&Ho&Hok&Hc)|[Hn Hsy]]].
  - unfold _recover_pending_transitions_unlocked in Hr. rewrite reconcile_none in Hr by (cbn; by rewrite Hs).
    injection Hr as <-. cbn. rewrite Hs. rewrite Hok. split_and!; [done|done|by left].
  - destruct (replay_done t at_ _ (set_budget b s1) _ _ Ho Hf Hr) as [Hn Hd]. cbn [files set_budget] in Hd.
    rewrite Hok. split_and!; [exact Hn|done|]. destruct Hc as [Hc|Hc].
    + rewrite Hc, lookup_insert_ne in Hd by discriminate. unfold task_path in Hd.
      destruct (files s !! ["tasks"; json_name (task_id t)]) as [d|] eqn:Hx.
      * destruct Hd as (t'&->&Hsy). right. exists t'. split; [by right|exact Hsy].
      * left. rewrite Hd. apply delete_insert_id. apply Hno.
    + rewrite Hc in Hd. destruct Hd as (t'&[= <-]&Hsy). right. exists t. split; [by left|exact Hsy].
  - unfold _recover_pending_transitions_unlocked in Hr. rewrite reconcile_none in Hr by exact Hn.
    injection Hr as <-. split_and!; [exact Hn|done|]. right. exists t. split; [by left|exact Hsy].
Qed.
End writing.
