(* ===== verification/GatewayExamples.v ===== *)
(** * Gateways and execution cleanups on concrete stores: witnesses

    The queue is the composition of [QueueParts]: every call here runs the modelled
    references, shards and memberships. *)

From S2P Require Import Prelude Sha256 Json Identifiers Models Store OrderIndex JobIndex Events SchedulerCancel.
From S2P Require Import LeaseRecords LeaseTransitions LeaseAdmission Recovery LeaseReplay LeaseExamples OwnerSessions OwnerSessionsExamples Decimal.
From S2P Require Import JobLifecycle JobFrames JobGuards JobSubmission JobSubmissionProofs JobClaims.
From S2P Require Import GatewayIndexes Gateways ExecutionCleanup QueueParts CleanupClaims GatewayClaims QueueBlocked Tasks TaskClaims.
From stdpp Require Import base list gmap strings sets.
From Stdlib Require Import ZArith Lia.
From Stdlib Require Ascii String.
Open Scope Z_scope.

#[local] Existing Instance reference_world.
#[local] Existing Instance suffix_parser.
#[local] Instance no_request_times : IsoTime := {| iso_time _ := None |}.
#[local] Program Instance no_used_artifacts : SubmissionParts := {|
  _artifact_use_records_unlocked _ := mret tt;
  _ensure_artifact_use_indexes_unlocked _ := mret tt;
  _assert_input_ingest_quota_unlocked _ := mret tt;
  artifact_families := [];
|}.
Next Obligation. repeat constructor; apply not_elem_of_nil. Qed.
Next Obligation. done. Qed.
Next Obligation. done. Qed.
Next Obligation. done. Qed.

(** A call that returned, without its state in the goal. *)
Lemma returned {A : Type} (r : result A * disk) : is_ok r.1 = true -> exists a s, r = (Ok a, s).
Proof. destruct r as [[a|e] s]; [by exists a, s|done]. Qed.

(** ** A gateway that commits to a teardown policy *)
Definition demo_gateway : GatewaySession :=
  mkGateway "gw_1" "ares" "viewer" GatewaySessionState.READY "slurm" (Some "4711") None None [] None None None None None
    [] [] [] 0 0 [("relay_job_id", JStr "job_1")].
Definition complete_migration : doc :=
  DJson (JObj [("schema_version", JStr "clio-relay.index-migration.v1"); ("complete", JBool true)]).
Definition gateway_disk : disk :=
  mkDisk (<[["migrations"; "index-v1.json"] := complete_migration]> {[ gateway_path "gw_1" := DGateway demo_gateway ]}) None 0 0.

Lemma prepare_returns :
  is_ok (prepare_gateway_teardown_intent "gw_1" true gateway_disk).1 = true.
Proof. vm_compute. reflexivity. Qed.

(** A retry with another policy, a close that stops half-way and a job that is canceled. *)
Definition gateway_history : list (option nat * (gateway_call + queue_call)) :=
  [(None, inl (CallPrepareTeardown "gw_1" false)); (Some 3%nat, inl (CallCloseGateway "gw_1"));
   (None, inr (CallCancel "job_1" true None None))].

Lemma gateway_commitments_last_witness : exists g s',
  observed "gw_1" gateway_disk g s' /\
  exists g', files (run_mixed_calls gateway_history s') !! gateway_path "gw_1" = Some (DGateway g') /\
    (gw_state g = GatewaySessionState.CLOSED -> gw_state g' = GatewaySessionState.CLOSED) /\
    (forall intent, get_value "teardown_intent" (gw_gateway g) = Some intent ->
       get_value "teardown_intent" (gw_gateway g') = Some intent).
Proof.
  destruct (returned _ prepare_returns) as (g&s'&Hr). exists g, s'.
  assert (Ho : observed "gw_1" gateway_disk g s') by exact (observed_prepare "gw_1" gateway_disk g s' true Hr).
  split; [exact Ho|]. exact (gateway_commitments_last "gw_1" gateway_disk s' g gateway_history Ho).
Defined.

(** ** A closed gateway leaves its job *)
Definition closed_gateway : GatewaySession :=
  updated_copy demo_gateway no_updates (Some GatewaySessionState.CLOSED) (gw_metadata demo_gateway) 1.
Definition tie : doc := DJson (JObj (tie_document "gw_1" "job_1" "direct" "job_1" None)).
Definition tie_file : string := tie_name "gw_1" "direct" "job_1" None.
Definition tied_disk : disk :=
  mkDisk (<[backlink_dir "gw_1" ++ [backlink_name "job_1" tie_file] := tie]>
         (<[job_ref_path "job_1" tie_file := tie]> {[ gateway_path "gw_1" := DGateway closed_gateway ]})) None 0 0.

Lemma sync_returns : is_ok (sync_gateway_session_derived "gw_1" tied_disk).1 = true.
Proof. vm_compute. reflexivity. Qed.

Lemma closed_session_unindexed_witness : exists s',
  sync_gateway_session_derived "gw_1" tied_disk = (Ok tt, s') /\
  let ties q := listed backlink_target (backlink_dir "gw_1") (files tied_disk) q
                \/ listed reverse_target (reverse_backlink_dir "gw_1") (files tied_disk) q in
  forall q, (ties q -> files s' !! q = None) /\ (~ ties q -> files s' !! q = files tied_disk !! q).
Proof.
  destruct (returned _ sync_returns) as ([]&s'&Hr). exists s'. split; [exact Hr|].
  assert (Hc : forall g, files tied_disk !! gateway_path "gw_1" = Some (DGateway g) -> gw_state g = GatewaySessionState.CLOSED).
  { intros g. unfold tied_disk. cbn [files]. rewrite !lookup_insert_ne, lookup_singleton_eq by done. by intros [= <-]. }
  exact (closed_session_unindexed "gw_1" tied_disk s' Hc Hr).
Defined.

(** ** The cleanup of a task *)
Definition cleanup_task : RelayTask :=
  mkTask "task_1" "job_1" (Some 1) "run" RUNNING 0 0 [("cluster", JStr "ares")].
Definition task_disk : disk := mkDisk {[ ["tasks"; "task_1.json"] := DTask cleanup_task ]} None 0 0.

Lemma register_returns : is_ok (register_execution_cleanup "task_1" [] task_disk).1 = true.
Proof. vm_compute. reflexivity. Qed.

Definition cleanup_history : list (option nat * cleanup_call) :=
  [(None, CallScanCleanup "ares" 10); (Some 1%nat, CallRegister "task_2" []);
   (None, CallAcknowledgeCleanup "job_1" "task_2" []); (None, CallMigrateShard "ares" "job_1")].

Lemma register_keeps_cluster t s' :
  register_execution_cleanup "task_1" [] task_disk = (Ok t, s') -> required_cluster t = Ok "ares".
Proof.
  assert (Hc : match register_execution_cleanup "task_1" [] task_disk with (Ok t, _) => required_cluster t = Ok "ares" | _ => True end)
    by (vm_compute; reflexivity).
  intros Hr. by rewrite Hr in Hc.
Qed.

Lemma registered_cleanup_holds_job_witness : exists t s',
  register_execution_cleanup "task_1" [] task_disk = (Ok t, s') /\
  (has_pending_cleanup "ares" (task_job_id t) (run_cleanup_calls cleanup_history s')).1 <> Ok false.
Proof.
  destruct (returned _ register_returns) as (t&s'&Hr). exists t, s'. split; [exact Hr|].
  assert (Hcalls : Forall (fun c => leaves_open "task_1" c.2) cleanup_history) by (repeat constructor; discriminate).
  exact (registered_cleanup_holds_job "task_1" [] task_disk s' t "ares" cleanup_history Hr (register_keeps_cluster t s' Hr) Hcalls).
Defined.

(** The store a registration leaves. *)
Definition registered_disk : disk := (register_execution_cleanup "task_1" [] task_disk).2.
Definition job_dir : path := match _execution_cleanup_job_path "ares" "job_1" with Ok p => p | Err _ => [] end.

Lemma job_dir_is : _execution_cleanup_job_path "ares" "job_1" = Ok job_dir.
Proof. vm_compute. reflexivity. Qed.

Lemma only_marker q : is_Some (files registered_disk !! q) -> below job_dir q -> q = job_dir ++ ["task_1.json"].
Proof.
  assert (Hl : Forall (fun x => bool_decide (below job_dir x) = true -> x = job_dir ++ ["task_1.json"])
                 (map_to_list (files registered_disk)).*1)
    by (vm_compute; repeat constructor; intros [=]; reflexivity).
  intros [d Hd] Hb. rewrite Forall_forall in Hl. apply Hl; [|by apply bool_decide_eq_true].
  apply list_elem_of_fmap. exists (q, d). split; [done|]. by apply elem_of_map_to_list.
Qed.

Lemma acknowledge_returns :
  is_ok (acknowledge_execution_cleanup "job_1" "task_1" [] registered_disk).1 = true.
Proof. vm_compute. reflexivity. Qed.

Lemma acknowledge_keeps_cluster t s' :
  acknowledge_execution_cleanup "job_1" "task_1" [] registered_disk = (Ok t, s') -> required_cluster t = Ok "ares".
Proof.
  assert (Hc : match acknowledge_execution_cleanup "job_1" "task_1" [] registered_disk with
               | (Ok t, _) => required_cluster t = Ok "ares" | _ => True end)
    by (vm_compute; reflexivity).
  intros Hr. by rewrite Hr in Hc.
Qed.

Lemma registered_shard_migrated :
  _execution_cleanup_shard_migration_complete_unlocked "ares" (_execution_cleanup_shard "job_1") registered_disk
  = (Ok true, registered_disk).
Proof.
  assert (H1 : (_execution_cleanup_shard_migration_complete_unlocked "ares" (_execution_cleanup_shard "job_1") registered_disk).1 = Ok true)
    by (vm_compute; reflexivity).
  pose proof (still_migrated "ares" (_execution_cleanup_shard "job_1") registered_disk) as H2.
  destruct (_execution_cleanup_shard_migration_complete_unlocked _ _ _) as [b s7]. cbn in H1, H2. by rewrite H1, H2.
Qed.

Lemma acknowledged_cleanup_frees_job_witness : exists t s',
  acknowledge_execution_cleanup "job_1" "task_1" [] registered_disk = (Ok t, s') /\
  has_pending_cleanup "ares" "job_1" s' = (Ok false, s').
Proof.
  destruct (returned _ acknowledge_returns) as (t&s'&Hr). exists t, s'. split; [exact Hr|].
  exact (acknowledged_cleanup_frees_job "job_1" "task_1" [] registered_disk s' t "ares" job_dir Hr
           (acknowledge_keeps_cluster t s' Hr) job_dir_is only_marker registered_shard_migrated).
Defined.

(** ** Metadata over the bound *)
Definition many_ids : list (string * json) := [("scheduler_job_ids", JList (repeat (JStr "4711") 1001))].
Definition job_disk : disk := mkDisk {[ job_path "job_1" := DJob demo_job ]} None 0 0.
Definition blocked_disk : disk := (update_job_metadata "job_1" many_ids job_disk).2.

Lemma job_disk_quiet : no_intents (files job_disk).
Proof. intros name. unfold job_disk. cbn [files]. by apply lookup_singleton_ne. Qed.

(** The call fails, and its record is stored nevertheless. *)
Lemma update_stored : files blocked_disk !! job_path "job_1" <> Some (DJob demo_job).
Proof.
  assert (Hv : match files blocked_disk !! job_path "job_1" with
               | Some (DJob j) => get_value "scheduler_job_ids" (metadata j) | _ => None end
               = Some (JList (repeat (JStr "4711") 1001))) by (vm_compute; reflexivity).
  intros He. rewrite He in Hv. vm_compute in Hv. discriminate Hv.
Qed.

(** A submission that is cut, the close of a gateway, and then a cancellation. *)
Definition blocked_history : list (option nat * (gateway_call + queue_call)) :=
  [(Some 2%nat, inr (CallSubmit (with_job_id demo_job "job_2"))); (None, inl (CallCloseGateway "gw_1"))].
Definition late_cancel : gateway_call + queue_call := inr (CallCancel "job_1" false None None).

Lemma oversized_metadata_blocks_queue_witness :
  is_ok (update_job_metadata "job_1" many_ids job_disk).1 = false /\
  is_ok (run_mixed late_cancel (set_budget None (run_mixed_calls blocked_history blocked_disk))).1 = false.
Proof.
  split; [vm_compute; reflexivity|].
  assert (Hlen : (MAX_SCHEDULER_METADATA_RECORDS < length (repeat (JStr "4711") 1001))%nat)
    by (apply Nat.ltb_lt; vm_compute; reflexivity).
  assert (Hids : dict_get "scheduler_job_ids" (dict_update (metadata demo_job) many_ids) = Some (JList (repeat (JStr "4711") 1001)))
    by (vm_compute; reflexivity).
  assert (Hc : Forall (fun c => recovers c.2 = true) blocked_history) by (repeat constructor).
  exact (oversized_metadata_blocks_queue "job_1" many_ids job_disk blocked_disk _ demo_job _ blocked_history None late_cancel
           job_disk_quiet (lookup_singleton_eq _ _) Hids Hlen (surjective_pairing _) update_stored Hc eq_refl).
Defined.

(** ** A task and its write *)
Lemma task_update_returns : is_ok (update_task_metadata "task_1" [("phase", JStr "run")] task_disk).1 = true.
Proof. vm_compute. reflexivity. Qed.

(** A cleanup, a state change that is cut, and a gateway. *)
Definition task_history : list (option nat * any_call) :=
  [(None, inr (inl (CallRegister "task_1" [("execution_cleanup", JObj [])])));
   (Some 2%nat, inl (CallTaskState "task_1" SUCCEEDED None None));
   (None, inl (CallAppendTask (mkTask "task_2" "job_1" None "next" QUEUED 0 0 [])));
   (None, inr (inr (inl (CallCloseGateway "gw_1"))))].

Lemma task_record_lasts_witness : exists t s',
  returns_task "task_1" task_disk t s' /\
  exists t', files (run_any_calls task_history s') !! ["tasks"; json_name "task_1"] = Some (DTask t') /\
    task_job_id t' = task_job_id t /\ task_sequence t' = task_sequence t /\ task_name t' = task_name t /\
    task_created_at t' = task_created_at t /\
    forall k, is_Some (dict_get k (task_metadata t)) -> is_Some (dict_get k (task_metadata t')).
Proof.
  destruct (returned _ task_update_returns) as (t&s'&Hr). exists t, s'.
  assert (Ht : returns_task "task_1" task_disk t s') by exact (returns_metadata "task_1" task_disk t s' _ Hr).
  assert (Hc : Forall (fun c => spares_task "task_1" c.2) task_history) by (repeat constructor; discriminate).
  split; [exact Ht|]. exact (task_record_lasts "task_1" task_disk s' t task_history Ht Hc).
Defined.

(** The write stops after the announcement, the record and the index of the job. *)
Definition empty_disk : disk := mkDisk ∅ (Some 3%nat) 0 0.
Definition cut_write : result unit * disk := write_task cleanup_task empty_disk.

Lemma cut_write_stops : is_ok cut_write.1 = false.
Proof. vm_compute. reflexivity. Qed.
Lemma cut_write_recovers : is_ok (_recover_pending_transitions_unlocked (set_budget None cut_write.2)).1 = true.
Proof. vm_compute. reflexivity. Qed.

Lemma interrupted_task_write_settles_witness : exists s2,
  _recover_pending_transitions_unlocked (set_budget None cut_write.2) = (Ok tt, s2) /\
  no_intents (files s2) /\ (is_ok cut_write.1 = true -> task_synced cleanup_task (files s2)) /\
  (files s2 = ∅ \/
   exists t', (t' = cleanup_task \/ (∅ : gmap path doc) !! ["tasks"; json_name (task_id cleanup_task)] = Some (DTask t')) /\
     task_synced t' (files s2)).
Proof.
  destruct (returned _ cut_write_recovers) as ([]&s2&Hr). exists s2. split; [exact Hr|].
  exact (interrupted_task_write_settles cleanup_task empty_disk cut_write.2 s2 cut_write.1 None (fun name => lookup_empty _)
           eq_refl (surjective_pairing _) Hr).
Defined.
